(** * Jframe template engine: scanner, tree builder, code generator

    A shallow embedding of the three compilation stages
    ([src/tokenizer.js], [src/parser.js], [src/compiler.js]), of the two
    helpers the generated code closes over ([src/utils.js]), of the
    renderer ([src/renderer.js]), of the pipeline of [index.js] for a
    template given as a string, and of the reading and writing by path of
    the binding manager ([_getValue] and [_setValue]).  The code that works
    on DOM elements is not part of the model.

    Conventions of the model.
    - A [string] is a sequence of UTF-16 code units below 256.
    - A JavaScript exception is the [Throw] outcome; the while loops of the
      scanner, of the tree builder and of the generated code run on fuel
      and report [OutOfFuel] when it is exhausted.
    - The generated artifact is JavaScript source text.  The fixed line
      templates of the generator are the constructors of [stmt]; the
      expression text the generator splices into them is kept as text
      ([CText]) and is read back by [parse_atom], which covers literals
      and member chains.  Whatever lies outside that fragment of the host
      language is the [Unmodelled] outcome, never a guessed value.
    - Context values are plain data: numbers are the integers of magnitude
      below 2^53, which a double holds exactly and the host prints in
      full; objects are lists of own properties.  Names inherited from
      the host's built-in prototypes are [Unmodelled].  The data is a
      tree: no object is reachable by two ways, so that a write in place
      is the replacement of one subtree.  Where objects share parts the
      write shows on every way to them: [Heap] holds the objects by
      reference and models the reading and writing by path on them.
    - [Math.random] is an oracle [ids : nat -> string]: [ids k] is the
      identifier produced by the k-th draw of one compilation. *)

From Stdlib Require Import String Ascii List ZArith Lia Bool Arith DecimalString.

Set Warnings "-register-all".
Import ListNotations.
Open Scope string_scope.
Open Scope list_scope.

(** ** Outcomes *)

Inductive exn : Type :=
| Error (message : string)          (* throw new Error(message) *)
| TypeError                         (* member access on undefined or null *)
| ReferenceError (name : string).   (* read of an undeclared identifier *)

Inductive outcome (A : Type) : Type :=
| Ok (a : A)
| Throw (e : exn)
| Unmodelled
| OutOfFuel.

Arguments Ok {A} a.
Arguments Throw {A} e.
Arguments Unmodelled {A}.
Arguments OutOfFuel {A}.

Definition bind {A B : Type} (m : outcome A) (k : A -> outcome B) : outcome B :=
  match m with
  | Ok a => k a
  | Throw e => Throw e
  | Unmodelled => Unmodelled
  | OutOfFuel => OutOfFuel
  end.

Notation "x <- m ;; k" := (bind m (fun x => k))
  (at level 61, m at next level, right associativity).
Notation "' pat <- m ;; k" := (bind m (fun x => match x with pat => k end))
  (at level 61, pat pattern, m at next level, right associativity).

Definition raises {A : Type} (m : outcome A) : Prop := exists e, m = Throw e.

(** ** Strings of the host language *)

Module JSString.

Definition char_code (c : ascii) : nat := nat_of_ascii c.

(** White space and line terminators, as [String.prototype.trim] and the
    regular expression class [\s] see them. *)
Definition is_space (c : ascii) : bool :=
  let n := char_code c in
  (Nat.leb 9 n && Nat.leb n 13) || Nat.eqb n 32 || Nat.eqb n 160.

Definition is_digit (c : ascii) : bool :=
  let n := char_code c in Nat.leb 48 n && Nat.leb n 57.

Definition is_alpha (c : ascii) : bool :=
  let n := char_code c in
  (Nat.leb 65 n && Nat.leb n 90) || (Nat.leb 97 n && Nat.leb n 122).

(** The class [\w]. *)
Definition is_word (c : ascii) : bool :=
  is_alpha c || is_digit c || Ascii.eqb c "_".

(** [[a-zA-Z_$]] and [[a-zA-Z0-9_$]]. *)
Definition is_ident_start (c : ascii) : bool :=
  is_alpha c || Ascii.eqb c "_" || Ascii.eqb c "$".

Definition is_ident_part (c : ascii) : bool :=
  is_ident_start c || is_digit c.

Definition is_empty (s : string) : bool :=
  match s with EmptyString => true | String _ _ => false end.

Fixpoint forallb (p : ascii -> bool) (s : string) : bool :=
  match s with
  | EmptyString => true
  | String c s' => p c && forallb p s'
  end.

Fixpoint existsb (p : ascii -> bool) (s : string) : bool :=
  match s with
  | EmptyString => false
  | String c s' => p c || existsb p s'
  end.

Fixpoint trimStart (s : string) : string :=
  match s with
  | EmptyString => EmptyString
  | String c s' => if is_space c then trimStart s' else s
  end.

Fixpoint trimEnd (s : string) : string :=
  match s with
  | EmptyString => EmptyString
  | String c s' =>
      match trimEnd s' with
      | EmptyString => if is_space c then EmptyString else String c EmptyString
      | t => String c t
      end
  end.

Definition trim (s : string) : string := trimEnd (trimStart s).

(** [s.startsWith(p)] *)
Definition startsWith (s p : string) : bool := String.prefix p s.

(** [s.slice(n)] for [0 <= n]. *)
Fixpoint slice (n : nat) (s : string) : string :=
  match n, s with
  | O, _ => s
  | S n', String _ s' => slice n' s'
  | S _, EmptyString => EmptyString
  end.

(** [s.endsWith(p)] *)
Definition endsWith (s p : string) : bool :=
  Nat.leb (String.length p) (String.length s)
  && String.eqb (slice (String.length s - String.length p) s) p.

(** [s.substring(a, b)] for [a <= b]. *)
Definition substring (a b : nat) (s : string) : string :=
  String.substring a (b - a) s.

(** [s.indexOf(p, from)], [None] standing for [-1]. *)
Definition indexOf (s p : string) (from : nat) : option nat :=
  String.index from p s.

(** [s.includes(p)] *)
Definition includes (s p : string) : bool :=
  match indexOf s p 0 with Some _ => true | None => false end.

(** [s.replace(/p/g, r)] for a literal, non-empty pattern [p]: the
    occurrences are found left to right and do not overlap. *)
Fixpoint replaceAll_from (skip : nat) (p r s : string) : string :=
  match s with
  | EmptyString => EmptyString
  | String c s' =>
      match skip with
      | S k => replaceAll_from k p r s'
      | O =>
          if startsWith s p
          then r ++ replaceAll_from (String.length p - 1) p r s'
          else String c (replaceAll_from 0 p r s')
      end
  end.

Definition replaceAll (p r s : string) : string := replaceAll_from 0 p r s.

(** [/p\b/.test(s)] for a literal pattern [p] that ends in a word
    character: some occurrence of [p] is followed by the end of [s] or
    by a character outside [\w]. *)
Fixpoint test_then_boundary (p s : string) : bool :=
  match s with
  | EmptyString => false
  | String _ s' =>
      (startsWith s p
       && match slice (String.length p) s with
          | EmptyString => true
          | String d _ => negb (is_word d)
          end)
      || test_then_boundary p s'
  end.

(** [s.split('.')] *)
Fixpoint split_dot_acc (cur : string) (s : string) : list string :=
  match s with
  | EmptyString => [cur]
  | String c s' =>
      if Ascii.eqb c "."
      then cur :: split_dot_acc EmptyString s'
      else split_dot_acc (cur ++ String c EmptyString) s'
  end.

Definition split_dot (s : string) : list string := split_dot_acc EmptyString s.

(** [String(n)] for a non-negative integer. *)
Definition of_nat (n : nat) : string :=
  NilEmpty.string_of_uint (Nat.to_uint n).

(** [String(z)] for an integer. *)
Definition of_Z (z : Z) : string :=
  NilZero.string_of_int (Z.to_int z).

(** One identifier: a letter, underscore or dollar sign, then letters,
    digits, underscores and dollar signs. *)
Definition is_identifier (s : string) : bool :=
  match s with
  | EmptyString => false
  | String c s' => is_ident_start c && forallb is_ident_part s'
  end.

(** The path pattern of the generator and of [isValidPath]: identifiers
    joined by single dots. *)
Definition is_identifier_path (s : string) : bool :=
  List.forallb is_identifier (split_dot s).

End JSString.

Import JSString.

(** ** Scanner ([src/tokenizer.js]) *)

Module Tokenizer.

Inductive token : Type :=
| TEXT (value : string)
| VAR (expression : string)
| RAW (expression : string)
| IF_START (condition : string)
| IF_END
| EACH_START (items : string)
| EACH_END.

Definition _processExpression (expression : string) (isRaw : bool)
    (tokens : list token) : outcome (list token) :=
  if isRaw then Ok (tokens ++ [RAW expression])
  else if startsWith expression "#if " then
    let condition := trim (slice 4 expression) in
    if is_empty condition
    then Throw (Error "If directive requires a condition")
    else Ok (tokens ++ [IF_START condition])
  else if startsWith expression "#each " then
    let items := trim (slice 6 expression) in
    if is_empty items
    then Throw (Error "Each directive requires an items expression")
    else Ok (tokens ++ [EACH_START items])
  else if String.eqb expression "/if" then Ok (tokens ++ [IF_END])
  else if String.eqb expression "/each" then Ok (tokens ++ [EACH_END])
  else if startsWith expression "/" then
    Throw (Error ("Unknown closing directive: " ++ expression))
  else Ok (tokens ++ [VAR expression]).

(** [template[position] === c], false beyond the end. *)
Definition char_is (template : string) (position : nat) (c : ascii) : bool :=
  match String.get position template with
  | Some d => Ascii.eqb d c
  | None => false
  end.

Definition flush (textBuffer : string) (tokens : list token) : list token :=
  if Nat.ltb 0 (String.length textBuffer)
  then tokens ++ [TEXT textBuffer]
  else tokens.

(** The [while (position < length)] loop of [tokenize]. *)
Fixpoint tokenize_loop (fuel : nat) (template : string) (position : nat)
    (textBuffer : string) (tokens : list token) : outcome (list token) :=
  match fuel with
  | O => OutOfFuel
  | S fuel' =>
      let length := String.length template in
      if Nat.ltb position length then
        if char_is template position "{"
           && Nat.ltb (position + 1) length
           && char_is template (position + 1) "{"
        then
          let tokens := flush textBuffer tokens in
          let isRaw :=
            Nat.ltb (position + 2) length
            && char_is template (position + 2) "{" in
          let exprStart := if isRaw then position + 3 else position + 2 in
          let closeMarker := if isRaw then "}}}" else "}}" in
          match indexOf template closeMarker exprStart with
          | None =>
              Throw (Error ("Unclosed expression at position "
                            ++ of_nat position))
          | Some closeIndex =>
              let expression :=
                trim (substring exprStart closeIndex template) in
              tokens <- _processExpression expression isRaw tokens ;;
              tokenize_loop fuel' template
                (closeIndex + String.length closeMarker) EmptyString tokens
          end
        else
          match String.get position template with
          | Some char =>
              tokenize_loop fuel' template (position + 1)
                (textBuffer ++ String char EmptyString) tokens
          | None => Ok (flush textBuffer tokens)
          end
      else Ok (flush textBuffer tokens)
  end.

Definition tokenize (template : string) : outcome (list token) :=
  if Nat.eqb (String.length template) 0 then Ok []
  else tokenize_loop (S (String.length template)) template 0 EmptyString [].

End Tokenizer.

(** ** Tree builder ([src/parser.js]) *)

Module Parser.

Import Tokenizer.

Inductive node : Type :=
| Text (value : string)
| Variable' (expression : string)
| RawVariable (expression : string)
| If (condition : string) (children : list node)
| Each (items : string) (children : list node)
| Root (children : list node).

(** The [type] field of a token. *)
Definition type (t : token) : string :=
  match t with
  | TEXT _ => "TEXT"
  | VAR _ => "VAR"
  | RAW _ => "RAW"
  | IF_START _ => "IF_START"
  | IF_END => "IF_END"
  | EACH_START _ => "EACH_START"
  | EACH_END => "EACH_END"
  end.

Definition lower (c : ascii) : ascii :=
  let n := char_code c in
  if Nat.leb 65 n && Nat.leb n 90 then ascii_of_nat (n + 32) else c.

Fixpoint toLowerCase (s : string) : string :=
  match s with
  | EmptyString => EmptyString
  | String c s' => String (lower c) (toLowerCase s')
  end.

(** [s.replace(p, r)] for a literal pattern: the first occurrence only. *)
Fixpoint replace_first (p r s : string) : string :=
  if startsWith s p then r ++ slice (String.length p) s
  else match s with
       | EmptyString => EmptyString
       | String c s' => String c (replace_first p r s')
       end.

Definition unclosed (startType : string) : exn :=
  let directiveName := replace_first "_start" "" (toLowerCase startType) in
  Error ("Unclosed {{#" ++ directiveName ++ "}} directive").

(** [_parseBlock]; the recursive call to [_parseTokens] is the argument
    [parseTokens]. *)
Definition _parseBlock
    (parseTokens : list token -> nat -> outcome (list node * nat))
    (tokens : list token) (startPosition : nat)
    (startType endType nodeType : string) : outcome (node * nat) :=
  match nth_error tokens startPosition with
  | None => Throw TypeError
  | Some startToken =>
      if negb (String.eqb (type startToken) startType) then
        Throw (Error ("Expected " ++ startType ++ " at position "
                      ++ of_nat startPosition))
      else
        '(nodes, position) <- parseTokens tokens (startPosition + 1) ;;
        if Nat.leb (List.length tokens) position
           || match nth_error tokens position with
              | Some t => negb (String.eqb (type t) endType)
              | None => true
              end
        then Throw (unclosed startType)
        else
          match startToken with
          | IF_START condition =>
              if String.eqb nodeType "If"
              then Ok (If condition nodes, position + 1)
              else Unmodelled
          | EACH_START items =>
              if String.eqb nodeType "Each"
              then Ok (Each items nodes, position + 1)
              else Unmodelled
          | _ => Unmodelled
          end
  end.

(** The [while (position < tokens.length)] loop of [_parseTokens]. *)
Fixpoint parse_loop (fuel : nat) (tokens : list token) (position : nat)
    (nodes : list node) : outcome (list node * nat) :=
  match fuel with
  | O => OutOfFuel
  | S fuel' =>
      match nth_error tokens position with
      | None => Ok (nodes, position)
      | Some token =>
          match token with
          | TEXT value =>
              parse_loop fuel' tokens (position + 1) (nodes ++ [Text value])
          | VAR expression =>
              parse_loop fuel' tokens (position + 1)
                (nodes ++ [Variable' expression])
          | RAW expression =>
              parse_loop fuel' tokens (position + 1)
                (nodes ++ [RawVariable expression])
          | IF_START _ =>
              '(node, nextPosition) <-
                _parseBlock (fun ts p => parse_loop fuel' ts p [])
                  tokens position "IF_START" "IF_END" "If" ;;
              parse_loop fuel' tokens nextPosition (nodes ++ [node])
          | EACH_START _ =>
              '(node, nextPosition) <-
                _parseBlock (fun ts p => parse_loop fuel' ts p [])
                  tokens position "EACH_START" "EACH_END" "Each" ;;
              parse_loop fuel' tokens nextPosition (nodes ++ [node])
          | IF_END | EACH_END => Ok (nodes, position)
          end
      end
  end.

Definition _parseTokens (fuel : nat) (tokens : list token)
    (startPosition : nat) : outcome (list node * nat) :=
  parse_loop fuel tokens startPosition [].

Definition parse (tokens : list token) : outcome node :=
  '(nodes, position) <- _parseTokens (S (List.length tokens)) tokens 0 ;;
  if Nat.ltb position (List.length tokens)
  then Throw (Error "Unexpected tokens at end of template")
  else Ok (Root nodes).

End Parser.

(** ** Values of the host language *)

Module Host.

Inductive value : Type :=
| VUndefined
| VNull
| VBool (b : bool)
| VNumber (z : Z)
| VString (s : string)
| VArray (items : list value)
| VObject (fields : list (string * value)).

(** [typeof v] *)
Definition typeof (v : value) : string :=
  match v with
  | VUndefined => "undefined"
  | VNull => "object"
  | VBool _ => "boolean"
  | VNumber _ => "number"
  | VString _ => "string"
  | VArray _ => "object"
  | VObject _ => "object"
  end.

(** The truth value of [v], as [if (v)] and [!v] see it. *)
Definition truthy (v : value) : bool :=
  match v with
  | VUndefined => false
  | VNull => false
  | VBool b => b
  | VNumber z => negb (Z.eqb z 0)
  | VString s => negb (is_empty s)
  | VArray _ => true
  | VObject _ => true
  end.

(** [v == null] *)
Definition is_nullish (v : value) : bool :=
  match v with
  | VUndefined | VNull => true
  | _ => false
  end.

(** [Array.isArray(v)] *)
Definition isArray (v : value) : bool :=
  match v with
  | VArray _ => true
  | _ => false
  end.

(** [String(v)]: an array joins its elements with commas, an undefined or
    null element giving the empty string.  A number is printed in full, as
    the host prints the integers of magnitude below 2^53, the numbers of
    the model. *)
Fixpoint toString (v : value) : string :=
  match v with
  | VUndefined => "undefined"
  | VNull => "null"
  | VBool true => "true"
  | VBool false => "false"
  | VNumber z => of_Z z
  | VString s => s
  | VArray items =>
      (fix join (l : list value) : string :=
         match l with
         | [] => EmptyString
         | x :: rest =>
             ((if is_nullish x then EmptyString else toString x)
              ++ match rest with
                 | [] => EmptyString
                 | _ :: _ => "," ++ join rest
                 end)%string
         end) items
  | VObject _ => "[object Object]"
  end.

Fixpoint lookup {A : Type} (key : string) (l : list (string * A)) : option A :=
  match l with
  | [] => None
  | (k, a) :: rest => if String.eqb k key then Some a else lookup key rest
  end.

(** The property names every object inherits from [Object.prototype]. *)
Definition object_prototype_names : list string :=
  [ "constructor"; "hasOwnProperty"; "isPrototypeOf"; "propertyIsEnumerable";
    "toLocaleString"; "toString"; "valueOf"; "__proto__";
    "__defineGetter__"; "__defineSetter__"; "__lookupGetter__";
    "__lookupSetter__" ].

Definition mem (x : string) (l : list string) : bool :=
  List.existsb (String.eqb x) l.

Fixpoint digits_value (acc : nat) (s : string) : nat :=
  match s with
  | EmptyString => acc
  | String c s' => digits_value (10 * acc + (char_code c - 48)) s'
  end.

(** A canonical array index: [0], or digits without a leading zero. *)
Definition array_index (key : string) : option nat :=
  match key with
  | EmptyString => None
  | String c rest =>
      if forallb is_digit key && (negb (Ascii.eqb c "0") || is_empty rest)
      then Some (digits_value 0 key)
      else None
  end.

(** [v[key]] and [v.key]. *)
Definition get_prop (v : value) (key : string) : outcome value :=
  match v with
  | VUndefined | VNull => Throw TypeError
  | VObject fields =>
      match lookup key fields with
      | Some x => Ok x
      | None =>
          if mem key object_prototype_names then Unmodelled else Ok VUndefined
      end
  | VArray items =>
      if String.eqb key "length" then Ok (VNumber (Z.of_nat (List.length items)))
      else match array_index key with
           | Some i => Ok (nth i items VUndefined)
           | None => Unmodelled
           end
  | VString s =>
      if String.eqb key "length" then Ok (VNumber (Z.of_nat (String.length s)))
      else Unmodelled
  | VBool _ | VNumber _ => Unmodelled
  end.

(** [a[i]] for an index held in a variable. *)
Definition get_index (a i : value) : outcome value :=
  match a, i with
  | VUndefined, _ | VNull, _ => Throw TypeError
  | VArray items, VNumber z =>
      if Z.ltb z 0 then Ok VUndefined else Ok (nth (Z.to_nat z) items VUndefined)
  | _, _ => Unmodelled
  end.

(** *** Numeric strings

    [is_numeric_string s] holds when [Number(s)] is not [NaN]: white space,
    then nothing, a signed decimal literal or an unsigned hexadecimal, octal
    or binary literal, then white space. *)

Fixpoint span_len (p : ascii -> bool) (s : string) : nat :=
  match s with
  | EmptyString => 0
  | String c s' => if p c then S (span_len p s') else 0
  end.

Fixpoint take (n : nat) (s : string) : string :=
  match n, s with
  | S n', String c s' => String c (take n' s')
  | _, _ => EmptyString
  end.

Definition drop_while (p : ascii -> bool) (s : string) : string :=
  slice (span_len p s) s.

Definition is_sign (c : ascii) : bool := Ascii.eqb c "+" || Ascii.eqb c "-".

Definition drop_sign (s : string) : string :=
  match s with
  | String c s' => if is_sign c then s' else s
  | EmptyString => s
  end.

(** What follows an optional exponent part, when that part is well formed. *)
Definition after_exponent (s : string) : option string :=
  match s with
  | String c s' =>
      if Ascii.eqb c "e" || Ascii.eqb c "E" then
        let digits := drop_sign s' in
        if Nat.eqb (span_len is_digit digits) 0 then None
        else Some (drop_while is_digit digits)
      else Some s
  | EmptyString => Some s
  end.

Definition ends_after_exponent (s : string) : bool :=
  match after_exponent s with
  | Some rest => is_empty rest
  | None => false
  end.

Definition unsigned_decimal (s : string) : bool :=
  if String.eqb s "Infinity" then true
  else
    let rest := drop_while is_digit s in
    if Nat.eqb (span_len is_digit s) 0 then
      match rest with
      | String c fraction =>
          Ascii.eqb c "."
          && negb (Nat.eqb (span_len is_digit fraction) 0)
          && ends_after_exponent (drop_while is_digit fraction)
      | EmptyString => false
      end
    else
      match rest with
      | String c fraction =>
          if Ascii.eqb c "."
          then ends_after_exponent (drop_while is_digit fraction)
          else ends_after_exponent rest
      | EmptyString => true
      end.

Definition is_hex_digit (c : ascii) : bool :=
  let n := char_code c in
  is_digit c || (Nat.leb 65 n && Nat.leb n 70) || (Nat.leb 97 n && Nat.leb n 102).

Definition is_octal_digit (c : ascii) : bool :=
  let n := char_code c in Nat.leb 48 n && Nat.leb n 55.

Definition is_binary_digit (c : ascii) : bool :=
  Ascii.eqb c "0" || Ascii.eqb c "1".

Definition non_decimal (s : string) : bool :=
  match s with
  | String z (String x digits) =>
      Ascii.eqb z "0" && negb (is_empty digits)
      && (((Ascii.eqb x "x" || Ascii.eqb x "X") && forallb is_hex_digit digits)
          || ((Ascii.eqb x "o" || Ascii.eqb x "O") && forallb is_octal_digit digits)
          || ((Ascii.eqb x "b" || Ascii.eqb x "B") && forallb is_binary_digit digits))
  | _ => false
  end.

Definition is_numeric_string (s : string) : bool :=
  let t := trim s in
  is_empty t || unsigned_decimal (drop_sign t) && negb (is_empty (drop_sign t))
  || non_decimal t.

(** [isNaN(s)] for a string [s]. *)
Definition isNaN (s : string) : bool := negb (is_numeric_string s).

(** A number, or [NaN]. *)
Definition number : Type := option Z.

(** Digits that a double holds exactly: at most fifteen of them, which
    stay below 2^53.  A longer run is rounded by the host and is not
    modelled. *)
Definition exact_digits (digits : string) : bool :=
  forallb is_digit digits && Nat.leb (String.length digits) 15.

(** [Number(s)] where it is an integer written in plain digits. *)
Definition string_to_number (s : string) : outcome number :=
  let t := trim s in
  if is_empty t then Ok (Some 0%Z)
  else if isNaN s then Ok None
  else
    match t with
    | String c digits =>
        if exact_digits t then Ok (Some (Z.of_nat (digits_value 0 t)))
        else if Ascii.eqb c "-" && negb (is_empty digits) && exact_digits digits
        then Ok (Some (- Z.of_nat (digits_value 0 digits))%Z)
        else if Ascii.eqb c "+" && negb (is_empty digits) && exact_digits digits
        then Ok (Some (Z.of_nat (digits_value 0 digits)))
        else Unmodelled
    | EmptyString => Ok (Some 0%Z)
    end.

(** [Number(v)] for a primitive value. *)
Definition toNumber (v : value) : outcome number :=
  match v with
  | VUndefined => Ok None
  | VNull => Ok (Some 0%Z)
  | VBool b => Ok (Some (if b then 1%Z else 0%Z))
  | VNumber z => Ok (Some z)
  | VString s => string_to_number s
  | VArray _ | VObject _ => Unmodelled
  end.

(** Code-unit order on strings. *)
Fixpoint string_lt (a b : string) : bool :=
  match a, b with
  | _, EmptyString => false
  | EmptyString, String _ _ => true
  | String x a', String y b' =>
      if Nat.ltb (char_code x) (char_code y) then true
      else if Nat.ltb (char_code y) (char_code x) then false
      else string_lt a' b'
  end.

(** The relational comparison [a < b]: [None] is its undefined result,
    which every operator turns into false. *)
Definition less_than (a b : value) : outcome (option bool) :=
  match a, b with
  | VString x, VString y => Ok (Some (string_lt x y))
  | _, _ =>
      x <- toNumber a ;;
      y <- toNumber b ;;
      match x, y with
      | Some m, Some n => Ok (Some (Z.ltb m n))
      | _, _ => Ok None
      end
  end.

(** [a === b]; two objects are the same only when they are one reference,
    which a value does not record. *)
Definition strict_equal (a b : value) : outcome bool :=
  match a, b with
  | VUndefined, VUndefined => Ok true
  | VNull, VNull => Ok true
  | VBool x, VBool y => Ok (Bool.eqb x y)
  | VNumber x, VNumber y => Ok (Z.eqb x y)
  | VString x, VString y => Ok (String.eqb x y)
  | VArray _, VArray _ | VArray _, VObject _
  | VObject _, VArray _ | VObject _, VObject _ => Unmodelled
  | _, _ => Ok false
  end.

End Host.

(** ** Helpers of the generated code ([src/utils.js]) *)

Module Utils.

Import Host.

Definition escapeHtml (str : value) : string :=
  if is_nullish str then EmptyString
  else
    replaceAll "'" "&#39;"
      (replaceAll (String "034" EmptyString) "&quot;"
         (replaceAll ">" "&gt;"
            (replaceAll "<" "&lt;"
               (replaceAll "&" "&amp;" (toString str))))).

(** The [for (const key of keys)] loop of [deepGet]. *)
Fixpoint deepGet_loop (keys : list string) (result : value) : outcome value :=
  match keys with
  | [] => Ok result
  | key :: keys' =>
      if is_nullish result || negb (String.eqb (typeof result) "object")
      then Ok VUndefined
      else
        result <- get_prop result key ;;
        deepGet_loop keys' result
  end.

Definition deepGet (obj : value) (path : string) : outcome value :=
  if negb (truthy obj) || negb (String.eqb (typeof obj) "object")
  then Ok VUndefined
  else if is_empty path then Ok obj
  else deepGet_loop (split_dot path) obj.

Definition isValidPath (path : string) : bool := is_identifier_path path.

End Utils.

(** ** The generated code

    One constructor per line template of [src/compiler.js]. *)

Module Code.

Import Host Utils.

Inductive binop : Type :=
| StrictEq      (* === *)
| StrictNe      (* !== *)
| Gt            (* > *)
| Ge            (* >= *)
| Lt            (* < *)
| Le            (* <= *)
| And           (* && *)
| Or.           (* || *)

(** An expression of the generated code. *)
Inductive code : Type :=
| CText (js : string)
    (* expression text spliced in as it stands *)
| CGet (path : string)
    (* __get(ctx, JSON.stringify(path)) *)
| CNotNot (c : code)
    (* !!c and !!(c) *)
| CBin (op : binop) (left right : code).
    (* left op right *)

Inductive stmt : Type :=
| SPushText (value : string)
    (* output.push(JSON.stringify(value)); *)
| SPushRaw (c : code)
    (* output.push(String(c)); *)
| SPushEscaped (c : code)
    (* output.push(__escape(c)); *)
| SIf (condition : code) (body : list stmt)
    (* if (condition) { body } *)
| SEach (arrayName indexName itemName : string) (items : code)
        (body : list stmt).
    (* var arrayName = items;
       if (Array.isArray(arrayName)) {
         for (var indexName = 0; indexName < arrayName.length; indexName++) {
           var itemName = arrayName[indexName];
           body } } *)

(** *** Expression text: literals and member chains *)

Inductive atom_base : Type :=
| BIdent (name : string)
| BNumber (z : Z)
| BString (s : string).

Record atom : Type := Atom { base : atom_base; members : list string }.

(** Words that are not identifier references in strict code, with the
    names whose value the model does not hold. *)
Definition reserved_words : list string :=
  [ "break"; "case"; "catch"; "class"; "const"; "continue"; "debugger";
    "default"; "delete"; "do"; "else"; "enum"; "export"; "extends"; "false";
    "finally"; "for"; "function"; "if"; "import"; "in"; "instanceof"; "new";
    "null"; "return"; "super"; "switch"; "this"; "throw"; "true"; "try";
    "typeof"; "var"; "void"; "while"; "with"; "yield"; "let"; "static";
    "implements"; "interface"; "package"; "private"; "protected"; "public";
    "await"; "async"; "undefined"; "NaN"; "Infinity"; "arguments"; "eval" ].

Definition is_string_char (quote c : ascii) : bool :=
  negb (Ascii.eqb c quote) && negb (Ascii.eqb c "\")
  && negb (Nat.eqb (char_code c) 10) && negb (Nat.eqb (char_code c) 13).

(** The member names of a chain written [.a.b.c], the empty chain for the
    empty text. *)
Definition parse_members (s : string) : option (list string) :=
  match s with
  | EmptyString => Some []
  | String c rest =>
      if Ascii.eqb c "." && is_identifier_path rest
      then Some (split_dot rest)
      else None
  end.

Definition parse_atom (text : string) : option atom :=
  match text with
  | EmptyString => None
  | String c rest =>
      if Ascii.eqb c "'" || Ascii.eqb c "034" then
        let n := span_len (is_string_char c) rest in
        match slice n rest with
        | String d chain =>
            if Ascii.eqb d c then
              match parse_members chain with
              | Some ms => Some (Atom (BString (take n rest)) ms)
              | None => None
              end
            else None
        | EmptyString => None
        end
      else if is_digit c then
        if exact_digits text && (negb (Ascii.eqb c "0") || is_empty rest)
        then Some (Atom (BNumber (Z.of_nat (digits_value 0 text))) [])
        else None
      else if is_identifier_path text then
        match split_dot text with
        | name :: ms =>
            if mem name reserved_words then None
            else Some (Atom (BIdent name) ms)
        | [] => None
        end
      else None
  end.

(** *** Running the generated code *)

Definition env : Type := list (string * value).

Record state : Type := State { vars : env; output : list string }.

Definition assign (x : string) (v : value) (st : state) : state :=
  State ((x, v) :: vars st) (output st).

Definition push (s : string) (st : state) : state :=
  State (vars st) (output st ++ [s]).

(** The other locals of the artifact and the names of the global object:
    bound, but to values the model does not hold.  The global object is
    taken to hold the standard names of the language, the names common to
    browsers and Node.js listed here, and nothing else: a host that defines
    further globals is outside the model. *)
Definition host_names : list string :=
  [ "output"; "__escape"; "__get";
    "globalThis"; "isFinite"; "isNaN"; "parseFloat"; "parseInt";
    "decodeURI"; "decodeURIComponent"; "encodeURI"; "encodeURIComponent";
    "escape"; "unescape";
    "AggregateError"; "Array"; "ArrayBuffer"; "BigInt"; "BigInt64Array";
    "BigUint64Array"; "Boolean"; "DataView"; "Date"; "Error"; "EvalError";
    "FinalizationRegistry"; "Float16Array"; "Float32Array"; "Float64Array";
    "Function"; "Int8Array"; "Int16Array"; "Int32Array"; "Iterator"; "Map";
    "Number"; "Object"; "Promise"; "Proxy"; "RangeError"; "ReferenceError";
    "RegExp"; "Set"; "SharedArrayBuffer"; "String"; "Symbol"; "SyntaxError";
    "TypeError"; "Uint8Array"; "Uint8ClampedArray"; "Uint16Array";
    "Uint32Array"; "URIError"; "WeakMap"; "WeakRef"; "WeakSet";
    "Atomics"; "JSON"; "Math"; "Reflect"; "Intl"; "WebAssembly";
    "console"; "window"; "self"; "document"; "global"; "process";
    "navigator"; "location"; "history"; "screen"; "frames"; "parent"; "top";
    "name"; "length"; "status"; "origin"; "closed"; "opener"; "event";
    "performance"; "crypto"; "fetch"; "alert"; "confirm"; "prompt";
    "setTimeout"; "setInterval"; "setImmediate"; "clearTimeout";
    "clearInterval"; "clearImmediate"; "queueMicrotask"; "structuredClone";
    "atob"; "btoa"; "localStorage"; "sessionStorage"; "indexedDB"; "caches";
    "URL"; "URLSearchParams"; "TextEncoder"; "TextDecoder"; "AbortController";
    "AbortSignal"; "Blob"; "File"; "FormData"; "Headers"; "Request";
    "Response"; "Event"; "EventTarget"; "CustomEvent"; "MessageChannel";
    "Buffer"; "require"; "module"; "exports"; "__dirname"; "__filename" ].

Definition read (x : string) (e : env) : outcome value :=
  match lookup x e with
  | Some v => Ok v
  | None => if mem x host_names then Unmodelled else Throw (ReferenceError x)
  end.

Fixpoint get_chain (v : value) (ms : list string) : outcome value :=
  match ms with
  | [] => Ok v
  | m :: ms' => v' <- get_prop v m ;; get_chain v' ms'
  end.

Definition eval_atom (e : env) (a : atom) : outcome value :=
  v <- match base a with
       | BIdent x => read x e
       | BNumber z => Ok (VNumber z)
       | BString s => Ok (VString s)
       end ;;
  get_chain v (members a).

Definition apply_binop (op : binop) (a b : value) : outcome value :=
  match op with
  | StrictEq => r <- strict_equal a b ;; Ok (VBool r)
  | StrictNe => r <- strict_equal a b ;; Ok (VBool (negb r))
  | Lt => r <- less_than a b ;;
          Ok (VBool match r with Some t => t | None => false end)
  | Gt => r <- less_than b a ;;
          Ok (VBool match r with Some t => t | None => false end)
  | Le => r <- less_than b a ;;
          Ok (VBool match r with Some t => negb t | None => false end)
  | Ge => r <- less_than a b ;;
          Ok (VBool match r with Some t => negb t | None => false end)
  | And => Ok (if truthy a then b else a)
  | Or => Ok (if truthy a then a else b)
  end.

Fixpoint eval_code (e : env) (c : code) : outcome value :=
  match c with
  | CText js =>
      match parse_atom js with
      | Some a => eval_atom e a
      | None => Unmodelled
      end
  | CGet path => ctx <- read "ctx" e ;; deepGet ctx path
  | CNotNot c' => v <- eval_code e c' ;; Ok (VBool (truthy v))
  | CBin And l r =>
      a <- eval_code e l ;;
      if truthy a then eval_code e r else Ok a
  | CBin Or l r =>
      a <- eval_code e l ;;
      if truthy a then Ok a else eval_code e r
  | CBin op l r =>
      a <- eval_code e l ;;
      b <- eval_code e r ;;
      apply_binop op a b
  end.

(** [exec] runs a statement list; [for_loop] runs the [for] statement of an
    [SEach] from its test onwards.  Both read the variables from the state
    at every step, as the function-scoped [var]s of the artifact are. *)
Fixpoint exec (fuel : nat) (body : list stmt) (st : state) : outcome state :=
  match fuel with
  | O => OutOfFuel
  | S fuel' =>
      match body with
      | [] => Ok st
      | SPushText value :: rest => exec fuel' rest (push value st)
      | SPushRaw c :: rest =>
          v <- eval_code (vars st) c ;;
          exec fuel' rest (push (toString v) st)
      | SPushEscaped c :: rest =>
          v <- eval_code (vars st) c ;;
          exec fuel' rest (push (escapeHtml v) st)
      | SIf condition inner :: rest =>
          v <- eval_code (vars st) condition ;;
          if truthy v
          then st' <- exec fuel' inner st ;; exec fuel' rest st'
          else exec fuel' rest st
      | SEach arrayName indexName itemName items inner :: rest =>
          v <- eval_code (vars st) items ;;
          let st := assign arrayName v st in
          a <- read arrayName (vars st) ;;
          if isArray a then
            st' <- for_loop fuel' arrayName indexName itemName inner
                     (assign indexName (VNumber 0) st) ;;
            exec fuel' rest st'
          else exec fuel' rest st
      end
  end

with for_loop (fuel : nat) (arrayName indexName itemName : string)
    (inner : list stmt) (st : state) : outcome state :=
  match fuel with
  | O => OutOfFuel
  | S fuel' =>
      i <- read indexName (vars st) ;;
      a <- read arrayName (vars st) ;;
      n <- get_prop a "length" ;;
      r <- less_than i n ;;
      match r with
      | Some true =>
          item <- get_index a i ;;
          st' <- exec fuel' inner (assign itemName item st) ;;
          i' <- read indexName (vars st') ;;
          k <- toNumber i' ;;
          match k with
          | Some z =>
              for_loop fuel' arrayName indexName itemName inner
                (assign indexName (VNumber (z + 1)) st')
          | None => Unmodelled
          end
      | _ => Ok st
      end
  end.

(** The [var]s of a statement; all are hoisted to the function. *)
Fixpoint declared_stmt (s : stmt) : list string :=
  match s with
  | SIf _ inner => List.flat_map declared_stmt inner
  | SEach arrayName indexName itemName _ inner =>
      arrayName :: indexName :: itemName :: List.flat_map declared_stmt inner
  | _ => []
  end.

Definition declared (body : list stmt) : list string :=
  List.flat_map declared_stmt body.

Definition initial (body : list stmt) (ctx : value) : state :=
  State (("ctx", ctx) :: List.map (fun x => (x, VUndefined)) (declared body)) [].

(** Calling the artifact: [return output.join(...)] with the empty
    separator. *)
Definition invoke (fuel : nat) (body : list stmt) (ctx : value)
    : outcome string :=
  st <- exec fuel body (initial body ctx) ;;
  Ok (String.concat EmptyString (output st)).

(** Every piece of expression text is in the fragment, and every loop
    variable is an identifier. *)
Fixpoint code_in_fragment (c : code) : bool :=
  match c with
  | CText js => match parse_atom js with Some _ => true | None => false end
  | CGet _ => true
  | CNotNot c' => code_in_fragment c'
  | CBin _ l r => code_in_fragment l && code_in_fragment r
  end.

Fixpoint stmt_in_fragment (s : stmt) : bool :=
  match s with
  | SPushText _ => true
  | SPushRaw c => code_in_fragment c
  | SPushEscaped c => code_in_fragment c
  | SIf c inner => code_in_fragment c && List.forallb stmt_in_fragment inner
  | SEach a i t c inner =>
      is_identifier a && is_identifier i && is_identifier t
      && code_in_fragment c && List.forallb stmt_in_fragment inner
  end.

Definition in_fragment (body : list stmt) : bool :=
  List.forallb stmt_in_fragment body.

End Code.

(** ** Code generator ([src/compiler.js]) *)

Module Compiler.

Import Parser Host Utils Code.

Inductive loopContext : Type :=
| LoopContext (itemName indexName : string) (parent : option loopContext).

Definition itemName (lc : loopContext) : string :=
  match lc with LoopContext item _ _ => item end.

Definition indexName (lc : loopContext) : string :=
  match lc with LoopContext _ index _ => index end.

Definition parent (lc : loopContext) : option loopContext :=
  match lc with LoopContext _ _ p => p end.

Definition _isComplexExpression (expr : string) : bool :=
  includes expr "("
  || includes expr ")"
  || includes expr "+"
  || includes expr "-"
  || includes expr "*"
  || includes expr "/"
  || test_then_boundary ".length" expr
  || test_then_boundary ".split" expr
  || test_then_boundary ".join" expr
  || test_then_boundary ".toUpperCase" expr
  || test_then_boundary ".toLowerCase" expr
  || test_then_boundary ".trim" expr
  || test_then_boundary ".slice" expr
  || test_then_boundary ".substring" expr
  || test_then_boundary ".charAt" expr
  || test_then_boundary ".filter" expr
  || includes expr "=>"
  || includes expr "@index".

(** [new Function('return ' + jsExpr)] accepts the text of the fragment;
    the model does not decide the rest of the host grammar.  The rewriting
    of an arrow shorthand yields a function literal, which is outside the
    fragment as well. *)
Definition _compileComplexExpression (expression : string)
    (loopContext : option loopContext) : outcome string :=
  let jsExpr := expression in
  let jsExpr :=
    if includes jsExpr "@index" then
      match loopContext with
      | Some lc =>
          if negb (is_empty (indexName lc))
          then replaceAll "@index" (indexName lc) jsExpr
          else replaceAll "@index" "0" jsExpr
      | None => replaceAll "@index" "0" jsExpr
      end
    else jsExpr in
  let jsExpr :=
    match loopContext with
    | Some lc =>
        if String.eqb jsExpr "this" then itemName lc
        else if startsWith jsExpr "this."
        then (itemName lc ++ "." ++ slice 5 jsExpr)%string
        else jsExpr
    | None => jsExpr
    end in
  if includes jsExpr "=>" then Unmodelled
  else
    match parse_atom jsExpr with
    | Some _ => Ok jsExpr
    | None => Unmodelled
    end.

Definition _generateAccessCode (expression : string)
    (loopContext : option loopContext) : outcome code :=
  if String.eqb expression "this" then
    Ok (CText match loopContext with
              | Some lc => itemName lc
              | None => "ctx"
              end)
  else if startsWith expression "this." then
    let prop := slice 5 expression in
    match loopContext with
    | Some lc =>
        js <- _compileComplexExpression
                (itemName lc ++ "." ++ prop)%string loopContext ;;
        Ok (CText js)
    | None =>
        js <- _compileComplexExpression ("ctx." ++ prop)%string loopContext ;;
        Ok (CText js)
    end
  else if _isComplexExpression expression then
    js <- _compileComplexExpression expression loopContext ;;
    Ok (CText js)
  else if is_identifier_path expression then Ok (CGet expression)
  else Throw (Error ("Invalid variable expression: " ++ expression)).

Definition _generateVariableCode (expression : string) (isRaw : bool)
    (loopContext : option loopContext) : outcome (list stmt) :=
  if is_empty (trim expression) then Throw (Error "Empty variable expression")
  else
    accessCode <- _generateAccessCode expression loopContext ;;
    if isRaw then Ok [SPushRaw accessCode] else Ok [SPushEscaped accessCode].

Definition _generateComparisonOperand (operand : string)
    (loopContext : option loopContext) : outcome code :=
  let operand := trim operand in
  if (startsWith operand "'" && endsWith operand "'")
     || (startsWith operand (String "034" EmptyString)
         && endsWith operand (String "034" EmptyString))
  then Ok (CText operand)
  else if negb (isNaN operand) && negb (is_empty (trim operand))
  then Ok (CText operand)
  else if _isComplexExpression operand then
    js <- _compileComplexExpression operand loopContext ;;
    Ok (CText js)
  else _generateAccessCode operand loopContext.

(** The first of [n], [n - 1], ..., [1] at which [f] succeeds: the order
    in which a greedy quantifier gives characters back. *)
Fixpoint longest_first {A : Type} (f : nat -> option A) (n : nat) : option A :=
  match n with
  | O => None
  | S m =>
      match f n with
      | Some a => Some a
      | None => longest_first f m
      end
  end.

Definition not_close_paren (c : ascii) : bool := negb (Ascii.eqb c ")").

(** The match of the comparison pattern of [_generateConditionCode]: an
    opening parenthesis, a run of [\w], white space, a run without closing
    parenthesis, white space, a second such run, and the closing
    parenthesis at the end of the text.  The three groups are returned. *)
Definition comparisonMatch (condition : string)
    : option (string * string * string) :=
  match condition with
  | String c s =>
      if negb (Ascii.eqb c "(") then None
      else
        let w := span_len is_word s in
        if Nat.eqb w 0 then None
        else
          let r1 := slice w s in
          longest_first (fun k1 =>
            let r2 := slice k1 r1 in
            longest_first (fun k2 =>
              let r3 := slice k2 r2 in
              longest_first (fun k3 =>
                let r4 := slice k3 r3 in
                let m4 := span_len not_close_paren r4 in
                if Nat.ltb 0 m4 && String.eqb (slice m4 r4) ")"
                then Some (take w s, take k2 r2, take m4 r4)
                else None)
                (span_len is_space r3))
              (span_len not_close_paren r2))
            (span_len is_space r1)
  | EmptyString => None
  end.

Definition _generateConditionCode (condition : string)
    (loopContext : option loopContext) : outcome code :=
  let condition := trim condition in
  match comparisonMatch condition with
  | Some (operator, left', right') =>
      leftCode <- _generateComparisonOperand (trim left') loopContext ;;
      rightCode <- _generateComparisonOperand (trim right') loopContext ;;
      if String.eqb operator "eq" then Ok (CBin StrictEq leftCode rightCode)
      else if String.eqb operator "neq" then Ok (CBin StrictNe leftCode rightCode)
      else if String.eqb operator "gt" then Ok (CBin Gt leftCode rightCode)
      else if String.eqb operator "gte" then Ok (CBin Ge leftCode rightCode)
      else if String.eqb operator "lt" then Ok (CBin Lt leftCode rightCode)
      else if String.eqb operator "lte" then Ok (CBin Le leftCode rightCode)
      else if String.eqb operator "and" then Ok (CBin And leftCode rightCode)
      else if String.eqb operator "or" then Ok (CBin Or leftCode rightCode)
      else Throw (Error ("Unsupported comparison operator: " ++ operator))
  | None =>
      if _isComplexExpression condition then
        valueCode <- _generateAccessCode condition loopContext ;;
        Ok (CNotNot valueCode)
      else if startsWith condition "this." then
        let prop := slice 5 condition in
        match loopContext with
        | Some lc => Ok (CNotNot (CText (itemName lc ++ "." ++ prop)))
        | None => Ok (CNotNot (CGet prop))
        end
      else if is_identifier_path condition then
        valueCode <- _generateAccessCode condition loopContext ;;
        Ok (CNotNot valueCode)
      else Throw (Error ("Invalid condition expression: " ++ condition))
  end.

(** The generator threads the number of identifiers drawn so far. *)
Definition gen (A : Type) : Type := nat -> outcome (A * nat).

(** [children.forEach(child => lines.push(...generate(child)))] *)
Fixpoint forEach_child
    (generate : node -> option loopContext -> gen (list stmt))
    (children : list node) (loopContext : option loopContext)
    : gen (list stmt) :=
  fun drawn =>
    match children with
    | [] => Ok ([], drawn)
    | child :: rest =>
        '(lines, drawn) <- generate child loopContext drawn ;;
        '(more, drawn) <- forEach_child generate rest loopContext drawn ;;
        Ok (lines ++ more, drawn)
    end.

Definition _generateIfCode
    (generate : node -> option loopContext -> gen (list stmt))
    (condition : string) (children : list node)
    (loopContext : option loopContext) : gen (list stmt) :=
  fun drawn =>
    conditionCode <- _generateConditionCode condition loopContext ;;
    '(lines, drawn) <- forEach_child generate children loopContext drawn ;;
    Ok ([SIf conditionCode lines], drawn).

Definition _generateEachCode (ids : nat -> string)
    (generate : node -> option loopContext -> gen (list stmt))
    (items : string) (children : list node)
    (parentLoopContext : option loopContext) : gen (list stmt) :=
  fun drawn =>
    itemsCode <- _generateAccessCode items parentLoopContext ;;
    let loopId := ids drawn in
    let itemName := ("item_" ++ loopId)%string in
    let indexName := ("index_" ++ loopId)%string in
    let arrayName := ("items_" ++ loopId)%string in
    let loopContext := LoopContext itemName indexName parentLoopContext in
    '(lines, drawn) <-
      forEach_child generate children (Some loopContext) (S drawn) ;;
    Ok ([SEach arrayName indexName itemName itemsCode lines], drawn).

Fixpoint _generateNodeCode (ids : nat -> string) (node : node)
    (loopContext : option loopContext) : gen (list stmt) :=
  fun drawn =>
    match node with
    | Text value => Ok ([SPushText value], drawn)
    | Variable' expression =>
        lines <- _generateVariableCode expression false loopContext ;;
        Ok (lines, drawn)
    | RawVariable expression =>
        lines <- _generateVariableCode expression true loopContext ;;
        Ok (lines, drawn)
    | If condition children =>
        _generateIfCode (_generateNodeCode ids) condition children
          loopContext drawn
    | Each items children =>
        _generateEachCode ids (_generateNodeCode ids) items children
          loopContext drawn
    | Root _ => Throw (Error "Unknown node type: Root")
    end.

Definition _generateJSCode (ids : nat -> string) (children : list node)
    : outcome (list stmt) :=
  '(lines, _) <- forEach_child (_generateNodeCode ids) children None 0 ;;
  Ok lines.

(** [new Function('ctx', jsCode)] for code of the fragment. *)
Definition compile (ids : nat -> string) (ast : node) : outcome (list stmt) :=
  match ast with
  | Root children =>
      jsCode <- _generateJSCode ids children ;;
      if in_fragment jsCode then Ok jsCode else Unmodelled
  | _ => Throw (Error "Invalid AST: expected Root node")
  end.

End Compiler.

(** ** Running an artifact ([src/renderer.js]) *)

Module Renderer.

Import Host Code.

(** What [render] may be given as compiled template: an artifact, or a
    value that is no function. *)
Inductive callee : Type :=
| Function (body : list stmt)
| NotFunction (v : value).

(** [error.message]: the text given to [new Error], or the text the host
    chose for an exception of its own, which differs between hosts and is
    the parameter [hostMessage]. *)
Definition message (hostMessage : exn -> string) (error : exn) : string :=
  match error with
  | Error text => text
  | _ => hostMessage error
  end.

(** A parameter with the default value [{}]. *)
Definition or_empty_object (context : value) : value :=
  match context with
  | VUndefined => VObject []
  | _ => context
  end.

Definition render (hostMessage : exn -> string) (fuel : nat)
    (compiledTemplate : callee) (context : value) : outcome string :=
  let context := or_empty_object context in
  match compiledTemplate with
  | NotFunction _ => Throw (Error "Compiled template must be a function")
  | Function body =>
      if negb (String.eqb (typeof context) "object")
         || match context with VNull => true | _ => false end
      then Throw (Error "Context must be an object")
      else
        match invoke fuel body context with
        | Throw error =>
            Throw (Error ("Rendering failed: " ++ message hostMessage error))
        | result => result
        end
  end.

End Renderer.

(** ** The pipeline ([index.js]) *)

Module Jframe.

Definition compile (ids : nat -> string) (template : string)
    : outcome (list Code.stmt) :=
  tokens <- Tokenizer.tokenize template ;;
  ast <- Parser.parse tokens ;;
  Compiler.compile ids ast.

(** Compile, then call the artifact with [context]. *)
Definition run (ids : nat -> string) (fuel : nat) (template : string)
    (context : Host.value) : outcome string :=
  compiled <- compile ids template ;;
  Code.invoke fuel compiled context.

(** [render(target, context)] for a target that is a template string. *)
Definition render (hostMessage : exn -> string) (ids : nat -> string)
    (fuel : nat) (target : string) (context : Host.value) : outcome string :=
  let context := Renderer.or_empty_object context in
  compiled <- compile ids target ;;
  Renderer.render hostMessage fuel (Renderer.Function compiled) context.

End Jframe.

(** ** Reading and writing by path ([src/binding.js])

    The data object holds data properties only and is a tree: no object is
    reachable by two paths.  A write, which the source makes in place, is
    modelled by the new value of the whole object.  Data whose objects
    share parts is modelled in [Heap] below. *)

Module Binding.

Import Host.

Definition is_undefined (v : value) : bool :=
  match v with
  | VUndefined => true
  | _ => false
  end.

(** [keys.reduce(callback, initial)] for a callback that may raise. *)
Fixpoint reduce (callback : value -> string -> outcome value)
    (keys : list string) (current : value) : outcome value :=
  match keys with
  | [] => Ok current
  | key :: keys' =>
      next <- callback current key ;;
      reduce callback keys' next
  end.

(** The callback of [_getValue]. *)
Definition getValue_step (current : value) (key : string) : outcome value :=
  if truthy current then
    v <- get_prop current key ;;
    if negb (is_undefined v) then get_prop current key else Ok VUndefined
  else Ok VUndefined.

Definition _getValue (obj : value) (path : string) : outcome value :=
  reduce getValue_step (split_dot path) obj.

(** The own properties after [fields[key] = x]: the property keeps its
    place, a new one comes last. *)
Fixpoint update (key : string) (x : value) (fields : list (string * value))
    : list (string * value) :=
  match fields with
  | [] => [(key, x)]
  | (k, v) :: rest =>
      if String.eqb k key then (k, x) :: rest
      else (k, v) :: update key x rest
  end.

(** The elements after [items[i] = x]: a write beyond the end extends the
    array, and the elements in between read as undefined. *)
Fixpoint store (i : nat) (x : value) (items : list value) : list value :=
  match i, items with
  | O, [] => [x]
  | O, _ :: rest => x :: rest
  | S i', [] => VUndefined :: store i' x []
  | S i', y :: rest => y :: store i' x rest
  end.

(** [v[key] = x] in strict code: the new value of [v]. *)
Definition set_prop (v : value) (key : string) (x : value) : outcome value :=
  match v with
  | VUndefined | VNull => Throw TypeError
  | VBool _ | VNumber _ | VString _ =>
      if String.eqb key "__proto__" then Unmodelled else Throw TypeError
  | VObject fields =>
      match lookup key fields with
      | Some _ => Ok (VObject (update key x fields))
      | None =>
          if String.eqb key "__proto__" then Unmodelled
          else Ok (VObject (update key x fields))
      end
  | VArray items =>
      match array_index key with
      | Some i =>
          if N.ltb (N.of_nat i) 4294967295%N
          then Ok (VArray (store i x items))
          else Unmodelled
      | None => Unmodelled
      end
  end.

(** The [reduce] of [_setValue] and the final assignment.  The objects on
    the way are changed in place; here each is stored back in its owner. *)
Fixpoint setValue_reduce (keys : list string) (lastKey : string)
    (current value : Host.value) : outcome Host.value :=
  match keys with
  | [] => set_prop current lastKey value
  | key :: keys' =>
      v <- get_prop current key ;;
      current <- (if is_undefined v
                  then set_prop current key (VObject [])
                  else Ok current) ;;
      next <- get_prop current key ;;
      next <- setValue_reduce keys' lastKey next value ;;
      set_prop current key next
  end.

(** [_setValue]: [keys.pop()] takes the last key. *)
Definition _setValue (obj : Host.value) (path : string) (value : Host.value)
    : outcome Host.value :=
  let keys := split_dot path in
  let lastKey := List.last keys EmptyString in
  setValue_reduce (List.removelast keys) lastKey obj value.

End Binding.

(** ** Data objects that share parts ([src/binding.js])

    [_setValue] writes in place: where one object is reached by two paths,
    a write by one path shows in a read by the other.  Here a variable or
    a property holds a primitive value or the address of an object, and
    the objects are kept in a heap, where a write changes them. *)

Module Heap.

Import Host.

(** What a variable or a property holds. *)
Inductive ref : Type :=
| RUndefined
| RNull
| RBool (b : bool)
| RNumber (n : Z)
| RString (s : string)
| RObject (address : nat).

(** An object: its own properties in insertion order, or the elements of
    an array. *)
Inductive object : Type :=
| Plain (fields : list (string * ref))
| Elements (items : list ref).

(** The objects by address. *)
Definition heap : Type := list object.

Definition is_undefined (v : ref) : bool :=
  match v with
  | RUndefined => true
  | _ => false
  end.

Definition truthy (v : ref) : bool :=
  match v with
  | RUndefined => false
  | RNull => false
  | RBool b => b
  | RNumber z => negb (Z.eqb z 0)
  | RString s => negb (is_empty s)
  | RObject _ => true
  end.

(** [v[key]]. *)
Definition get_prop (h : heap) (v : ref) (key : string) : outcome ref :=
  match v with
  | RUndefined | RNull => Throw TypeError
  | RString s =>
      if String.eqb key "length" then Ok (RNumber (Z.of_nat (String.length s)))
      else Unmodelled
  | RBool _ | RNumber _ => Unmodelled
  | RObject a =>
      match nth_error h a with
      | Some (Plain fields) =>
          match lookup key fields with
          | Some x => Ok x
          | None =>
              if mem key object_prototype_names then Unmodelled
              else Ok RUndefined
          end
      | Some (Elements items) =>
          if String.eqb key "length"
          then Ok (RNumber (Z.of_nat (List.length items)))
          else match array_index key with
               | Some i => Ok (nth i items RUndefined)
               | None => Unmodelled
               end
      | None => Unmodelled
      end
  end.

(** The own properties after [fields[key] = x]. *)
Fixpoint update (key : string) (x : ref) (fields : list (string * ref))
    : list (string * ref) :=
  match fields with
  | [] => [(key, x)]
  | (k, v) :: rest =>
      if String.eqb k key then (k, x) :: rest
      else (k, v) :: update key x rest
  end.

(** The elements after [items[i] = x]. *)
Fixpoint put (i : nat) (x : ref) (items : list ref) : list ref :=
  match i, items with
  | O, [] => [x]
  | O, _ :: rest => x :: rest
  | S i', [] => RUndefined :: put i' x []
  | S i', y :: rest => y :: put i' x rest
  end.

(** The heap with the object at [address] replaced. *)
Fixpoint write (address : nat) (o : object) (h : heap) : heap :=
  match address, h with
  | _, [] => []
  | O, _ :: rest => o :: rest
  | S address', o' :: rest => o' :: write address' o rest
  end.

(** [v[key] = x] in strict code: the object at the address of [v] is
    changed, and every holder of that address sees the change. *)
Definition set_prop (h : heap) (v : ref) (key : string) (x : ref)
    : outcome heap :=
  match v with
  | RUndefined | RNull => Throw TypeError
  | RBool _ | RNumber _ | RString _ =>
      if String.eqb key "__proto__" then Unmodelled else Throw TypeError
  | RObject a =>
      match nth_error h a with
      | Some (Plain fields) =>
          match lookup key fields with
          | Some _ => Ok (write a (Plain (update key x fields)) h)
          | None =>
              if String.eqb key "__proto__" then Unmodelled
              else Ok (write a (Plain (update key x fields)) h)
          end
      | Some (Elements items) =>
          match array_index key with
          | Some i =>
              if N.ltb (N.of_nat i) 4294967295%N
              then Ok (write a (Elements (put i x items)) h)
              else Unmodelled
          | None => Unmodelled
          end
      | None => Unmodelled
      end
  end.

(** [keys.reduce(callback, initial)] for a callback that may raise. *)
Fixpoint reduce (callback : ref -> string -> outcome ref)
    (keys : list string) (current : ref) : outcome ref :=
  match keys with
  | [] => Ok current
  | key :: keys' =>
      next <- callback current key ;;
      reduce callback keys' next
  end.

(** The callback of [_getValue]. *)
Definition getValue_step (h : heap) (current : ref) (key : string)
    : outcome ref :=
  if truthy current then
    v <- get_prop h current key ;;
    if negb (is_undefined v) then get_prop h current key else Ok RUndefined
  else Ok RUndefined.

Definition _getValue (h : heap) (obj : ref) (path : string) : outcome ref :=
  reduce (getValue_step h) (split_dot path) obj.

(** The [reduce] of [_setValue]: the target and the heap after the missing
    objects have been created, each new object at the next free address. *)
Fixpoint setValue_reduce (keys : list string) (current : ref) (h : heap)
    : outcome (ref * heap) :=
  match keys with
  | [] => Ok (current, h)
  | key :: keys' =>
      v <- get_prop h current key ;;
      h <- (if is_undefined v
            then set_prop (h ++ [Plain []]) current key
                   (RObject (List.length h))
            else Ok h) ;;
      next <- get_prop h current key ;;
      setValue_reduce keys' next h
  end.

(** [_setValue]: [keys.pop()] takes the last key, and the value is assigned
    in the target. *)
Definition _setValue (h : heap) (obj : ref) (path : string) (value : ref)
    : outcome heap :=
  let keys := split_dot path in
  let lastKey := List.last keys EmptyString in
  r <- setValue_reduce (List.removelast keys) obj h ;;
  set_prop (snd r) (fst r) lastKey value.

End Heap.


(** ** Definitions used by the statements *)

Module Props.

Import Tokenizer Parser Host Utils Code Compiler.

(** *** Strings *)

Fixpoint last_char (s : string) : option ascii :=
  match s with
  | EmptyString => None
  | String c EmptyString => Some c
  | String _ s' => last_char s'
  end.

(** The characters of an identifier path. *)
Definition path_char (c : ascii) : bool := is_ident_part c || Ascii.eqb c ".".

(** *** Scanner *)

Definition no_close_brace (s : string) : bool :=
  forallb (fun c => negb (Ascii.eqb c "}")) s.

(** *** Tree builder *)

(** The block discipline in the words of the specification: the tokens
    are read left to right while the open blocks are kept, innermost
    first.  A block is unclosed when the tokens run out inside it or when
    the close token that ends it is of the other kind.  With no block open,
    the reading stops at the first close token or at the end. *)
Inductive block : Type := IfBlock | EachBlock.

Definition directive (b : block) : string :=
  match b with IfBlock => "if" | EachBlock => "each" end.

Definition unclosed_error (b : block) : exn :=
  Error ("Unclosed {{#" ++ directive b ++ "}} directive").

Definition closes (b : block) (t : token) : bool :=
  match b, t with
  | IfBlock, IF_END => true
  | EachBlock, EACH_END => true
  | _, _ => false
  end.

Inductive scan_result : Type :=
| Stops (position : nat)
| UnclosedBlock (b : block).

Fixpoint scan (open : list block) (tokens : list token) (position : nat)
    : scan_result :=
  match tokens with
  | [] =>
      match open with
      | [] => Stops position
      | b :: _ => UnclosedBlock b
      end
  | IF_START _ :: rest => scan (IfBlock :: open) rest (S position)
  | EACH_START _ :: rest => scan (EachBlock :: open) rest (S position)
  | (IF_END | EACH_END) as t :: rest =>
      match open with
      | [] => Stops position
      | b :: open' =>
          if closes b t then scan open' rest (S position)
          else UnclosedBlock b
      end
  | _ :: rest => scan open rest (S position)
  end.

(** The matching of blocks by position alone.  [terminator depth tokens]
    is the close token that ends the block opened just before [tokens], when
    [depth] is zero: the first close token outside every nested block. *)
Fixpoint terminator (depth : nat) (tokens : list token) : option token :=
  match tokens with
  | [] => None
  | (IF_START _ | EACH_START _) :: rest => terminator (S depth) rest
  | (IF_END | EACH_END) as t :: rest =>
      match depth with
      | O => Some t
      | S depth' => terminator depth' rest
      end
  | _ :: rest => terminator depth rest
  end.

Definition opens (t : token) : option block :=
  match t with
  | IF_START _ => Some IfBlock
  | EACH_START _ => Some EachBlock
  | _ => None
  end.

(** The token at [position] opens a block [b] that has no matching close
    token: the tokens run out, or the close token that ends the block is of
    the other kind. *)
Definition unmatched_at (tokens : list token) (position : nat) (b : block)
    : Prop :=
  exists t,
    nth_error tokens position = Some t
    /\ opens t = Some b
    /\ match terminator 0 (skipn (S position) tokens) with
       | None => True
       | Some c => closes b c = false
       end.

(** The wording of the specification, for every token sequence: an
    unmatched block anywhere makes the builder fail with an unclosed
    error. *)
Definition every_unmatched_block_is_reported : Prop :=
  forall tokens position b,
    unmatched_at tokens position b ->
    exists b', parse tokens = Throw (unclosed_error b').

(** What the reading does at the token that stopped the inner reading of
    a block [b]. *)
Definition resume (b : block) (tokens : list token) (start position : nat)
    : scan_result :=
  match nth_error tokens (position - start) with
  | None => UnclosedBlock b
  | Some t =>
      if closes b t
      then scan [] (skipn (S (position - start)) tokens) (S position)
      else UnclosedBlock b
  end.

(** *** Comparisons *)

(** The operator names of the condition grammar. *)
Definition operator_name (op : binop) : string :=
  match op with
  | StrictEq => "eq"
  | StrictNe => "neq"
  | Gt => "gt"
  | Ge => "gte"
  | Lt => "lt"
  | Le => "lte"
  | And => "and"
  | Or => "or"
  end.

Definition is_ordering (op : binop) : bool :=
  match op with
  | Gt | Ge | Lt | Le => true
  | _ => false
  end.

(** An if block whose condition compares the context entries [a] and [b]. *)
Definition comparison_template (op : binop) : string :=
  "{{#if (" ++ operator_name op ++ " a b)}}yes{{/if}}".

(** The wording of the specification for the ordering operators: a
    comparison without implicit coercion relates only operands of one
    type, so the branch is never taken on operands of different types. *)
Definition ordering_without_coercion : Prop :=
  forall ids fuel op a b,
    is_ordering op = true ->
    Jframe.run ids fuel (comparison_template op)
      (VObject [("a", a); ("b", b)]) = Ok "yes" ->
    typeof a = typeof b.

(** *** Loops *)

(** An identifier as [Math.random().toString(36).substr(2, 9)] yields it:
    at most nine digits of base 36. *)
Definition is_base36 (c : ascii) : bool :=
  let n := char_code c in is_digit c || (Nat.leb 97 n && Nat.leb n 122).

Definition loopId_ok (id : string) : bool :=
  forallb is_base36 id && Nat.leb (String.length id) 9.

(** The each loop in the words of the specification: the children run
    once per element, in element order; before the children run for the
    element at position [i] the item variable holds the element, and the
    index variable holds [i + 1] afterwards. *)
Fixpoint each_elements (fuel : nat) (indexName itemName : string)
    (body : list stmt) (i : Z) (elements : list value) (st : state)
    : outcome state :=
  match elements with
  | [] => Ok st
  | x :: rest =>
      st' <- exec fuel body (assign itemName x st) ;;
      each_elements fuel indexName itemName body (i + 1) rest
        (assign indexName (VNumber (i + 1)) st')
  end.

(** The names declared by a loop whose identifier is the [k]-th draw. *)
Definition loop_name (ids : nat -> string) (k : nat) (x : string) : Prop :=
  x = ("items_" ++ ids k)%string \/ x = ("index_" ++ ids k)%string
  \/ x = ("item_" ++ ids k)%string.

(** The statements [lines] declare the loop names of the draws from
    [drawn] up to [drawn'], and no other name. *)
Definition declares_draws (ids : nat -> string) (lines : list stmt)
    (drawn drawn' : nat) : Prop :=
  drawn <= drawn'
  /\ forall x, In x (declared lines)
                <-> exists k, drawn <= k < drawn' /\ loop_name ids k x.

(** The each template of the specification's examples. *)
Definition each_example : string :=
  "{{#each items}}{{@index}}:{{this}} {{/each}}".

(** Two sequences of draws without repetition among the first three. *)
Definition draws_a (k : nat) : string :=
  match k with
  | 0 => "k3f9x2a1b"
  | 1 => "z8y7w6v5u"
  | _ => "q1w2e3r4t"
  end.

Definition draws_b (k : nat) : string :=
  match k with
  | 0 => "m5n6b7v8c"
  | 1 => "a0s9d8f7g"
  | _ => "h4j3k2l1p"
  end.

(** A table: an each block nested in an each block. *)
Definition table_template : string :=
  "{{#each rows}}{{@index}}:{{#each this.cells}}{{this}},{{/each}};{{/each}}".

Definition table_context : value :=
  VObject [("rows", VArray [VObject [("cells", VArray [VNumber 1; VNumber 2])];
                            VObject [("cells", VArray [VNumber 3])]])].

(** An each block whose body prints a string literal that holds the text
    of the index pseudo-variable. *)
Definition index_in_literal : string :=
  "{{#each xs}}{{" ++ String "034" ("@index" ++ String "034" "}}{{/each}}").

(** Outcomes that agree: the same failure, or results in relation. *)
Definition outcome_rel {A B : Type} (R : A -> B -> Prop)
    (m1 : outcome A) (m2 : outcome B) : Prop :=
  match m1, m2 with
  | Ok a, Ok b => R a b
  | Throw e1, Throw e2 => e1 = e2
  | Unmodelled, Unmodelled => True
  | OutOfFuel, OutOfFuel => True
  | _, _ => False
  end.

(** The determinism of the specification: whatever the draws of the two
    compilations, the two artifacts give the same outcome. *)
Definition deterministic_output : Prop :=
  forall ids1 ids2 fuel template context,
    (forall k, loopId_ok (ids1 k) = true) ->
    (forall k, loopId_ok (ids2 k) = true) ->
    Jframe.run ids1 fuel template context
    = Jframe.run ids2 fuel template context.

(** *** Tokens *)

Definition is_trimmed (s : string) : bool := String.eqb (trim s) s.

(** What every token of a scanned template satisfies. *)
Definition token_ok (t : token) : bool :=
  match t with
  | TEXT value => negb (is_empty value)
  | VAR expression =>
      is_trimmed expression && negb (startsWith expression "/")
  | RAW expression => is_trimmed expression
  | IF_START condition => negb (is_empty condition) && is_trimmed condition
  | EACH_START items => negb (is_empty items) && is_trimmed items
  | IF_END | EACH_END => true
  end.

Definition is_text (t : token) : bool :=
  match t with
  | TEXT _ => true
  | _ => false
  end.

(** No two text tokens follow each other. *)
Fixpoint texts_apart (tokens : list token) : bool :=
  match tokens with
  | a :: (b :: _) as rest => negb (is_text a && is_text b) && texts_apart rest
  | _ => true
  end.

Fixpoint ends_in_text (tokens : list token) : bool :=
  match tokens with
  | [] => false
  | [t] => is_text t
  | _ :: rest => ends_in_text rest
  end.

Definition no_open_brace (s : string) : bool :=
  forallb (fun c => negb (Ascii.eqb c "{")) s.

(** The text tokens of a stretch of plain text: none for the empty text. *)
Definition text_tokens (text : string) : list token := flush text [].

(** A marker: [inner] between double or triple braces. *)
Definition marker (isRaw : bool) (inner : string) : string :=
  if isRaw then "{{{" ++ inner ++ "}}}" else "{{" ++ inner ++ "}}".

(** Text that can stand inside a marker of that kind: it holds no closing
    brace and, between double braces, does not start with an opening one. *)
Definition marker_text (isRaw : bool) (inner : string) : bool :=
  no_close_brace inner && (isRaw || negb (startsWith inner "{")).

(** An expression that the generator compiles to the safe lookup on the
    context: an identifier path that is not classified as complex and does
    not go through [this]. *)
Definition plain_path (e : string) : bool :=
  is_identifier_path e
  && negb (_isComplexExpression e)
  && negb (String.eqb e "this")
  && negb (startsWith e "this.").

(** *** Conditions *)

(** The parts of a condition [(operator left right)]: a word; text without
    closing parenthesis that starts with no white space; text without
    closing parenthesis and without white space. *)
Definition is_operator_word (s : string) : bool :=
  negb (is_empty s) && forallb is_word s.

Definition is_left_operand (s : string) : bool :=
  match s with
  | String c _ => negb (is_space c) && forallb not_close_paren s
  | EmptyString => false
  end.

Definition is_right_operand (s : string) : bool :=
  negb (is_empty s)
  && forallb (fun c => negb (is_space c) && not_close_paren c) s.

Definition comparison (operator left' right' : string) : string :=
  "(" ++ operator ++ " " ++ left' ++ " " ++ right' ++ ")".

(** *** Trees *)

(** The tokens a tree was built from. *)
Fixpoint tokens_of (n : node) : list token :=
  match n with
  | Text value => [TEXT value]
  | Variable' expression => [VAR expression]
  | RawVariable expression => [RAW expression]
  | If condition children =>
      IF_START condition :: List.flat_map tokens_of children ++ [IF_END]
  | Each items children =>
      EACH_START items :: List.flat_map tokens_of children ++ [EACH_END]
  | Root children => List.flat_map tokens_of children
  end.

(** A node below the root: no root node occurs in it. *)
Fixpoint no_root (n : node) : bool :=
  match n with
  | Root _ => false
  | If _ children => List.forallb no_root children
  | Each _ children => List.forallb no_root children
  | _ => true
  end.

(** *** Escaping *)

(** The entity that stands for one character. *)
Definition entity (c : ascii) : string :=
  if Ascii.eqb c "&" then "&amp;"
  else if Ascii.eqb c "<" then "&lt;"
  else if Ascii.eqb c ">" then "&gt;"
  else if Ascii.eqb c "034" then "&quot;"
  else if Ascii.eqb c "'" then "&#39;"
  else String c EmptyString.

(** One pass that replaces every character by its entity. *)
Fixpoint escape_each (s : string) : string :=
  match s with
  | EmptyString => EmptyString
  | String c s' => entity c ++ escape_each s'
  end.

(** The characters that open a tag or close an attribute value. *)
Definition is_markup (c : ascii) : bool :=
  Ascii.eqb c "<" || Ascii.eqb c ">" || Ascii.eqb c "034" || Ascii.eqb c "'".

(** *** Paths of the data object *)

(** A value that holds properties: an object or an array. *)
Definition is_object (v : value) : bool :=
  match v with
  | VObject _ | VArray _ => true
  | _ => false
  end.

(** *** Exceptions *)

(** An outcome that, when it is an exception, is an [Error] whose message
    satisfies [p]. *)
Definition raises_only {A : Type} (p : string -> bool) (m : outcome A)
    : Prop :=
  forall e, m = Throw e -> exists message, e = Error message /\ p message = true.

(** The messages of the errors of the three compilation stages. *)
Definition compile_time_message (message : string) : bool :=
  startsWith message "Unclosed expression at position "
  || startsWith message "Unknown closing directive: "
  || String.eqb message "Unclosed {{#if}} directive"
  || String.eqb message "Unclosed {{#each}} directive"
  || String.eqb message "Unexpected tokens at end of template"
  || String.eqb message "Empty variable expression"
  || startsWith message "Invalid variable expression: "
  || startsWith message "Invalid condition expression: "
  || startsWith message "Unsupported comparison operator: ".

(** A context that [render] accepts: an object or an array, or nothing,
    which stands for the empty object. *)
Definition is_object_context (context : value) : bool :=
  match context with
  | VUndefined | VObject _ | VArray _ => true
  | _ => false
  end.

(** The messages of the errors of [render]. *)
Definition render_message (message : string) : bool :=
  compile_time_message message
  || String.eqb message "Context must be an object"
  || startsWith message "Rendering failed: ".

(** An each block nested in an each block, over rows that are arrays. *)
Definition nested_template : string :=
  "{{#each rows}}{{@index}}:{{#each this}}{{this}},{{/each}};{{/each}}".

Definition nested_context : value :=
  VObject [("rows", VArray [VArray [VNumber 1; VNumber 2];
                            VArray [VNumber 3]])].

(** The draws when [Math.random] returns one half every time. *)
Definition one_draw (k : nat) : string := "i".

(** *** Operands of a comparison

    The operand rules in the words of the specification: a single- or
    double-quoted run is a string literal, a numeric literal stands for
    itself, and a path is looked up in the context.  The literals are the
    ones the model reads: a quoted run without escape sequence, quote or
    parenthesis in it, and an unsigned decimal integer. *)
Inductive operand : Type :=
| OString (quote : ascii) (s : string)
| ONumber (digits : string)
| OPath (path : string).

Definition operand_text (o : operand) : string :=
  match o with
  | OString q s => String q (s ++ String q EmptyString)
  | ONumber digits => digits
  | OPath path => path
  end.

Definition is_quote (c : ascii) : bool :=
  Ascii.eqb c "'" || Ascii.eqb c "034".

Definition literal_char (q c : ascii) : bool :=
  is_string_char q c && not_close_paren c.

Definition is_operand (o : operand) : bool :=
  match o with
  | OString q s => is_quote q && forallb (literal_char q) s
  | ONumber digits =>
      match digits with
      | String c rest =>
          exact_digits digits && (negb (Ascii.eqb c "0") || is_empty rest)
      | EmptyString => false
      end
  | OPath path => plain_path path && negb (String.eqb path "Infinity")
  end.

Definition no_space (s : string) : bool :=
  forallb (fun c => negb (is_space c)) s.

(** What the operand stands for. *)
Definition operand_value (ctx : value) (o : operand) : outcome value :=
  match o with
  | OString _ s => Ok (VString s)
  | ONumber digits => Ok (VNumber (Z.of_nat (digits_value 0 digits)))
  | OPath path => deepGet ctx path
  end.

(** The code the operand rules give. *)
Definition operand_code (o : operand) : code :=
  match o with
  | OPath path => CGet path
  | _ => CText (operand_text o)
  end.

(** The operator of the host applied to two operands that are evaluated
    from left to right, the right one of [&&] and [||] only when the left
    one does not decide. *)
Definition host_operator (op : binop) (left' right' : outcome value)
    : outcome value :=
  match op with
  | And => a <- left' ;; if truthy a then right' else Ok a
  | Or => a <- left' ;; if truthy a then Ok a else right'
  | _ => a <- left' ;; b <- right' ;; apply_binop op a b
  end.

(** An if block on a comparison, with a text body. *)
Definition comparison_block (op : binop) (l r : operand) (text : string)
    : string :=
  "{{#if " ++ comparison (operator_name op) (operand_text l) (operand_text r)
  ++ "}}" ++ text ++ "{{/if}}".

(** A run of white space. *)
Definition is_white (ws : string) : bool :=
  negb (is_empty ws) && forallb is_space ws.

(** A condition with any white space between its parts: the run [ws] after
    the operator, and the white space [s] before the right operand; the
    white space before [s] belongs to the left operand, which the code
    trims. *)
Definition spaced_comparison (operator ws left' : string) (s : ascii)
    (right' : string) : string :=
  "(" ++ operator ++ ws ++ left' ++ String s (right' ++ ")").

(** *** Templates whose loop variables stay out of sight

    The names of the loop variables differ between two compilations.  They
    stay out of sight when the generated code uses them as variables only:
    not inside a string literal, not as part of another name, and not
    named by the template itself. *)

(** A name with the prefix of a loop variable. *)
Definition loop_like (x : string) : bool :=
  startsWith x "item_" || startsWith x "index_" || startsWith x "items_".

(** Expression text that reads no loop variable: a literal, a member chain
    from another name, or text outside the fragment. *)
Definition closed_text (text : string) : bool :=
  match parse_atom text with
  | Some (Atom (BIdent x) _) => negb (loop_like x)
  | _ => true
  end.

(** Text that is one literal or one dotted name. *)
Definition is_atom (text : string) : bool :=
  match parse_atom text with
  | Some _ => true
  | None => false
  end.

(** The text that [_compileComplexExpression] validates: the expression
    with [@index] and a leading [this] rewritten. *)
Definition rewritten (expression : string)
    (loopContext : option loopContext) : string :=
  let jsExpr := expression in
  let jsExpr :=
    if includes jsExpr "@index" then
      match loopContext with
      | Some lc =>
          if negb (is_empty (indexName lc))
          then replaceAll "@index" (indexName lc) jsExpr
          else replaceAll "@index" "0" jsExpr
      | None => replaceAll "@index" "0" jsExpr
      end
    else jsExpr in
  match loopContext with
  | Some lc =>
      if String.eqb jsExpr "this" then itemName lc
      else if startsWith jsExpr "this."
      then (itemName lc ++ "." ++ slice 5 jsExpr)%string
      else jsExpr
  | None => jsExpr
  end.

(** The scope of a loop whose identifier is the empty draw. *)
Definition bare_scope : option loopContext :=
  Some (LoopContext "item_" "index_" None).

(** Nothing, or a dot and an identifier path. *)
Definition is_member_tail (s : string) : bool :=
  match parse_members s with
  | Some _ => true
  | None => false
  end.

(** An expression that is a loop variable, or a path from one: [@index] or
    [this], and nothing or a dotted path after it. *)
Definition own_variable (e : string) : bool :=
  (startsWith e "@index" && is_member_tail (slice 6 e))
  || (startsWith e "this" && is_member_tail (slice 4 e)).

(** An expression whose rewriting depends on the loop around it. *)
Definition depends_on_scope (e : string) : bool :=
  includes e "@index" || String.eqb e "this" || startsWith e "this.".

(** Free-form text in or outside a loop.  In a loop, text that depends on
    the scope is a loop variable or a path from one, or its rewriting is
    neither one literal nor one dotted name, so that the name written into
    it is no part of a string or of another name. *)
Definition scoped_complex (inLoop : bool) (e : string) : bool :=
  if inLoop && depends_on_scope e
  then own_variable e || negb (is_atom (rewritten e bare_scope))
  else closed_text (rewritten e None).

(** The tests follow the order of [_generateAccessCode]. *)
Definition scoped_expression (inLoop : bool) (e : string) : bool :=
  if String.eqb e "this" then true
  else if startsWith e "this." then
    let prop := slice 5 e in
    negb inLoop
    || negb (includes prop "@index")
    || negb (is_identifier_path (replaceAll "@index" "index_" prop))
  else if _isComplexExpression e then scoped_complex inLoop e
  else true.

(** The tests follow the order of [_generateComparisonOperand]. *)
Definition scoped_operand (inLoop : bool) (operand : string) : bool :=
  let operand := trim operand in
  if (startsWith operand "'" && endsWith operand "'")
     || (startsWith operand (String "034" EmptyString)
         && endsWith operand (String "034" EmptyString))
  then closed_text operand
  else if negb (isNaN operand) && negb (is_empty (trim operand))
  then closed_text operand
  else if _isComplexExpression operand then scoped_complex inLoop operand
  else scoped_expression inLoop operand.

(** The tests follow the order of [_generateConditionCode]. *)
Definition scoped_condition (inLoop : bool) (condition : string) : bool :=
  let condition := trim condition in
  match comparisonMatch condition with
  | Some (_, left', right') =>
      scoped_operand inLoop (trim left') && scoped_operand inLoop (trim right')
  | None =>
      if _isComplexExpression condition
      then scoped_expression inLoop condition
      else true
  end.

Fixpoint scoped_node (inLoop : bool) (n : node) : bool :=
  match n with
  | Text _ => true
  | Variable' e => scoped_expression inLoop e
  | RawVariable e => scoped_expression inLoop e
  | If c children =>
      scoped_condition inLoop c && List.forallb (scoped_node inLoop) children
  | Each items children =>
      scoped_expression inLoop items && List.forallb (scoped_node true) children
  | Root children => List.forallb (scoped_node inLoop) children
  end.

Definition scoped_template (template : string) : bool :=
  match tokens <- tokenize template ;; parse tokens with
  | Ok ast => scoped_node false ast
  | _ => true
  end.

(** *** Templates without each block *)

Fixpoint no_each (n : node) : bool :=
  match n with
  | Each _ _ => false
  | If _ children => List.forallb no_each children
  | Root children => List.forallb no_each children
  | _ => true
  end.

Definition each_free (template : string) : bool :=
  match tokens <- tokenize template ;; parse tokens with
  | Ok ast => no_each ast
  | _ => true
  end.

(** An each block whose body reads a name of its own that looks like a
    loop variable. *)
Definition names_loop_variable : string :=
  "{{#each xs}}{{item_a.length}}{{/each}}".

(** *** Two compilations of one template *)

(** The loop context of the loop whose identifier is the draw [k]; no
    context outside every loop. *)
Definition lc_of (ids : nat -> string) (draw : option nat)
    (outer : option loopContext) : option loopContext :=
  match draw with
  | None => None
  | Some k =>
      Some (LoopContext ("item_" ++ ids k) ("index_" ++ ids k) outer)
  end.

Definition in_loop (draw : option nat) : bool :=
  match draw with
  | Some _ => true
  | None => false
  end.

(** Two texts that differ only where one holds the name [r1] and the other
    the name [r2]. *)
Inductive alike (r1 r2 : string) : string -> string -> Prop :=
| alike_nil : alike r1 r2 EmptyString EmptyString
| alike_char c s1 s2 :
    alike r1 r2 s1 s2 -> alike r1 r2 (String c s1) (String c s2)
| alike_name s1 s2 :
    alike r1 r2 s1 s2 -> alike r1 r2 (r1 ++ s1) (r2 ++ s2).

(** The pattern of identifier paths, read character by character: [start]
    holds where an identifier has to begin. *)
Fixpoint path_machine (start : bool) (s : string) : bool :=
  match s with
  | EmptyString => negb start
  | String c s' =>
      if start then is_ident_start c && path_machine false s'
      else if Ascii.eqb c "." then path_machine true s'
      else is_ident_part c && path_machine false s'
  end.

(** The first of the dot-separated parts of a text. *)
Definition first_part (s : string) : string :=
  take (span_len (fun c => negb (Ascii.eqb c ".")) s) s.

Definition has_underscore (s : string) : bool :=
  existsb (fun c => Ascii.eqb c "_") s.

(** [w] and [r] differ at a place both reach. *)
Fixpoint conflicts (w r : string) : bool :=
  match w, r with
  | String c w', String d r' =>
      if Ascii.eqb c d then conflicts w' r' else true
  | _, _ => false
  end.

Section TwoCompilations.

Variables ids1 ids2 : nat -> string.

(** The two sequences of draws repeat themselves at the same places. *)
Definition same_collisions : Prop :=
  forall k k', ids1 k = ids1 k' <-> ids2 k = ids2 k'.

(** The names that the draw [k] gives to one variable in the two
    compilations. *)
Inductive twin_of (k : nat) : string -> string -> Prop :=
| twin_items : twin_of k ("items_" ++ ids1 k) ("items_" ++ ids2 k)
| twin_index : twin_of k ("index_" ++ ids1 k) ("index_" ++ ids2 k)
| twin_item : twin_of k ("item_" ++ ids1 k) ("item_" ++ ids2 k).

Variable bound : nat.

Definition twin (x1 x2 : string) : Prop :=
  exists k, k < bound /\ twin_of k x1 x2.

(** Twin variables hold one value, and every name that is no loop variable
    is bound alike. *)
Definition env_rel (e1 e2 : env) : Prop :=
  (forall x, loop_like x = false -> lookup x e1 = lookup x e2)
  /\ forall x1 x2, twin x1 x2 ->
       exists v, lookup x1 e1 = Some v /\ lookup x2 e2 = Some v.

Definition state_rel (st1 st2 : state) : Prop :=
  env_rel (vars st1) (vars st2) /\ output st1 = output st2.

(** Code that differs in the names of twin variables only. *)
Inductive code_sim : code -> code -> Prop :=
| sim_get path : code_sim (CGet path) (CGet path)
| sim_closed text :
    closed_text text = true -> code_sim (CText text) (CText text)
| sim_opaque text1 text2 :
    is_atom text1 = false -> is_atom text2 = false ->
    code_sim (CText text1) (CText text2)
| sim_own k x1 x2 tail :
    k < bound ->
    twin_of k x1 x2 ->
    is_member_tail tail = true ->
    code_sim (CText (x1 ++ tail)) (CText (x2 ++ tail))
| sim_not c1 c2 : code_sim c1 c2 -> code_sim (CNotNot c1) (CNotNot c2)
| sim_bin op l1 l2 r1 r2 :
    code_sim l1 l2 -> code_sim r1 r2 ->
    code_sim (CBin op l1 r1) (CBin op l2 r2).

Inductive stmt_sim : stmt -> stmt -> Prop :=
| sim_push_text value : stmt_sim (SPushText value) (SPushText value)
| sim_push_raw c1 c2 : code_sim c1 c2 -> stmt_sim (SPushRaw c1) (SPushRaw c2)
| sim_push_escaped c1 c2 :
    code_sim c1 c2 -> stmt_sim (SPushEscaped c1) (SPushEscaped c2)
| sim_if c1 c2 body1 body2 :
    code_sim c1 c2 -> Forall2 stmt_sim body1 body2 ->
    stmt_sim (SIf c1 body1) (SIf c2 body2)
| sim_each k c1 c2 body1 body2 :
    k < bound ->
    code_sim c1 c2 -> Forall2 stmt_sim body1 body2 ->
    stmt_sim
      (SEach ("items_" ++ ids1 k) ("index_" ++ ids1 k) ("item_" ++ ids1 k)
         c1 body1)
      (SEach ("items_" ++ ids2 k) ("index_" ++ ids2 k) ("item_" ++ ids2 k)
         c2 body2).

End TwoCompilations.

(** Code generated in the scope of the loop of the draw [draw], if any:
    it is in relation under every bound above that draw. *)
Definition code_sim_in (ids1 ids2 : nat -> string) (draw : option nat)
    (c1 c2 : code) : Prop :=
  forall bound,
    (forall k, draw = Some k -> k < bound) -> code_sim ids1 ids2 bound c1 c2.

(** Lines generated in that scope, with the number of draws made. *)
Definition lines_sim (ids1 ids2 : nat -> string) (draw : option nat)
    (r1 r2 : list stmt * nat) : Prop :=
  snd r1 = snd r2
  /\ forall bound,
      snd r1 <= bound ->
      (forall k, draw = Some k -> k < bound) ->
      Forall2 (stmt_sim ids1 ids2 bound) (fst r1) (fst r2)
      /\ in_fragment (fst r1) = in_fragment (fst r2).

(** No part of [w] from some place on runs into the start of a name. *)
Fixpoint clear_of_names (w : string) : bool :=
  match w with
  | EmptyString => true
  | String _ w' => conflicts w "index_" && clear_of_names w'
  end.

(** The member names of a dotted tail. *)
Definition tail_members (tail : string) : list string :=
  match parse_members tail with
  | Some ms => ms
  | None => []
  end.

(** *** Objects held by reference *)

Definition is_elements (h : Heap.heap) (address : nat) : bool :=
  match nth_error h address with
  | Some (Heap.Elements _) => true
  | _ => false
  end.

(** The property that a write along [keys] assigns in an object that is
    there before the write: the first missing property on the way, where
    the new objects are hung, or the last key in the target. *)
Fixpoint written_slot (h : Heap.heap) (keys : list string)
    (current : Heap.ref) : option (nat * string) :=
  match keys with
  | [] => None
  | key :: keys' =>
      match current with
      | Heap.RObject a =>
          match keys' with
          | [] => Some (a, key)
          | _ =>
              match Heap.get_prop h current key with
              | Ok v =>
                  if Heap.is_undefined v then Some (a, key)
                  else written_slot h keys' v
              | _ => None
              end
          end
      | _ => None
      end
  end.

(** The properties that [_getValue] reads in objects on its way. *)
Fixpoint reads (h : Heap.heap) (keys : list string) (current : Heap.ref)
    : list (nat * string) :=
  match keys with
  | [] => []
  | key :: keys' =>
      match current with
      | Heap.RObject a => [(a, key)]
      | _ => []
      end
      ++ match Heap.getValue_step h current key with
         | Ok next => reads h keys' next
         | _ => []
         end
  end.

(** A read of the property [s] meets the write of the property [w]: it is
    the same property of one object, or a property of the array that is
    written, whose length may change with the write. *)
Definition meets (h : Heap.heap) (w s : nat * string) : bool :=
  Nat.eqb (fst w) (fst s)
  && (String.eqb (snd w) (snd s) || is_elements h (fst w)).

(** Reads of objects of the heap that do not meet the write. *)
Definition apart (h : Heap.heap) (w : nat * string)
    (l : list (nat * string)) : bool :=
  List.forallb
    (fun s => Nat.ltb (fst s) (List.length h) && negb (meets h w s)) l.

(** An object with two properties that hold one object:
    [s = {b: 1}; o = {a: s, c: s}]. *)
Definition shared_heap : Heap.heap :=
  [Heap.Plain [("a", Heap.RObject 1); ("c", Heap.RObject 1)];
   Heap.Plain [("b", Heap.RNumber 1)]].

(** An object whose properties hold two objects:
    [o = {a: {b: 1}, c: {b: 1}}]. *)
Definition unshared_heap : Heap.heap :=
  [Heap.Plain [("a", Heap.RObject 1); ("c", Heap.RObject 2)];
   Heap.Plain [("b", Heap.RNumber 1)];
   Heap.Plain [("b", Heap.RNumber 1)]].

End Props.

(** * Properties *)

Import Tokenizer Parser Host Utils Code Compiler Props.

(** ** Strings *)

Lemma last_char_cons (c : ascii) (s : string) :
  s <> EmptyString -> last_char (String c s) = last_char s.
Proof. destruct s; [congruence | reflexivity]. Qed.

Lemma trimEnd_last (s : string) (c : ascii) :
  last_char (trimEnd s) = Some c -> is_space c = false.
Proof.
  revert c; induction s as [|a s IH]; intros c; simpl; [discriminate|].
  destruct (trimEnd s) as [|d t] eqn:E.
  - destruct (is_space a) eqn:Ea; simpl; [discriminate|].
    intros [= <-]; exact Ea.
  - rewrite last_char_cons by discriminate. apply IH.
Qed.

Lemma trim_last (s : string) (c : ascii) :
  last_char (trim s) = Some c -> is_space c = false.
Proof. apply trimEnd_last. Qed.

Lemma trimStart_keeps_last (s : string) (c : ascii) :
  last_char s = Some c -> is_space c = false ->
  last_char (trimStart s) = Some c.
Proof.
  induction s as [|a s IH]; simpl; [discriminate|].
  intros Hl Hc. destruct (is_space a) eqn:Ea; [|exact Hl].
  destruct s as [|b s'].
  - injection Hl as ->. congruence.
  - apply IH; assumption.
Qed.

Lemma trimEnd_keeps_last (s : string) (c : ascii) :
  last_char s = Some c -> is_space c = false ->
  last_char (trimEnd s) = Some c.
Proof.
  induction s as [|a s IH]; [discriminate|].
  intros Hl Hc. destruct s as [|b s'].
  - simpl in *. injection Hl as ->. rewrite Hc. reflexivity.
  - specialize (IH Hl Hc). change (trimEnd (String a (String b s')))
      with (match trimEnd (String b s') with
            | EmptyString =>
                if is_space a then EmptyString else String a EmptyString
            | t => String a t
            end).
    destruct (trimEnd (String b s')) as [|d t]; [discriminate|].
    rewrite last_char_cons by discriminate. exact IH.
Qed.

Lemma trim_nonempty (s : string) (c : ascii) :
  last_char s = Some c -> is_space c = false -> is_empty (trim s) = false.
Proof.
  intros Hl Hc. unfold trim.
  pose proof (trimEnd_keeps_last _ _ (trimStart_keeps_last _ _ Hl Hc) Hc) as H.
  destruct (trimEnd (trimStart s)); [discriminate | reflexivity].
Qed.

(** A trimmed text that starts with [#if ] carries a condition. *)
Lemma last_char_none (s : string) : last_char s = None -> s = EmptyString.
Proof.
  induction s as [|a s IH]; [reflexivity|]. simpl.
  destruct s; [discriminate|]. intros H. specialize (IH H). discriminate IH.
Qed.

Lemma trimmed_if_has_condition (x : string) :
  startsWith (trim x) "#if " = true ->
  is_empty (trim (slice 4 (trim x))) = false.
Proof.
  intros Hp. pose proof (trim_last x) as Hl. unfold startsWith in Hp.
  destruct (trim x) as [|c1 [|c2 [|c3 [|c4 r]]]]; simpl in Hp;
    repeat match type of Hp with
           | (if ?d then _ else _) = true => destruct d; [|discriminate Hp]
           | false = true => discriminate Hp
           end.
  subst. simpl slice.
  destruct r as [|d r'].
  - specialize (Hl " "%char eq_refl). discriminate Hl.
  - destruct (last_char (String d r')) as [c|] eqn:E.
    + apply trim_nonempty with c; [exact E|].
      apply Hl. exact E.
    + apply last_char_none in E. discriminate E.
Qed.

(** ** Scanner *)

Lemma get_in_range (s : string) (n : nat) (c : ascii) :
  String.get n s = Some c -> n < String.length s.
Proof.
  revert n; induction s as [|a s IH]; intros [|n]; simpl; try discriminate.
  - lia.
  - intros H. apply IH in H. lia.
Qed.

Lemma char_is_in_range (s : string) (n : nat) (c : ascii) :
  char_is s n c = true -> Nat.ltb n (String.length s) = true.
Proof.
  unfold char_is. destruct (String.get n s) eqn:E; [|discriminate].
  intros _. apply Nat.ltb_lt. eapply get_in_range; eassumption.
Qed.

Lemma processExpression_raw (expression : string) (tokens : list token) :
  _processExpression expression true tokens = Ok (tokens ++ [RAW expression]).
Proof. reflexivity. Qed.

(** One turn of the scanner's loop at a triple opener. *)
Lemma tokenize_loop_raw (fuel : nat) (template : string) (position : nat)
    (textBuffer : string) (tokens : list token) (closeIndex : nat) :
  char_is template position "{" = true ->
  char_is template (position + 1) "{" = true ->
  char_is template (position + 2) "{" = true ->
  indexOf template "}}}" (position + 3) = Some closeIndex ->
  tokenize_loop (S fuel) template position textBuffer tokens =
  tokenize_loop fuel template (closeIndex + 3) EmptyString
    (flush textBuffer tokens
     ++ [RAW (trim (substring (position + 3) closeIndex template))]).
Proof.
  intros H0 H1 H2 Hi. simpl.
  rewrite (char_is_in_range _ _ _ H0), (char_is_in_range _ _ _ H1),
    (char_is_in_range _ _ _ H2), H0, H1, H2. simpl.
  rewrite Hi. reflexivity.
Qed.

Lemma prefix_other_char (c d : ascii) (p s : string) :
  Ascii.eqb d c = false -> String.prefix (String c p) (String d s) = false.
Proof.
  intros H. cbn [String.prefix].
  destruct (ascii_dec c d) as [->|_]; [|reflexivity].
  rewrite Ascii.eqb_refl in H. discriminate H.
Qed.

Lemma index_after_content (content : string) :
  no_close_brace content = true ->
  String.index 0 "}}}" (content ++ "}}}") = Some (String.length content).
Proof.
  induction content as [|c s IH]; [reflexivity|].
  intros H. apply andb_true_iff in H as [Hc Hs].
  apply negb_true_iff in Hc.
  cbn [append String.index String.length].
  rewrite (prefix_other_char _ _ _ _ Hc), (IH Hs). reflexivity.
Qed.

Lemma substring_prefix (a b : string) :
  String.substring 0 (String.length a) (a ++ b) = a.
Proof.
  induction a as [|c a IH]; simpl.
  - destruct b; reflexivity.
  - rewrite IH. reflexivity.
Qed.

Lemma length_append (a b : string) :
  String.length (a ++ b) = String.length a + String.length b.
Proof. induction a; simpl; congruence. Qed.

Lemma tokenize_raw_marker (content : string) :
  no_close_brace content = true ->
  tokenize ("{{{" ++ content ++ "}}}") = Ok [RAW (trim content)].
Proof.
  intros H. unfold tokenize.
  change (String.length ("{{{" ++ content ++ "}}}"))
    with (S (S (S (String.length (content ++ "}}}"))))).
  cbv beta iota delta [Nat.eqb].
  rewrite (tokenize_loop_raw _ _ 0 _ _ (String.length content + 3)).
  - rewrite length_append. simpl String.length.
    replace (String.length content + 3 + 3) with (S (S (S (String.length content + 3)))) by lia.
    simpl tokenize_loop.
    replace (Nat.ltb (S (S (S (String.length content + 3))))
               (S (S (S (String.length (content ++ "}}}")))))) with false.
    2:{ symmetry. apply Nat.ltb_ge. rewrite length_append. simpl. lia. }
    unfold substring. simpl.
    replace (String.length content + 3 - 3) with (String.length content) by lia.
    rewrite substring_prefix. reflexivity.
  - reflexivity.
  - reflexivity.
  - reflexivity.
  - unfold indexOf. simpl. rewrite (index_after_content _ H).
    f_equal. lia.
Qed.

(** C10.  A triple-delimited marker becomes a [RAW] token that carries the
    trimmed text between the opener and the next triple closer, whatever
    that text is: [_processExpression] never classifies raw content, the
    scanner's loop pushes exactly that token at a triple opener, and a
    template made of one raw marker scans to that single token. *)
Theorem C10_triple_delimited_is_raw :
  (forall expression tokens,
      _processExpression expression true tokens
      = Ok (tokens ++ [RAW expression]))
  /\ (forall fuel template position textBuffer tokens closeIndex,
      char_is template position "{" = true ->
      char_is template (position + 1) "{" = true ->
      char_is template (position + 2) "{" = true ->
      indexOf template "}}}" (position + 3) = Some closeIndex ->
      tokenize_loop (S fuel) template position textBuffer tokens =
      tokenize_loop fuel template (closeIndex + 3) EmptyString
        (flush textBuffer tokens
         ++ [RAW (trim (substring (position + 3) closeIndex template))]))
  /\ (forall content,
      no_close_brace content = true ->
      tokenize ("{{{" ++ content ++ "}}}") = Ok [RAW (trim content)]).
Proof.
  split; [exact processExpression_raw|].
  split; [exact tokenize_loop_raw | exact tokenize_raw_marker].
Qed.

Lemma C10_witness :
  no_close_brace " #if x " = true
  /\ tokenize "{{{ #if x }}}" = Ok [RAW "#if x"]
  /\ tokenize "{{{/each}}}" = Ok [RAW "/each"]
  /\ tokenize "{{{#if }}}" = Ok [RAW "#if"]
  /\ indexOf "ab{{{ /if }}}" "}}}" (2 + 3) = Some 10
  /\ tokenize_loop 3 "ab{{{ /if }}}" 2 "ab" []
     = tokenize_loop 2 "ab{{{ /if }}}" (10 + 3) EmptyString
         (flush "ab" [] ++ [RAW (trim (substring (2 + 3) 10 "ab{{{ /if }}}"))]).
Proof.
  split; [reflexivity|].
  split; [exact (proj2 (proj2 C10_triple_delimited_is_raw) " #if x " eq_refl)|].
  split; [exact (proj2 (proj2 C10_triple_delimited_is_raw) "/each" eq_refl)|].
  split; [exact (proj2 (proj2 C10_triple_delimited_is_raw) "#if " eq_refl)|].
  split; [reflexivity|].
  exact (proj1 (proj2 C10_triple_delimited_is_raw) 2 "ab{{{ /if }}}" 2 "ab" []
           10 eq_refl eq_refl eq_refl eq_refl).
Defined.

Lemma processExpression_never_if_error (x : string) (isRaw : bool)
    (tokens : list token) :
  _processExpression (trim x) isRaw tokens
  <> Throw (Error "If directive requires a condition").
Proof.
  unfold _processExpression. destruct isRaw; [discriminate|].
  destruct (startsWith (trim x) "#if ") eqn:E.
  - rewrite (trimmed_if_has_condition _ E). discriminate.
  - repeat match goal with
           | |- (if ?b then _ else _) <> _ => destruct b
           end; discriminate.
Qed.

Lemma tokenize_loop_never_if_error (fuel : nat) (template : string)
    (position : nat) (textBuffer : string) (tokens : list token) :
  tokenize_loop fuel template position textBuffer tokens
  <> Throw (Error "If directive requires a condition").
Proof.
  revert position textBuffer tokens.
  induction fuel as [|fuel IH]; intros position textBuffer tokens; simpl;
    [discriminate|].
  destruct (Nat.ltb position (String.length template)); [|discriminate].
  match goal with |- (if ?b then _ else _) <> _ => destruct b end.
  - match goal with
    | |- match indexOf ?t ?m ?n with _ => _ end <> _ =>
        destruct (indexOf t m n) as [closeIndex|]
    end; [|discriminate].
    match goal with
    | |- bind ?m _ <> _ => pose proof (processExpression_never_if_error
        (substring
           (if Nat.ltb (position + 2) (String.length template)
               && char_is template (position + 2) "{"
            then position + 3 else position + 2) closeIndex template)
        (Nat.ltb (position + 2) (String.length template)
         && char_is template (position + 2) "{")
        (flush textBuffer tokens)) as Hp; destruct m
    end; simpl; try discriminate; [apply IH | exact Hp].
  - destruct (String.get position template); [apply IH | discriminate].
Qed.

(** C8 (defect of the code).  The marker [{{#if }}] is scanned without
    error into a variable token whose expression is [#if]: the inner text
    is trimmed before it is compared with [#if ], so the guard that
    raises the error for a missing condition is never reached, on any
    template. *)
Theorem C8_if_without_condition_is_not_rejected :
  tokenize "{{#if }}" = Ok [VAR "#if"]
  /\ tokenize "{{#if}}" = Ok [VAR "#if"]
  /\ forall template,
      tokenize template <> Throw (Error "If directive requires a condition").
Proof.
  split; [reflexivity|]. split; [reflexivity|].
  intros template. unfold tokenize.
  destruct (Nat.eqb (String.length template) 0); [discriminate|].
  apply tokenize_loop_never_if_error.
Qed.

Lemma C8_witness :
  tokenize "{{#if }}x{{/if}}" <> Throw (Error "If directive requires a condition").
Proof.
  exact (proj2 (proj2 C8_if_without_condition_is_not_rejected)
           "{{#if }}x{{/if}}").
Defined.

(** ** Tree builder *)

Lemma scan_stops_ge (tokens : list token) :
  forall open start position,
    scan open tokens start = Stops position -> start <= position.
Proof.
  induction tokens as [|t rest IH]; intros open start position; simpl.
  - destruct open; [intros [= <-]; lia | discriminate].
  - destruct t; try (intros H; apply IH in H; lia);
      (destruct open as [|b open'];
       [intros [= <-]; lia
       |destruct (closes b _); [intros H; apply IH in H; lia | discriminate]]).
Qed.

Lemma resume_cons (b : block) (t : token) (rest : list token)
    (start position : nat) :
  S start <= position ->
  resume b (t :: rest) start position = resume b rest (S start) position.
Proof.
  intros H. unfold resume.
  replace (position - start) with (S (position - S start)) by lia.
  reflexivity.
Qed.

Lemma scan_under (b : block) (tokens : list token) :
  forall open start,
    scan (open ++ [b]) tokens start =
    match scan open tokens start with
    | Stops position => resume b tokens start position
    | UnclosedBlock b' => UnclosedBlock b'
    end.
Proof.
  induction tokens as [|t rest IH]; intros open start.
  - destruct open; simpl; [|reflexivity].
    unfold resume. rewrite Nat.sub_diag. reflexivity.
  - assert (Hskip : forall open',
        scan (open' ++ [b]) rest (S start) =
        match scan open' rest (S start) with
        | Stops position => resume b (t :: rest) start position
        | UnclosedBlock b' => UnclosedBlock b'
        end).
    { intros open'. rewrite IH.
      destruct (scan open' rest (S start)) eqn:E; [|reflexivity].
      apply scan_stops_ge in E. rewrite resume_cons by lia. reflexivity. }
    destruct t; simpl;
      try apply Hskip;
      try apply (Hskip (_ :: open)).
    + destruct open as [|b' open']; simpl.
      * unfold resume. rewrite Nat.sub_diag. simpl.
        destruct b; reflexivity.
      * destruct (closes b' IF_END); [apply Hskip | reflexivity].
    + destruct open as [|b' open']; simpl.
      * unfold resume. rewrite Nat.sub_diag. simpl.
        destruct b; reflexivity.
      * destruct (closes b' EACH_END); [apply Hskip | reflexivity].
Qed.

Lemma skipn_nth_error {A : Type} (l : list A) (n : nat) :
  skipn n l = match nth_error l n with
              | Some x => x :: skipn (S n) l
              | None => []
              end.
Proof.
  revert n; induction l as [|a l IH]; intros [|n]; simpl; try reflexivity.
  apply IH.
Qed.

Lemma nth_error_skipn {A : Type} (l : list A) (n m : nat) :
  nth_error (skipn n l) m = nth_error l (n + m).
Proof.
  revert n; induction l as [|a l IH]; intros [|n]; simpl; try reflexivity.
  - destruct m; reflexivity.
  - apply IH.
Qed.

Lemma type_closes (b : block) (t : token) :
  String.eqb (type t) (match b with IfBlock => "IF_END" | EachBlock => "EACH_END" end)
  = closes b t.
Proof. destruct b, t; reflexivity. Qed.

(** The builder's loop follows the reading of the specification. *)
Lemma parse_loop_scan (fuel : nat) (tokens : list token) :
  forall position nodes,
    position <= List.length tokens ->
    List.length tokens < fuel + position ->
    match scan [] (skipn position tokens) position with
    | Stops stop =>
        exists nodes', parse_loop fuel tokens position nodes = Ok (nodes', stop)
    | UnclosedBlock b =>
        parse_loop fuel tokens position nodes = Throw (unclosed_error b)
    end.
Proof.
  induction fuel as [|fuel IH]; intros position nodes Hpos Hfuel; [lia|].
  assert (Hblock : forall b startType nodeType startToken,
    nth_error tokens position = Some startToken ->
    type startToken = startType ->
    startType = match b with IfBlock => "IF_START" | EachBlock => "EACH_START" end ->
    nodeType = match b with IfBlock => "If" | EachBlock => "Each" end ->
    match scan [b] (skipn (S position) tokens) (S position) with
    | Stops stop =>
        exists nodes',
          ('(node, nextPosition) <-
             _parseBlock (fun ts p => parse_loop fuel ts p []) tokens position
               startType
               (match b with IfBlock => "IF_END" | EachBlock => "EACH_END" end)
               nodeType ;;
           parse_loop fuel tokens nextPosition (nodes ++ [node]))
          = Ok (nodes', stop)
    | UnclosedBlock b' =>
        ('(node, nextPosition) <-
           _parseBlock (fun ts p => parse_loop fuel ts p []) tokens position
             startType
             (match b with IfBlock => "IF_END" | EachBlock => "EACH_END" end)
             nodeType ;;
         parse_loop fuel tokens nextPosition (nodes ++ [node]))
        = Throw (unclosed_error b')
    end).
  { intros b startType nodeType startToken Hnth Htype HstartType HnodeType.
    rewrite (scan_under b _ [] (S position)). simpl app.
    unfold _parseBlock. rewrite Hnth, Htype, String.eqb_refl. simpl negb.
    cbv iota. replace (position + 1) with (S position) by lia.
    assert (Hin : position < List.length tokens)
      by (apply nth_error_Some; congruence).
    pose proof (IH (S position) [] ltac:(lia) ltac:(lia)) as Hinner.
    destruct (scan [] (skipn (S position) tokens) (S position)) as [stop|b'] eqn:E.
    - destruct Hinner as [inner Hinner]. rewrite Hinner. simpl bind.
      apply scan_stops_ge in E. unfold resume.
      rewrite nth_error_skipn.
      replace (S position + (stop - S position)) with stop by lia.
      destruct (nth_error tokens stop) as [t|] eqn:Et.
      + rewrite type_closes.
        assert (Hstop : stop < List.length tokens)
          by (apply nth_error_Some; congruence).
        assert (Hlen : Nat.leb (List.length tokens) stop = false)
          by (apply Nat.leb_gt; exact Hstop).
        rewrite Hlen. simpl orb.
        destruct (closes b t) eqn:Ec; simpl negb; cbv iota.
        * rewrite skipn_skipn.
          replace (S (stop - S position) + S position) with (S stop) by lia.
          pose proof (IH (S stop)) as Hnext.
          rewrite HstartType in Htype. rewrite HnodeType.
          destruct b, startToken; try discriminate Htype;
            rewrite String.eqb_refl; cbn [bind];
            replace (stop + 1) with (S stop) by lia;
            apply Hnext; lia.
        * rewrite HstartType. destruct b; reflexivity.
      + rewrite orb_true_r. rewrite HstartType. destruct b; reflexivity.
    - rewrite Hinner. reflexivity. }
  rewrite (skipn_nth_error tokens position).
  cbn [parse_loop].
  destruct (nth_error tokens position) as [token|] eqn:Hnth.
  2:{ simpl. eauto. }
  assert (Hin : position < List.length tokens)
    by (apply nth_error_Some; congruence).
  destruct token; cbn [scan];
    try (replace (position + 1) with (S position) by lia; apply IH; lia);
    try (eexists; reflexivity).
  - exact (Hblock IfBlock "IF_START" "If" _ eq_refl eq_refl eq_refl eq_refl).
  - exact (Hblock EachBlock "EACH_START" "Each" _ eq_refl eq_refl eq_refl
             eq_refl).
Qed.

(** The builder never runs out of fuel, and its outcome is the one the
    reading of the specification predicts. *)
Lemma parse_scan (tokens : list token) :
  match scan [] tokens 0 with
  | Stops stop =>
      if Nat.ltb stop (List.length tokens)
      then parse tokens = Throw (Error "Unexpected tokens at end of template")
      else exists nodes, parse tokens = Ok (Root nodes)
  | UnclosedBlock b => parse tokens = Throw (unclosed_error b)
  end.
Proof.
  pose proof (parse_loop_scan (S (List.length tokens)) tokens 0 []
                ltac:(lia) ltac:(lia)) as H.
  simpl skipn in H. unfold parse, _parseTokens.
  destruct (scan [] tokens 0) as [stop|b].
  - destruct H as [nodes H]. rewrite H. simpl bind.
    destruct (Nat.ltb stop (List.length tokens)); [reflexivity | eauto].
  - rewrite H. reflexivity.
Qed.

(** C7, as the code has it.  The builder reads the tokens from the start.
    When that reading meets an unclosed block -- the tokens run out inside
    it, or the close token that ends it is of the other kind -- the builder
    fails with the unclosed error that names the directive of that block,
    the innermost one open.  A close token met with no block open stops the
    reading, and the builder then fails with the error for unexpected
    tokens, whatever follows.  In particular the templates made of a lone if
    opener and of a lone each opener do not compile. *)
Theorem C7_unclosed_block_is_rejected :
  (forall tokens b,
      scan [] tokens 0 = UnclosedBlock b ->
      parse tokens
      = Throw (Error ("Unclosed {{#" ++ directive b ++ "}} directive")))
  /\ (forall tokens stop,
      scan [] tokens 0 = Stops stop ->
      stop < List.length tokens ->
      parse tokens = Throw (Error "Unexpected tokens at end of template"))
  /\ (forall tokens,
      scan [] tokens 0 = Stops (List.length tokens) ->
      exists nodes, parse tokens = Ok (Root nodes))
  /\ (forall ids,
      Jframe.compile ids "{{#if x}}"
      = Throw (Error "Unclosed {{#if}} directive"))
  /\ (forall ids,
      Jframe.compile ids "{{#each y}}"
      = Throw (Error "Unclosed {{#each}} directive")).
Proof.
  split; [|split; [|split; [|split; intros ids; reflexivity]]].
  - intros tokens b H. pose proof (parse_scan tokens) as P.
    rewrite H in P. exact P.
  - intros tokens stop H Hlt. pose proof (parse_scan tokens) as P.
    rewrite H in P. apply Nat.ltb_lt in Hlt. rewrite Hlt in P. exact P.
  - intros tokens H. pose proof (parse_scan tokens) as P.
    rewrite H, Nat.ltb_irrefl in P. exact P.
Qed.

Lemma C7_witness :
  (scan [] [IF_START "x"; TEXT "a"; EACH_END] 0 = UnclosedBlock IfBlock
   /\ parse [IF_START "x"; TEXT "a"; EACH_END]
      = Throw (Error "Unclosed {{#if}} directive"))
  /\ (scan [] [TEXT "a"; EACH_END; EACH_START "y"] 0 = Stops 1
      /\ 1 < 3
      /\ parse [TEXT "a"; EACH_END; EACH_START "y"]
         = Throw (Error "Unexpected tokens at end of template")).
Proof.
  split.
  - split; [reflexivity|].
    exact (proj1 C7_unclosed_block_is_rejected
             [IF_START "x"; TEXT "a"; EACH_END] IfBlock eq_refl).
  - split; [reflexivity|]. split; [repeat constructor|].
    exact (proj1 (proj2 C7_unclosed_block_is_rejected)
             [TEXT "a"; EACH_END; EACH_START "y"] 1 eq_refl
             (le_n_S _ _ (le_n_S _ _ (le_0_n _)))).
Defined.

(** C7 as stated fails: in the tokens of [{{/if}}{{#if x}}] the if block
    has no close token, yet the builder stops at the stray close token and
    reports unexpected tokens, not an unclosed block. *)
Lemma C7_counterexample : ~ every_unmatched_block_is_reported.
Proof.
  intros H.
  destruct (H [IF_END; IF_START "x"] 1 IfBlock) as [b' Hb'].
  - exists (IF_START "x"). repeat split.
  - destruct b'; discriminate Hb'.
Qed.

(** ** Generated code: variables *)

Lemma exec_push_raw (fuel : nat) (c : code) (rest : list stmt) (st : state)
    (v : value) :
  eval_code (vars st) c = Ok v ->
  exec (S fuel) (SPushRaw c :: rest) st = exec fuel rest (push (toString v) st).
Proof. intros H. simpl. rewrite H. reflexivity. Qed.

Lemma exec_push_escaped (fuel : nat) (c : code) (rest : list stmt)
    (st : state) (v : value) :
  eval_code (vars st) c = Ok v ->
  exec (S fuel) (SPushEscaped c :: rest) st
  = exec fuel rest (push (escapeHtml v) st).
Proof. intros H. simpl. rewrite H. reflexivity. Qed.

(** C5 (defect of the code).  A raw variable appends [String(value)]
    without the test for null that [escapeHtml] makes: a missing value is
    rendered as the text [undefined] and a null one as [null], where the
    escaped variable renders the empty string. *)
Theorem C5_raw_variable_renders_missing_value_as_text :
  (forall ids fuel,
      Jframe.run ids (S (S fuel)) "{{{html}}}" (VObject []) = Ok "undefined")
  /\ (forall ids fuel,
      Jframe.run ids (S (S fuel)) "{{{html}}}" (VObject [("html", VNull)])
      = Ok "null")
  /\ (forall ids fuel,
      Jframe.run ids (S (S fuel)) "{{html}}" (VObject []) = Ok "")
  /\ (forall expression loopContext accessCode,
      _generateAccessCode expression loopContext = Ok accessCode ->
      is_empty (trim expression) = false ->
      _generateVariableCode expression true loopContext
      = Ok [SPushRaw accessCode])
  /\ (forall fuel c st,
      (eval_code (vars st) c = Ok VUndefined ->
       exec (S (S fuel)) [SPushRaw c] st = Ok (push "undefined" st))
      /\ (eval_code (vars st) c = Ok VNull ->
          exec (S (S fuel)) [SPushRaw c] st = Ok (push "null" st))).
Proof.
  split; [|split; [|split; [|split]]].
  - intros. vm_compute. reflexivity.
  - intros. vm_compute. reflexivity.
  - intros. vm_compute. reflexivity.
  - intros expression loopContext accessCode H He.
    unfold _generateVariableCode. rewrite He, H. reflexivity.
  - intros fuel c st. split; intros H;
      rewrite (exec_push_raw _ _ _ _ _ H); reflexivity.
Qed.

Lemma C5_witness :
  _generateVariableCode "html" true None = Ok [SPushRaw (CGet "html")]
  /\ exec 2 [SPushRaw (CGet "html")] (initial [] (VObject []))
     = Ok (push "undefined" (initial [] (VObject []))).
Proof.
  split.
  - exact (proj1 (proj2 (proj2 (proj2
             C5_raw_variable_renders_missing_value_as_text)))
             "html" None (CGet "html") eq_refl eq_refl).
  - exact (proj1 (proj2 (proj2 (proj2 (proj2
             C5_raw_variable_renders_missing_value_as_text)))
             0 (CGet "html") (initial [] (VObject []))) eq_refl).
Defined.

(** ** Generated code: each over a value that is not an array *)

Lemma lookup_head {A : Type} (x : string) (a : A) (l : list (string * A)) :
  lookup x ((x, a) :: l) = Some a.
Proof. simpl. rewrite String.eqb_refl. reflexivity. Qed.

Lemma exec_each_non_array (fuel : nat) (arrayName indexName itemName : string)
    (items : code) (body rest : list stmt) (st : state) (v : value) :
  eval_code (vars st) items = Ok v ->
  isArray v = false ->
  exec (S fuel) (SEach arrayName indexName itemName items body :: rest) st
  = exec fuel rest (assign arrayName v st).
Proof.
  intros He Ha. cbn [exec]. rewrite He. cbn [bind]. unfold read.
  cbn [vars assign]. rewrite lookup_head. cbn [bind]. rewrite Ha.
  reflexivity.
Qed.

Lemma generateEachCode_shape (ids : nat -> string)
    (generate : node -> option loopContext -> gen (list stmt))
    (items : string) (children : list node) (lc : option loopContext)
    (drawn drawn' : nat) (lines : list stmt) :
  _generateEachCode ids generate items children lc drawn = Ok (lines, drawn') ->
  exists itemsCode body,
    _generateAccessCode items lc = Ok itemsCode
    /\ forEach_child generate children
         (Some (LoopContext ("item_" ++ ids drawn) ("index_" ++ ids drawn) lc))
         (S drawn) = Ok (body, drawn')
    /\ lines = [SEach ("items_" ++ ids drawn) ("index_" ++ ids drawn)
                  ("item_" ++ ids drawn) itemsCode body].
Proof.
  unfold _generateEachCode.
  destruct (_generateAccessCode items lc) as [itemsCode| | |]; try discriminate.
  simpl bind.
  destruct (forEach_child generate children _ (S drawn)) as [[body d]| | |];
    try discriminate.
  simpl. intros [= <- <-]. eauto.
Qed.

(** ** Loop identifiers *)

Lemma forallb_append (p : ascii -> bool) (a b : string) :
  forallb p (a ++ b) = forallb p a && forallb p b.
Proof.
  induction a as [|c a IH]; simpl; [reflexivity|].
  rewrite IH, andb_assoc. reflexivity.
Qed.

Lemma forallb_impl (p q : ascii -> bool) (s : string) :
  (forall c, p c = true -> q c = true) ->
  forallb p s = true -> forallb q s = true.
Proof.
  intros Hpq. induction s as [|c s IH]; simpl; [reflexivity|].
  intros H. apply andb_true_iff in H as [Hc Hs].
  rewrite (Hpq _ Hc), (IH Hs). reflexivity.
Qed.

Lemma base36_ident_part (c : ascii) :
  is_base36 c = true -> is_ident_part c = true.
Proof.
  unfold is_base36, is_ident_part, is_ident_start, is_alpha.
  destruct (is_digit c); [intros _; apply orb_true_r|].
  simpl. intros ->. rewrite orb_true_r. reflexivity.
Qed.

Lemma loopId_ident_part (id : string) :
  loopId_ok id = true -> forallb is_ident_part id = true.
Proof.
  unfold loopId_ok. intros H. apply andb_true_iff in H as [H _].
  revert H. apply forallb_impl. exact base36_ident_part.
Qed.

(** The three names of a loop are identifiers. *)
Lemma loop_names_identifiers (id : string) :
  loopId_ok id = true ->
  is_identifier ("items_" ++ id) = true
  /\ is_identifier ("index_" ++ id) = true
  /\ is_identifier ("item_" ++ id) = true.
Proof.
  intros H. apply loopId_ident_part in H.
  unfold is_identifier. simpl. rewrite H. auto.
Qed.

Lemma compile_front (ids : nat -> string) (template : string) (ast : node) :
  (tokens <- tokenize template ;; parse tokens) = Ok ast ->
  Jframe.compile ids template = Compiler.compile ids ast.
Proof.
  unfold Jframe.compile. destruct (tokenize template); simpl; try discriminate.
  intros ->. reflexivity.
Qed.

(** C6.  The code generated for an each block is one statement; when its
    items expression evaluates to a value that is not an array, running it
    only records that value: nothing is appended to the output and nothing
    is raised.  In particular an each block over a string renders the
    empty string. *)
Theorem C6_each_over_non_array_emits_nothing :
  (forall ids generate items children lc drawn drawn' lines,
      _generateEachCode ids generate items children lc drawn
      = Ok (lines, drawn') ->
      forall fuel st v,
        (exists itemsCode,
            _generateAccessCode items lc = Ok itemsCode
            /\ eval_code (vars st) itemsCode = Ok v) ->
        isArray v = false ->
        exists st',
          exec (S (S fuel)) lines st = Ok st' /\ output st' = output st)
  /\ (forall ids fuel,
      loopId_ok (ids 0) = true ->
      Jframe.run ids (S (S fuel)) "{{#each items}}x{{/each}}"
        (VObject [("items", VString "abc")]) = Ok "").
Proof.
  split.
  - intros ids generate items children lc drawn drawn' lines Hgen fuel st v
      [itemsCode [Hc He]] Ha.
    apply generateEachCode_shape in Hgen as [c [body [Hc' [_ ->]]]].
    rewrite Hc in Hc'. injection Hc' as <-.
    rewrite (exec_each_non_array _ _ _ _ _ _ _ _ _ He Ha).
    eexists. split; reflexivity.
  - intros ids fuel Hid. unfold Jframe.run.
    rewrite (compile_front ids _ (Root [Each "items" [Text "x"]]))
      by (vm_compute; reflexivity).
    destruct (loop_names_identifiers _ Hid) as [Ha [Hi Ht]].
    unfold Compiler.compile, _generateJSCode. cbn [forEach_child _generateNodeCode].
    unfold _generateEachCode.
    change (_generateAccessCode "items" None) with (Ok (CGet "items")).
    cbn [bind forEach_child _generateNodeCode app].
    unfold in_fragment. cbn [List.forallb stmt_in_fragment code_in_fragment].
    rewrite Ha, Hi, Ht. cbn [andb bind].
    unfold invoke.
    rewrite (exec_each_non_array _ _ _ _ _ _ _ _ (VString "abc"));
      reflexivity.
Qed.

Lemma C6_witness :
  (loopId_ok "k3f9x2a1b" = true
   /\ Jframe.run (fun _ => "k3f9x2a1b") 2 "{{#each items}}x{{/each}}"
        (VObject [("items", VString "abc")]) = Ok "")
  /\ (isArray (VNumber 7) = false
      /\ exists st',
          exec 2
            [SEach "items_k3f9x2a1b" "index_k3f9x2a1b" "item_k3f9x2a1b"
               (CGet "n") [SPushText "x"]]
            (initial [] (VObject [("n", VNumber 7)])) = Ok st'
          /\ output st' = output (initial [] (VObject [("n", VNumber 7)]))).
Proof.
  split.
  - split; [reflexivity|].
    exact (proj2 C6_each_over_non_array_emits_nothing
             (fun _ => "k3f9x2a1b") 0 eq_refl).
  - split; [reflexivity|].
    exact (proj1 C6_each_over_non_array_emits_nothing draws_a
             (_generateNodeCode draws_a) "n" [Text "x"] None 0 1 _ eq_refl
             0 (initial [] (VObject [("n", VNumber 7)])) (VNumber 7)
             (ex_intro _ (CGet "n") (conj eq_refl eq_refl)) eq_refl).
Defined.

(** ** Identifier paths *)

Lemma identifier_chars (s : string) :
  is_identifier s = true -> forallb is_ident_part s = true.
Proof.
  destruct s as [|c s]; [discriminate|]. simpl.
  intros H. apply andb_true_iff in H as [Hc Hs].
  unfold is_ident_part at 1. rewrite Hc, Hs. reflexivity.
Qed.

Lemma split_dot_acc_chars (s : string) :
  forall cur,
    List.forallb is_identifier (split_dot_acc cur s) = true ->
    forallb is_ident_part cur = true /\ forallb path_char s = true.
Proof.
  induction s as [|c s IH]; intros cur; simpl.
  - rewrite andb_true_r. intros H. split; [apply identifier_chars, H | reflexivity].
  - unfold path_char at 1. destruct (Ascii.eqb c ".") eqn:Ec.
    + simpl. intros H. apply andb_true_iff in H as [Hcur Hrest].
      apply IH in Hrest as [_ Hs]. rewrite Hs, orb_true_r.
      split; [apply identifier_chars, Hcur | reflexivity].
    + intros H. apply IH in H as [Hcur Hs].
      rewrite forallb_append in Hcur. apply andb_true_iff in Hcur as [Hcur Hc].
      simpl in Hc. rewrite andb_true_r in Hc. rewrite Hc, Hs. auto.
Qed.

Lemma identifier_path_chars (s : string) :
  is_identifier_path s = true -> forallb path_char s = true.
Proof. intros H. apply (split_dot_acc_chars s EmptyString H). Qed.

(** A text without the first character of a pattern does not include the
    pattern. *)
Lemma includes_absent_char (a : ascii) (q s : string) :
  forallb (fun c => negb (Ascii.eqb c a)) s = true ->
  includes s (String a q) = false.
Proof.
  unfold includes, indexOf. intros H.
  assert (Hn : String.index 0 (String a q) s = None).
  { induction s as [|c s IH]; [reflexivity|].
    simpl in H. apply andb_true_iff in H as [Hc Hs].
    apply negb_true_iff in Hc. cbn [String.index].
    rewrite (prefix_other_char _ _ _ _ Hc), (IH Hs). reflexivity. }
  rewrite Hn. reflexivity.
Qed.

Lemma path_excludes (a : ascii) (q s : string) :
  path_char a = false ->
  forallb path_char s = true ->
  includes s (String a q) = false.
Proof.
  intros Ha Hs. apply includes_absent_char. revert Hs. apply forallb_impl.
  intros c Hc. apply negb_true_iff. destruct (Ascii.eqb c a) eqn:E; [|reflexivity].
  apply Ascii.eqb_eq in E. subst. congruence.
Qed.

Lemma split_dot_acc_prefix (a s : string) :
  forall cur,
    forallb (fun c => negb (Ascii.eqb c ".")) a = true ->
    split_dot_acc cur (a ++ s) = split_dot_acc (cur ++ a) s.
Proof.
  induction a as [|c a IH]; intros cur; simpl.
  - intros _. f_equal.
    clear. induction cur; simpl; congruence.
  - intros H. apply andb_true_iff in H as [Hc Ha].
    apply negb_true_iff in Hc. rewrite Hc, (IH _ Ha).
    f_equal. clear. induction cur; simpl; congruence.
Qed.

Lemma append_assoc (a b c : string) : ((a ++ b) ++ c = a ++ b ++ c)%string.
Proof. induction a; simpl; congruence. Qed.

Lemma split_dot_acc_first (s : string) :
  forall cur, exists seg rest, split_dot_acc cur s = (cur ++ seg)%string :: rest.
Proof.
  induction s as [|c s IH]; intros cur; simpl.
  - exists EmptyString, []. f_equal. induction cur; simpl; congruence.
  - destruct (Ascii.eqb c ".").
    + exists EmptyString. eexists. f_equal. induction cur; simpl; congruence.
    + destruct (IH (cur ++ String c EmptyString)%string) as [seg [rest H]].
      exists (String c seg), rest. rewrite H, append_assoc. reflexivity.
Qed.

Lemma identifier_path_start (c : ascii) (s : string) :
  is_identifier_path (String c s) = true -> is_ident_start c = true.
Proof.
  unfold is_identifier_path, split_dot. simpl.
  destruct (Ascii.eqb c "."); [discriminate|].
  destruct (split_dot_acc_first s (String c EmptyString)) as [seg [rest ->]].
  simpl. intros H. apply andb_true_iff in H as [H _].
  apply andb_true_iff in H as [H _]. exact H.
Qed.

Lemma ident_start_not_quote_digit (c : ascii) :
  is_ident_start c = true ->
  Ascii.eqb c "'" || Ascii.eqb c "034" = false /\ is_digit c = false.
Proof.
  intros Hc. split.
  - destruct (Ascii.eqb c "'") eqn:E1;
      [apply Ascii.eqb_eq in E1; subst; discriminate Hc|].
    destruct (Ascii.eqb c "034") eqn:E2;
      [apply Ascii.eqb_eq in E2; subst; discriminate Hc|].
    reflexivity.
  - destruct (is_digit c) eqn:E; [|reflexivity]. exfalso.
    revert Hc E. unfold is_ident_start, is_alpha, is_digit, char_code.
    destruct (Ascii.eqb c "_") eqn:E1;
      [apply Ascii.eqb_eq in E1; subst; discriminate|].
    destruct (Ascii.eqb c "$") eqn:E2;
      [apply Ascii.eqb_eq in E2; subst; discriminate|].
    rewrite !orb_false_r. intros H1 H2.
    apply orb_true_iff in H1. apply andb_true_iff in H2 as [H2 H3].
    apply Nat.leb_le in H2, H3.
    destruct H1 as [H1|H1]; apply andb_true_iff in H1 as [H1 H4];
      apply Nat.leb_le in H1, H4; lia.
Qed.

(** The text of an identifier path reads back as a member chain. *)
Lemma parse_atom_identifier_path (text : string) :
  is_identifier_path text = true ->
  parse_atom text
  = match split_dot text with
    | name :: ms =>
        if mem name reserved_words then None else Some (Atom (BIdent name) ms)
    | [] => None
    end.
Proof.
  intros Hp. destruct text as [|c s]; [discriminate Hp|].
  destruct (ident_start_not_quote_digit c (identifier_path_start _ _ Hp))
    as [Hq Hd].
  unfold parse_atom. rewrite Hq, Hd, Hp. reflexivity.
Qed.

Lemma identifier_no_dot (name : string) :
  is_identifier name = true ->
  forallb (fun c => negb (Ascii.eqb c ".")) name = true.
Proof.
  intros Hn. apply identifier_chars in Hn. revert Hn. apply forallb_impl.
  intros c Hc. apply negb_true_iff.
  destruct (Ascii.eqb c ".") eqn:E; [|reflexivity].
  apply Ascii.eqb_eq in E. subst. discriminate Hc.
Qed.

Lemma split_dot_member_chain (name path : string) :
  is_identifier name = true ->
  split_dot (name ++ "." ++ path) = name :: split_dot path.
Proof.
  intros Hn. unfold split_dot.
  rewrite (split_dot_acc_prefix _ _ _ (identifier_no_dot _ Hn)). reflexivity.
Qed.

Lemma split_dot_identifier (name : string) :
  is_identifier name = true -> split_dot name = [name].
Proof.
  intros Hn. unfold split_dot.
  pose proof (split_dot_acc_prefix name EmptyString EmptyString
                (identifier_no_dot _ Hn)) as H.
  replace (name ++ "")%string with name in H
    by (clear; induction name; simpl; congruence).
  rewrite H. reflexivity.
Qed.

(** The text of a member chain on an identifier reads back as that chain. *)
Lemma parse_atom_member_chain (name path : string) :
  is_identifier name = true ->
  mem name reserved_words = false ->
  is_identifier_path path = true ->
  parse_atom (name ++ "." ++ path)
  = Some (Atom (BIdent name) (split_dot path)).
Proof.
  intros Hn Hr Hp. rewrite parse_atom_identifier_path.
  - rewrite (split_dot_member_chain _ _ Hn), Hr. reflexivity.
  - unfold is_identifier_path. rewrite (split_dot_member_chain _ _ Hn).
    simpl. rewrite Hn. exact Hp.
Qed.

Lemma parse_atom_identifier (name : string) :
  is_identifier name = true ->
  mem name reserved_words = false ->
  parse_atom name = Some (Atom (BIdent name) []).
Proof.
  intros Hn Hr. rewrite parse_atom_identifier_path.
  - rewrite (split_dot_identifier _ Hn), Hr. reflexivity.
  - unfold is_identifier_path. rewrite (split_dot_identifier _ Hn).
    simpl. rewrite Hn. reflexivity.
Qed.

(** ** Generated code: paths through [this] *)

Lemma compile_member_chain_top (name path : string) :
  is_identifier name = true ->
  mem name reserved_words = false ->
  is_identifier_path path = true ->
  _compileComplexExpression (name ++ "." ++ path) None
  = Ok (name ++ "." ++ path)%string.
Proof.
  intros Hn Hr Hp. unfold _compileComplexExpression.
  assert (Hchars : forallb path_char (name ++ "." ++ path) = true).
  { rewrite forallb_append. apply andb_true_iff. split.
    - apply identifier_chars in Hn. revert Hn. apply forallb_impl.
      intros c Hc. unfold path_char. rewrite Hc. reflexivity.
    - simpl. apply (identifier_path_chars _ Hp). }
  rewrite (path_excludes "@" _ _ eq_refl Hchars).
  rewrite (path_excludes "=" _ _ eq_refl Hchars).
  rewrite (parse_atom_member_chain _ _ Hn Hr Hp). reflexivity.
Qed.

Lemma generateAccessCode_this_path_top (path : string) :
  is_identifier_path path = true ->
  _generateAccessCode ("this." ++ path) None = Ok (CText ("ctx." ++ path)).
Proof.
  intros Hp. unfold _generateAccessCode.
  change (String.eqb ("this." ++ path) "this") with false.
  change (startsWith ("this." ++ path) "this.") with (String.prefix "" path).
  replace (String.prefix "" path) with true by (destruct path; reflexivity).
  cbv iota. change (slice 5 ("this." ++ path)) with path.
  change ("ctx." ++ path)%string with ("ctx" ++ "." ++ path)%string.
  rewrite (compile_member_chain_top "ctx" path eq_refl eq_refl Hp).
  reflexivity.
Qed.

Lemma eval_member_chain (e : env) (name path : string) :
  is_identifier name = true ->
  mem name reserved_words = false ->
  is_identifier_path path = true ->
  eval_code e (CText (name ++ "." ++ path))
  = (v <- read name e ;; get_chain v (split_dot path)).
Proof.
  intros Hn Hr Hp. cbn [eval_code].
  rewrite (parse_atom_member_chain _ _ Hn Hr Hp). reflexivity.
Qed.

(** C1 (defect of the code).  An expression [this.<path>] of a variable,
    of a raw variable or of a comparison operand is compiled to the plain
    member expression [ctx.<path>], not to the safe lookup: the artifact
    raises a TypeError as soon as an intermediate value is missing.  Only
    a top-level if condition that is such a path goes through the safe
    lookup.  Inside a loop the same holds of the current element. *)
Theorem C1_this_path_raises_on_missing_intermediate :
  (forall ids fuel,
      Jframe.run ids (S (S fuel)) "{{this.a.b}}" (VObject [])
      = Throw TypeError)
  /\ (forall ids fuel,
      Jframe.run ids (S (S fuel)) "{{{this.a.b}}}" (VObject [])
      = Throw TypeError)
  /\ (forall ids fuel,
      Jframe.run ids (S (S fuel)) "{{#if (eq this.a.b 1)}}x{{/if}}"
        (VObject []) = Throw TypeError)
  /\ (forall ids fuel,
      Jframe.run ids (S (S fuel)) "{{#if this.a.b}}x{{/if}}" (VObject [])
      = Ok "")
  /\ (forall path,
      is_identifier_path path = true ->
      _generateAccessCode ("this." ++ path) None
      = Ok (CText ("ctx." ++ path))
      /\ forall e,
          eval_code e (CText ("ctx." ++ path))
          = (v <- read "ctx" e ;; get_chain v (split_dot path)))
  /\ (forall key keys, get_chain VUndefined (key :: keys) = Throw TypeError)
  /\ (forall fuel,
      Jframe.run draws_a (S (S (S (S fuel))))
        "{{#each xs}}{{this.a.b}}{{/each}}"
        (VObject [("xs", VArray [VObject []])])
      = Throw TypeError).
Proof.
  split; [|split; [|split; [|split; [|split; [|split]]]]];
    try (intros ids fuel; vm_compute; reflexivity);
    try (intros fuel; vm_compute; reflexivity);
    try (intros key keys; reflexivity).
  - intros path Hp. split.
    + apply (generateAccessCode_this_path_top _ Hp).
    + intros e. apply (eval_member_chain e "ctx" path eq_refl eq_refl Hp).
Qed.

Lemma C1_witness :
  is_identifier_path "user.name" = true
  /\ _generateAccessCode "this.user.name" None = Ok (CText "ctx.user.name")
  /\ eval_code [("ctx", VObject [])] (CText "ctx.user.name") = Throw TypeError.
Proof.
  split; [reflexivity|].
  destruct (proj1 (proj2 (proj2 (proj2 (proj2
              C1_this_path_raises_on_missing_intermediate))))
              "user.name" eq_refl) as [Hgen Heval].
  split; [exact Hgen|].
  exact (eq_trans (Heval [("ctx", VObject [])]) eq_refl).
Defined.

(** ** Generated code: plain paths *)

Lemma trim_nonempty_of_path (e : string) :
  is_identifier_path e = true -> is_empty (trim e) = false.
Proof.
  intros Hp.
  assert (Hne : e <> EmptyString) by (intros ->; discriminate Hp).
  destruct (last_char e) as [c|] eqn:El.
  - apply trim_nonempty with c; [exact El|].
    apply identifier_path_chars in Hp.
    assert (Hc : path_char c = true).
    { clear Hne. revert c El. induction e as [|a e IH]; [discriminate|].
      simpl in Hp. apply andb_true_iff in Hp as [Ha He].
      intros c. destruct e as [|b e'].
      - simpl. intros [= <-]. exact Ha.
      - intros El. apply IH; assumption. }
    destruct (is_space c) eqn:Es; [|reflexivity]. exfalso.
    revert Hc Es. unfold path_char, is_ident_part, is_ident_start, is_alpha,
      is_digit, is_space, char_code.
    destruct (Ascii.eqb c "_") eqn:E1;
      [apply Ascii.eqb_eq in E1; subst; discriminate|].
    destruct (Ascii.eqb c "$") eqn:E2;
      [apply Ascii.eqb_eq in E2; subst; discriminate|].
    destruct (Ascii.eqb c ".") eqn:E3;
      [apply Ascii.eqb_eq in E3; subst; discriminate|].
    rewrite !orb_false_r. intros H1 H2.
    repeat match goal with
           | H : _ || _ = true |- _ => apply orb_true_iff in H as [H|H]
           | H : _ && _ = true |- _ => apply andb_true_iff in H as [? ?]
           | H : Nat.leb _ _ = true |- _ => apply Nat.leb_le in H
           | H : Nat.eqb _ _ = true |- _ => apply Nat.eqb_eq in H
           end; lia.
  - apply last_char_none in El. contradiction.
Qed.

Lemma generateVariableCode_plain_path (e : string) (lc : option loopContext) :
  is_identifier_path e = true ->
  _isComplexExpression e = false ->
  String.eqb e "this" = false ->
  startsWith e "this." = false ->
  _generateVariableCode e false lc = Ok [SPushEscaped (CGet e)].
Proof.
  intros Hp Hc Ht Hs. unfold _generateVariableCode, _generateAccessCode.
  rewrite (trim_nonempty_of_path _ Hp), Ht, Hs, Hc, Hp. reflexivity.
Qed.

Lemma deepGet_loop_app (pre suf : list string) :
  forall result,
    deepGet_loop (pre ++ suf) result
    = (v <- deepGet_loop pre result ;; deepGet_loop suf v).
Proof.
  induction pre as [|key pre IH]; intros result; [reflexivity|].
  cbn [app deepGet_loop].
  destruct (is_nullish result || negb (String.eqb (typeof result) "object")).
  - cbn [bind]. destruct suf; reflexivity.
  - destruct (get_prop result key); cbn [bind]; auto.
Qed.

Lemma deepGet_loop_not_object (keys : list string) (v : value) :
  is_nullish v || negb (String.eqb (typeof v) "object") = true ->
  keys <> [] ->
  deepGet_loop keys v = Ok VUndefined.
Proof.
  intros Hv Hk. destruct keys as [|key keys]; [contradiction|].
  cbn [deepGet_loop]. rewrite Hv. reflexivity.
Qed.

Lemma get_prop_of_object (v : value) (key : string) :
  is_nullish v || negb (String.eqb (typeof v) "object") = false ->
  ~ raises (get_prop v key) /\ get_prop v key <> OutOfFuel.
Proof.
  unfold raises.
  destruct v; try discriminate; intros _; cbn [get_prop].
  - destruct (String.eqb key "length");
      [|destruct (array_index key)]; split; try discriminate;
      intros [e H]; discriminate H.
  - destruct (lookup key fields);
      [|destruct (mem key object_prototype_names)]; split; try discriminate;
      intros [e H]; discriminate H.
Qed.

Lemma deepGet_loop_never_raises (keys : list string) :
  forall result,
    ~ raises (deepGet_loop keys result) /\ deepGet_loop keys result <> OutOfFuel.
Proof.
  induction keys as [|key keys IH]; intros result; cbn [deepGet_loop].
  - split; [intros [e H]|]; discriminate.
  - destruct (is_nullish result || negb (String.eqb (typeof result) "object"))
      eqn:G.
    + split; [intros [e H]|]; discriminate.
    + destruct (get_prop_of_object result key G) as [Hr Hf].
      destruct (get_prop result key) as [v|e| |]; cbn [bind].
      * apply IH.
      * exfalso. apply Hr. exists e. reflexivity.
      * split; [intros [e H]|]; discriminate.
      * contradiction.
Qed.

(** The lookup primitive never raises. *)
Lemma deepGet_never_raises (obj : value) (path : string) :
  ~ raises (deepGet obj path) /\ deepGet obj path <> OutOfFuel.
Proof.
  unfold deepGet.
  destruct (negb (truthy obj) || negb (String.eqb (typeof obj) "object"));
    [split; [intros [e H]|]; discriminate|].
  destruct (is_empty path); [split; [intros [e H]|]; discriminate|].
  apply deepGet_loop_never_raises.
Qed.

Lemma deepGet_missing_intermediate (obj : value) (path : string)
    (pre suf : list string) (v : value) :
  is_empty path = false ->
  split_dot path = pre ++ suf ->
  suf <> [] ->
  deepGet_loop pre obj = Ok v ->
  is_nullish v || negb (String.eqb (typeof v) "object") = true ->
  deepGet obj path = Ok VUndefined.
Proof.
  intros Hne Hsplit Hsuf Hpre Hv. unfold deepGet. rewrite Hne.
  destruct (negb (truthy obj) || negb (String.eqb (typeof obj) "object"));
    [reflexivity|].
  rewrite Hsplit, deepGet_loop_app, Hpre. cbn [bind].
  apply (deepGet_loop_not_object _ _ Hv Hsuf).
Qed.

Lemma exec_escaped_get (fuel : nat) (path : string) (st : state) (ctx : value) :
  lookup "ctx" (vars st) = Some ctx ->
  exec (S (S fuel)) [SPushEscaped (CGet path)] st
  = (v <- deepGet ctx path ;; Ok (push (escapeHtml v) st)).
Proof.
  intros Hctx. cbn [exec eval_code]. unfold read. rewrite Hctx. cbn [bind].
  destruct (deepGet ctx path); reflexivity.
Qed.

(** C4, as the code has it.  The lookup primitive never raises.  An escaped
    variable whose expression is a plain dotted identifier path that is not
    classified as complex (it has no method-call suffix such as [.length])
    and does not go through [this] compiles to the safe lookup on the
    context; running it never raises, and it appends the empty string when
    an intermediate value of the path is missing or is not an object. *)
Theorem C4_plain_path_lookup_is_safe :
  (forall obj path,
      ~ raises (deepGet obj path) /\ deepGet obj path <> OutOfFuel)
  /\ (forall e lc,
      is_identifier_path e = true ->
      _isComplexExpression e = false ->
      String.eqb e "this" = false ->
      startsWith e "this." = false ->
      _generateVariableCode e false lc = Ok [SPushEscaped (CGet e)]
      /\ forall fuel st ctx,
          lookup "ctx" (vars st) = Some ctx ->
          (~ raises (exec (S (S fuel)) [SPushEscaped (CGet e)] st)
           /\ exec (S (S fuel)) [SPushEscaped (CGet e)] st <> OutOfFuel)
          /\ forall pre suf v,
              split_dot e = pre ++ suf ->
              suf <> [] ->
              deepGet_loop pre ctx = Ok v ->
              is_nullish v || negb (String.eqb (typeof v) "object") = true ->
              exec (S (S fuel)) [SPushEscaped (CGet e)] st
              = Ok (push "" st))
  /\ (forall ids fuel,
      Jframe.run ids (S (S fuel)) "{{a.b.c}}" (VObject [("a", VObject [])])
      = Ok "").
Proof.
  split; [exact deepGet_never_raises|].
  split; [|intros ids fuel; vm_compute; reflexivity].
  intros e lc Hp Hc Ht Hs.
  split; [apply generateVariableCode_plain_path; assumption|].
  intros fuel st ctx Hctx. rewrite (exec_escaped_get _ _ _ _ Hctx). split.
  - destruct (deepGet_never_raises ctx e) as [Hr Hf].
    destruct (deepGet ctx e) as [v|x| |]; cbn [bind].
    + split; [intros [x H]|]; discriminate.
    + exfalso. apply Hr. exists x. reflexivity.
    + split; [intros [x H]|]; discriminate.
    + contradiction.
  - intros pre suf v Hsplit Hsuf Hpre Hv.
    assert (Hne : is_empty e = false) by (destruct e; [discriminate Hp | reflexivity]).
    rewrite (deepGet_missing_intermediate _ _ _ _ _ Hne Hsplit Hsuf Hpre Hv).
    reflexivity.
Qed.

Lemma C4_witness :
  is_identifier_path "a.b.c" = true
  /\ exec 2 [SPushEscaped (CGet "a.b.c")]
       (initial [] (VObject [("a", VObject [])]))
     = Ok (push "" (initial [] (VObject [("a", VObject [])]))).
Proof.
  split; [reflexivity|].
  exact (proj2 (proj2 (proj1 (proj2 C4_plain_path_lookup_is_safe)
           "a.b.c" None eq_refl eq_refl eq_refl eq_refl)
           0 (initial [] (VObject [("a", VObject [])]))
           (VObject [("a", VObject [])]) eq_refl)
           ["a"; "b"] ["c"] VUndefined eq_refl ltac:(discriminate)
           eq_refl eq_refl).
Defined.

(** C4 as stated fails: the path [user.length] is a plain dotted identifier
    path, yet it is classified as complex and emitted as host code, where
    [user] is an unbound identifier. *)
Lemma C4_counterexample :
  is_identifier_path "user.length" = true
  /\ Jframe.run (fun _ => "k3f9x2a1b") 2 "{{user.length}}" (VObject [])
     = Throw (ReferenceError "user").
Proof. split; reflexivity. Qed.

(** ** Generated code: comparisons *)

Lemma generateConditionCode_comparison (condition : string)
    (lc : option loopContext) (op : binop) (l r : string)
    (leftCode rightCode : code) :
  comparisonMatch (trim condition) = Some (operator_name op, l, r) ->
  _generateComparisonOperand (trim l) lc = Ok leftCode ->
  _generateComparisonOperand (trim r) lc = Ok rightCode ->
  _generateConditionCode condition lc = Ok (CBin op leftCode rightCode).
Proof.
  intros Hm Hl Hr. unfold _generateConditionCode.
  rewrite Hm, Hl. cbn [bind]. rewrite Hr. cbn [bind].
  destruct op; reflexivity.
Qed.

Lemma eval_comparison (e : env) (op : binop) (l r : code) (a b : value) :
  eval_code e l = Ok a ->
  eval_code e r = Ok b ->
  eval_code e (CBin op l r) = apply_binop op a b.
Proof.
  intros Hl Hr. destruct op; cbn [eval_code]; rewrite Hl; cbn [bind];
    try rewrite Hr; try reflexivity.
  - cbn [apply_binop]. destruct (truthy a); reflexivity.
  - cbn [apply_binop]. destruct (truthy a); reflexivity.
Qed.

Lemma compile_comparison_template (ids : nat -> string) (op : binop) :
  Jframe.compile ids (comparison_template op)
  = Ok [SIf (CBin op (CGet "a") (CGet "b")) [SPushText "yes"]].
Proof. destruct op; vm_compute; reflexivity. Qed.

Lemma run_comparison_template (ids : nat -> string) (fuel : nat) (op : binop)
    (a b : value) :
  Jframe.run ids (S (S (S fuel))) (comparison_template op)
    (VObject [("a", a); ("b", b)])
  = (r <- apply_binop op a b ;; Ok (if truthy r then "yes" else "")).
Proof.
  unfold Jframe.run. rewrite compile_comparison_template. cbn [bind].
  unfold invoke. cbn [exec].
  rewrite (eval_comparison
             (vars (initial [SIf (CBin op (CGet "a") (CGet "b"))
                               [SPushText "yes"]]
                      (VObject [("a", a); ("b", b)])))
             op (CGet "a") (CGet "b") a b eq_refl eq_refl).
  destruct (apply_binop op a b) as [v| | |]; cbn [bind]; try reflexivity.
  destruct (truthy v); reflexivity.
Qed.

Lemma strict_equal_same (a b : value) :
  strict_equal a b = Ok true -> a = b.
Proof.
  destruct a, b; cbn [strict_equal]; try discriminate; try reflexivity;
    intros [= H].
  - apply Bool.eqb_prop in H. congruence.
  - apply Z.eqb_eq in H. congruence.
  - apply String.eqb_eq in H. congruence.
Qed.

(** ** Running the generated code: fuel and variables *)

Lemma bind_finished {A B : Type} (m : outcome A) (k : A -> outcome B) :
  bind m k <> OutOfFuel -> m <> OutOfFuel.
Proof. destruct m; simpl; congruence. Qed.

(** More fuel does not change a finished run. *)
Lemma exec_for_loop_more_fuel (fuel : nat) :
  (forall body st fuel',
      fuel <= fuel' ->
      exec fuel body st <> OutOfFuel ->
      exec fuel' body st = exec fuel body st)
  /\ (forall a i t inner st fuel',
      fuel <= fuel' ->
      for_loop fuel a i t inner st <> OutOfFuel ->
      for_loop fuel' a i t inner st = for_loop fuel a i t inner st).
Proof.
  induction fuel as [|fuel [IHe IHl]].
  { split; intros; simpl in *; congruence. }
  split.
  - intros body st [|fuel'] Hle H; [lia|]. apply le_S_n in Hle.
    destruct body as [|s rest]; [reflexivity|].
    cbn [exec] in *.
    destruct s as [value|c|c|c inner|a i t c inner].
    + apply IHe; assumption.
    + destruct (eval_code (vars st) c); cbn [bind] in *; try reflexivity.
      apply IHe; assumption.
    + destruct (eval_code (vars st) c); cbn [bind] in *; try reflexivity.
      apply IHe; assumption.
    + destruct (eval_code (vars st) c) as [v| | |]; cbn [bind] in *;
        try reflexivity.
      destruct (truthy v); [|apply IHe; assumption].
      pose proof (bind_finished _ _ H) as Hin.
      rewrite (IHe _ _ _ Hle Hin).
      destruct (exec fuel inner st); cbn [bind] in *; try reflexivity.
      apply IHe; assumption.
    + destruct (eval_code (vars st) c) as [v| | |]; cbn [bind] in *;
        try reflexivity.
      destruct (read a (vars (assign a v st))) as [w| | |]; cbn [bind] in *;
        try reflexivity.
      destruct (isArray w); [|apply IHe; assumption].
      pose proof (bind_finished _ _ H) as Hin.
      rewrite (IHl _ _ _ _ _ _ Hle Hin).
      destruct (for_loop fuel a i t inner _); cbn [bind] in *;
        try reflexivity.
      apply IHe; assumption.
  - intros a i t inner st [|fuel'] Hle H; [lia|]. apply le_S_n in Hle.
    cbn [for_loop] in *.
    destruct (read i (vars st)) as [vi| | |]; cbn [bind] in *; try reflexivity.
    destruct (read a (vars st)) as [va| | |]; cbn [bind] in *; try reflexivity.
    destruct (get_prop va "length") as [n| | |]; cbn [bind] in *;
      try reflexivity.
    destruct (less_than vi n) as [[[|]|]| | |]; cbn [bind] in *;
      try reflexivity.
    destruct (get_index va vi) as [item| | |]; cbn [bind] in *;
      try reflexivity.
    pose proof (bind_finished _ _ H) as Hin.
    rewrite (IHe _ _ _ Hle Hin).
    destruct (exec fuel inner _) as [st'| | |]; cbn [bind] in *;
      try reflexivity.
    destruct (read i (vars st')) as [vi'| | |]; cbn [bind] in *;
      try reflexivity.
    destruct (toNumber vi') as [[z|]| | |]; cbn [bind] in *; try reflexivity.
    apply IHl; assumption.
Qed.

Lemma exec_more_fuel (fuel fuel' : nat) (body : list stmt) (st st' : state) :
  exec fuel body st = Ok st' -> fuel <= fuel' -> exec fuel' body st = Ok st'.
Proof.
  intros H Hle. rewrite <- H.
  apply (proj1 (exec_for_loop_more_fuel fuel)); [exact Hle|].
  rewrite H. discriminate.
Qed.

Lemma lookup_assign_other (x y : string) (v : value) (st : state) :
  x <> y -> lookup x (vars (assign y v st)) = lookup x (vars st).
Proof.
  intros H. cbn [assign vars lookup].
  destruct (String.eqb y x) eqn:E; [|reflexivity].
  apply String.eqb_eq in E. congruence.
Qed.

Lemma lookup_assign_same (x : string) (v : value) (st : state) :
  lookup x (vars (assign x v st)) = Some v.
Proof. apply lookup_head. Qed.

Lemma declared_cons (s : stmt) (rest : list stmt) :
  declared (s :: rest) = declared_stmt s ++ declared rest.
Proof. reflexivity. Qed.

(** A run changes only the variables its statements declare. *)
Lemma exec_for_loop_preserve (fuel : nat) :
  (forall body st st',
      exec fuel body st = Ok st' ->
      forall x, ~ In x (declared body) ->
      lookup x (vars st') = lookup x (vars st))
  /\ (forall a i t inner st st',
      for_loop fuel a i t inner st = Ok st' ->
      forall x, x <> i -> x <> t -> ~ In x (declared inner) ->
      lookup x (vars st') = lookup x (vars st)).
Proof.
  induction fuel as [|fuel [IHe IHl]].
  { split; intros; simpl in *; discriminate. }
  split.
  - intros body st st' H x Hx.
    destruct body as [|s rest]; [injection H as <-; reflexivity|].
    rewrite declared_cons in Hx.
    assert (Hs : ~ In x (declared_stmt s)) by (intros F; apply Hx, in_or_app; auto).
    assert (Hr : ~ In x (declared rest)) by (intros F; apply Hx, in_or_app; auto).
    cbn [exec] in H.
    destruct s as [value|c|c|c inner|a i t c inner].
    + apply (IHe _ _ _ H x Hr).
    + destruct (eval_code (vars st) c); cbn [bind] in H; try discriminate.
      apply (IHe _ _ _ H x Hr).
    + destruct (eval_code (vars st) c); cbn [bind] in H; try discriminate.
      apply (IHe _ _ _ H x Hr).
    + destruct (eval_code (vars st) c) as [v| | |]; cbn [bind] in H;
        try discriminate.
      destruct (truthy v); [|apply (IHe _ _ _ H x Hr)].
      destruct (exec fuel inner st) as [st1| | |] eqn:E; cbn [bind] in H;
        try discriminate.
      rewrite (IHe _ _ _ H x Hr). apply (IHe _ _ _ E x Hs).
    + cbn [declared_stmt] in Hs.
      assert (Hxa : x <> a) by (intros ->; apply Hs; simpl; auto).
      assert (Hxi : x <> i) by (intros ->; apply Hs; simpl; auto).
      assert (Hxt : x <> t) by (intros ->; apply Hs; simpl; auto).
      assert (Hin : ~ In x (declared inner)) by (intros F; apply Hs; simpl; auto).
      destruct (eval_code (vars st) c) as [v| | |]; cbn [bind] in H;
        try discriminate.
      destruct (read a (vars (assign a v st))) as [w| | |]; cbn [bind] in H;
        try discriminate.
      destruct (isArray w).
      * destruct (for_loop fuel a i t inner _) as [st1| | |] eqn:E;
          cbn [bind] in H; try discriminate.
        rewrite (IHe _ _ _ H x Hr), (IHl _ _ _ _ _ _ E x Hxi Hxt Hin).
        rewrite !lookup_assign_other by assumption. reflexivity.
      * rewrite (IHe _ _ _ H x Hr).
        rewrite lookup_assign_other by assumption. reflexivity.
  - intros a i t inner st st' H x Hxi Hxt Hin. cbn [for_loop] in H.
    destruct (read i (vars st)) as [vi| | |]; cbn [bind] in H; try discriminate.
    destruct (read a (vars st)) as [va| | |]; cbn [bind] in H; try discriminate.
    destruct (get_prop va "length") as [n| | |]; cbn [bind] in H;
      try discriminate.
    destruct (less_than vi n) as [[[|]|]| | |]; cbn [bind] in H;
      try discriminate; try (injection H as <-; reflexivity).
    destruct (get_index va vi) as [item| | |]; cbn [bind] in H;
      try discriminate.
    destruct (exec fuel inner _) as [st1| | |] eqn:E; cbn [bind] in H;
      try discriminate.
    destruct (read i (vars st1)) as [vi'| | |]; cbn [bind] in H;
      try discriminate.
    destruct (toNumber vi') as [[z|]| | |]; cbn [bind] in H; try discriminate.
    rewrite (IHl _ _ _ _ _ _ H x Hxi Hxt Hin).
    rewrite lookup_assign_other by assumption.
    rewrite (IHe _ _ _ E x Hin).
    rewrite lookup_assign_other by assumption. reflexivity.
Qed.

Lemma exec_preserve (fuel : nat) (body : list stmt) (st st' : state)
    (x : string) :
  exec fuel body st = Ok st' ->
  ~ In x (declared body) ->
  lookup x (vars st') = lookup x (vars st).
Proof. intros H. apply (proj1 (exec_for_loop_preserve fuel) _ _ _ H). Qed.

(** ** Generated code: each over an array *)

Lemma read_bound (x : string) (e : env) (v : value) :
  lookup x e = Some v -> read x e = Ok v.
Proof. unfold read. intros ->. reflexivity. Qed.

Lemma nth_middle_value (done rest : list value) (x : value) :
  nth (List.length done) (done ++ x :: rest) VUndefined = x.
Proof. induction done; simpl; auto. Qed.

(** The [for] statement from position [length done] onwards. *)
Lemma for_loop_unroll (a i t : string) (body : list stmt) (fuel : nat) :
  a <> i -> a <> t -> i <> t ->
  ~ In a (declared body) -> ~ In i (declared body) ->
  forall rest done st st',
    lookup a (vars st) = Some (VArray (done ++ rest)) ->
    lookup i (vars st) = Some (VNumber (Z.of_nat (List.length done))) ->
    each_elements fuel i t body (Z.of_nat (List.length done)) rest st = Ok st' ->
    for_loop (fuel + List.length rest + 1) a i t body st = Ok st'.
Proof.
  intros Hai Hat Hit Ha Hi.
  induction rest as [|x rest IH]; intros done st st' Hla Hli Hrun.
  - cbn [each_elements] in Hrun. injection Hrun as <-.
    replace (fuel + List.length (@nil value) + 1) with (S fuel) by (simpl; lia).
    cbn [for_loop]. rewrite (read_bound _ _ _ Hli), (read_bound _ _ _ Hla).
    cbn [bind get_prop String.eqb Ascii.eqb Bool.eqb andb].
    rewrite app_nil_r. cbn [less_than toNumber bind].
    rewrite Z.ltb_irrefl. reflexivity.
  - cbn [each_elements] in Hrun.
    destruct (exec fuel body (assign t x st)) as [st1| | |] eqn:E;
      cbn [bind] in Hrun; try discriminate.
    replace (fuel + List.length (x :: rest) + 1)
      with (S (fuel + List.length rest + 1)) by (simpl; lia).
    cbn [for_loop]. rewrite (read_bound _ _ _ Hli), (read_bound _ _ _ Hla).
    cbn [bind get_prop String.eqb Ascii.eqb Bool.eqb andb].
    cbn [less_than toNumber bind].
    assert (Hlt : Z.ltb (Z.of_nat (List.length done))
                    (Z.of_nat (List.length (done ++ x :: rest))) = true).
    { apply Z.ltb_lt. rewrite length_app. simpl. lia. }
    rewrite Hlt. cbn [get_index].
    assert (Hneg : Z.ltb (Z.of_nat (List.length done)) 0 = false)
      by (apply Z.ltb_ge; lia).
    rewrite Hneg, Nat2Z.id, nth_middle_value. cbn [bind].
    rewrite (exec_more_fuel _ (fuel + List.length rest + 1) _ _ _ E)
      by lia.
    cbn [bind].
    assert (Hi1 : lookup i (vars st1)
                  = Some (VNumber (Z.of_nat (List.length done)))).
    { rewrite (exec_preserve _ _ _ _ i E Hi).
      rewrite lookup_assign_other by assumption. exact Hli. }
    rewrite (read_bound _ _ _ Hi1). cbn [bind toNumber].
    apply (IH (done ++ [x])).
    + rewrite lookup_assign_other by assumption.
      rewrite (exec_preserve _ _ _ _ a E Ha).
      rewrite lookup_assign_other by assumption.
      rewrite <- app_assoc. exact Hla.
    + rewrite lookup_assign_same. rewrite length_app. simpl.
      do 2 f_equal. lia.
    + rewrite length_app. simpl.
      replace (Z.of_nat (List.length done + 1))
        with (Z.of_nat (List.length done) + 1)%Z by lia.
      exact Hrun.
Qed.

Lemma for_loop_more_fuel (fuel fuel' : nat) (a i t : string)
    (inner : list stmt) (st st' : state) :
  for_loop fuel a i t inner st = Ok st' ->
  fuel <= fuel' ->
  for_loop fuel' a i t inner st = Ok st'.
Proof.
  intros H Hle. rewrite <- H.
  apply (proj2 (exec_for_loop_more_fuel fuel)); [exact Hle|].
  rewrite H. discriminate.
Qed.

(** The statement generated for an each block, run on an array. *)
Lemma exec_each_array (a i t : string) (items : code) (body : list stmt)
    (fuel : nat) (st st' : state) (elements : list value) :
  a <> i -> a <> t -> i <> t ->
  ~ In a (declared body) -> ~ In i (declared body) ->
  eval_code (vars st) items = Ok (VArray elements) ->
  each_elements fuel i t body 0 elements
    (assign i (VNumber 0) (assign a (VArray elements) st)) = Ok st' ->
  exec (fuel + List.length elements + 3) [SEach a i t items body] st = Ok st'.
Proof.
  intros Hai Hat Hit Ha Hi Hitems Hrun.
  replace (fuel + List.length elements + 3)
    with (S (S (fuel + List.length elements + 1))) by lia.
  cbn [exec]. rewrite Hitems. cbn [bind].
  rewrite (read_bound _ _ _ (lookup_assign_same a _ st)). cbn [bind isArray].
  rewrite (for_loop_more_fuel (fuel + List.length elements + 1)
             (S (fuel + List.length elements + 1)) _ _ _ _ _ st').
  - reflexivity.
  - apply (for_loop_unroll a i t body fuel Hai Hat Hit Ha Hi elements []).
    + rewrite lookup_assign_other by congruence. apply lookup_assign_same.
    + apply lookup_assign_same.
    + exact Hrun.
  - lia.
Qed.

Lemma append_empty (s : string) : (s ++ "")%string = s.
Proof. induction s; simpl; congruence. Qed.

Lemma loop_names_distinct (id : string) :
  ("items_" ++ id <> "index_" ++ id
   /\ "items_" ++ id <> "item_" ++ id
   /\ "index_" ++ id <> "item_" ++ id)%string.
Proof. repeat split; discriminate. Qed.

Lemma loop_name_chars (prefix id : string) :
  forallb is_ident_part prefix = true ->
  forallb is_ident_part id = true ->
  forallb path_char (prefix ++ id) = true.
Proof.
  intros Hp Hid. rewrite forallb_append. apply andb_true_iff.
  split; [revert Hp | revert Hid]; apply forallb_impl;
    intros c Hc; unfold path_char; rewrite Hc; reflexivity.
Qed.

Lemma parse_atom_index_name (id : string) :
  forallb is_ident_part id = true ->
  parse_atom ("index_" ++ id) = Some (Atom (BIdent ("index_" ++ id)) []).
Proof.
  intros H. apply parse_atom_identifier; [|reflexivity].
  unfold is_identifier. simpl. exact H.
Qed.

Lemma parse_atom_item_name (id : string) :
  forallb is_ident_part id = true ->
  parse_atom ("item_" ++ id) = Some (Atom (BIdent ("item_" ++ id)) []).
Proof.
  intros H. apply parse_atom_identifier; [|reflexivity].
  unfold is_identifier. simpl. exact H.
Qed.

(** Inside a loop [@index] becomes the index variable of that loop. *)
Lemma compile_index_in_loop (id item : string) (outer : option loopContext) :
  forallb is_ident_part id = true ->
  _compileComplexExpression "@index"
    (Some (LoopContext item ("index_" ++ id) outer))
  = Ok ("index_" ++ id)%string.
Proof.
  intros H. unfold _compileComplexExpression.
  change (includes "@index" "@index") with true. cbv iota.
  cbn [indexName].
  change (negb (is_empty ("index_" ++ id))) with true. cbv iota.
  change (replaceAll "@index" ("index_" ++ id) "@index")
    with (("index_" ++ id) ++ "")%string.
  rewrite append_empty.
  change (String.eqb ("index_" ++ id) "this") with false.
  change (startsWith ("index_" ++ id) "this.") with false. cbv iota.
  rewrite (path_excludes "=" ">" _ eq_refl (loop_name_chars "index_" id eq_refl H)).
  rewrite (parse_atom_index_name _ H). reflexivity.
Qed.

Lemma eval_index_name (e : env) (id : string) :
  forallb is_ident_part id = true ->
  eval_code e (CText ("index_" ++ id)) = read ("index_" ++ id) e.
Proof.
  intros H. cbn [eval_code]. rewrite (parse_atom_index_name _ H).
  unfold eval_atom. cbn [base members].
  destruct (read _ e); reflexivity.
Qed.

Lemma eval_item_name (e : env) (id : string) :
  forallb is_ident_part id = true ->
  eval_code e (CText ("item_" ++ id)) = read ("item_" ++ id) e.
Proof.
  intros H. cbn [eval_code]. rewrite (parse_atom_item_name _ H).
  unfold eval_atom. cbn [base members].
  destruct (read _ e); reflexivity.
Qed.

Lemma compile_each_example (ids : nat -> string) :
  loopId_ok (ids 0) = true ->
  Jframe.compile ids each_example
  = Ok [SEach ("items_" ++ ids 0) ("index_" ++ ids 0) ("item_" ++ ids 0)
          (CGet "items")
          [SPushEscaped (CText ("index_" ++ ids 0)); SPushText ":";
           SPushEscaped (CText ("item_" ++ ids 0)); SPushText " "]].
Proof.
  intros Hid.
  rewrite (compile_front ids _
             (Root [Each "items" [Variable' "@index"; Text ":";
                                  Variable' "this"; Text " "]]))
    by (vm_compute; reflexivity).
  destruct (loop_names_identifiers _ Hid) as [Ha [Hi Ht]].
  pose proof (loopId_ident_part _ Hid) as Hp.
  unfold Compiler.compile, _generateJSCode.
  cbn [forEach_child _generateNodeCode]. unfold _generateEachCode.
  change (_generateAccessCode "items" None) with (Ok (CGet "items")).
  cbn [bind forEach_child _generateNodeCode].
  unfold _generateVariableCode.
  change (is_empty (trim "@index")) with false.
  change (is_empty (trim "this")) with false. cbv iota.
  unfold _generateAccessCode.
  change (String.eqb "@index" "this") with false.
  change (startsWith "@index" "this.") with false.
  change (_isComplexExpression "@index") with true.
  change (String.eqb "this" "this") with true. cbv iota.
  rewrite (compile_index_in_loop _ _ _ Hp).
  cbn [bind app itemName].
  unfold in_fragment.
  cbn [List.forallb stmt_in_fragment code_in_fragment].
  rewrite Ha, Hi, Ht, (parse_atom_index_name _ Hp), (parse_atom_item_name _ Hp).
  reflexivity.
Qed.

Lemma exec_example_body (id : string) (fuel : nat) (st : state)
    (vi vt : value) :
  forallb is_ident_part id = true ->
  lookup ("index_" ++ id) (vars st) = Some vi ->
  lookup ("item_" ++ id) (vars st) = Some vt ->
  exec (S (S (S (S (S fuel)))))
    [SPushEscaped (CText ("index_" ++ id)); SPushText ":";
     SPushEscaped (CText ("item_" ++ id)); SPushText " "] st
  = Ok (push " " (push (escapeHtml vt) (push ":" (push (escapeHtml vi) st)))).
Proof.
  intros Hp Hi Ht. cbn [exec].
  rewrite (eval_index_name _ _ Hp), (read_bound _ _ _ Hi). cbn [bind].
  cbn [push vars]. rewrite (eval_item_name _ _ Hp), (read_bound _ _ _ Ht).
  reflexivity.
Qed.

Lemma run_each_example (ids : nat -> string) (fuel : nat) :
  loopId_ok (ids 0) = true ->
  11 <= fuel ->
  Jframe.run ids fuel each_example
    (VObject [("items", VArray [VString "a"; VString "b"; VString "c"])])
  = Ok "0:a 1:b 2:c ".
Proof.
  intros Hid Hfuel. unfold Jframe.run.
  rewrite (compile_each_example _ Hid). cbn [bind]. unfold invoke.
  pose proof (loopId_ident_part _ Hid) as Hp.
  destruct (loop_names_distinct (ids 0)) as [Hai [Hat Hit]].
  set (body := [SPushEscaped (CText ("index_" ++ ids 0)); SPushText ":";
                SPushEscaped (CText ("item_" ++ ids 0)); SPushText " "]).
  set (st0 := initial _ _).
  assert (Hbody : forall st vi vt,
    lookup ("index_" ++ ids 0) (vars st) = Some vi ->
    lookup ("item_" ++ ids 0) (vars st) = Some vt ->
    exec 5 body st
    = Ok (push " " (push (escapeHtml vt) (push ":" (push (escapeHtml vi) st)))))
    by (intros; apply exec_example_body; assumption).
  eassert (Hrun : exec (5 + 3 + 3)
            [SEach ("items_" ++ ids 0) ("index_" ++ ids 0) ("item_" ++ ids 0)
               (CGet "items") body] st0 = Ok _).
  { apply (exec_each_array _ _ _ _ _ 5 st0 _
             [VString "a"; VString "b"; VString "c"]);
      try assumption; try (intros []); try reflexivity.
    cbn [each_elements].
    erewrite Hbody;
      [|rewrite lookup_assign_other by congruence; apply lookup_assign_same
       |apply lookup_assign_same].
    cbn [bind].
    erewrite Hbody;
      [|rewrite lookup_assign_other by congruence; apply lookup_assign_same
       |apply lookup_assign_same].
    cbn [bind].
    erewrite Hbody;
      [|rewrite lookup_assign_other by congruence; apply lookup_assign_same
       |apply lookup_assign_same].
    cbn [bind]. reflexivity. }
  rewrite (exec_more_fuel _ fuel _ _ _ Hrun) by (simpl; lia).
  reflexivity.
Qed.

(** ** Induction on syntax trees *)

Lemma node_induction (P : node -> Prop) :
  (forall value, P (Text value)) ->
  (forall expression, P (Variable' expression)) ->
  (forall expression, P (RawVariable expression)) ->
  (forall condition children, Forall P children -> P (If condition children)) ->
  (forall items children, Forall P children -> P (Each items children)) ->
  (forall children, Forall P children -> P (Root children)) ->
  forall n, P n.
Proof.
  intros HT HV HR HI HE HRoot.
  fix IH 1. intros [v|e|e|c children|i children|children].
  - apply HT.
  - apply HV.
  - apply HR.
  - apply HI. induction children; constructor; [apply IH | assumption].
  - apply HE. induction children; constructor; [apply IH | assumption].
  - apply HRoot. induction children; constructor; [apply IH | assumption].
Qed.

Lemma declared_app (a b : list stmt) :
  declared (a ++ b) = declared a ++ declared b.
Proof. unfold declared. apply flat_map_app. Qed.

Section Generated.

Variable ids : nat -> string.

Lemma declares_draws_nil (drawn : nat) (lines : list stmt) :
  declared lines = [] -> declares_draws ids lines drawn drawn.
Proof.
  intros H. split; [lia|]. intros x. rewrite H. split; [intros []|].
  intros [k [Hk _]]. lia.
Qed.

Lemma declares_draws_app (a b : list stmt) (d1 d2 d3 : nat) :
  declares_draws ids a d1 d2 -> declares_draws ids b d2 d3 ->
  declares_draws ids (a ++ b) d1 d3.
Proof.
  intros [Hle1 Ha] [Hle2 Hb]. split; [lia|]. intros x.
  rewrite declared_app, in_app_iff, Ha, Hb. split.
  - intros [[k [Hk Hx]]|[k [Hk Hx]]]; exists k; split; auto; lia.
  - intros [k [Hk Hx]]. destruct (Nat.lt_ge_cases k d2);
      [left | right]; exists k; split; auto; lia.
Qed.

Lemma forEach_child_declares (children : list node)
    (lc : option loopContext) :
  Forall (fun child => forall lc drawn lines drawn',
              _generateNodeCode ids child lc drawn = Ok (lines, drawn') ->
              declares_draws ids lines drawn drawn') children ->
  forall drawn lines drawn',
    forEach_child (_generateNodeCode ids) children lc drawn
    = Ok (lines, drawn') ->
    declares_draws ids lines drawn drawn'.
Proof.
  induction 1 as [|child rest Hchild _ IH]; intros drawn lines drawn'.
  - cbn [forEach_child]. intros [= <- <-]. apply declares_draws_nil. reflexivity.
  - cbn [forEach_child].
    destruct (_generateNodeCode ids child lc drawn) as [[l1 d1]| | |] eqn:E1;
      cbn [bind]; try discriminate.
    destruct (forEach_child _ rest lc d1) as [[l2 d2]| | |] eqn:E2;
      cbn [bind]; try discriminate.
    intros [= <- <-].
    apply declares_draws_app with d1; [apply (Hchild _ _ _ _ E1) | apply (IH _ _ _ E2)].
Qed.

(** The code generated for a node declares the loop names of exactly the
    identifiers drawn for it. *)
Lemma generateNodeCode_declares (n : node) :
  forall lc drawn lines drawn',
    _generateNodeCode ids n lc drawn = Ok (lines, drawn') ->
    declares_draws ids lines drawn drawn'.
Proof.
  induction n as [v|e|e|c children IH|i children IH|children IH]
    using node_induction; intros lc drawn lines drawn'; cbn [_generateNodeCode].
  - intros [= <- <-]. apply declares_draws_nil. reflexivity.
  - unfold _generateVariableCode.
    destruct (is_empty (trim e)); [discriminate|].
    destruct (_generateAccessCode e lc); cbn [bind]; try discriminate.
    intros [= <- <-]. apply declares_draws_nil. reflexivity.
  - unfold _generateVariableCode.
    destruct (is_empty (trim e)); [discriminate|].
    destruct (_generateAccessCode e lc); cbn [bind]; try discriminate.
    intros [= <- <-]. apply declares_draws_nil. reflexivity.
  - unfold _generateIfCode.
    destruct (_generateConditionCode c lc); cbn [bind]; try discriminate.
    destruct (forEach_child _ children lc drawn) as [[body d]| | |] eqn:E;
      cbn [bind]; try discriminate.
    intros [= <- <-].
    destruct (forEach_child_declares _ _ IH _ _ _ E) as [Hle Hb].
    split; [exact Hle|]. intros x. rewrite <- Hb.
    unfold declared. cbn [flat_map declared_stmt]. rewrite app_nil_r.
    reflexivity.
  - intros H. apply generateEachCode_shape in H as [c [body [_ [E ->]]]].
    destruct (forEach_child_declares _ _ IH _ _ _ E) as [Hle Hb].
    split; [lia|]. intros x.
    unfold declared. cbn [flat_map declared_stmt]. rewrite app_nil_r.
    fold (declared body). cbn [In]. rewrite Hb. unfold loop_name. split.
    + intros [<-|[<-|[<-|[k [Hk Hx]]]]];
        [exists drawn|exists drawn|exists drawn|exists k]; split; auto; lia.
    + intros [k [Hk Hx]]. destruct (Nat.eq_dec k drawn) as [->|Hne].
      * destruct Hx as [-> | [-> | ->]]; auto.
      * right. right. right. exists k. split; [lia | exact Hx].
  - discriminate.
Qed.

End Generated.

Lemma Forall_all {A : Type} (P : A -> Prop) (l : list A) :
  (forall a, P a) -> Forall P l.
Proof. intros H. induction l; constructor; auto. Qed.

(** The statement generated for an each block runs its children once per
    element when the identifiers drawn for the loops nested in it differ
    from its own. *)
Lemma exec_generated_each (ids : nat -> string) (items : string)
    (children : list node) (lc : option loopContext) (drawn drawn' : nat)
    (lines : list stmt) :
  _generateNodeCode ids (Each items children) lc drawn = Ok (lines, drawn') ->
  (forall k, drawn < k < drawn' -> ids k <> ids drawn) ->
  exists itemsCode body,
    _generateAccessCode items lc = Ok itemsCode
    /\ forEach_child (_generateNodeCode ids) children
         (Some (LoopContext ("item_" ++ ids drawn) ("index_" ++ ids drawn) lc))
         (S drawn) = Ok (body, drawn')
    /\ lines = [SEach ("items_" ++ ids drawn) ("index_" ++ ids drawn)
                  ("item_" ++ ids drawn) itemsCode body]
    /\ forall fuel st st' elements,
        eval_code (vars st) itemsCode = Ok (VArray elements) ->
        each_elements fuel ("index_" ++ ids drawn) ("item_" ++ ids drawn) body
          0 elements
          (assign ("index_" ++ ids drawn) (VNumber 0)
             (assign ("items_" ++ ids drawn) (VArray elements) st)) = Ok st' ->
        exec (fuel + List.length elements + 3) lines st = Ok st'.
Proof.
  intros Hgen Hfresh. cbn [_generateNodeCode] in Hgen.
  apply generateEachCode_shape in Hgen as [c [body [Hc [Hbody ->]]]].
  exists c, body. split; [exact Hc|]. split; [exact Hbody|].
  split; [reflexivity|].
  pose proof (forEach_child_declares ids children _
                (Forall_all _ _ (generateNodeCode_declares ids))
                _ _ _ Hbody) as [_ Hdecl].
  destruct (loop_names_distinct (ids drawn)) as [Hai [Hat Hit]].
  intros fuel st st' elements Hitems Hrun.
  apply exec_each_array; try assumption.
  - intros Hin. apply Hdecl in Hin as [k [Hk Hx]].
    destruct Hx as [Hx | [Hx | Hx]]; try discriminate Hx.
    injection Hx as Hx. apply (Hfresh k); [lia | congruence].
  - intros Hin. apply Hdecl in Hin as [k [Hk Hx]].
    destruct Hx as [Hx | [Hx | Hx]]; try discriminate Hx.
    injection Hx as Hx. apply (Hfresh k); [lia | congruence].
Qed.

(** * Properties of the stages *)

(** ** Scanner: positions in a template *)

Lemma get_append_right (pre s : string) (k : nat) :
  String.get (String.length pre + k) (pre ++ s) = String.get k s.
Proof. induction pre as [|c pre IH]; [reflexivity | exact IH]. Qed.

Lemma char_is_append_right (pre s : string) (k : nat) (c : ascii) :
  char_is (pre ++ s) (String.length pre + k) c = char_is s k c.
Proof. unfold char_is. rewrite get_append_right. reflexivity. Qed.

Lemma index_append_right (pre s m : string) (k : nat) :
  m <> EmptyString ->
  String.index (String.length pre + k) m (pre ++ s)
  = option_map (Nat.add (String.length pre)) (String.index k m s).
Proof.
  intros Hm. induction pre as [|c pre IH]; cbn [String.length append Nat.add].
  - destruct (String.index k m s); reflexivity.
  - cbn [String.index]. rewrite IH.
    destruct (String.index k m s); reflexivity.
Qed.

Lemma substring_append_right (pre s : string) (a n : nat) :
  String.substring (String.length pre + a) n (pre ++ s) = String.substring a n s.
Proof. induction pre as [|c pre IH]; [reflexivity | exact IH]. Qed.

Lemma index_ge (m s : string) :
  forall n i, String.index n m s = Some i -> n <= i.
Proof.
  induction s as [|c s IH]; intros n i; cbn [String.index].
  - destruct n; [|discriminate]. destruct m; [intros [= <-]; lia | discriminate].
  - destruct n as [|n].
    + intros _. lia.
    + destruct (String.index n m s) as [j|] eqn:E; [|discriminate].
      intros [= <-]. apply IH in E. lia.
Qed.

Lemma index_lt (m s : string) :
  m <> EmptyString ->
  forall n i, String.index n m s = Some i -> i < String.length s.
Proof.
  intros Hm. induction s as [|c s IH]; intros n i; cbn [String.index String.length].
  - destruct n; [|discriminate]. destruct m; [congruence | discriminate].
  - destruct n as [|n].
    + destruct (String.prefix m (String c s)); [intros [= <-]; lia|].
      destruct (String.index 0 m s) as [j|] eqn:E; [|discriminate].
      intros [= <-]. apply IH in E. lia.
    + destruct (String.index n m s) as [j|] eqn:E; [|discriminate].
      intros [= <-]. apply IH in E. lia.
Qed.

(** One turn of the scanner's loop. *)
Lemma opener_guard (template : string) (position : nat) :
  char_is template position "{"
  && Nat.ltb (position + 1) (String.length template)
  && char_is template (position + 1) "{"
  = char_is template position "{" && char_is template (position + 1) "{".
Proof.
  destruct (char_is template (position + 1) "{") eqn:E.
  - rewrite (char_is_in_range _ _ _ E), andb_true_r. reflexivity.
  - rewrite !andb_false_r. reflexivity.
Qed.

Lemma raw_guard (template : string) (position : nat) :
  Nat.ltb (position + 2) (String.length template)
  && char_is template (position + 2) "{"
  = char_is template (position + 2) "{".
Proof.
  destruct (char_is template (position + 2) "{") eqn:E.
  - rewrite (char_is_in_range _ _ _ E). reflexivity.
  - apply andb_false_r.
Qed.

Lemma get_none_ge (s : string) (n : nat) :
  String.get n s = None -> String.length s <= n.
Proof.
  revert n; induction s as [|c s IH]; intros n; cbn; [lia|].
  destruct n; [discriminate|]. intros H. apply IH in H. lia.
Qed.

Lemma tokenize_loop_S (fuel : nat) (template : string) (position : nat)
    (textBuffer : string) (tokens : list token) :
  tokenize_loop (S fuel) template position textBuffer tokens
  = if char_is template position "{" && char_is template (position + 1) "{"
    then
      let isRaw := char_is template (position + 2) "{" in
      let exprStart := if isRaw then position + 3 else position + 2 in
      let closeMarker := if isRaw then "}}}" else "}}" in
      match indexOf template closeMarker exprStart with
      | None =>
          Throw (Error ("Unclosed expression at position " ++ of_nat position))
      | Some closeIndex =>
          tokens <- _processExpression
                      (trim (substring exprStart closeIndex template)) isRaw
                      (flush textBuffer tokens) ;;
          tokenize_loop fuel template
            (closeIndex + String.length closeMarker) EmptyString tokens
      end
    else
      match String.get position template with
      | Some char =>
          tokenize_loop fuel template (position + 1)
            (textBuffer ++ String char EmptyString) tokens
      | None => Ok (flush textBuffer tokens)
      end.
Proof.
  cbn [tokenize_loop]. rewrite opener_guard, raw_guard.
  destruct (Nat.ltb position (String.length template)) eqn:L; [reflexivity|].
  apply Nat.ltb_ge in L.
  assert (G : String.get position template = None).
  { destruct (String.get position template) eqn:E; [|reflexivity].
    apply get_in_range in E. lia. }
  unfold char_is at 1. rewrite G. reflexivity.
Qed.

(** A trimmed text that starts with [#each ] carries an items expression. *)
Lemma trimmed_each_has_items (x : string) :
  startsWith (trim x) "#each " = true ->
  is_empty (trim (slice 6 (trim x))) = false.
Proof.
  intros Hp. pose proof (trim_last x) as Hl. unfold startsWith in Hp.
  destruct (trim x) as [|c1 [|c2 [|c3 [|c4 [|c5 [|c6 r]]]]]]; simpl in Hp;
    repeat match type of Hp with
           | (if ?d then _ else _) = true => destruct d; [|discriminate Hp]
           | false = true => discriminate Hp
           end.
  subst. simpl slice.
  destruct r as [|d r'].
  - specialize (Hl " "%char eq_refl). discriminate Hl.
  - destruct (last_char (String d r')) as [c|] eqn:E.
    + apply trim_nonempty with c; [exact E|].
      apply Hl. exact E.
    + apply last_char_none in E. discriminate E.
Qed.

(** What the classification of a marker's text may give. *)
Lemma processExpression_outcome (x : string) (isRaw : bool)
    (tokens : list token) :
  (exists t, _processExpression (trim x) isRaw tokens = Ok (tokens ++ [t]))
  \/ (startsWith (trim x) "/" = true
      /\ _processExpression (trim x) isRaw tokens
         = Throw (Error ("Unknown closing directive: " ++ trim x))).
Proof.
  unfold _processExpression. destruct isRaw; [left; eauto|].
  destruct (startsWith (trim x) "#if ") eqn:E1.
  { rewrite (trimmed_if_has_condition _ E1). left; eauto. }
  destruct (startsWith (trim x) "#each ") eqn:E2.
  { rewrite (trimmed_each_has_items _ E2). left; eauto. }
  destruct (String.eqb (trim x) "/if"); [left; eauto|].
  destruct (String.eqb (trim x) "/each"); [left; eauto|].
  destruct (startsWith (trim x) "/"); [right; auto | left; eauto].
Qed.

(** The loop ends when its fuel exceeds the characters left, with tokens
    or with one of two errors. *)
Lemma tokenize_loop_outcome (template : string) (fuel : nat) :
  forall position textBuffer tokens,
    String.length template - position < fuel ->
    (exists result,
        tokenize_loop fuel template position textBuffer tokens = Ok result)
    \/ (exists opener,
          position <= opener
          /\ char_is template opener "{" = true
          /\ char_is template (opener + 1) "{" = true
          /\ tokenize_loop fuel template position textBuffer tokens
             = Throw (Error ("Unclosed expression at position "
                             ++ of_nat opener)))
    \/ (exists expression,
          startsWith expression "/" = true
          /\ tokenize_loop fuel template position textBuffer tokens
             = Throw (Error ("Unknown closing directive: " ++ expression))).
Proof.
  induction fuel as [|fuel IH]; intros position textBuffer tokens Hfuel.
  - left. exfalso. lia.
  - rewrite tokenize_loop_S.
    destruct (char_is template position "{"
              && char_is template (position + 1) "{") eqn:Hopen.
    + apply andb_true_iff in Hopen as [H0 H1]. cbv zeta.
      pose proof (char_is_in_range _ _ _ H0) as Hin. apply Nat.ltb_lt in Hin.
      assert (Hstep : forall isRaw exprStart closeMarker,
        position + 2 <= exprStart ->
        closeMarker <> EmptyString ->
        (exists result,
            match indexOf template closeMarker exprStart with
            | None =>
                Throw (Error ("Unclosed expression at position "
                              ++ of_nat position))
            | Some closeIndex =>
                tokens <- _processExpression
                            (trim (substring exprStart closeIndex template))
                            isRaw (flush textBuffer tokens) ;;
                tokenize_loop fuel template
                  (closeIndex + String.length closeMarker) EmptyString tokens
            end = Ok result)
        \/ (exists opener,
              position <= opener
              /\ char_is template opener "{" = true
              /\ char_is template (opener + 1) "{" = true
              /\ match indexOf template closeMarker exprStart with
                 | None =>
                     Throw (Error ("Unclosed expression at position "
                                   ++ of_nat position))
                 | Some closeIndex =>
                     tokens <- _processExpression
                                 (trim (substring exprStart closeIndex template))
                                 isRaw (flush textBuffer tokens) ;;
                     tokenize_loop fuel template
                       (closeIndex + String.length closeMarker) EmptyString
                       tokens
                 end
                 = Throw (Error ("Unclosed expression at position "
                                 ++ of_nat opener)))
        \/ (exists expression,
              startsWith expression "/" = true
              /\ match indexOf template closeMarker exprStart with
                 | None =>
                     Throw (Error ("Unclosed expression at position "
                                   ++ of_nat position))
                 | Some closeIndex =>
                     tokens <- _processExpression
                                 (trim (substring exprStart closeIndex template))
                                 isRaw (flush textBuffer tokens) ;;
                     tokenize_loop fuel template
                       (closeIndex + String.length closeMarker) EmptyString
                       tokens
                 end
                 = Throw (Error ("Unknown closing directive: " ++ expression)))).
      { intros isRaw exprStart closeMarker Hstart Hmarker.
        destruct (indexOf template closeMarker exprStart) as [closeIndex|] eqn:Hi.
        - apply index_ge in Hi.
          destruct (processExpression_outcome
                      (substring exprStart closeIndex template) isRaw
                      (flush textBuffer tokens)) as [[t Hp]|[Hs Hp]];
            rewrite Hp; cbn [bind].
          + destruct (IH (closeIndex + String.length closeMarker) EmptyString
                        (flush textBuffer tokens ++ [t]) ltac:(lia))
              as [Hok|[[opener [Hle [Ha [Hb He]]]]|Hunk]].
            * left. exact Hok.
            * right. left. exists opener. repeat split; try assumption. lia.
            * right. right. exact Hunk.
          + right. right. eauto.
        - right. left. exists position. auto. }
      destruct (char_is template (position + 2) "{");
        apply Hstep; first [lia | discriminate].
    + destruct (String.get position template) as [char|] eqn:Hget;
        [|left; eauto].
      apply get_in_range in Hget.
      destruct (IH (position + 1)
                  (textBuffer ++ String char EmptyString)%string
                  tokens ltac:(lia))
        as [Hok|[[opener [Hle [Ha [Hb He]]]]|Hunk]].
      * left. exact Hok.
      * right. left. exists opener. repeat split; try assumption. lia.
      * right. right. exact Hunk.
Qed.

(** More fuel does not change the tokens of a finished loop. *)
Lemma tokenize_loop_more_fuel (template : string) (fuel : nat) :
  forall position textBuffer tokens result fuel',
    tokenize_loop fuel template position textBuffer tokens = Ok result ->
    fuel <= fuel' ->
    tokenize_loop fuel' template position textBuffer tokens = Ok result.
Proof.
  induction fuel as [|fuel IH];
    intros position textBuffer tokens result fuel' H Hle; [discriminate H|].
  destruct fuel' as [|fuel']; [lia|].
  rewrite tokenize_loop_S in *.
  destruct (char_is template position "{"
            && char_is template (position + 1) "{").
  - cbv zeta in *.
    destruct (indexOf template _ _) as [closeIndex|]; [|discriminate H].
    destruct (_processExpression _ _ _) as [ts| | |]; cbn [bind] in *;
      try discriminate H.
    apply (IH _ _ _ _ _ H). lia.
  - destruct (String.get position template) as [char|]; [|exact H].
    apply (IH _ _ _ _ _ H). lia.
Qed.

Lemma flush_app (textBuffer : string) (before tokens : list token) :
  flush textBuffer (before ++ tokens) = before ++ flush textBuffer tokens.
Proof.
  unfold flush. destruct (Nat.ltb 0 (String.length textBuffer));
    [rewrite app_assoc|]; reflexivity.
Qed.

Lemma processExpression_app (expression : string) (isRaw : bool)
    (before tokens result : list token) :
  _processExpression expression isRaw tokens = Ok result ->
  _processExpression expression isRaw (before ++ tokens)
  = Ok (before ++ result).
Proof.
  unfold _processExpression.
  repeat match goal with
         | |- context [if ?b then _ else _] => destruct b
         end;
    intros H; try discriminate H; injection H as <-;
    rewrite app_assoc; reflexivity.
Qed.

(** The tokens of a template do not depend on what was scanned before it:
    a loop that succeeds on [rest] succeeds likewise on [rest] placed after
    any prefix, with the tokens collected so far in front. *)
Lemma tokenize_loop_shift (pre rest : string) (fuel : nat) :
  forall position textBuffer tokens result before,
    tokenize_loop fuel rest position textBuffer tokens = Ok result ->
    tokenize_loop fuel (pre ++ rest) (String.length pre + position)
      textBuffer (before ++ tokens)
    = Ok (before ++ result).
Proof.
  induction fuel as [|fuel IH];
    intros position textBuffer tokens result before H; [discriminate H|].
  rewrite tokenize_loop_S in *.
  rewrite <- !Nat.add_assoc, !char_is_append_right.
  destruct (char_is rest position "{" && char_is rest (position + 1) "{").
  - cbv zeta in *. unfold indexOf in *.
    assert (Hmarker : (if char_is rest (position + 2) "{" then "}}}" else "}}")
                      <> EmptyString)
      by (destruct (char_is rest (position + 2) "{"); discriminate).
    replace (if char_is rest (position + 2) "{"
             then String.length pre + (position + 3)
             else String.length pre + (position + 2))
      with (String.length pre
            + (if char_is rest (position + 2) "{"
               then position + 3 else position + 2))
      by (destruct (char_is rest (position + 2) "{"); reflexivity).
    rewrite (index_append_right _ _ _ _ Hmarker).
    destruct (String.index _ _ rest) as [closeIndex|]; [|discriminate H].
    cbn [option_map]. unfold substring in *.
    rewrite substring_append_right.
    replace (String.length pre + closeIndex
             - (String.length pre
                + (if char_is rest (position + 2) "{"
                   then position + 3 else position + 2)))
      with (closeIndex
            - (if char_is rest (position + 2) "{"
               then position + 3 else position + 2)) by lia.
    rewrite flush_app.
    destruct (_processExpression _ _ (flush textBuffer tokens))
      as [ts| | |] eqn:Hp; cbn [bind] in H; try discriminate H.
    rewrite (processExpression_app _ _ _ _ _ Hp). cbn [bind].
    rewrite <- Nat.add_assoc. apply IH. exact H.
  - rewrite get_append_right.
    destruct (String.get position rest) as [char|].
    + apply IH. exact H.
    + injection H as <-. rewrite flush_app. reflexivity.
Qed.

(** The loop over a stretch of text without opening brace. *)
Lemma tokenize_loop_text (text : string) :
  no_open_brace text = true ->
  forall pre rest textBuffer tokens fuel,
    tokenize_loop (String.length text + fuel) (pre ++ text ++ rest)
      (String.length pre) textBuffer tokens
    = tokenize_loop fuel (pre ++ text ++ rest)
        (String.length pre + String.length text) (textBuffer ++ text) tokens.
Proof.
  induction text as [|c text IH]; intros Hno pre rest textBuffer tokens fuel.
  - cbn [String.length Nat.add append]. rewrite Nat.add_0_r, append_empty.
    reflexivity.
  - cbn [no_open_brace forallb] in Hno. apply andb_true_iff in Hno as [Hc Hno].
    apply negb_true_iff in Hc.
    cbn [String.length Nat.add]. rewrite tokenize_loop_S.
    pose proof (char_is_append_right pre (String c text ++ rest) 0 "{") as H0.
    pose proof (get_append_right pre (String c text ++ rest) 0) as G0.
    rewrite Nat.add_0_r in H0, G0. rewrite H0, G0.
    cbn [append]. unfold char_is at 1. cbn [String.get]. rewrite Hc.
    cbn [andb].
    replace (pre ++ String c (text ++ rest))%string
      with ((pre ++ String c EmptyString) ++ text ++ rest)%string
      by (rewrite append_assoc; reflexivity).
    replace (String.length pre + 1)
      with (String.length (pre ++ String c EmptyString))
      by (rewrite length_append; cbn; lia).
    rewrite (IH Hno). rewrite length_append, !append_assoc.
    cbn [String.length append].
    replace (String.length pre + 1 + String.length text)
      with (String.length pre + S (String.length text)) by lia.
    reflexivity.
Qed.

Lemma prefix_same_char (c : ascii) (p s : string) :
  String.prefix (String c p) (String c s) = String.prefix p s.
Proof.
  cbn [String.prefix]. destruct (ascii_dec c c); [reflexivity | congruence].
Qed.

(** The loop over text that holds no opener. *)
Lemma tokenize_loop_plain (s : string) :
  String.index 0 "{{" s = None ->
  forall pre textBuffer tokens fuel,
    String.length s < fuel ->
    tokenize_loop fuel (pre ++ s) (String.length pre) textBuffer tokens
    = Ok (flush (textBuffer ++ s) tokens).
Proof.
  induction s as [|c s IH]; intros Hno pre textBuffer tokens fuel Hfuel;
    (destruct fuel as [|fuel]; [cbn in Hfuel; lia|]);
    rewrite tokenize_loop_S.
  - pose proof (get_append_right pre EmptyString 0) as G.
    pose proof (char_is_append_right pre EmptyString 0 "{") as H.
    rewrite Nat.add_0_r in G, H. rewrite G, H. cbn [char_is String.get andb].
    rewrite !append_empty. reflexivity.
  - pose proof (char_is_append_right pre (String c s) 0 "{") as H0.
    pose proof (char_is_append_right pre (String c s) 1 "{") as H1.
    pose proof (get_append_right pre (String c s) 0) as G0.
    rewrite Nat.add_0_r in H0, G0.
    rewrite H0, H1, G0. cbn [String.get].
    cbn [String.index] in Hno.
    destruct (String.prefix "{{" (String c s)) eqn:Hp; [discriminate Hno|].
    destruct (String.index 0 "{{" s) as [n|] eqn:Hs; [discriminate Hno|].
    assert (Hclosed : char_is (String c s) 0 "{" && char_is (String c s) 1 "{"
                      = false).
    { unfold char_is. cbn [String.get].
      destruct (Ascii.eqb c "{") eqn:Ec; [|reflexivity].
      apply Ascii.eqb_eq in Ec. subst c. cbn [andb].
      destruct s as [|d s']; [reflexivity|]. cbn [String.get].
      destruct (Ascii.eqb d "{") eqn:Ed; [|reflexivity].
      apply Ascii.eqb_eq in Ed. subst d.
      rewrite !prefix_same_char in Hp. destruct s'; discriminate Hp. }
    rewrite Hclosed.
    replace (pre ++ String c s)%string
      with ((pre ++ String c EmptyString) ++ s)%string
      by (rewrite append_assoc; reflexivity).
    replace (String.length pre + 1)
      with (String.length (pre ++ String c EmptyString))
      by (rewrite length_append; cbn; lia).
    rewrite (IH eq_refl) by (cbn in Hfuel; lia).
    rewrite append_assoc. reflexivity.
Qed.

Lemma tokenize_plain (template : string) :
  includes template "{{" = false ->
  tokenize template = Ok (text_tokens template).
Proof.
  unfold includes, indexOf. intros H.
  destruct (String.index 0 "{{" template) eqn:E; [discriminate H|].
  unfold tokenize. destruct template as [|c s]; [reflexivity|].
  cbn [String.length Nat.eqb].
  exact (tokenize_loop_plain (String c s) E EmptyString EmptyString [] _
           (Nat.lt_succ_diag_r _)).
Qed.

Lemma prefix_append (p s : string) : String.prefix p (p ++ s) = true.
Proof.
  induction p as [|c p IH]; [destruct s; reflexivity|].
  cbn [append]. rewrite prefix_same_char. exact IH.
Qed.

Lemma index_closer (closer inner rest : string) :
  no_close_brace inner = true ->
  String.index 0 (String "}" closer) (inner ++ String "}" closer ++ rest)
  = Some (String.length inner).
Proof.
  intros H. induction inner as [|c inner IH].
  - cbn [append String.index String.length].
    change (String "}" (closer ++ rest)) with (String "}" closer ++ rest)%string.
    rewrite prefix_append. reflexivity.
  - cbn [no_close_brace forallb] in H. apply andb_true_iff in H as [Hc H].
    apply negb_true_iff in Hc.
    cbn [append String.index String.length].
    rewrite (prefix_other_char _ _ _ _ Hc).
    cbn [append] in IH. rewrite (IH H). reflexivity.
Qed.

(** One marker after a stretch of text: the loop reaches the end of the
    marker with the tokens of the text and of the marker. *)
Lemma tokenize_loop_marker (isRaw : bool) (text inner rest : string)
    (fuel : nat) :
  no_open_brace text = true ->
  marker_text isRaw inner = true ->
  tokenize_loop (String.length text + S fuel)
    (text ++ marker isRaw inner ++ rest) 0 EmptyString []
  = (tokens <- _processExpression (trim inner) isRaw (text_tokens text) ;;
     tokenize_loop fuel (text ++ marker isRaw inner ++ rest)
       (String.length (text ++ marker isRaw inner)) EmptyString tokens).
Proof.
  intros Htext Hinner. apply andb_true_iff in Hinner as [Hclose Hstart].
  pose proof (tokenize_loop_text text Htext EmptyString
                (marker isRaw inner ++ rest) EmptyString [] (S fuel)) as Hscan.
  cbn [append String.length Nat.add] in Hscan. rewrite Hscan. clear Hscan.
  rewrite tokenize_loop_S.
  pose proof (char_is_append_right text (marker isRaw inner ++ rest) 0 "{")
    as H0.
  rewrite Nat.add_0_r in H0.
  rewrite H0, !char_is_append_right.
  assert (Hraw : char_is (marker isRaw inner ++ rest) 2 "{" = isRaw).
  { destruct isRaw; [reflexivity|].
    cbn [orb] in Hstart. apply negb_true_iff in Hstart.
    unfold marker, char_is. cbn [append String.get].
    destruct inner as [|c inner']; [reflexivity|].
    cbn [append String.get]. unfold startsWith in Hstart.
    destruct (Ascii.eqb c "{") eqn:E; [|reflexivity].
    apply Ascii.eqb_eq in E. subst c. rewrite prefix_same_char in Hstart.
    destruct inner'; discriminate Hstart. }
  replace (char_is (marker isRaw inner ++ rest) 0 "{"
           && char_is (marker isRaw inner ++ rest) 1 "{") with true
    by (destruct isRaw; reflexivity).
  rewrite Hraw. cbv zeta. unfold indexOf, substring, text_tokens.
  destruct isRaw; unfold marker; rewrite !append_assoc;
    cbn [append].
  - pose proof (index_append_right "{{{" (inner ++ "}}}" ++ rest) "}}}" 0
                  ltac:(discriminate)) as Hi.
    pose proof (substring_append_right "{{{" (inner ++ "}}}" ++ rest) 0
                  (String.length inner)) as Hs.
    rewrite (index_closer "}}" inner rest Hclose) in Hi.
    rewrite substring_prefix in Hs.
    cbn [String.length Nat.add append option_map] in Hi, Hs.
    rewrite (index_append_right text _ "}}}" 3 ltac:(discriminate)).
    rewrite Hi. cbn [option_map].
    rewrite substring_append_right.
    match goal with
    | |- context [String.substring 3 ?n _] =>
        replace n with (String.length inner) by lia
    end.
    rewrite Hs.
    match goal with
    | |- context [tokenize_loop fuel _ ?n EmptyString] => replace n
      with (String.length
              (text ++ String "{" (String "{" (String "{"
                 (inner ++ String "}" (String "}" (String "}" EmptyString)))))))
      by (rewrite !length_append; cbn [String.length];
          rewrite length_append; cbn [String.length]; lia)
    end.
    reflexivity.
  - pose proof (index_append_right "{{" (inner ++ "}}" ++ rest) "}}" 0
                  ltac:(discriminate)) as Hi.
    pose proof (substring_append_right "{{" (inner ++ "}}" ++ rest) 0
                  (String.length inner)) as Hs.
    rewrite (index_closer "}" inner rest Hclose) in Hi.
    rewrite substring_prefix in Hs.
    cbn [String.length Nat.add append option_map] in Hi, Hs.
    rewrite (index_append_right text _ "}}" 2 ltac:(discriminate)).
    rewrite Hi. cbn [option_map].
    rewrite substring_append_right.
    match goal with
    | |- context [String.substring 2 ?n _] =>
        replace n with (String.length inner) by lia
    end.
    rewrite Hs.
    match goal with
    | |- context [tokenize_loop fuel _ ?n EmptyString] => replace n
      with (String.length
              (text ++ String "{" (String "{"
                 (inner ++ String "}" (String "}" EmptyString)))))
      by (rewrite !length_append; cbn [String.length];
          rewrite length_append; cbn [String.length]; lia)
    end.
    reflexivity.
Qed.

(** The scanner's outcome on a template that starts with text and one
    marker. *)
Lemma tokenize_marker (isRaw : bool) (text inner rest : string)
    (tokens more : list token) :
  no_open_brace text = true ->
  marker_text isRaw inner = true ->
  _processExpression (trim inner) isRaw (text_tokens text) = Ok tokens ->
  tokenize rest = Ok more ->
  tokenize (text ++ marker isRaw inner ++ rest) = Ok (tokens ++ more).
Proof.
  intros Htext Hinner Hproc Hrest. unfold tokenize.
  assert (Hlen : String.length (text ++ marker isRaw inner ++ rest)
                 = String.length text
                   + (String.length (marker isRaw inner) + String.length rest))
    by (rewrite !length_append; reflexivity).
  assert (Hm : 4 <= String.length (marker isRaw inner)).
  { destruct isRaw; unfold marker; cbn [append String.length];
      rewrite length_append; cbn [String.length]; lia. }
  rewrite Hlen.
  destruct (Nat.eqb _ 0) eqn:E; [apply Nat.eqb_eq in E; lia|]. clear E.
  rewrite <- Nat.add_succ_r.
  rewrite (tokenize_loop_marker isRaw text inner rest _ Htext Hinner).
  rewrite Hproc. cbn [bind].
  rewrite <- (append_assoc text), <- (Nat.add_0_r (String.length (text ++ _))).
  rewrite <- (app_nil_r tokens) at 1.
  apply tokenize_loop_shift.
  unfold tokenize in Hrest.
  destruct rest as [|c rest'].
  - cbn in Hrest. injection Hrest as <-.
    destruct (String.length (marker isRaw inner)) as [|n]; [lia|]. reflexivity.
  - cbn [String.length Nat.eqb] in Hrest.
    apply (tokenize_loop_more_fuel _ _ _ _ _ _ _ Hrest).
    cbn [String.length]. lia.
Qed.

Lemma tokenize_marker_error (isRaw : bool) (text inner rest : string)
    (e : exn) :
  no_open_brace text = true ->
  marker_text isRaw inner = true ->
  _processExpression (trim inner) isRaw (text_tokens text) = Throw e ->
  tokenize (text ++ marker isRaw inner ++ rest) = Throw e.
Proof.
  intros Htext Hinner Hproc. unfold tokenize.
  assert (Hlen : String.length (text ++ marker isRaw inner ++ rest)
                 = String.length text
                   + (String.length (marker isRaw inner) + String.length rest))
    by (rewrite !length_append; reflexivity).
  assert (Hm : 4 <= String.length (marker isRaw inner)).
  { destruct isRaw; unfold marker; cbn [append String.length];
      rewrite length_append; cbn [String.length]; lia. }
  rewrite Hlen.
  destruct (Nat.eqb _ 0) eqn:E; [apply Nat.eqb_eq in E; lia|]. clear E.
  rewrite <- Nat.add_succ_r.
  rewrite (tokenize_loop_marker isRaw text inner rest _ Htext Hinner).
  rewrite Hproc. reflexivity.
Qed.

(** ** Trimming *)

Lemma trimStart_first (s : string) (c : ascii) (r : string) :
  trimStart s = String c r -> is_space c = false.
Proof.
  induction s as [|a s IH]; cbn [trimStart]; [discriminate|].
  destruct (is_space a) eqn:E; [exact IH|].
  intros [= <- _]. exact E.
Qed.

Lemma trimEnd_id (s : string) (c : ascii) :
  last_char s = Some c -> is_space c = false -> trimEnd s = s.
Proof.
  induction s as [|a s IH]; [discriminate|].
  intros Hl Hc. destruct s as [|b s'].
  - cbn in *. injection Hl as ->. rewrite Hc. reflexivity.
  - specialize (IH Hl Hc).
    change (trimEnd (String a (String b s')))
      with (match trimEnd (String b s') with
            | EmptyString =>
                if is_space a then EmptyString else String a EmptyString
            | t => String a t
            end).
    rewrite IH. reflexivity.
Qed.

Lemma trimEnd_idempotent (s : string) : trimEnd (trimEnd s) = trimEnd s.
Proof.
  destruct (last_char (trimEnd s)) as [c|] eqn:E.
  - apply (trimEnd_id _ c E). apply (trimEnd_last _ _ E).
  - apply last_char_none in E. rewrite E. reflexivity.
Qed.

Lemma trimEnd_keeps_first (c : ascii) (r : string) :
  is_space c = false -> exists t, trimEnd (String c r) = String c t.
Proof.
  intros Hc. cbn [trimEnd]. destruct (trimEnd r) as [|d t].
  - rewrite Hc. eauto.
  - eauto.
Qed.

Lemma trim_idempotent (s : string) : trim (trim s) = trim s.
Proof.
  unfold trim. destruct (trimStart s) as [|c r] eqn:E; [reflexivity|].
  destruct (trimEnd_keeps_first c r (trimStart_first _ _ _ E)) as [t Ht].
  rewrite Ht. cbn [trimStart]. rewrite (trimStart_first _ _ _ E).
  rewrite <- Ht. apply trimEnd_idempotent.
Qed.

Lemma trim_is_trimmed (s : string) : is_trimmed (trim s) = true.
Proof. unfold is_trimmed. rewrite trim_idempotent. apply String.eqb_refl. Qed.

(** ** Scanner: the tokens *)

Lemma ends_in_text_snoc (tokens : list token) (t : token) :
  ends_in_text (tokens ++ [t]) = is_text t.
Proof.
  induction tokens as [|a tokens IH]; [reflexivity|].
  cbn [app ends_in_text]. rewrite IH.
  destruct (tokens ++ [t]) eqn:E; [|reflexivity].
  destruct tokens; discriminate E.
Qed.

Lemma texts_apart_snoc (tokens : list token) (t : token) :
  texts_apart (tokens ++ [t])
  = texts_apart tokens && negb (ends_in_text tokens && is_text t).
Proof.
  induction tokens as [|a tokens IH]; [reflexivity|].
  destruct tokens as [|b tokens].
  - cbn. rewrite andb_true_r. reflexivity.
  - change ((a :: b :: tokens) ++ [t]) with (a :: (b :: tokens) ++ [t]).
    change (texts_apart (a :: (b :: tokens) ++ [t]))
      with (negb (is_text a && is_text b)
            && texts_apart ((b :: tokens) ++ [t])).
    rewrite IH.
    change (texts_apart (a :: b :: tokens))
      with (negb (is_text a && is_text b) && texts_apart (b :: tokens)).
    change (ends_in_text (a :: b :: tokens))
      with (ends_in_text (b :: tokens)).
    rewrite andb_assoc. reflexivity.
Qed.

(** The token that the classification of a marker's text appends. *)
Lemma processExpression_token (x : string) (isRaw : bool)
    (tokens result : list token) :
  _processExpression (trim x) isRaw tokens = Ok result ->
  exists t,
    result = tokens ++ [t] /\ token_ok t = true /\ is_text t = false.
Proof.
  unfold _processExpression.
  generalize (slice 4 (trim x)) (slice 6 (trim x)). intros s4 s6.
  destruct isRaw.
  { intros [= <-]. eexists. split; [reflexivity|].
    split; [apply trim_is_trimmed | reflexivity]. }
  destruct (startsWith (trim x) "#if ").
  { destruct (is_empty (trim s4)) eqn:E; [discriminate|].
    intros [= <-]. eexists. split; [reflexivity|].
    cbn [token_ok is_text]. rewrite E, trim_is_trimmed. auto. }
  destruct (startsWith (trim x) "#each ").
  { destruct (is_empty (trim s6)) eqn:E; [discriminate|].
    intros [= <-]. eexists. split; [reflexivity|].
    cbn [token_ok is_text]. rewrite E, trim_is_trimmed. auto. }
  destruct (String.eqb (trim x) "/if").
  { intros [= <-]. eexists. split; [reflexivity|]. auto. }
  destruct (String.eqb (trim x) "/each").
  { intros [= <-]. eexists. split; [reflexivity|]. auto. }
  destruct (startsWith (trim x) "/") eqn:E; [discriminate|].
  intros [= <-]. eexists. split; [reflexivity|].
  cbn [token_ok is_text]. rewrite E, trim_is_trimmed. auto.
Qed.

Lemma forallb_snoc {A : Type} (p : A -> bool) (l : list A) (a : A) :
  List.forallb p (l ++ [a]) = List.forallb p l && p a.
Proof. rewrite List.forallb_app. cbn. rewrite andb_true_r. reflexivity. Qed.

Lemma flush_ok (textBuffer : string) (tokens : list token) :
  List.forallb token_ok tokens = true ->
  texts_apart tokens = true ->
  ends_in_text tokens = false ->
  List.forallb token_ok (flush textBuffer tokens) = true
  /\ texts_apart (flush textBuffer tokens) = true.
Proof.
  intros Hok Hapart Hend. unfold flush.
  destruct (Nat.ltb 0 (String.length textBuffer)) eqn:E; [|auto].
  rewrite forallb_snoc, texts_apart_snoc, Hok, Hapart, Hend.
  destruct textBuffer; [discriminate E | auto].
Qed.

Lemma tokenize_loop_tokens (template : string) (fuel : nat) :
  forall position textBuffer tokens result,
    tokenize_loop fuel template position textBuffer tokens = Ok result ->
    List.forallb token_ok tokens = true ->
    texts_apart tokens = true ->
    ends_in_text tokens = false ->
    List.forallb token_ok result = true /\ texts_apart result = true.
Proof.
  induction fuel as [|fuel IH];
    intros position textBuffer tokens result H Hok Hapart Hend;
    [discriminate H|].
  rewrite tokenize_loop_S in H.
  destruct (char_is template position "{"
            && char_is template (position + 1) "{").
  - cbv zeta in H.
    destruct (indexOf template _ _) as [closeIndex|]; [|discriminate H].
    destruct (_processExpression _ _ _) as [ts| | |] eqn:Hp; cbn [bind] in H;
      try discriminate H.
    apply processExpression_token in Hp as [t [-> [Ht Htext]]].
    destruct (flush_ok textBuffer tokens Hok Hapart Hend) as [Hok' Hapart'].
    apply (IH _ _ _ _ H).
    + rewrite forallb_snoc, Hok', Ht. reflexivity.
    + rewrite texts_apart_snoc, Hapart', Htext, andb_false_r. reflexivity.
    + rewrite ends_in_text_snoc. exact Htext.
  - destruct (String.get position template) as [char|].
    + apply (IH _ _ _ _ H); assumption.
    + injection H as <-. apply flush_ok; assumption.
Qed.

Lemma text_tokens_cases (text : string) :
  text_tokens text = if is_empty text then [] else [TEXT text].
Proof. destruct text; reflexivity. Qed.

(** X1.  [tokenize] ends on every template.  It returns
    tokens, or raises the error for an unclosed expression with the position
    of an opener [{{] of the template, or raises the error for an unknown
    closing directive with a marker text that starts with a slash.  The
    errors for a directive without condition or without items are never
    raised. *)
Theorem tokenize_returns_or_raises_one_of_two_errors (template : string) :
  (exists tokens, tokenize template = Ok tokens)
  \/ (exists opener,
        char_is template opener "{" = true
        /\ char_is template (opener + 1) "{" = true
        /\ tokenize template
           = Throw (Error ("Unclosed expression at position "
                           ++ of_nat opener)))
  \/ (exists expression,
        startsWith expression "/" = true
        /\ tokenize template
           = Throw (Error ("Unknown closing directive: " ++ expression))).
Proof.
  unfold tokenize. destruct (Nat.eqb (String.length template) 0); [eauto|].
  destruct (tokenize_loop_outcome template (S (String.length template)) 0
              EmptyString [] ltac:(lia))
    as [Hok|[[opener [_ [Ha [Hb He]]]]|Hunk]]; eauto 6.
Qed.

(** X2.  A template that holds no opener [{{] is scanned
    into one text token that carries the whole template, and the empty
    template into no token. *)
Theorem tokenize_plain_text (template : string) :
  includes template "{{" = false ->
  tokenize template
  = Ok (if is_empty template then [] else [TEXT template]).
Proof.
  intros H. rewrite (tokenize_plain _ H), text_tokens_cases. reflexivity.
Qed.

Lemma tokenize_plain_text_witness :
  includes "a { b } c" "{{" = false
  /\ tokenize "a { b } c" = Ok [TEXT "a { b } c"].
Proof.
  split; [reflexivity|].
  exact (tokenize_plain_text "a { b } c" eq_refl).
Defined.

(** X3.  In the tokens of a template no text token is
    empty and no two text tokens follow each other; the text carried by a
    variable, raw-variable, if or each token is trimmed; the condition of
    an if token and the items of an each token are not empty; the
    expression of a variable token does not start with a slash. *)
Theorem tokenize_tokens_well_formed (template : string)
    (tokens : list token) :
  tokenize template = Ok tokens ->
  List.forallb token_ok tokens = true /\ texts_apart tokens = true.
Proof.
  unfold tokenize. destruct (Nat.eqb (String.length template) 0).
  - intros [= <-]. split; reflexivity.
  - intros H. apply (tokenize_loop_tokens _ _ _ _ _ _ H); reflexivity.
Qed.

Lemma tokenize_tokens_well_formed_witness :
  tokenize "a {{ x }}{{#if  y }} b{{/if}}"
  = Ok [TEXT "a "; VAR "x"; IF_START "y"; TEXT " b"; IF_END]
  /\ List.forallb token_ok
       [TEXT "a "; VAR "x"; IF_START "y"; TEXT " b"; IF_END] = true
  /\ texts_apart [TEXT "a "; VAR "x"; IF_START "y"; TEXT " b"; IF_END] = true.
Proof.
  split; [reflexivity|].
  exact (tokenize_tokens_well_formed "a {{ x }}{{#if  y }} b{{/if}}" _ eq_refl).
Defined.

(** X4.  A template that starts with text without opening
    brace and one marker is scanned piecewise: the tokens are the text token
    (if the text is not empty), the token of the marker's trimmed text, and
    the tokens of the rest of the template scanned on its own.  When the
    marker's text is rejected, so is the template. *)
Theorem tokenize_text_then_marker (isRaw : bool) (text inner rest : string) :
  no_open_brace text = true ->
  marker_text isRaw inner = true ->
  (forall tokens more,
      _processExpression (trim inner) isRaw (text_tokens text) = Ok tokens ->
      tokenize rest = Ok more ->
      tokenize (text ++ marker isRaw inner ++ rest) = Ok (tokens ++ more))
  /\ (forall e,
      _processExpression (trim inner) isRaw (text_tokens text) = Throw e ->
      tokenize (text ++ marker isRaw inner ++ rest) = Throw e).
Proof.
  intros Htext Hinner. split.
  - intros tokens more. apply tokenize_marker; assumption.
  - intros e. apply tokenize_marker_error; assumption.
Qed.

Lemma tokenize_text_then_marker_witness :
  (no_open_brace "Hello " = true
   /\ marker_text false " user.name " = true
   /\ _processExpression (trim " user.name ") false (text_tokens "Hello ")
      = Ok [TEXT "Hello "; VAR "user.name"]
   /\ tokenize "!{{/if}}" = Ok [TEXT "!"; IF_END]
   /\ tokenize ("Hello " ++ marker false " user.name " ++ "!{{/if}}")
      = Ok ([TEXT "Hello "; VAR "user.name"] ++ [TEXT "!"; IF_END]))
  /\ (no_open_brace "" = true
      /\ marker_text false "/unless" = true
      /\ _processExpression (trim "/unless") false (text_tokens "")
         = Throw (Error "Unknown closing directive: /unless")
      /\ tokenize ("" ++ marker false "/unless" ++ "{{")
         = Throw (Error "Unknown closing directive: /unless")).
Proof.
  split.
  - split; [reflexivity|]. split; [reflexivity|]. split; [reflexivity|].
    split; [reflexivity|].
    exact (proj1 (tokenize_text_then_marker false "Hello " " user.name "
                    "!{{/if}}" eq_refl eq_refl) _ _ eq_refl eq_refl).
  - split; [reflexivity|]. split; [reflexivity|]. split; [reflexivity|].
    exact (proj2 (tokenize_text_then_marker false "" "/unless" "{{"
                    eq_refl eq_refl) _ eq_refl).
Defined.

(** ** Tree builder: trees and their tokens *)

Lemma tokens_of_nonempty (n : node) :
  no_root n = true -> 1 <= List.length (tokens_of n).
Proof.
  destruct n; cbn [no_root tokens_of List.length]; try discriminate; lia.
Qed.

Lemma flat_tokens_length (nodes : list node) :
  List.forallb no_root nodes = true ->
  List.length nodes <= List.length (List.flat_map tokens_of nodes).
Proof.
  induction nodes as [|n nodes IH]; [reflexivity|].
  cbn [List.forallb List.flat_map List.length]. intros H.
  apply andb_true_iff in H as [Hn Hrest].
  rewrite length_app. pose proof (tokens_of_nonempty n Hn). specialize (IH Hrest).
  lia.
Qed.

Lemma nth_error_at_skipn {A : Type} (l front rest : list A) (position k : nat) :
  skipn position l = front ++ rest ->
  k < List.length front ->
  nth_error l (position + k) = nth_error front k.
Proof.
  intros H Hk. rewrite <- nth_error_skipn, H. apply nth_error_app1. exact Hk.
Qed.

Lemma skipn_after {A : Type} (l front rest : list A) (position : nat) :
  skipn position l = front ++ rest ->
  skipn (position + List.length front) l = rest.
Proof.
  intros H. rewrite Nat.add_comm, <- skipn_skipn, H.
  rewrite skipn_app, skipn_all, Nat.sub_diag. reflexivity.
Qed.

(** The builder's loop over the tokens of a list of trees, given that it
    reads the tokens of each tree in one turn. *)
Lemma parse_loop_trees (tokens : list token) (nodes : list node) :
  Forall (fun n =>
    no_root n = true ->
    forall position acc fuel rest,
      skipn position tokens = tokens_of n ++ rest ->
      List.length (tokens_of n) <= S fuel ->
      parse_loop (S fuel) tokens position acc
      = parse_loop fuel tokens (position + List.length (tokens_of n))
          (acc ++ [n])) nodes ->
  List.forallb no_root nodes = true ->
  forall position acc fuel rest,
    skipn position tokens = List.flat_map tokens_of nodes ++ rest ->
    List.length (List.flat_map tokens_of nodes) <= fuel ->
    parse_loop fuel tokens position acc
    = parse_loop (fuel - List.length nodes) tokens
        (position + List.length (List.flat_map tokens_of nodes))
        (acc ++ nodes).
Proof.
  induction nodes as [|n nodes IH]; intros HP Hno position acc fuel rest Hs Hf.
  - cbn [List.flat_map List.length]. rewrite Nat.sub_0_r, Nat.add_0_r, app_nil_r.
    reflexivity.
  - inversion HP as [|? ? Hn Hnodes]; subst.
    cbn [List.forallb] in Hno. apply andb_true_iff in Hno as [Hnr Hno].
    cbn [List.flat_map] in *. rewrite length_app in *.
    pose proof (tokens_of_nonempty n Hnr) as H1.
    destruct fuel as [|fuel]; [lia|].
    rewrite <- app_assoc in Hs.
    rewrite (Hn Hnr position acc fuel _ Hs) by lia.
    apply skipn_after in Hs.
    rewrite (IH Hnodes Hno _ _ fuel rest Hs) by lia.
    cbn [List.length Nat.sub]. rewrite <- app_assoc, Nat.add_assoc.
    reflexivity.
Qed.

Lemma parse_loop_stops_at_close (tokens : list token) (position fuel : nat)
    (acc : list node) (t : token) :
  nth_error tokens position = Some t ->
  (t = IF_END \/ t = EACH_END) ->
  parse_loop (S fuel) tokens position acc = Ok (acc, position).
Proof. intros H [-> | ->]; cbn [parse_loop]; rewrite H; reflexivity. Qed.

Lemma parse_loop_tree (tokens : list token) (n : node) :
  no_root n = true ->
  forall position acc fuel rest,
    skipn position tokens = tokens_of n ++ rest ->
    List.length (tokens_of n) <= S fuel ->
    parse_loop (S fuel) tokens position acc
    = parse_loop fuel tokens (position + List.length (tokens_of n))
        (acc ++ [n]).
Proof.
  induction n as [v|e|e|c children IH|i children IH|children IH]
    using node_induction;
    intros Hno position acc fuel rest Hs Hf;
    try discriminate Hno;
    pose proof (nth_error_at_skipn tokens _ _ position 0 Hs) as H0;
    rewrite Nat.add_0_r in H0.
  - cbn [parse_loop]. rewrite H0 by (cbn; lia). reflexivity.
  - cbn [parse_loop]. rewrite H0 by (cbn; lia). reflexivity.
  - cbn [parse_loop]. rewrite H0 by (cbn; lia). reflexivity.
  - cbn [no_root] in Hno. cbn [tokens_of] in *.
    cbn [List.length] in Hf. rewrite length_app in Hf. cbn [List.length] in Hf.
    pose proof (flat_tokens_length children Hno) as Hlen.
    cbn [parse_loop]. rewrite H0 by (cbn; lia). cbn [nth_error].
    unfold _parseBlock. rewrite H0 by (cbn; lia). cbn [nth_error type].
    cbn [String.eqb Ascii.eqb Bool.eqb negb].
    assert (Hinner : skipn (position + 1) tokens
                     = List.flat_map tokens_of children ++ IF_END :: rest).
    { pose proof (skipn_after tokens [IF_START c]
                    ((List.flat_map tokens_of children ++ [IF_END]) ++ rest)
                    position Hs) as H.
      rewrite <- app_assoc in H. exact H. }
    rewrite (parse_loop_trees tokens children IH Hno (position + 1) [] fuel _
               Hinner) by lia.
    assert (Hend : nth_error tokens
                     (position + 1
                      + List.length (List.flat_map tokens_of children))
                   = Some IF_END).
    { rewrite <- nth_error_skipn, Hinner, nth_error_app2, Nat.sub_diag
        by apply le_n.
      reflexivity. }
    destruct (fuel - List.length children) as [|f] eqn:Ef; [lia|].
    rewrite (parse_loop_stops_at_close _ _ _ _ _ Hend (or_introl eq_refl)).
    cbn [bind app]. rewrite Hend.
    assert (Hin : Nat.leb (List.length tokens)
                    (position + 1
                     + List.length (List.flat_map tokens_of children)) = false).
    { apply Nat.leb_gt. apply nth_error_Some. congruence. }
    rewrite Hin. cbn [type String.eqb Ascii.eqb Bool.eqb negb orb bind].
    f_equal. cbn [List.length]. rewrite length_app. cbn [List.length]. lia.
  - cbn [no_root] in Hno. cbn [tokens_of] in *.
    cbn [List.length] in Hf. rewrite length_app in Hf. cbn [List.length] in Hf.
    pose proof (flat_tokens_length children Hno) as Hlen.
    cbn [parse_loop]. rewrite H0 by (cbn; lia). cbn [nth_error].
    unfold _parseBlock. rewrite H0 by (cbn; lia). cbn [nth_error type].
    cbn [String.eqb Ascii.eqb Bool.eqb negb].
    assert (Hinner : skipn (position + 1) tokens
                     = List.flat_map tokens_of children ++ EACH_END :: rest).
    { pose proof (skipn_after tokens [EACH_START i]
                    ((List.flat_map tokens_of children ++ [EACH_END]) ++ rest)
                    position Hs) as H.
      rewrite <- app_assoc in H. exact H. }
    rewrite (parse_loop_trees tokens children IH Hno (position + 1) [] fuel _
               Hinner) by lia.
    assert (Hend : nth_error tokens
                     (position + 1
                      + List.length (List.flat_map tokens_of children))
                   = Some EACH_END).
    { rewrite <- nth_error_skipn, Hinner, nth_error_app2, Nat.sub_diag
        by apply le_n.
      reflexivity. }
    destruct (fuel - List.length children) as [|f] eqn:Ef; [lia|].
    rewrite (parse_loop_stops_at_close _ _ _ _ _ Hend (or_intror eq_refl)).
    cbn [bind app]. rewrite Hend.
    assert (Hin : Nat.leb (List.length tokens)
                    (position + 1
                     + List.length (List.flat_map tokens_of children)) = false).
    { apply Nat.leb_gt. apply nth_error_Some. congruence. }
    rewrite Hin. cbn [type String.eqb Ascii.eqb Bool.eqb negb orb bind].
    f_equal. cbn [List.length]. rewrite length_app. cbn [List.length]. lia.
Qed.

Lemma parse_tokens_of (children : list node) :
  List.forallb no_root children = true ->
  parse (List.flat_map tokens_of children) = Ok (Root children).
Proof.
  intros Hno. unfold parse, _parseTokens.
  set (tokens := List.flat_map tokens_of children).
  pose proof (flat_tokens_length children Hno) as Hlen. fold tokens in Hlen.
  rewrite (parse_loop_trees tokens children
             (Forall_all _ _ (parse_loop_tree tokens)) Hno 0 [] _ []).
  - cbn [Nat.add app]. fold tokens.
    destruct (S (List.length tokens) - List.length children) as [|f] eqn:Ef;
      [lia|].
    cbn [parse_loop].
    replace (nth_error tokens (List.length tokens)) with (@None token)
      by (symmetry; apply nth_error_None; apply le_n).
    cbn [bind]. rewrite Nat.ltb_irrefl. reflexivity.
  - cbn [skipn]. rewrite app_nil_r. reflexivity.
  - fold tokens. lia.
Qed.

(** What a successful call of [_parseBlock] has done. *)
Lemma parseBlock_ok
    (parseTokens : list token -> nat -> outcome (list node * nat))
    (tokens : list token) (startPosition : nat)
    (startType endType nodeType : string) (n : node) (next : nat) :
  _parseBlock parseTokens tokens startPosition startType endType nodeType
  = Ok (n, next) ->
  exists startToken nodes position endToken,
    nth_error tokens startPosition = Some startToken
    /\ parseTokens tokens (startPosition + 1) = Ok (nodes, position)
    /\ nth_error tokens position = Some endToken
    /\ type endToken = endType
    /\ next = position + 1
    /\ ((exists condition,
            startToken = IF_START condition /\ n = If condition nodes)
        \/ (exists items,
               startToken = EACH_START items /\ n = Each items nodes)).
Proof.
  unfold _parseBlock.
  destruct (nth_error tokens startPosition) as [startToken|]; [|discriminate].
  destruct (negb (String.eqb (type startToken) startType)); [discriminate|].
  destruct (parseTokens tokens (startPosition + 1)) as [[nodes position]| | |];
    cbn [bind]; try discriminate.
  destruct (Nat.leb (List.length tokens) position); [discriminate|].
  destruct (nth_error tokens position) as [endToken|] eqn:Hend;
    [|discriminate].
  destruct (negb (String.eqb (type endToken) endType)) eqn:E; [discriminate|].
  apply negb_false_iff, String.eqb_eq in E. cbn [orb].
  intros H. exists startToken, nodes, position, endToken.
  repeat (split; [first [reflexivity | assumption]|]).
  destruct startToken; try discriminate H;
    (destruct (String.eqb nodeType _); [|discriminate H]);
    injection H as <- <-; eauto.
Qed.

(** The trees that the builder's loop returns flatten to the tokens it
    has read. *)
Lemma parse_loop_reads (tokens : list token) (fuel : nat) :
  forall position acc nodes stop,
    parse_loop fuel tokens position acc = Ok (nodes, stop) ->
    exists new,
      nodes = acc ++ new
      /\ List.forallb no_root new = true
      /\ skipn position tokens
         = List.flat_map tokens_of new ++ skipn stop tokens.
Proof.
  induction fuel as [|fuel IH]; intros position acc nodes stop H;
    [discriminate H|].
  cbn [parse_loop] in H.
  pose proof (skipn_nth_error tokens position) as Hskip.
  destruct (nth_error tokens position) as [t|] eqn:Hnth.
  2:{ injection H as <- <-. exists []. rewrite app_nil_r. auto. }
  assert (Hleaf : forall n,
            tokens_of n = [t] -> no_root n = true ->
            parse_loop fuel tokens (position + 1) (acc ++ [n])
            = Ok (nodes, stop) ->
            exists new,
              nodes = acc ++ new
              /\ List.forallb no_root new = true
              /\ skipn position tokens
                 = List.flat_map tokens_of new ++ skipn stop tokens).
  { intros n Hn Hr Hrun.
    apply IH in Hrun as [new [-> [Hno Hs]]].
    exists (n :: new). rewrite <- app_assoc. split; [reflexivity|].
    split; [cbn [List.forallb]; rewrite Hr, Hno; reflexivity|].
    rewrite Hskip. cbn [List.flat_map]. rewrite Hn. cbn [app].
    replace (S position) with (position + 1) by lia. rewrite Hs. reflexivity. }
  assert (Hblock : forall startType endType nodeType closer,
            (forall endToken, type endToken = endType -> endToken = closer) ->
            (forall n nodes',
                (exists condition,
                    t = IF_START condition /\ n = If condition nodes')
                \/ (exists items,
                       t = EACH_START items /\ n = Each items nodes') ->
                tokens_of n
                = t :: List.flat_map tokens_of nodes' ++ [closer]) ->
            ('(node, nextPosition) <-
               _parseBlock (fun ts p => parse_loop fuel ts p []) tokens
                 position startType endType nodeType ;;
             parse_loop fuel tokens nextPosition (acc ++ [node]))
            = Ok (nodes, stop) ->
            exists new,
              nodes = acc ++ new
              /\ List.forallb no_root new = true
              /\ skipn position tokens
                 = List.flat_map tokens_of new ++ skipn stop tokens).
  { intros startType endType nodeType closer Hcloser Htokens Hrun.
    destruct (_parseBlock _ tokens position startType endType nodeType)
      as [[n next]| | |] eqn:Hb; cbn [bind] in Hrun; try discriminate Hrun.
    apply parseBlock_ok in Hb
      as [startToken [inner [stop' [endToken
           [Hstart [Hinner [Hend [Htype [-> Hnode]]]]]]]]].
    rewrite Hnth in Hstart. injection Hstart as <-.
    apply IH in Hinner as [children [-> [Hchildren Hs1]]].
    apply IH in Hrun as [new [-> [Hno Hs2]]].
    apply Hcloser in Htype. subst endToken.
    exists (n :: new). rewrite <- app_assoc. split; [reflexivity|].
    split.
    - cbn [List.forallb]. rewrite Hno, andb_true_r.
      destruct Hnode as [[x [_ ->]]|[x [_ ->]]]; exact Hchildren.
    - rewrite Hskip. replace (S position) with (position + 1) by lia.
      rewrite Hs1. rewrite (skipn_nth_error tokens stop'), Hend.
      replace (S stop') with (stop' + 1) by lia. rewrite Hs2.
      cbn [List.flat_map]. rewrite (Htokens n children Hnode).
      cbn [app]. rewrite <- !app_assoc. reflexivity. }
  destruct t as [v|e|e|c| |i| ].
  - apply (Hleaf (Text v)); [reflexivity | reflexivity | exact H].
  - apply (Hleaf (Variable' e)); [reflexivity | reflexivity | exact H].
  - apply (Hleaf (RawVariable e)); [reflexivity | reflexivity | exact H].
  - apply (Hblock "IF_START" "IF_END" "If" IF_END); [| |exact H].
    + intros [] Ht; try discriminate Ht; reflexivity.
    + intros n nodes' [[x [Hx ->]]|[x [Hx ->]]]; [|discriminate Hx].
      injection Hx as <-. reflexivity.
  - injection H as <- <-. exists []. rewrite app_nil_r. auto.
  - apply (Hblock "EACH_START" "EACH_END" "Each" EACH_END); [| |exact H].
    + intros [] Ht; try discriminate Ht; reflexivity.
    + intros n nodes' [[x [Hx ->]]|[x [Hx ->]]]; [discriminate Hx|].
      injection Hx as <-. reflexivity.
  - injection H as <- <-. exists []. rewrite app_nil_r. auto.
Qed.

Lemma parse_reads (tokens : list token) (ast : node) :
  parse tokens = Ok ast ->
  exists children,
    ast = Root children
    /\ List.forallb no_root children = true
    /\ List.flat_map tokens_of children = tokens.
Proof.
  unfold parse, _parseTokens.
  destruct (parse_loop _ tokens 0 []) as [[nodes stop]| | |] eqn:H;
    cbn [bind]; try discriminate.
  destruct (Nat.ltb stop (List.length tokens)) eqn:E; [discriminate|].
  intros [= <-]. apply Nat.ltb_ge in E.
  apply parse_loop_reads in H as [new [-> [Hno Hs]]].
  exists new. split; [reflexivity|]. split; [exact Hno|].
  cbn [skipn] in Hs. rewrite Hs, skipn_all2, app_nil_r by exact E.
  reflexivity.
Qed.

(** X5.  Building the tree from the tokens of any list of
    trees gives these trees back under a root: the builder accepts every
    properly nested token sequence and recovers its nesting. *)
Theorem parse_recovers_the_trees (children : list node) :
  List.forallb no_root children = true ->
  parse (List.flat_map tokens_of children) = Ok (Root children).
Proof. apply parse_tokens_of. Qed.

Lemma parse_recovers_the_trees_witness :
  List.forallb no_root
    [Text "a"; If "x" [Each "ys" [Variable' "this"]; RawVariable "z"]] = true
  /\ parse [TEXT "a"; IF_START "x"; EACH_START "ys"; VAR "this"; EACH_END;
            RAW "z"; IF_END]
     = Ok (Root [Text "a";
                 If "x" [Each "ys" [Variable' "this"]; RawVariable "z"]]).
Proof.
  split; [reflexivity|].
  exact (parse_recovers_the_trees
           [Text "a"; If "x" [Each "ys" [Variable' "this"]; RawVariable "z"]]
           eq_refl).
Defined.

(** X6.  A successful build loses no token and invents none:
    the result is a root whose children, none of which holds a root, flatten
    to exactly the tokens given, in order. *)
Theorem parse_keeps_every_token (tokens : list token) (ast : node) :
  parse tokens = Ok ast ->
  exists children,
    ast = Root children
    /\ List.forallb no_root children = true
    /\ List.flat_map tokens_of children = tokens.
Proof. apply parse_reads. Qed.

Lemma parse_keeps_every_token_witness :
  parse [IF_START "a"; TEXT "b"; IF_END; VAR "c"]
  = Ok (Root [If "a" [Text "b"]; Variable' "c"])
  /\ exists children,
      Root [If "a" [Text "b"]; Variable' "c"] = Root children
      /\ List.forallb no_root children = true
      /\ List.flat_map tokens_of children
         = [IF_START "a"; TEXT "b"; IF_END; VAR "c"].
Proof.
  split; [reflexivity|].
  exact (parse_keeps_every_token [IF_START "a"; TEXT "b"; IF_END; VAR "c"]
           (Root [If "a" [Text "b"]; Variable' "c"]) eq_refl).
Defined.

(** ** Escaping *)

Lemma replaceAll_char_cons (c d : ascii) (r s : string) :
  replaceAll (String c EmptyString) r (String d s)
  = ((if Ascii.eqb d c then r else String d EmptyString)
     ++ replaceAll (String c EmptyString) r s)%string.
Proof.
  unfold replaceAll. cbn [replaceAll_from startsWith String.prefix String.length Nat.sub].
  destruct (ascii_dec c d) as [->|Hne].
  - rewrite Ascii.eqb_refl. destruct s; reflexivity.
  - assert (E : Ascii.eqb d c = false)
      by (apply Ascii.eqb_neq; congruence).
    rewrite E. reflexivity.
Qed.

Lemma replaceAll_char_app (c : ascii) (r a b : string) :
  replaceAll (String c EmptyString) r (a ++ b)
  = (replaceAll (String c EmptyString) r a
     ++ replaceAll (String c EmptyString) r b)%string.
Proof.
  induction a as [|d a IH]; [reflexivity|].
  cbn [append]. rewrite !replaceAll_char_cons, IH, append_assoc.
  reflexivity.
Qed.

Lemma escapeHtml_cons (d : ascii) (s : string) :
  escapeHtml (VString (String d s))
  = (entity d ++ escapeHtml (VString s))%string.
Proof.
  unfold escapeHtml. cbn [is_nullish toString].
  rewrite (replaceAll_char_cons "&" d).
  rewrite !replaceAll_char_app.
  f_equal. unfold entity.
  destruct (Ascii.eqb d "&") eqn:E1; [reflexivity|].
  rewrite !replaceAll_char_cons.
  destruct (Ascii.eqb d "<") eqn:E2; [reflexivity|].
  cbn [append]. rewrite !replaceAll_char_cons.
  destruct (Ascii.eqb d ">") eqn:E3; [reflexivity|].
  cbn [append]. rewrite !replaceAll_char_cons.
  destruct (Ascii.eqb d "034") eqn:E4; [reflexivity|].
  cbn [append]. rewrite !replaceAll_char_cons.
  destruct (Ascii.eqb d "'") eqn:E5; reflexivity.
Qed.

Lemma escapeHtml_string (s : string) :
  escapeHtml (VString s) = escape_each s.
Proof.
  induction s as [|d s IH]; [reflexivity|].
  rewrite escapeHtml_cons, IH. reflexivity.
Qed.

Lemma escapeHtml_each (v : value) :
  escapeHtml v
  = if is_nullish v then EmptyString else escape_each (toString v).
Proof.
  rewrite <- escapeHtml_string. unfold escapeHtml.
  destruct (is_nullish v); reflexivity.
Qed.

Lemma entity_no_markup (c : ascii) :
  forallb (fun d => negb (is_markup d)) (entity c) = true.
Proof.
  unfold entity.
  destruct (Ascii.eqb c "&") eqn:E1; [reflexivity|].
  destruct (Ascii.eqb c "<") eqn:E2; [reflexivity|].
  destruct (Ascii.eqb c ">") eqn:E3; [reflexivity|].
  destruct (Ascii.eqb c "034") eqn:E4; [reflexivity|].
  destruct (Ascii.eqb c "'") eqn:E5; [reflexivity|].
  cbn [forallb]. unfold is_markup. rewrite E2, E3, E4, E5. reflexivity.
Qed.

Lemma escape_each_no_markup (s : string) :
  forallb (fun d => negb (is_markup d)) (escape_each s) = true.
Proof.
  induction s as [|c s IH]; [reflexivity|].
  cbn [escape_each]. rewrite forallb_append, entity_no_markup, IH.
  reflexivity.
Qed.

Lemma entity_plain (c : ascii) :
  is_markup c = false -> Ascii.eqb c "&" = false ->
  entity c = String c EmptyString.
Proof.
  unfold is_markup, entity. intros Hm ->.
  apply orb_false_iff in Hm as [Hm ->].
  apply orb_false_iff in Hm as [Hm ->].
  apply orb_false_iff in Hm as [-> ->]. reflexivity.
Qed.

Lemma escape_each_plain (s : string) :
  forallb (fun c => negb (is_markup c || Ascii.eqb c "&")) s = true ->
  escape_each s = s.
Proof.
  induction s as [|c s IH]; [reflexivity|].
  cbn [forallb escape_each]. intros H.
  apply andb_true_iff in H as [Hc Hs].
  apply negb_true_iff, orb_false_iff in Hc as [Hm Ha].
  rewrite (entity_plain _ Hm Ha), (IH Hs). reflexivity.
Qed.

Lemma entity_prefix_free (c d : ascii) (x y : string) :
  (entity c ++ x)%string = (entity d ++ y)%string -> c = d /\ x = y.
Proof.
  unfold entity.
  destruct (Ascii.eqb c "&") eqn:C1;
    [|destruct (Ascii.eqb c "<") eqn:C2;
      [|destruct (Ascii.eqb c ">") eqn:C3;
        [|destruct (Ascii.eqb c "034") eqn:C4;
          [|destruct (Ascii.eqb c "'") eqn:C5]]]];
  (destruct (Ascii.eqb d "&") eqn:D1;
    [|destruct (Ascii.eqb d "<") eqn:D2;
      [|destruct (Ascii.eqb d ">") eqn:D3;
        [|destruct (Ascii.eqb d "034") eqn:D4;
          [|destruct (Ascii.eqb d "'") eqn:D5]]]]);
  repeat match goal with
         | H : Ascii.eqb _ _ = true |- _ => apply Ascii.eqb_eq in H; subst
         end;
  cbn [append]; intros H; try discriminate H;
  try (injection H as H; split; [reflexivity | exact H]);
  try (injection H as H1 H2; subst;
       first [ discriminate C1 | discriminate D1
             | split; [reflexivity | reflexivity] ]).
Qed.

Lemma escape_each_injective (s : string) :
  forall t, escape_each s = escape_each t -> s = t.
Proof.
  induction s as [|c s IH]; intros [|d t]; cbn [escape_each].
  - reflexivity.
  - intros H. exfalso. revert H. unfold entity.
    repeat match goal with
           | |- context [if ?b then _ else _] => destruct b
           end; discriminate.
  - intros H. exfalso. revert H. unfold entity.
    repeat match goal with
           | |- context [if ?b then _ else _] => destruct b
           end; discriminate.
  - intros H. apply entity_prefix_free in H as [-> H].
    rewrite (IH _ H). reflexivity.
Qed.

(** ** Paths *)

Lemma split_dot_acc_nonempty (s cur : string) : split_dot_acc cur s <> [].
Proof.
  destruct (split_dot_acc_first s cur) as [seg [rest H]]. rewrite H.
  discriminate.
Qed.

Lemma concat_cons_nonempty (sep x : string) (l : list string) :
  l <> [] -> String.concat sep (x :: l) = (x ++ sep ++ String.concat sep l)%string.
Proof. destruct l; [congruence | reflexivity]. Qed.

(** Joining the segments of a text with dots gives the text back. *)
Lemma concat_split_dot_acc (s : string) :
  forall cur, String.concat "." (split_dot_acc cur s) = (cur ++ s)%string.
Proof.
  induction s as [|c s IH]; intros cur; cbn [split_dot_acc].
  - cbn [String.concat]. rewrite append_empty. reflexivity.
  - destruct (Ascii.eqb c ".") eqn:E.
    + apply Ascii.eqb_eq in E. subst c.
      rewrite concat_cons_nonempty by apply split_dot_acc_nonempty.
      rewrite IH. reflexivity.
    + rewrite IH, append_assoc. reflexivity.
Qed.

Lemma concat_split_dot (s : string) : String.concat "." (split_dot s) = s.
Proof. apply (concat_split_dot_acc s EmptyString). Qed.

(** Splitting a dotted join of segments without dots gives the segments. *)
Lemma split_dot_concat (names : list string) :
  names <> [] ->
  Forall (fun n => forallb (fun c => negb (Ascii.eqb c ".")) n = true) names ->
  split_dot (String.concat "." names) = names.
Proof.
  induction names as [|n rest IH]; [congruence|].
  intros _ H. inversion H as [|? ? Hn Hrest]; subst.
  destruct rest as [|m rest].
  - cbn [String.concat]. unfold split_dot.
    rewrite <- (append_empty n) at 1.
    rewrite (split_dot_acc_prefix _ _ _ Hn). reflexivity.
  - rewrite concat_cons_nonempty by discriminate. unfold split_dot.
    rewrite (split_dot_acc_prefix _ _ _ Hn). cbn [append split_dot_acc].
    rewrite Ascii.eqb_refl. f_equal.
    apply IH; [discriminate | exact Hrest].
Qed.

Lemma split_dot_app (p q : string) :
  forall cur,
    split_dot_acc cur (p ++ "." ++ q) = split_dot_acc cur p ++ split_dot q.
Proof.
  induction p as [|c p IH]; intros cur; cbn [append split_dot_acc].
  - rewrite Ascii.eqb_refl. reflexivity.
  - destruct (Ascii.eqb c "."); [cbn [app]; f_equal|]; apply IH.
Qed.

Lemma deepGet_guards (v : value) :
  negb (truthy v) || negb (String.eqb (typeof v) "object")
  = is_nullish v || negb (String.eqb (typeof v) "object").
Proof. destruct v as [| |[|]|z|s| |]; try reflexivity; cbn; destruct (negb _); reflexivity. Qed.

Lemma deepGet_as_loop (obj : value) (path : string) :
  is_empty path = false ->
  deepGet obj path = deepGet_loop (split_dot path) obj.
Proof.
  intros Hp. unfold deepGet. rewrite Hp, deepGet_guards.
  destruct (is_nullish obj || negb (String.eqb (typeof obj) "object")) eqn:G;
    [|reflexivity].
  symmetry. apply deepGet_loop_not_object; [exact G|].
  apply split_dot_acc_nonempty.
Qed.

Lemma is_empty_append (a b : string) :
  is_empty a = false -> is_empty (a ++ b) = false.
Proof. destruct a; [discriminate | reflexivity]. Qed.

Lemma deepGet_app (obj : value) (p q : string) :
  is_empty p = false -> is_empty q = false ->
  deepGet obj (p ++ "." ++ q) = (v <- deepGet obj p ;; deepGet v q).
Proof.
  intros Hp Hq.
  rewrite (deepGet_as_loop obj (p ++ "." ++ q)) by (apply is_empty_append; exact Hp).
  rewrite (deepGet_as_loop obj p Hp).
  unfold split_dot at 1. rewrite split_dot_app, deepGet_loop_app.
  fold (split_dot p).
  destruct (deepGet_loop (split_dot p) obj) as [v| | |]; cbn [bind];
    try reflexivity.
  rewrite (deepGet_as_loop v q Hq). reflexivity.
Qed.

(** ** Helpers of the generated code *)

(** X7.  [escapeHtml] gives the empty string for undefined and
    null; for any other value the five replacements it makes in turn amount
    to one pass over [String(value)] that replaces each character by its
    entity: the ampersands that the later replacements write are not
    escaped again.  A string without ampersand, angle bracket or quote is
    returned as it is. *)
Theorem escapeHtml_is_one_pass :
  (forall v,
      escapeHtml v
      = if is_nullish v then EmptyString else escape_each (toString v))
  /\ (forall s,
      forallb (fun c => negb (is_markup c || Ascii.eqb c "&")) s = true ->
      escapeHtml (VString s) = s).
Proof.
  split; [exact escapeHtml_each|].
  intros s H. rewrite escapeHtml_string. apply escape_each_plain. exact H.
Qed.

Lemma escapeHtml_is_one_pass_witness :
  forallb (fun c => negb (is_markup c || Ascii.eqb c "&")) "a = b; c" = true
  /\ escapeHtml (VString "a = b; c") = "a = b; c".
Proof.
  split; [reflexivity|].
  exact (proj2 escapeHtml_is_one_pass "a = b; c" eq_refl).
Defined.

(** X8.  Whatever the value, the text that [escapeHtml]
    returns holds no angle bracket and no single or double quote. *)
Theorem escapeHtml_leaves_no_markup (v : value) :
  forallb (fun c => negb (is_markup c)) (escapeHtml v) = true.
Proof.
  rewrite escapeHtml_each. destruct (is_nullish v); [reflexivity|].
  apply escape_each_no_markup.
Qed.

(** X9.  [escapeHtml] loses nothing of a string: two
    strings with the same escaped text are the same string. *)
Theorem escapeHtml_injective (s t : string) :
  escapeHtml (VString s) = escapeHtml (VString t) -> s = t.
Proof.
  rewrite !escapeHtml_string. apply escape_each_injective.
Qed.

Lemma escapeHtml_injective_witness :
  escapeHtml (VString "a<b") = escapeHtml (VString "a<b") /\ "a<b" = "a<b".
Proof.
  split; [reflexivity|].
  exact (escapeHtml_injective "a<b" "a<b" eq_refl).
Defined.

(** X10.  A lookup by a path in two parts is the lookup of
    the second part in the result of the lookup of the first, when neither
    part is empty. *)
Theorem deepGet_of_joined_paths (obj : value) (p q : string) :
  is_empty p = false ->
  is_empty q = false ->
  deepGet obj (p ++ "." ++ q) = (v <- deepGet obj p ;; deepGet v q).
Proof. apply deepGet_app. Qed.

Lemma deepGet_of_joined_paths_witness :
  is_empty "user.address" = false
  /\ is_empty "city" = false
  /\ deepGet (VObject [("user", VObject [("address", VNull)])])
       ("user.address" ++ "." ++ "city")
     = (v <- deepGet (VObject [("user", VObject [("address", VNull)])])
               "user.address" ;;
        deepGet v "city").
Proof.
  split; [reflexivity|]. split; [reflexivity|].
  exact (deepGet_of_joined_paths
           (VObject [("user", VObject [("address", VNull)])])
           "user.address" "city" eq_refl eq_refl).
Defined.

(** X11.  [isValidPath] accepts exactly the texts made of one
    or more identifiers joined by single dots. *)
Theorem isValidPath_iff_dotted_identifiers (path : string) :
  isValidPath path = true
  <-> exists names,
        names <> []
        /\ Forall (fun n => is_identifier n = true) names
        /\ path = String.concat "." names.
Proof.
  unfold isValidPath, is_identifier_path. split.
  - intros H. exists (split_dot path).
    split; [apply split_dot_acc_nonempty|].
    split; [apply Forall_forall; apply List.forallb_forall; exact H|].
    symmetry. apply concat_split_dot.
  - intros [names [Hne [Hids ->]]].
    rewrite split_dot_concat; [| exact Hne |].
    + apply List.forallb_forall. apply Forall_forall. exact Hids.
    + revert Hids. apply Forall_impl. exact identifier_no_dot.
Qed.

(** ** Errors of the compilation stages *)

Lemma raises_only_bind {A B : Type} (p : string -> bool) (m : outcome A)
    (k : A -> outcome B) :
  raises_only p m -> (forall a, m = Ok a -> raises_only p (k a)) ->
  raises_only p (bind m k).
Proof.
  intros Hm Hk e. destruct m as [a|x| |]; cbn [bind]; try discriminate.
  - exact (Hk a eq_refl e).
  - intros [= <-]. exact (Hm x eq_refl).
Qed.

Lemma raises_only_ok {A : Type} (p : string -> bool) (a : A) :
  raises_only p (Ok a).
Proof. intros e H. discriminate H. Qed.

Lemma raises_only_unmodelled {A : Type} (p : string -> bool) :
  raises_only p (@Unmodelled A).
Proof. intros e H. discriminate H. Qed.

Lemma raises_only_error {A : Type} (p : string -> bool) (message : string) :
  p message = true -> raises_only p (@Throw A (Error message)).
Proof. intros Hp e [= <-]. eauto. Qed.

Lemma raises_only_weaken {A : Type} (p q : string -> bool) (m : outcome A) :
  (forall s, p s = true -> q s = true) -> raises_only p m -> raises_only q m.
Proof.
  intros Hpq Hm e He. destruct (Hm e He) as [s [-> Hs]]. eauto.
Qed.

Ltac message_in_family :=
  unfold compile_time_message, startsWith;
  rewrite ?prefix_append, ?String.eqb_refl, ?orb_true_r; reflexivity.

Lemma tokenize_raises_only (template : string) :
  raises_only compile_time_message (tokenize template)
  /\ tokenize template <> OutOfFuel.
Proof.
  unfold tokenize. destruct (Nat.eqb (String.length template) 0).
  { split; [apply raises_only_ok | discriminate]. }
  destruct (tokenize_loop_outcome template (S (String.length template)) 0
              EmptyString [] ltac:(lia))
    as [[r ->]|[[opener [_ [_ [_ ->]]]]|[x [_ ->]]]].
  - split; [apply raises_only_ok | discriminate].
  - split; [apply raises_only_error; message_in_family | discriminate].
  - split; [apply raises_only_error; message_in_family | discriminate].
Qed.

Lemma parse_raises_only (tokens : list token) :
  raises_only compile_time_message (parse tokens)
  /\ parse tokens <> OutOfFuel.
Proof.
  pose proof (parse_scan tokens) as H.
  destruct (scan [] tokens 0) as [stop|b].
  - destruct (Nat.ltb stop (List.length tokens)).
    + rewrite H. split; [apply raises_only_error; reflexivity | discriminate].
    + destruct H as [nodes ->]. split; [apply raises_only_ok | discriminate].
  - rewrite H. split; [|discriminate].
    apply raises_only_error. destruct b; reflexivity.
Qed.

Lemma compileComplexExpression_never_raises (expression : string)
    (lc : option loopContext) :
  raises_only compile_time_message (_compileComplexExpression expression lc)
  /\ _compileComplexExpression expression lc <> OutOfFuel.
Proof.
  unfold _compileComplexExpression.
  repeat match goal with
         | |- context [if ?b then _ else _] => destruct b
         | |- context [match ?x with _ => _ end] => destruct x
         end;
    (split; [first [apply raises_only_ok | apply raises_only_unmodelled]
            | discriminate]).
Qed.

Lemma finishes_bind {A B : Type} (m : outcome A) (k : A -> outcome B) :
  m <> OutOfFuel -> (forall a, m = Ok a -> k a <> OutOfFuel) ->
  bind m k <> OutOfFuel.
Proof.
  intros Hm Hk. destruct m as [a|x| |]; cbn [bind]; try discriminate.
  - apply (Hk a eq_refl).
  - contradiction.
Qed.

Lemma generateAccessCode_raises_only (expression : string)
    (lc : option loopContext) :
  raises_only compile_time_message (_generateAccessCode expression lc)
  /\ _generateAccessCode expression lc <> OutOfFuel.
Proof.
  unfold _generateAccessCode.
  destruct (String.eqb expression "this").
  { split; [apply raises_only_ok | discriminate]. }
  destruct (startsWith expression "this.").
  { destruct lc as [lc|];
      match goal with
      | |- context [_compileComplexExpression ?x ?l] =>
          destruct (compileComplexExpression_never_raises x l) as [Hr Hf]
      end;
      (split; [apply raises_only_bind; [exact Hr | intros; apply raises_only_ok]
              | apply finishes_bind; [exact Hf | discriminate]]). }
  destruct (_isComplexExpression expression).
  { destruct (compileComplexExpression_never_raises expression lc) as [Hr Hf].
    split; [apply raises_only_bind; [exact Hr | intros; apply raises_only_ok]
           | apply finishes_bind; [exact Hf | discriminate]]. }
  destruct (is_identifier_path expression).
  { split; [apply raises_only_ok | discriminate]. }
  split; [apply raises_only_error; message_in_family | discriminate].
Qed.

Lemma generateVariableCode_raises_only (expression : string) (isRaw : bool)
    (lc : option loopContext) :
  raises_only compile_time_message (_generateVariableCode expression isRaw lc)
  /\ _generateVariableCode expression isRaw lc <> OutOfFuel.
Proof.
  unfold _generateVariableCode.
  destruct (is_empty (trim expression)).
  { split; [apply raises_only_error; reflexivity | discriminate]. }
  destruct (generateAccessCode_raises_only expression lc) as [Hr Hf].
  split.
  - apply raises_only_bind; [exact Hr|].
    intros; destruct isRaw; apply raises_only_ok.
  - apply finishes_bind; [exact Hf|]. intros; destruct isRaw; discriminate.
Qed.

Lemma generateComparisonOperand_raises_only (operand : string)
    (lc : option loopContext) :
  raises_only compile_time_message (_generateComparisonOperand operand lc)
  /\ _generateComparisonOperand operand lc <> OutOfFuel.
Proof.
  unfold _generateComparisonOperand.
  destruct (_ || _). { split; [apply raises_only_ok | discriminate]. }
  destruct (_ && _). { split; [apply raises_only_ok | discriminate]. }
  destruct (_isComplexExpression (trim operand)).
  { destruct (compileComplexExpression_never_raises (trim operand) lc)
      as [Hr Hf].
    split; [apply raises_only_bind; [exact Hr | intros; apply raises_only_ok]
           | apply finishes_bind; [exact Hf | discriminate]]. }
  apply generateAccessCode_raises_only.
Qed.

Lemma generateConditionCode_raises_only (condition : string)
    (lc : option loopContext) :
  raises_only compile_time_message (_generateConditionCode condition lc)
  /\ _generateConditionCode condition lc <> OutOfFuel.
Proof.
  unfold _generateConditionCode.
  destruct (comparisonMatch (trim condition)) as [[[operator l] r]|].
  - destruct (generateComparisonOperand_raises_only (trim l) lc) as [Hl Hlf].
    destruct (generateComparisonOperand_raises_only (trim r) lc) as [Hr Hrf].
    assert (Hlast : forall a b,
      raises_only compile_time_message
        (if String.eqb operator "eq" then Ok (CBin StrictEq a b)
         else if String.eqb operator "neq" then Ok (CBin StrictNe a b)
         else if String.eqb operator "gt" then Ok (CBin Gt a b)
         else if String.eqb operator "gte" then Ok (CBin Ge a b)
         else if String.eqb operator "lt" then Ok (CBin Lt a b)
         else if String.eqb operator "lte" then Ok (CBin Le a b)
         else if String.eqb operator "and" then Ok (CBin And a b)
         else if String.eqb operator "or" then Ok (CBin Or a b)
         else Throw (Error ("Unsupported comparison operator: " ++ operator)))
      /\ (if String.eqb operator "eq" then Ok (CBin StrictEq a b)
          else if String.eqb operator "neq" then Ok (CBin StrictNe a b)
          else if String.eqb operator "gt" then Ok (CBin Gt a b)
          else if String.eqb operator "gte" then Ok (CBin Ge a b)
          else if String.eqb operator "lt" then Ok (CBin Lt a b)
          else if String.eqb operator "lte" then Ok (CBin Le a b)
          else if String.eqb operator "and" then Ok (CBin And a b)
          else if String.eqb operator "or" then Ok (CBin Or a b)
          else Throw (Error ("Unsupported comparison operator: " ++ operator)))
         <> OutOfFuel).
    { intros a b.
      repeat match goal with
             | |- context [if ?c then _ else _] => destruct c
             end;
        (split; [first [apply raises_only_ok
                       | apply raises_only_error; message_in_family]
                | discriminate]). }
    split.
    + apply raises_only_bind; [exact Hl|]. intros a _.
      apply raises_only_bind; [exact Hr|]. intros b _. apply Hlast.
    + apply finishes_bind; [exact Hlf|]. intros a _.
      apply finishes_bind; [exact Hrf|]. intros b _. apply Hlast.
  - destruct (generateAccessCode_raises_only (trim condition) lc) as [Hr Hf].
    destruct (_isComplexExpression (trim condition)).
    { split; [apply raises_only_bind; [exact Hr | intros; apply raises_only_ok]
             | apply finishes_bind; [exact Hf | discriminate]]. }
    destruct (startsWith (trim condition) "this.").
    { destruct lc; (split; [apply raises_only_ok | discriminate]). }
    destruct (is_identifier_path (trim condition)).
    { split; [apply raises_only_bind; [exact Hr | intros; apply raises_only_ok]
             | apply finishes_bind; [exact Hf | discriminate]]. }
    split; [apply raises_only_error; message_in_family | discriminate].
Qed.

Lemma forEach_child_raises_only
    (generate : node -> option loopContext -> gen (list stmt))
    (children : list node) :
  Forall (fun n =>
    no_root n = true ->
    forall lc drawn,
      raises_only compile_time_message (generate n lc drawn)
      /\ generate n lc drawn <> OutOfFuel) children ->
  List.forallb no_root children = true ->
  forall lc drawn,
    raises_only compile_time_message (forEach_child generate children lc drawn)
    /\ forEach_child generate children lc drawn <> OutOfFuel.
Proof.
  induction children as [|child rest IH]; intros HP Hno lc drawn.
  - split; [apply raises_only_ok | discriminate].
  - inversion HP as [|? ? Hchild Hrest]; subst.
    cbn [List.forallb] in Hno. apply andb_true_iff in Hno as [Hc Hno].
    cbn [forEach_child].
    destruct (Hchild Hc lc drawn) as [Hr Hf].
    split.
    + apply raises_only_bind; [exact Hr|]. intros [lines d] _.
      apply raises_only_bind; [apply (IH Hrest Hno)|].
      intros [more d'] _. apply raises_only_ok.
    + apply finishes_bind; [exact Hf|]. intros [lines d] _.
      apply finishes_bind; [apply (IH Hrest Hno)|].
      intros [more d'] _. discriminate.
Qed.

Lemma generateNodeCode_raises_only (ids : nat -> string) (n : node) :
  no_root n = true ->
  forall lc drawn,
    raises_only compile_time_message (_generateNodeCode ids n lc drawn)
    /\ _generateNodeCode ids n lc drawn <> OutOfFuel.
Proof.
  induction n as [v|e|e|c children IH|i children IH|children IH]
    using node_induction; intros Hno lc drawn; cbn [_generateNodeCode].
  - split; [apply raises_only_ok | discriminate].
  - destruct (generateVariableCode_raises_only e false lc) as [Hr Hf].
    split; [apply raises_only_bind; [exact Hr | intros; apply raises_only_ok]
           | apply finishes_bind; [exact Hf | discriminate]].
  - destruct (generateVariableCode_raises_only e true lc) as [Hr Hf].
    split; [apply raises_only_bind; [exact Hr | intros; apply raises_only_ok]
           | apply finishes_bind; [exact Hf | discriminate]].
  - cbn [no_root] in Hno. unfold _generateIfCode.
    destruct (generateConditionCode_raises_only c lc) as [Hr Hf].
    pose proof (forEach_child_raises_only (_generateNodeCode ids) children
                  IH Hno lc drawn) as [Hcr Hcf].
    split.
    + apply raises_only_bind; [exact Hr|]. intros code _.
      apply raises_only_bind; [exact Hcr|]. intros [lines d] _.
      apply raises_only_ok.
    + apply finishes_bind; [exact Hf|]. intros code _.
      apply finishes_bind; [exact Hcf|]. intros [lines d] _. discriminate.
  - cbn [no_root] in Hno. unfold _generateEachCode.
    destruct (generateAccessCode_raises_only i lc) as [Hr Hf].
    split.
    + apply raises_only_bind; [exact Hr|]. intros code _.
      apply raises_only_bind;
        [apply (forEach_child_raises_only (_generateNodeCode ids) children
                  IH Hno)|].
      intros [lines d] _. apply raises_only_ok.
    + apply finishes_bind; [exact Hf|]. intros code _.
      apply finishes_bind;
        [apply (forEach_child_raises_only (_generateNodeCode ids) children
                  IH Hno)|].
      intros [lines d] _. discriminate.
  - discriminate Hno.
Qed.

Lemma compile_raises_only (ids : nat -> string) (template : string) :
  raises_only compile_time_message (Jframe.compile ids template)
  /\ Jframe.compile ids template <> OutOfFuel.
Proof.
  unfold Jframe.compile.
  destruct (tokenize_raises_only template) as [Htr Htf].
  assert (Hrest : forall tokens,
            raises_only compile_time_message
              (ast <- parse tokens ;; Compiler.compile ids ast)
            /\ (ast <- parse tokens ;; Compiler.compile ids ast) <> OutOfFuel).
  { intros tokens. destruct (parse_raises_only tokens) as [Hpr Hpf].
    assert (Hc : forall ast,
              parse tokens = Ok ast ->
              raises_only compile_time_message (Compiler.compile ids ast)
              /\ Compiler.compile ids ast <> OutOfFuel).
    { intros ast Hp. apply parse_reads in Hp as [children [-> [Hno _]]].
      unfold Compiler.compile, _generateJSCode.
      pose proof (forEach_child_raises_only (_generateNodeCode ids) children
                    (Forall_all _ _ (generateNodeCode_raises_only ids)) Hno
                    None 0) as [Hr Hf].
      split.
      - apply raises_only_bind.
        + apply raises_only_bind; [exact Hr|]. intros [lines d] _.
          apply raises_only_ok.
        + intros jsCode _. destruct (in_fragment jsCode);
            [apply raises_only_ok | apply raises_only_unmodelled].
      - apply finishes_bind.
        + apply finishes_bind; [exact Hf|]. intros [lines d] _. discriminate.
        + intros jsCode _. destruct (in_fragment jsCode); discriminate. }
    split.
    - apply raises_only_bind; [exact Hpr|]. intros ast Hp. apply (Hc ast Hp).
    - apply finishes_bind; [exact Hpf|]. intros ast Hp. apply (Hc ast Hp). }
  split.
  - apply raises_only_bind; [exact Htr|]. intros tokens _. apply Hrest.
  - apply finishes_bind; [exact Htf|]. intros tokens _. apply Hrest.
Qed.

(** X12.  Compiling a template always ends.  When it fails
    on code of the modelled fragment it raises an [Error] with one of nine
    messages: the two of the scanner, the three of the tree builder, and
    the four of the generator.  The errors for an unknown token type, an
    unexpected start token, an invalid tree and an unknown node type are
    never raised. *)
Theorem compile_raises_only_its_own_errors (ids : nat -> string)
    (template : string) :
  raises_only compile_time_message (Jframe.compile ids template)
  /\ Jframe.compile ids template <> OutOfFuel.
Proof. apply compile_raises_only. Qed.

Lemma compile_raises_only_its_own_errors_witness :
  Jframe.compile draws_a "{{#if (like a b)}}x{{/if}}"
  = Throw (Error "Unsupported comparison operator: like")
  /\ exists message,
      Error "Unsupported comparison operator: like" = Error message
      /\ compile_time_message message = true.
Proof.
  split; [reflexivity|].
  exact (proj1 (compile_raises_only_its_own_errors draws_a
                  "{{#if (like a b)}}x{{/if}}") _ eq_refl).
Defined.

(** ** Rendering *)

Lemma render_message_of_compile (message : string) :
  compile_time_message message = true -> render_message message = true.
Proof. unfold render_message. intros ->. reflexivity. Qed.

Lemma renderer_raises_only (hostMessage : exn -> string) (fuel : nat)
    (compiledTemplate : Renderer.callee) (context : value) :
  (forall body, compiledTemplate <> Renderer.NotFunction body) ->
  raises_only render_message
    (Renderer.render hostMessage fuel compiledTemplate context).
Proof.
  intros Hf. unfold Renderer.render.
  destruct compiledTemplate as [body|v]; [|exfalso; apply (Hf v); reflexivity].
  destruct (_ || _). { apply raises_only_error. reflexivity. }
  destruct (invoke fuel body (Renderer.or_empty_object context)) as [s|e| |].
  - apply raises_only_ok.
  - apply raises_only_error. unfold render_message, startsWith.
    rewrite prefix_append, orb_true_r. reflexivity.
  - apply raises_only_unmodelled.
  - intros e H. discriminate H.
Qed.

Lemma renderer_of_object_context (hostMessage : exn -> string) (fuel : nat)
    (body : list stmt) (context : value) :
  is_object_context context = true ->
  Renderer.render hostMessage fuel (Renderer.Function body) context
  = match invoke fuel body (Renderer.or_empty_object context) with
    | Throw error =>
        Throw (Error ("Rendering failed: "
                      ++ Renderer.message hostMessage error))
    | result => result
    end.
Proof. destruct context; try discriminate; reflexivity. Qed.

Lemma renderer_of_other_context (hostMessage : exn -> string) (fuel : nat)
    (body : list stmt) (context : value) :
  is_object_context context = false ->
  Renderer.render hostMessage fuel (Renderer.Function body) context
  = Throw (Error "Context must be an object").
Proof. destruct context; try discriminate; reflexivity. Qed.

Lemma or_empty_object_idempotent (context : value) :
  Renderer.or_empty_object (Renderer.or_empty_object context)
  = Renderer.or_empty_object context.
Proof. destruct context; reflexivity. Qed.

(** X13.  [render] of a template string raises nothing but an
    [Error]: a template that does not compile is rejected with its compile
    error whatever the context is; after that a context that is null or no
    object is rejected; after that every exception of the artifact arrives
    as an [Error] whose message starts with [Rendering failed: ], and a
    result of the artifact is returned as it is. *)
Theorem render_raises_only_errors (hostMessage : exn -> string)
    (ids : nat -> string) (fuel : nat) (target : string) (context : value) :
  raises_only render_message
    (Jframe.render hostMessage ids fuel target context)
  /\ (forall e,
      Jframe.compile ids target = Throw e ->
      Jframe.render hostMessage ids fuel target context = Throw e)
  /\ (forall body,
      Jframe.compile ids target = Ok body ->
      is_object_context context = false ->
      Jframe.render hostMessage ids fuel target context
      = Throw (Error "Context must be an object"))
  /\ (forall body,
      Jframe.compile ids target = Ok body ->
      is_object_context context = true ->
      Jframe.render hostMessage ids fuel target context
      = match invoke fuel body (Renderer.or_empty_object context) with
        | Throw error =>
            Throw (Error ("Rendering failed: "
                          ++ Renderer.message hostMessage error))
        | result => result
        end).
Proof.
  unfold Jframe.render. split; [|split; [|split]].
  - apply raises_only_bind.
    + apply (raises_only_weaken _ _ _ render_message_of_compile).
      apply compile_raises_only.
    + intros body _. apply renderer_raises_only. discriminate.
  - intros e ->. reflexivity.
  - intros body -> Hc. cbn [bind].
    apply renderer_of_other_context. destruct context; try discriminate Hc;
      reflexivity.
  - intros body -> Hc. cbn [bind].
    rewrite renderer_of_object_context, or_empty_object_idempotent;
      [reflexivity|].
    destruct context; try discriminate Hc; reflexivity.
Qed.

Lemma render_raises_only_errors_witness :
  (Jframe.compile draws_a "{{this.a.b}}" = Ok [SPushEscaped (CText "ctx.a.b")]
   /\ is_object_context (VObject []) = true
   /\ Jframe.render (fun _ => "no property b of undefined") draws_a 2
        "{{this.a.b}}" (VObject [])
      = Throw (Error "Rendering failed: no property b of undefined"))
  /\ (Jframe.compile draws_a "{{#if x}}" = Throw (Error "Unclosed {{#if}} directive")
      /\ Jframe.render (fun _ => "") draws_a 2 "{{#if x}}" VNull
         = Throw (Error "Unclosed {{#if}} directive"))
  /\ (Jframe.compile draws_a "{{x}}" = Ok [SPushEscaped (CGet "x")]
      /\ is_object_context (VString "s") = false
      /\ Jframe.render (fun _ => "") draws_a 2 "{{x}}" (VString "s")
         = Throw (Error "Context must be an object")).
Proof.
  split; [|split].
  - split; [reflexivity|]. split; [reflexivity|].
    exact (proj2 (proj2 (proj2 (render_raises_only_errors
             (fun _ => "no property b of undefined") draws_a 2
             "{{this.a.b}}" (VObject []))))
             _ eq_refl eq_refl).
  - split; [reflexivity|].
    exact (proj1 (proj2 (render_raises_only_errors (fun _ => "") draws_a 2
             "{{#if x}}" VNull)) _ eq_refl).
  - split; [reflexivity|]. split; [reflexivity|].
    exact (proj1 (proj2 (proj2 (render_raises_only_errors (fun _ => "")
             draws_a 2 "{{x}}" (VString "s")))) _ eq_refl eq_refl).
Defined.

(** ** Rendering text and variables *)

Lemma path_char_not_space (c : ascii) :
  path_char c = true -> is_space c = false.
Proof.
  intros Hc. destruct (is_space c) eqn:Es; [|reflexivity]. exfalso.
  revert Hc Es. unfold path_char, is_ident_part, is_ident_start, is_alpha,
    is_digit, is_space, char_code.
  destruct (Ascii.eqb c "_") eqn:E1;
    [apply Ascii.eqb_eq in E1; subst; discriminate|].
  destruct (Ascii.eqb c "$") eqn:E2;
    [apply Ascii.eqb_eq in E2; subst; discriminate|].
  destruct (Ascii.eqb c ".") eqn:E3;
    [apply Ascii.eqb_eq in E3; subst; discriminate|].
  rewrite !orb_false_r. intros H1 H2.
  repeat match goal with
         | H : _ || _ = true |- _ => apply orb_true_iff in H as [H|H]
         | H : _ && _ = true |- _ => apply andb_true_iff in H as [? ?]
         | H : Nat.leb _ _ = true |- _ => apply Nat.leb_le in H
         | H : Nat.eqb _ _ = true |- _ => apply Nat.eqb_eq in H
         end; lia.
Qed.

Lemma trim_without_space (s : string) :
  forallb (fun c => negb (is_space c)) s = true -> trim s = s.
Proof.
  intros H. unfold trim.
  assert (Hstart : trimStart s = s).
  { destruct s as [|c s]; [reflexivity|]. cbn [forallb] in H.
    apply andb_true_iff in H as [Hc _]. apply negb_true_iff in Hc.
    cbn [trimStart]. rewrite Hc. reflexivity. }
  rewrite Hstart. destruct (last_char s) as [c|] eqn:E.
  - apply (trimEnd_id _ c E).
    clear Hstart. revert c E. induction s as [|a s IH]; [discriminate|].
    cbn [forallb] in H. apply andb_true_iff in H as [Ha Hs].
    intros c. destruct s as [|b s'].
    + cbn. intros [= <-]. apply negb_true_iff. exact Ha.
    + intros E. apply (IH Hs). exact E.
  - apply last_char_none in E. subst. reflexivity.
Qed.

Lemma trim_of_path (path : string) :
  is_identifier_path path = true -> trim path = path.
Proof.
  intros H. apply trim_without_space. apply identifier_path_chars in H.
  revert H. apply forallb_impl. intros c Hc.
  rewrite (path_char_not_space c Hc). reflexivity.
Qed.

Lemma path_without (a : ascii) (path : string) :
  path_char a = false ->
  is_identifier_path path = true ->
  forallb (fun c => negb (Ascii.eqb c a)) path = true.
Proof.
  intros Ha H. apply identifier_path_chars in H. revert H.
  apply forallb_impl. intros c Hc. apply negb_true_iff.
  destruct (Ascii.eqb c a) eqn:E; [|reflexivity].
  apply Ascii.eqb_eq in E. subst. congruence.
Qed.

Lemma startsWith_other_char (a : ascii) (q s : string) :
  forallb (fun c => negb (Ascii.eqb c a)) s = true ->
  startsWith s (String a q) = false.
Proof.
  unfold startsWith. destruct s as [|c s]; [reflexivity|].
  cbn [forallb]. intros H. apply andb_true_iff in H as [Hc _].
  apply negb_true_iff in Hc. apply prefix_other_char. exact Hc.
Qed.

(** The token of a marker whose text is an identifier path. *)
Lemma processExpression_path (path : string) (isRaw : bool)
    (tokens : list token) :
  is_identifier_path path = true ->
  _processExpression path isRaw tokens
  = Ok (tokens ++ [if isRaw then RAW path else VAR path]).
Proof.
  intros H. unfold _processExpression. destruct isRaw; [reflexivity|].
  rewrite (startsWith_other_char "#" _ _ (path_without "#" _ eq_refl H)).
  rewrite (startsWith_other_char "#" _ _ (path_without "#" _ eq_refl H)).
  rewrite (startsWith_other_char "/" _ _ (path_without "/" _ eq_refl H)).
  assert (H1 : String.eqb path "/if" = false).
  { apply String.eqb_neq. intros ->. discriminate H. }
  assert (H2 : String.eqb path "/each" = false).
  { apply String.eqb_neq. intros ->. discriminate H. }
  rewrite H1, H2. reflexivity.
Qed.

Lemma generateVariableCode_path (e : string) (isRaw : bool)
    (lc : option loopContext) :
  is_identifier_path e = true ->
  _isComplexExpression e = false ->
  String.eqb e "this" = false ->
  startsWith e "this." = false ->
  _generateVariableCode e isRaw lc
  = Ok [if isRaw then SPushRaw (CGet e) else SPushEscaped (CGet e)].
Proof.
  intros Hp Hc Ht Hs. unfold _generateVariableCode, _generateAccessCode.
  rewrite (trim_nonempty_of_path _ Hp), Ht, Hs, Hc, Hp. cbn [bind].
  destruct isRaw; reflexivity.
Qed.

(** The same templates as trees. *)
Lemma parse_text_tokens (text : string) (rest : list token) :
  text_tokens text ++ rest
  = List.flat_map tokens_of
      (if is_empty text then [] else [Text text]) ++ rest.
Proof. destruct text; reflexivity. Qed.

Lemma no_root_text (text : string) :
  List.forallb no_root (if is_empty text then [] else [Text text]) = true.
Proof. destruct text; reflexivity. Qed.

Lemma generate_text (ids : nat -> string) (text : string)
    (lc : option loopContext) (drawn : nat) :
  forEach_child (_generateNodeCode ids)
    (if is_empty text then [] else [Text text]) lc drawn
  = Ok (if is_empty text then [] else [SPushText text], drawn).
Proof. destruct text; reflexivity. Qed.

Lemma forEach_child_app
    (generate : node -> option loopContext -> gen (list stmt))
    (a b : list node) (lc : option loopContext) (drawn : nat) :
  forEach_child generate (a ++ b) lc drawn
  = ('(lines, drawn) <- forEach_child generate a lc drawn ;;
     '(more, drawn) <- forEach_child generate b lc drawn ;;
     Ok (lines ++ more, drawn)).
Proof.
  revert drawn. induction a as [|n a IH]; intros drawn.
  - cbn [app forEach_child bind].
    destruct (forEach_child generate b lc drawn) as [[more d]| | |];
      reflexivity.
  - cbn [app forEach_child]. destruct (generate n lc drawn) as [[l d]| | |];
      cbn [bind]; try reflexivity.
    rewrite IH.
    destruct (forEach_child generate a lc d) as [[l' d']| | |]; cbn [bind];
      try reflexivity.
    destruct (forEach_child generate b lc d') as [[l'' d'']| | |]; cbn [bind];
      try reflexivity.
    rewrite app_assoc. reflexivity.
Qed.

Lemma plain_path_parts (e : string) :
  plain_path e = true ->
  is_identifier_path e = true
  /\ _isComplexExpression e = false
  /\ String.eqb e "this" = false
  /\ startsWith e "this." = false.
Proof.
  unfold plain_path. intros H.
  apply andb_true_iff in H as [H H4]. apply andb_true_iff in H as [H H3].
  apply andb_true_iff in H as [H1 H2].
  apply negb_true_iff in H2, H3, H4. auto.
Qed.

Lemma marker_tokens (isRaw : bool) (text inner rest : string)
    (more : list token) :
  no_open_brace text = true ->
  marker_text isRaw inner = true ->
  is_identifier_path (trim inner) = true ->
  tokenize rest = Ok more ->
  tokenize (text ++ marker isRaw inner ++ rest)
  = Ok ((text_tokens text
         ++ [if isRaw then RAW (trim inner) else VAR (trim inner)]) ++ more).
Proof.
  intros Htext Hinner Hpath Hrest.
  apply tokenize_marker; try assumption.
  apply processExpression_path. exact Hpath.
Qed.

Lemma lookup_ctx_initial (body : list stmt) (ctx : value) :
  lookup "ctx" (vars (initial body ctx)) = Some ctx.
Proof. reflexivity. Qed.

Lemma run_text_and_variable (ids : nat -> string) (fuel : nat) (isRaw : bool)
    (text inner rest : string) (ctx : value) :
  no_open_brace text = true ->
  marker_text isRaw inner = true ->
  plain_path (trim inner) = true ->
  includes rest "{{" = false ->
  Jframe.run ids (4 + fuel) (text ++ marker isRaw inner ++ rest) ctx
  = (v <- deepGet ctx (trim inner) ;;
     Ok (text ++ (if isRaw then toString v else escapeHtml v) ++ rest)%string).
Proof.
  intros Htext Hinner Hplain Hrest.
  apply plain_path_parts in Hplain as [Hp [Hc [Ht Hs]]].
  unfold Jframe.run.
  rewrite (compile_front ids _
             (Root ((if is_empty text then [] else [Text text])
                    ++ [if isRaw then RawVariable (trim inner)
                        else Variable' (trim inner)]
                    ++ (if is_empty rest then [] else [Text rest])))).
  2:{ rewrite (marker_tokens isRaw text inner rest (text_tokens rest)
                 Htext Hinner Hp (tokenize_plain _ Hrest)).
      cbn [bind].
      rewrite <- parse_tokens_of.
      - f_equal. destruct text, rest, isRaw; reflexivity.
      - destruct text, rest, isRaw; reflexivity. }
  unfold Compiler.compile, _generateJSCode.
  destruct text as [|a text], rest as [|b rest], isRaw;
    cbn [is_empty app forEach_child _generateNodeCode bind];
    rewrite (generateVariableCode_path _ _ None Hp Hc Ht Hs);
    cbn [bind app in_fragment List.forallb stmt_in_fragment
         code_in_fragment andb];
    unfold invoke; cbn [exec eval_code Nat.add];
    unfold read; cbn [push vars]; rewrite lookup_ctx_initial; cbn [bind];
    destruct (deepGet ctx (trim inner)) as [v| | |]; cbn [bind];
    try reflexivity;
    cbn [initial push output vars app String.concat append];
    rewrite ?append_empty; reflexivity.
Qed.

Lemma run_plain_text (ids : nat -> string) (fuel : nat) (template : string)
    (ctx : value) :
  includes template "{{" = false ->
  Jframe.run ids (2 + fuel) template ctx = Ok template.
Proof.
  intros H. unfold Jframe.run.
  rewrite (compile_front ids _
             (Root (if is_empty template then [] else [Text template]))).
  2:{ rewrite (tokenize_plain _ H). cbn [bind].
      destruct template; reflexivity. }
  destruct template; reflexivity.
Qed.

(** ** Rendering an if block *)

Lemma comparisonMatch_of_path (path : string) :
  is_identifier_path path = true -> comparisonMatch path = None.
Proof.
  destruct path as [|c s]; [reflexivity|]. intros H.
  apply identifier_path_start in H. unfold comparisonMatch.
  destruct (Ascii.eqb c "(") eqn:E; [|reflexivity].
  apply Ascii.eqb_eq in E. subst c. discriminate H.
Qed.

Lemma generateConditionCode_path (condition : string)
    (lc : option loopContext) :
  plain_path (trim condition) = true ->
  _generateConditionCode condition lc = Ok (CNotNot (CGet (trim condition))).
Proof.
  intros H. apply plain_path_parts in H as [Hp [Hc [Ht Hs]]].
  unfold _generateConditionCode.
  rewrite (comparisonMatch_of_path _ Hp), Hc, Hs, Hp.
  unfold _generateAccessCode. rewrite Ht, Hs, Hc, Hp. reflexivity.
Qed.

Lemma bind_ok {A : Type} (m : outcome A) : (a <- m ;; Ok a) = m.
Proof. destruct m; reflexivity. Qed.

Lemma exec_if_path (fuel : nat) (path : string) (body : list stmt)
    (st : state) (ctx : value) :
  lookup "ctx" (vars st) = Some ctx ->
  exec (S (S fuel)) [SIf (CNotNot (CGet path)) body] st
  = (v <- deepGet ctx path ;;
     if truthy v then exec (S fuel) body st else Ok st).
Proof.
  intros Hctx. cbn [exec eval_code]. unfold read. rewrite Hctx. cbn [bind].
  destruct (deepGet ctx path) as [v| | |]; cbn [bind truthy]; try reflexivity.
  destruct (truthy v); [|reflexivity].
  rewrite bind_ok. reflexivity.
Qed.

Lemma generated_if (ids : nat -> string) (condition : string)
    (children : list node) (lc : option loopContext) (drawn drawn' : nat)
    (lines : list stmt) :
  plain_path (trim condition) = true ->
  _generateNodeCode ids (If condition children) lc drawn = Ok (lines, drawn') ->
  exists body,
    forEach_child (_generateNodeCode ids) children lc drawn = Ok (body, drawn')
    /\ lines = [SIf (CNotNot (CGet (trim condition))) body]
    /\ forall fuel st ctx,
        lookup "ctx" (vars st) = Some ctx ->
        exec (S (S fuel)) lines st
        = (v <- deepGet ctx (trim condition) ;;
           if truthy v then exec (S fuel) body st else Ok st).
Proof.
  intros Hplain. cbn [_generateNodeCode]. unfold _generateIfCode.
  rewrite (generateConditionCode_path _ lc Hplain). cbn [bind].
  destruct (forEach_child (_generateNodeCode ids) children lc drawn)
    as [[body d]| | |]; cbn [bind]; try discriminate.
  intros [= <- <-]. exists body. split; [reflexivity|].
  split; [reflexivity|]. intros fuel st ctx. apply exec_if_path.
Qed.

(** X14.  A template that holds no opener [{{] renders to
    itself, unchanged and unescaped, whatever the context. *)
Theorem plain_template_renders_itself (ids : nat -> string) (fuel : nat)
    (template : string) (ctx : value) :
  includes template "{{" = false ->
  Jframe.run ids (2 + fuel) template ctx = Ok template.
Proof. apply run_plain_text. Qed.

Lemma plain_template_renders_itself_witness :
  includes "<p>a & b { c }</p>" "{{" = false
  /\ Jframe.run draws_a (2 + 0) "<p>a & b { c }</p>" VNull
     = Ok "<p>a & b { c }</p>".
Proof.
  split; [reflexivity|].
  exact (plain_template_renders_itself draws_a 0 "<p>a & b { c }</p>" VNull
           eq_refl).
Defined.

(** X15.  A template made of text, one marker whose trimmed
    text is a plain path, and text again renders to the first text, the
    looked-up value -- escaped for a double-braced marker, as [String(value)]
    for a triple-braced one -- and the second text; both texts are copied
    as they are. *)
Theorem text_around_a_variable_is_copied (ids : nat -> string) (fuel : nat)
    (isRaw : bool) (text inner rest : string) (ctx : value) :
  no_open_brace text = true ->
  marker_text isRaw inner = true ->
  plain_path (trim inner) = true ->
  includes rest "{{" = false ->
  Jframe.run ids (4 + fuel) (text ++ marker isRaw inner ++ rest) ctx
  = (v <- deepGet ctx (trim inner) ;;
     Ok (text ++ (if isRaw then toString v else escapeHtml v) ++ rest)%string).
Proof. apply run_text_and_variable. Qed.

Lemma text_around_a_variable_is_copied_witness :
  no_open_brace "<b>Hi</b> " = true
  /\ marker_text false " user.name " = true
  /\ plain_path (trim " user.name ") = true
  /\ includes " & co" "{{" = false
  /\ Jframe.run draws_a (4 + 0) "<b>Hi</b> {{ user.name }} & co"
       (VObject [("user", VObject [("name", VString "<i>Al</i>")])])
     = Ok "<b>Hi</b> &lt;i&gt;Al&lt;/i&gt; & co".
Proof.
  split; [reflexivity|]. split; [reflexivity|]. split; [reflexivity|].
  split; [reflexivity|].
  exact (text_around_a_variable_is_copied draws_a 0 false "<b>Hi</b> "
           " user.name " " & co"
           (VObject [("user", VObject [("name", VString "<i>Al</i>")])])
           eq_refl eq_refl eq_refl eq_refl).
Defined.

(** X16.  An if block whose condition is a plain path compiles to
    one statement that looks the path up in the root context -- also inside
    a loop -- and runs the code of the children exactly when the value found
    is truthy; otherwise it leaves the state as it is. *)
Theorem if_block_tests_the_context_value (ids : nat -> string)
    (condition : string) (children : list node) (lc : option loopContext)
    (drawn drawn' : nat) (lines : list stmt) :
  plain_path (trim condition) = true ->
  _generateNodeCode ids (If condition children) lc drawn = Ok (lines, drawn') ->
  exists body,
    forEach_child (_generateNodeCode ids) children lc drawn = Ok (body, drawn')
    /\ lines = [SIf (CNotNot (CGet (trim condition))) body]
    /\ forall fuel st ctx,
        lookup "ctx" (vars st) = Some ctx ->
        exec (S (S fuel)) lines st
        = (v <- deepGet ctx (trim condition) ;;
           if truthy v then exec (S fuel) body st else Ok st).
Proof. apply generated_if. Qed.

Lemma if_block_tests_the_context_value_witness :
  plain_path (trim "user.admin") = true
  /\ _generateNodeCode draws_a (If "user.admin" [Text "yes"])
       (Some (LoopContext "item_k3f9x2a1b" "index_k3f9x2a1b" None)) 1
     = Ok ([SIf (CNotNot (CGet "user.admin")) [SPushText "yes"]], 1)
  /\ exists body,
      forEach_child (_generateNodeCode draws_a) [Text "yes"]
        (Some (LoopContext "item_k3f9x2a1b" "index_k3f9x2a1b" None)) 1
      = Ok (body, 1)
      /\ [SIf (CNotNot (CGet "user.admin")) [SPushText "yes"]]
         = [SIf (CNotNot (CGet (trim "user.admin"))) body]
      /\ forall fuel st ctx,
          lookup "ctx" (vars st) = Some ctx ->
          exec (S (S fuel))
            [SIf (CNotNot (CGet "user.admin")) [SPushText "yes"]] st
          = (v <- deepGet ctx (trim "user.admin") ;;
             if truthy v then exec (S fuel) body st else Ok st).
Proof.
  split; [reflexivity|]. split; [reflexivity|].
  exact (if_block_tests_the_context_value draws_a "user.admin" [Text "yes"]
           (Some (LoopContext "item_k3f9x2a1b" "index_k3f9x2a1b" None)) 1 1
           _ eq_refl eq_refl).
Defined.
Import Binding.

(** ** Reading and writing by path *)

Lemma lookup_update_same (key : string) (x : value)
    (fields : list (string * value)) :
  lookup key (update key x fields) = Some x.
Proof.
  induction fields as [|[k v] fields IH]; cbn [update lookup].
  - rewrite String.eqb_refl. reflexivity.
  - destruct (String.eqb k key) eqn:E; cbn [lookup]; rewrite E;
      [reflexivity | exact IH].
Qed.

Lemma nth_store_same (i : nat) (x : value) :
  forall items, nth i (store i x items) VUndefined = x.
Proof.
  induction i as [|i IH]; intros [|y items]; cbn [store nth];
    try reflexivity; apply IH.
Qed.

Lemma array_index_not_length (key : string) (i : nat) :
  array_index key = Some i -> String.eqb key "length" = false.
Proof.
  intros H. apply String.eqb_neq. intros ->. discriminate H.
Qed.

Lemma set_prop_object (v : value) (key : string) (x r : value) :
  set_prop v key x = Ok r -> is_object r = true.
Proof.
  unfold set_prop.
  destruct v; try discriminate;
    repeat match goal with
           | |- context [if ?b then _ else _] => destruct b
           | |- context [match ?o with _ => _ end] => destruct o
           end; try discriminate; intros [= <-]; reflexivity.
Qed.

Lemma get_set_same (v : value) (key : string) (x r : value) :
  set_prop v key x = Ok r -> get_prop r key = Ok x.
Proof.
  unfold set_prop. destruct v; try discriminate.
  - destruct (String.eqb key "__proto__"); discriminate.
  - destruct (String.eqb key "__proto__"); discriminate.
  - destruct (String.eqb key "__proto__"); discriminate.
  - destruct (array_index key) as [i|] eqn:E; [|discriminate].
    destruct (N.ltb (N.of_nat i) 4294967295); [|discriminate].
    intros [= <-]. cbn [get_prop].
    rewrite (array_index_not_length _ _ E), E, nth_store_same. reflexivity.
  - assert (H : get_prop (VObject (update key x fields)) key = Ok x)
      by (cbn [get_prop]; rewrite lookup_update_same; reflexivity).
    destruct (lookup key fields);
      [|destruct (String.eqb key "__proto__"); [discriminate|]];
      intros [= <-]; exact H.
Qed.

Lemma setValue_reduce_object (keys : list string) (lastKey : string) :
  forall current x r,
    setValue_reduce keys lastKey current x = Ok r -> is_object r = true.
Proof.
  destruct keys as [|key keys]; intros current x r; cbn [setValue_reduce].
  - apply set_prop_object.
  - destruct (get_prop current key) as [v| | |]; cbn [bind]; try discriminate.
    destruct (if is_undefined v then _ else _) as [c| | |]; cbn [bind];
      try discriminate.
    destruct (get_prop c key) as [n| | |]; cbn [bind]; try discriminate.
    destruct (setValue_reduce keys lastKey n x) as [n'| | |]; cbn [bind];
      try discriminate.
    apply set_prop_object.
Qed.

Lemma is_object_truthy (v : value) : is_object v = true -> truthy v = true.
Proof. destruct v; try discriminate; reflexivity. Qed.

Lemma is_object_defined (v : value) :
  is_object v = true -> is_undefined v = false.
Proof. destruct v; try discriminate; reflexivity. Qed.

Lemma getValue_step_defined (current : value) (key : string) (x : value) :
  is_object current = true ->
  get_prop current key = Ok x ->
  getValue_step current key = Ok x.
Proof.
  intros Ho Hg. unfold getValue_step.
  rewrite (is_object_truthy _ Ho), Hg. cbn [bind].
  destruct x; reflexivity.
Qed.

(** What is written through a list of keys is read back through it. *)
Lemma setValue_reduce_getValue (keys : list string) (lastKey : string) :
  forall current x r,
    setValue_reduce keys lastKey current x = Ok r ->
    reduce getValue_step (keys ++ [lastKey]) r = Ok x.
Proof.
  induction keys as [|key keys IH]; intros current x r H.
  - cbn [setValue_reduce] in H. cbn [app reduce].
    rewrite (getValue_step_defined r lastKey x (set_prop_object _ _ _ _ H)
               (get_set_same _ _ _ _ H)).
    reflexivity.
  - cbn [setValue_reduce] in H.
    destruct (get_prop current key) as [v| | |]; cbn [bind] in H;
      try discriminate H.
    destruct (if is_undefined v then _ else _) as [c| | |]; cbn [bind] in H;
      try discriminate H.
    destruct (get_prop c key) as [n| | |]; cbn [bind] in H;
      try discriminate H.
    destruct (setValue_reduce keys lastKey n x) as [n'| | |] eqn:Hn;
      cbn [bind] in H; try discriminate H.
    cbn [app reduce].
    rewrite (getValue_step_defined r key n' (set_prop_object _ _ _ _ H)
               (get_set_same _ _ _ _ H)).
    cbn [bind]. apply (IH _ _ _ Hn).
Qed.

Lemma is_object_guard (v : value) :
  is_object v = true ->
  is_nullish v || negb (String.eqb (typeof v) "object") = false.
Proof. destruct v; try discriminate; reflexivity. Qed.

Lemma setValue_reduce_deepGet (keys : list string) (lastKey : string) :
  forall current x r,
    setValue_reduce keys lastKey current x = Ok r ->
    deepGet_loop (keys ++ [lastKey]) r = Ok x.
Proof.
  induction keys as [|key keys IH]; intros current x r H.
  - cbn [setValue_reduce] in H. cbn [app deepGet_loop].
    rewrite (is_object_guard _ (set_prop_object _ _ _ _ H)).
    rewrite (get_set_same _ _ _ _ H). reflexivity.
  - cbn [setValue_reduce] in H.
    destruct (get_prop current key) as [v| | |]; cbn [bind] in H;
      try discriminate H.
    destruct (if is_undefined v then _ else _) as [c| | |]; cbn [bind] in H;
      try discriminate H.
    destruct (get_prop c key) as [n| | |]; cbn [bind] in H;
      try discriminate H.
    destruct (setValue_reduce keys lastKey n x) as [n'| | |] eqn:Hn;
      cbn [bind] in H; try discriminate H.
    cbn [app deepGet_loop].
    rewrite (is_object_guard _ (set_prop_object _ _ _ _ H)).
    rewrite (get_set_same _ _ _ _ H). cbn [bind]. apply (IH _ _ _ Hn).
Qed.

Lemma split_dot_last (path : string) :
  List.removelast (split_dot path) ++ [List.last (split_dot path) EmptyString]
  = split_dot path.
Proof.
  symmetry. apply app_removelast_last. apply split_dot_acc_nonempty.
Qed.

Lemma setValue_getValue (obj : value) (path : string) (x obj' : value) :
  _setValue obj path x = Ok obj' -> _getValue obj' path = Ok x.
Proof.
  unfold _setValue, _getValue. intros H.
  rewrite <- split_dot_last. apply (setValue_reduce_getValue _ _ _ _ _ H).
Qed.

Lemma setValue_deepGet (obj : value) (path : string) (x obj' : value) :
  _setValue obj path x = Ok obj' ->
  is_empty path = false ->
  deepGet obj' path = Ok x.
Proof.
  unfold _setValue. intros H Hp.
  rewrite (deepGet_as_loop _ _ Hp), <- split_dot_last.
  apply (setValue_reduce_deepGet _ _ _ _ _ H).
Qed.

(** A defined value that the lookup of the templates finds is the value
    that the binding manager reads. *)
Lemma deepGet_loop_getValue (keys : list string) :
  forall current v,
    deepGet_loop keys current = Ok v ->
    v <> VUndefined ->
    reduce getValue_step keys current = Ok v.
Proof.
  induction keys as [|key keys IH]; intros current v H Hv.
  - exact H.
  - cbn [deepGet_loop] in H.
    destruct (is_nullish current
              || negb (String.eqb (typeof current) "object")) eqn:G.
    { injection H as <-. congruence. }
    assert (Ho : is_object current = true)
      by (destruct current; try discriminate G; reflexivity).
    destruct (get_prop current key) as [next| | |] eqn:Hg; cbn [bind] in H;
      try discriminate H.
    cbn [reduce]. rewrite (getValue_step_defined _ _ _ Ho Hg). cbn [bind].
    apply (IH _ _ H Hv).
Qed.

Lemma deepGet_getValue (obj : value) (path : string) (v : value) :
  is_empty path = false ->
  deepGet obj path = Ok v ->
  v <> VUndefined ->
  _getValue obj path = Ok v.
Proof.
  intros Hp H Hv. rewrite (deepGet_as_loop _ _ Hp) in H.
  apply (deepGet_loop_getValue _ _ _ H Hv).
Qed.





(** X20.  Where the lookup of the templates finds a defined
    value at a non-empty path, [_getValue] reads the same value.  The
    converse fails: [_getValue] reads the length of a string, which the
    lookup of the templates does not. *)
Theorem getValue_reads_what_deepGet_finds :
  (forall obj path v,
      is_empty path = false ->
      deepGet obj path = Ok v ->
      v <> VUndefined ->
      _getValue obj path = Ok v)
  /\ deepGet (VObject [("name", VString "Al")]) "name.length" = Ok VUndefined
  /\ _getValue (VObject [("name", VString "Al")]) "name.length"
     = Ok (VNumber 2).
Proof.
  split; [exact deepGet_getValue|]. split; reflexivity.
Qed.

Lemma getValue_reads_what_deepGet_finds_witness :
  is_empty "a.0.b" = false
  /\ deepGet (VObject [("a", VArray [VObject [("b", VBool false)]])]) "a.0.b"
     = Ok (VBool false)
  /\ _getValue (VObject [("a", VArray [VObject [("b", VBool false)]])]) "a.0.b"
     = Ok (VBool false).
Proof.
  split; [reflexivity|]. split; [reflexivity|].
  exact (proj1 getValue_reads_what_deepGet_finds
           (VObject [("a", VArray [VObject [("b", VBool false)]])]) "a.0.b"
           (VBool false) eq_refl eq_refl ltac:(discriminate)).
Defined.

(** ** Scanner: a marker that is not closed *)

Lemma index_none_later (m s : string) :
  m <> EmptyString ->
  String.index 0 m s = None -> forall n, String.index n m s = None.
Proof.
  intros Hm. induction s as [|c s IH]; intros H n.
  - destruct n; cbn [String.index]; [|reflexivity].
    destruct m; [congruence | reflexivity].
  - destruct n as [|n]; [exact H|].
    cbn [String.index] in *.
    destruct (String.prefix m (String c s)); [discriminate H|].
    destruct (String.index 0 m s); [discriminate H|].
    rewrite (IH eq_refl n). reflexivity.
Qed.

Lemma prefix_shorter (p q s : string) :
  String.prefix (p ++ q) s = true -> String.prefix p s = true.
Proof.
  revert s. induction p as [|c p IH]; intros s.
  - destruct s; reflexivity.
  - destruct s as [|d s]; [discriminate|]. cbn [append String.prefix].
    destruct (ascii_dec c d); [apply IH | discriminate].
Qed.

Lemma index_none_longer (p q s : string) :
  p <> EmptyString ->
  String.index 0 p s = None -> String.index 0 (p ++ q) s = None.
Proof.
  intros Hp. induction s as [|c s IH]; intros H.
  - destruct p; [congruence | reflexivity].
  - cbn [String.index] in *.
    destruct (String.prefix p (String c s)) eqn:E; [discriminate H|].
    destruct (String.prefix (p ++ q) (String c s)) eqn:E'.
    { apply prefix_shorter in E'. congruence. }
    destruct (String.index 0 p s); [discriminate H|].
    rewrite (IH eq_refl). reflexivity.
Qed.

Lemma tokenize_unclosed (text rest : string) :
  no_open_brace text = true ->
  includes rest "}}" = false ->
  tokenize (text ++ "{{" ++ rest)
  = Throw (Error ("Unclosed expression at position "
                  ++ of_nat (String.length text))).
Proof.
  intros Htext Hrest. unfold includes, indexOf in Hrest.
  destruct (String.index 0 "}}" rest) eqn:Hnone; [discriminate Hrest|].
  clear Hrest. unfold tokenize.
  assert (Hlen : String.length (text ++ "{{" ++ rest)
                 = String.length text + (2 + String.length rest))
    by (rewrite length_append; reflexivity).
  rewrite Hlen.
  destruct (Nat.eqb _ 0) eqn:E; [apply Nat.eqb_eq in E; lia|]. clear E.
  rewrite <- Nat.add_succ_r.
  remember ("{{" ++ rest)%string as tail eqn:Htail.
  pose proof (tokenize_loop_text text Htext EmptyString tail
                EmptyString [] (S (2 + String.length rest))) as Hscan.
  cbn [append String.length Nat.add] in Hscan.
  cbn [Nat.add]. rewrite Hscan. clear Hscan.
  rewrite tokenize_loop_S.
  pose proof (char_is_append_right text tail 0 "{") as H0.
  rewrite Nat.add_0_r in H0.
  rewrite H0, !char_is_append_right.
  replace (char_is tail 0 "{" && char_is tail 1 "{") with true
    by (subst tail; reflexivity).
  cbv iota zeta. unfold indexOf. subst tail.
  assert (Hi : forall marker k,
            marker = "}}" \/ marker = "}}}" ->
            String.index (String.length text + (2 + k)) marker
              (text ++ "{{" ++ rest) = None).
  { intros marker k Hm.
    assert (Hne : marker <> EmptyString) by (destruct Hm; subst; discriminate).
    rewrite (index_append_right text _ marker (2 + k) Hne).
    pose proof (index_append_right "{{" rest marker k Hne) as H2.
    cbn [String.length] in H2. rewrite H2. clear H2.
    assert (Hrest : String.index 0 marker rest = None).
    { destruct Hm; subst; [exact Hnone|].
      apply (index_none_longer "}}" "}" rest); [discriminate | exact Hnone]. }
    rewrite (index_none_later marker rest Hne Hrest k). reflexivity. }
  destruct (char_is ("{{" ++ rest) 2 "{").
  - pose proof (Hi "}}}" 1 (or_intror eq_refl)) as H3.
    cbn [Nat.add] in H3. rewrite H3. reflexivity.
  - pose proof (Hi "}}" 0 (or_introl eq_refl)) as H2.
    cbn [Nat.add] in H2. rewrite H2. reflexivity.
Qed.

(** X21.  When text without opening brace is followed by
    an opener [{{] and no closer [}}] comes after it, [tokenize] raises the
    error for an unclosed expression with the position of that opener, the
    length of the text. *)
Theorem tokenize_reports_the_unclosed_opener (text rest : string) :
  no_open_brace text = true ->
  includes rest "}}" = false ->
  tokenize (text ++ "{{" ++ rest)
  = Throw (Error ("Unclosed expression at position "
                  ++ of_nat (String.length text))).
Proof. apply tokenize_unclosed. Qed.

Lemma tokenize_reports_the_unclosed_opener_witness :
  no_open_brace "Dear customer, " = true
  /\ includes "{ name }" "}}" = false
  /\ tokenize "Dear customer, {{{ name }"
     = Throw (Error "Unclosed expression at position 15").
Proof.
  split; [reflexivity|]. split; [reflexivity|].
  exact (tokenize_reports_the_unclosed_opener "Dear customer, " "{ name }"
           eq_refl eq_refl).
Defined.

(** ** Rendering a list *)

Lemma concat_snoc (l : list string) (s : string) :
  String.concat EmptyString (l ++ [s])
  = (String.concat EmptyString l ++ s)%string.
Proof.
  induction l as [|a l IH]; [reflexivity|].
  destruct l as [|b l].
  - reflexivity.
  - change ((a :: b :: l) ++ [s]) with (a :: (b :: l) ++ [s]).
    change (String.concat "" (a :: (b :: l) ++ [s]))
      with (a ++ "" ++ String.concat "" ((b :: l) ++ [s]))%string.
    rewrite IH.
    change (String.concat "" (a :: b :: l))
      with (a ++ "" ++ String.concat "" (b :: l))%string.
    cbn [append]. rewrite append_assoc. reflexivity.
Qed.

Lemma concat_cons (s : string) (l : list string) :
  String.concat EmptyString (s :: l)
  = (s ++ String.concat EmptyString l)%string.
Proof. destruct l; [symmetry; apply append_empty | reflexivity]. Qed.

Lemma last_char_append (a b : string) :
  b <> EmptyString -> last_char (a ++ b) = last_char b.
Proof.
  intros Hb. induction a as [|c a IH]; [reflexivity|].
  cbn [append]. rewrite last_char_cons; [exact IH|].
  destruct a; [exact Hb | discriminate].
Qed.

Lemma trim_between (c : ascii) (r : string) (d : ascii) :
  is_space c = false ->
  last_char (String c r) = Some d ->
  is_space d = false ->
  trim (String c r) = String c r.
Proof.
  intros Hc Hl Hd. unfold trim. cbn [trimStart]. rewrite Hc.
  apply (trimEnd_id _ d Hl Hd).
Qed.

Lemma each_template_tokens (path text text2 : string) :
  is_identifier_path path = true ->
  no_open_brace text = true ->
  no_open_brace text2 = true ->
  tokenize ("{{#each " ++ path ++ "}}" ++ text ++ "{{this}}" ++ text2
            ++ "{{/each}}")
  = Ok (EACH_START path
        :: text_tokens text ++ VAR "this" :: text_tokens text2 ++ [EACH_END]).
Proof.
  intros Hp Ht Ht2.
  assert (Hlast : tokenize (text2 ++ marker false "/each" ++ "")
                  = Ok ((text_tokens text2 ++ [EACH_END]) ++ [])).
  { apply tokenize_marker; reflexivity || assumption. }
  assert (Hmid : tokenize (text ++ marker false "this"
                           ++ text2 ++ marker false "/each" ++ "")
                 = Ok ((text_tokens text ++ [VAR "this"])
                       ++ (text_tokens text2 ++ [EACH_END]) ++ [])).
  { apply tokenize_marker; try reflexivity; assumption. }
  assert (Hinner : trim ("#each " ++ path) = ("#each " ++ path)%string).
  { pose proof (trim_of_path _ Hp) as Htrim.
    destruct (last_char path) as [d|] eqn:Hd.
    - apply (trim_between "#" _ d); [reflexivity | |].
      + change (last_char ("#each " ++ path) = Some d).
        rewrite last_char_append; [exact Hd|].
        intros ->. discriminate Hp.
      + rewrite <- Htrim in Hd. apply (trim_last _ _ Hd).
    - apply last_char_none in Hd. subst path. discriminate Hp. }
  assert (Hfirst : tokenize ("" ++ marker false ("#each " ++ path)
                             ++ text ++ marker false "this"
                             ++ text2 ++ marker false "/each" ++ "")
                   = Ok ([EACH_START path]
                         ++ (text_tokens text ++ [VAR "this"])
                         ++ (text_tokens text2 ++ [EACH_END]) ++ [])).
  { apply tokenize_marker; try reflexivity; try assumption.
    - unfold marker_text. cbn [append no_close_brace forallb andb negb orb].
      cbn. rewrite andb_true_r.
      apply (path_without "}" path eq_refl Hp).
    - rewrite Hinner. unfold _processExpression.
      assert (H1 : startsWith ("#each " ++ path) "#if " = false).
      { unfold startsWith. cbn [append]. rewrite prefix_same_char.
        apply prefix_other_char. reflexivity. }
      assert (H2 : startsWith ("#each " ++ path) "#each " = true)
        by apply prefix_append.
      rewrite H1, H2.
      change (slice 6 ("#each " ++ path)) with path.
      rewrite (trim_of_path _ Hp).
      destruct path; [discriminate Hp | reflexivity]. }
  assert (Hs : ("{{#each " ++ path ++ "}}" ++ text ++ "{{this}}" ++ text2
                ++ "{{/each}}")%string
               = ("" ++ marker false ("#each " ++ path)
                  ++ text ++ marker false "this"
                  ++ text2 ++ marker false "/each" ++ "")%string).
  { unfold marker. cbn [append]. rewrite !append_assoc. reflexivity. }
  rewrite Hs, Hfirst. f_equal. cbn [app].
  rewrite app_nil_r, <- app_assoc. reflexivity.
Qed.

Lemma each_template_compiled (ids : nat -> string) (path text text2 : string) :
  plain_path path = true ->
  no_open_brace text = true ->
  no_open_brace text2 = true ->
  loopId_ok (ids 0) = true ->
  Jframe.compile ids
    ("{{#each " ++ path ++ "}}" ++ text ++ "{{this}}" ++ text2 ++ "{{/each}}")
  = Ok [SEach ("items_" ++ ids 0) ("index_" ++ ids 0) ("item_" ++ ids 0)
          (CGet path)
          ((if is_empty text then [] else [SPushText text])
           ++ SPushEscaped (CText ("item_" ++ ids 0))
           :: (if is_empty text2 then [] else [SPushText text2]))].
Proof.
  intros Hplain Ht Ht2 Hid.
  apply plain_path_parts in Hplain as [Hp [Hc [Hthis Hs]]].
  rewrite (compile_front ids _
             (Root [Each path
                      ((if is_empty text then [] else [Text text])
                       ++ Variable' "this"
                       :: (if is_empty text2 then [] else [Text text2]))])).
  2:{ rewrite (each_template_tokens _ _ _ Hp Ht Ht2). cbn [bind].
      rewrite <- parse_tokens_of.
      - f_equal. cbn [List.flat_map tokens_of]. rewrite app_nil_r.
        destruct text, text2; reflexivity.
      - cbn [List.forallb no_root]. destruct text, text2; reflexivity. }
  destruct (loop_names_identifiers _ Hid) as [Ha [Hi Hitem]].
  pose proof (loopId_ident_part _ Hid) as Hpart.
  unfold Compiler.compile, _generateJSCode.
  cbn [forEach_child _generateNodeCode]. unfold _generateEachCode.
  replace (_generateAccessCode path None) with (Ok (CGet path))
    by (unfold _generateAccessCode; rewrite Hthis, Hs, Hc, Hp; reflexivity).
  cbn [bind].
  destruct text as [|a text], text2 as [|b text2];
    cbn [is_empty app forEach_child _generateNodeCode bind];
    change (_generateVariableCode "this" false
              (Some (LoopContext ("item_" ++ ids 0) ("index_" ++ ids 0) None)))
      with (Ok [SPushEscaped (CText ("item_" ++ ids 0))]);
    cbn [bind app]; unfold in_fragment;
    cbn [List.forallb stmt_in_fragment code_in_fragment];
    rewrite Ha, Hi, Hitem, (parse_atom_item_name _ Hpart); reflexivity.
Qed.

(** The body of the loop appends the two texts around the escaped
    element. *)
Lemma exec_item_body (id text text2 : string) (st : state) (x : value) :
  forallb is_ident_part id = true ->
  lookup ("item_" ++ id) (vars st) = Some x ->
  exists st',
    exec 4
      ((if is_empty text then [] else [SPushText text])
       ++ SPushEscaped (CText ("item_" ++ id))
       :: (if is_empty text2 then [] else [SPushText text2])) st = Ok st'
    /\ vars st' = vars st
    /\ String.concat EmptyString (output st')
       = (String.concat EmptyString (output st)
          ++ text ++ escapeHtml x ++ text2)%string.
Proof.
  intros Hid Hx.
  assert (Heval : eval_code (vars st) (CText ("item_" ++ id)) = Ok x).
  { rewrite (eval_item_name _ _ Hid). apply read_bound. exact Hx. }
  destruct text as [|a text], text2 as [|b text2];
    cbn [is_empty app exec push vars]; rewrite Heval;
    cbn [bind]; cbv beta iota; eexists;
    (split; [reflexivity|]); (split; [reflexivity|]);
    cbn [output push]; rewrite ?concat_snoc, ?append_assoc, ?append_empty;
    reflexivity.
Qed.

Lemma each_elements_texts (id text text2 : string) (elements : list value) :
  forallb is_ident_part id = true ->
  forall st k,
    exists st',
      each_elements 4 ("index_" ++ id) ("item_" ++ id)
        ((if is_empty text then [] else [SPushText text])
         ++ SPushEscaped (CText ("item_" ++ id))
         :: (if is_empty text2 then [] else [SPushText text2]))
        k elements st = Ok st'
      /\ String.concat EmptyString (output st')
         = (String.concat EmptyString (output st)
            ++ String.concat EmptyString
                 (List.map (fun x => text ++ escapeHtml x ++ text2) elements)
           )%string.
Proof.
  intros Hid. induction elements as [|x rest IH]; intros st k.
  - exists st. split; [reflexivity|]. cbn [List.map String.concat].
    rewrite append_empty. reflexivity.
  - cbn [each_elements].
    destruct (exec_item_body id text text2 (assign ("item_" ++ id) x st) x Hid
                (lookup_assign_same _ _ _)) as [st1 [Hrun [_ Hout]]].
    rewrite Hrun. cbn [bind].
    destruct (IH (assign ("index_" ++ id) (VNumber (k + 1)) st1) (k + 1)%Z)
      as [st' [Hrest Hout']].
    exists st'. split; [exact Hrest|].
    rewrite Hout'. cbn [assign output] in *. rewrite Hout.
    cbn [List.map]. rewrite concat_cons, !append_assoc. reflexivity.
Qed.

Lemma run_each_template (ids : nat -> string) (fuel : nat)
    (path text text2 : string) (ctx : value) (elements : list value) :
  plain_path path = true ->
  no_open_brace text = true ->
  no_open_brace text2 = true ->
  loopId_ok (ids 0) = true ->
  deepGet ctx path = Ok (VArray elements) ->
  List.length elements + 7 <= fuel ->
  Jframe.run ids fuel
    ("{{#each " ++ path ++ "}}" ++ text ++ "{{this}}" ++ text2 ++ "{{/each}}")
    ctx
  = Ok (String.concat EmptyString
          (List.map (fun x => text ++ escapeHtml x ++ text2)%string elements)).
Proof.
  intros Hplain Ht Ht2 Hid Hitems Hfuel. unfold Jframe.run.
  rewrite (each_template_compiled ids _ _ _ Hplain Ht Ht2 Hid). cbn [bind].
  unfold invoke.
  pose proof (loopId_ident_part _ Hid) as Hpart.
  destruct (loop_names_distinct (ids 0)) as [Hai [Hat Hit]].
  set (body := (if is_empty text then [] else [SPushText text])
               ++ SPushEscaped (CText ("item_" ++ ids 0))
               :: (if is_empty text2 then [] else [SPushText text2])).
  set (st0 := initial _ ctx).
  assert (Hdecl : declared body = [])
    by (subst body; destruct text, text2; reflexivity).
  destruct (each_elements_texts (ids 0) text text2 elements Hpart
              (assign ("index_" ++ ids 0) (VNumber 0)
                 (assign ("items_" ++ ids 0) (VArray elements) st0)) 0%Z)
    as [st' [Hrun Hout]].
  fold body in Hrun.
  assert (Hexec : exec (4 + List.length elements + 3)
                    [SEach ("items_" ++ ids 0) ("index_" ++ ids 0)
                       ("item_" ++ ids 0) (CGet path) body] st0 = Ok st').
  { apply exec_each_array; try assumption; rewrite Hdecl; intros []. }
  rewrite (exec_more_fuel _ fuel _ _ _ Hexec) by lia.
  cbn [bind]. rewrite Hout. reflexivity.
Qed.

(** X22.  A template made of an each block over a plain path
    whose body is text, the current element and text again renders, for an
    array of any length, the body once per element in element order, each
    element escaped; for the empty array it renders the empty string. *)
Theorem each_block_renders_every_element (ids : nat -> string) (fuel : nat)
    (path text text2 : string) (ctx : value) (elements : list value) :
  plain_path path = true ->
  no_open_brace text = true ->
  no_open_brace text2 = true ->
  loopId_ok (ids 0) = true ->
  deepGet ctx path = Ok (VArray elements) ->
  List.length elements + 7 <= fuel ->
  Jframe.run ids fuel
    ("{{#each " ++ path ++ "}}" ++ text ++ "{{this}}" ++ text2 ++ "{{/each}}")
    ctx
  = Ok (String.concat EmptyString
          (List.map (fun x => text ++ escapeHtml x ++ text2)%string elements)).
Proof. apply run_each_template. Qed.

Lemma each_block_renders_every_element_witness :
  plain_path "cart.items" = true
  /\ no_open_brace "<li>" = true
  /\ no_open_brace "</li>" = true
  /\ loopId_ok (draws_a 0) = true
  /\ deepGet (VObject [("cart", VObject [("items",
                VArray [VString "tea"; VString "a<b"; VNumber 3])])])
       "cart.items"
     = Ok (VArray [VString "tea"; VString "a<b"; VNumber 3])
  /\ 3 + 7 <= 10
  /\ Jframe.run draws_a 10 "{{#each cart.items}}<li>{{this}}</li>{{/each}}"
       (VObject [("cart", VObject [("items",
          VArray [VString "tea"; VString "a<b"; VNumber 3])])])
     = Ok "<li>tea</li><li>a&lt;b</li><li>3</li>".
Proof.
  split; [reflexivity|]. split; [reflexivity|]. split; [reflexivity|].
  split; [reflexivity|]. split; [reflexivity|]. split; [apply le_n|].
  exact (each_block_renders_every_element draws_a 10 "cart.items" "<li>"
           "</li>"
           (VObject [("cart", VObject [("items",
              VArray [VString "tea"; VString "a<b"; VNumber 3])])])
           [VString "tea"; VString "a<b"; VNumber 3]
           eq_refl eq_refl eq_refl eq_refl eq_refl (le_n 10)).
Defined.

(** ** Conditions: the comparison pattern *)

Lemma longest_first_found {A : Type} (f : nat -> option A) (n m : nat)
    (a : A) :
  0 < n -> n <= m ->
  f n = Some a ->
  (forall k, n < k -> k <= m -> f k = None) ->
  longest_first f m = Some a.
Proof.
  intros Hn Hle Hf Hnone. induction m as [|m IH]; [lia|].
  cbn [longest_first].
  destruct (Nat.eq_dec n (S m)) as [<-|Hneq].
  - rewrite Hf. reflexivity.
  - rewrite (Hnone (S m)) by lia. apply IH; [lia|].
    intros k H1 H2. apply Hnone; lia.
Qed.

Lemma span_len_all (p : ascii -> bool) (a : string) (c : ascii) (b : string) :
  forallb p a = true -> p c = false ->
  span_len p (a ++ String c b) = String.length a.
Proof.
  intros Ha Hc. induction a as [|d a IH]; cbn [append span_len String.length].
  - rewrite Hc. reflexivity.
  - cbn [forallb] in Ha. apply andb_true_iff in Ha as [Hd Ha].
    rewrite Hd, (IH Ha). reflexivity.
Qed.

Lemma span_len_none (p : ascii -> bool) (s : string) :
  forallb (fun c => negb (p c)) s = true -> span_len p s = 0.
Proof.
  destruct s as [|c s]; [reflexivity|]. cbn [forallb span_len].
  intros H. apply andb_true_iff in H as [Hc _]. apply negb_true_iff in Hc.
  rewrite Hc. reflexivity.
Qed.

Lemma slice_append (a b : string) : slice (String.length a) (a ++ b) = b.
Proof. induction a as [|c a IH]; [destruct b; reflexivity | exact IH]. Qed.

Lemma slice_append_more (a b : string) (j : nat) :
  slice (String.length a + j) (a ++ b) = slice j b.
Proof. induction a as [|c a IH]; [reflexivity | exact IH]. Qed.

Lemma take_append (a b : string) : take (String.length a) (a ++ b) = a.
Proof.
  induction a as [|c a IH]; [destruct b; reflexivity|].
  cbn [String.length append take]. rewrite IH. reflexivity.
Qed.

Lemma forallb_slice (p : ascii -> bool) (s : string) :
  forallb p s = true -> forall j, forallb p (slice j s) = true.
Proof.
  induction s as [|c s IH]; intros H j.
  - destruct j; reflexivity.
  - destruct j as [|j]; [exact H|]. cbn [slice].
    cbn [forallb] in H. apply andb_true_iff in H as [_ H]. apply IH. exact H.
Qed.

Lemma comparisonMatch_split (operator left' right' : string) :
  is_operator_word operator = true ->
  is_left_operand left' = true ->
  is_right_operand right' = true ->
  comparisonMatch (comparison operator left' right')
  = Some (operator, left', right').
Proof.
  unfold is_operator_word, is_left_operand, is_right_operand, comparison.
  intros Hop Hl Hr.
  apply andb_true_iff in Hop as [Hop1 Hop].
  destruct left' as [|l0 left1]; [discriminate Hl|].
  apply andb_true_iff in Hl as [Hl0 Hl]. apply negb_true_iff in Hl0.
  apply andb_true_iff in Hr as [Hr1 Hr].
  assert (Hrs : forallb (fun c => negb (is_space c)) right' = true).
  { revert Hr. apply forallb_impl. intros c Hc.
    apply andb_true_iff in Hc as [Hc _]. exact Hc. }
  assert (Hrp : forallb not_close_paren right' = true).
  { revert Hr. apply forallb_impl. intros c Hc.
    apply andb_true_iff in Hc as [_ Hc]. exact Hc. }
  set (left' := String l0 left1) in *.
  set (tail := (right' ++ ")")%string).
  assert (Htail : forallb (fun c => negb (is_space c)) tail = true).
  { subst tail. rewrite forallb_append, Hrs. reflexivity. }
  cbn [append comparisonMatch Ascii.eqb Bool.eqb negb].
  set (r2 := (left' ++ String " " tail)%string).
  set (r1 := String " " r2).
  change (String " " (left' ++ String " " (right' ++ ")")))
    with r1.
  assert (Hw : span_len is_word (operator ++ r1) = String.length operator)
    by (apply span_len_all; [exact Hop | reflexivity]).
  rewrite Hw.
  destruct (Nat.eqb (String.length operator) 0) eqn:E.
  { apply Nat.eqb_eq in E. destruct operator; discriminate. }
  rewrite slice_append, take_append.
  assert (Hsp1 : span_len is_space r1 = 1).
  { subst r1 r2 left'. cbn [append span_len]. change (is_space " ") with true.
    cbv iota. rewrite Hl0. reflexivity. }
  rewrite Hsp1. cbn [longest_first].
  change (slice 1 r1) with r2.
  assert (Hsp2 : span_len not_close_paren r2
                 = String.length left' + (1 + String.length right')).
  { subst r2 tail.
    replace (left' ++ String " " (right' ++ ")"))%string
      with ((left' ++ " " ++ right') ++ ")")%string
      by (rewrite !append_assoc; reflexivity).
    rewrite (span_len_all not_close_paren _ ")" EmptyString);
      [rewrite !length_append; reflexivity | | reflexivity].
    rewrite !forallb_append, Hl, Hrp. reflexivity. }
  rewrite Hsp2.
  rewrite (longest_first_found _ (String.length left') _
             (operator, left', right')).
  - reflexivity.
  - subst left'. cbn [String.length]. lia.
  - lia.
  - assert (Hs2 : slice (String.length left') r2 = String " " tail)
      by (subst r2; apply slice_append).
    assert (Ht2 : take (String.length left') r2 = left')
      by (subst r2; apply take_append).
    rewrite Hs2, Ht2.
    assert (Hsp3 : span_len is_space (String " " tail) = 1).
    { cbn [span_len]. change (is_space " ") with true. cbv iota.
      rewrite (span_len_none is_space tail Htail). reflexivity. }
    rewrite Hsp3. cbn [longest_first slice]. subst tail.
    rewrite (span_len_all not_close_paren right' ")" EmptyString Hrp eq_refl).
    rewrite slice_append, take_append.
    destruct right'; [discriminate Hr1 | reflexivity].
  - intros k H1 H2.
    assert (Hs2 : slice k r2 = slice (k - String.length left' - 1) tail).
    { subst r2.
      replace k with (String.length left' + S (k - String.length left' - 1))
        at 1 by lia.
      rewrite slice_append_more. reflexivity. }
    rewrite Hs2.
    rewrite (span_len_none is_space _ (forallb_slice _ _ Htail _)).
    reflexivity.
Qed.

Lemma trim_comparison (operator left' right' : string) :
  trim (comparison operator left' right') = comparison operator left' right'.
Proof.
  unfold comparison. cbn [append].
  apply (trim_between "(" _ ")"); [reflexivity | | reflexivity].
  change (last_char ("(" ++ operator ++ " " ++ left' ++ " " ++ right' ++ ")")
          = Some ")"%char).
  rewrite <- !append_assoc.
  rewrite last_char_append; [reflexivity | discriminate].
Qed.

Lemma operator_name_word (op : binop) :
  is_operator_word (operator_name op) = true.
Proof. destruct op; reflexivity. Qed.

Lemma generateConditionCode_split (operator left' right' : string)
    (lc : option loopContext) :
  is_operator_word operator = true ->
  is_left_operand left' = true ->
  is_right_operand right' = true ->
  _generateConditionCode (comparison operator left' right') lc
  = (leftCode <- _generateComparisonOperand (trim left') lc ;;
     rightCode <- _generateComparisonOperand (trim right') lc ;;
     if String.eqb operator "eq" then Ok (CBin StrictEq leftCode rightCode)
     else if String.eqb operator "neq" then Ok (CBin StrictNe leftCode rightCode)
     else if String.eqb operator "gt" then Ok (CBin Gt leftCode rightCode)
     else if String.eqb operator "gte" then Ok (CBin Ge leftCode rightCode)
     else if String.eqb operator "lt" then Ok (CBin Lt leftCode rightCode)
     else if String.eqb operator "lte" then Ok (CBin Le leftCode rightCode)
     else if String.eqb operator "and" then Ok (CBin And leftCode rightCode)
     else if String.eqb operator "or" then Ok (CBin Or leftCode rightCode)
     else Throw (Error ("Unsupported comparison operator: " ++ operator))).
Proof.
  intros Hop Hl Hr. unfold _generateConditionCode.
  rewrite trim_comparison, (comparisonMatch_split _ _ _ Hop Hl Hr).
  reflexivity.
Qed.

(** X23.  A condition [(operator left right)] is split at
    its last run of white space: the right operand is the last word, and
    the left operand is all the text between the operator and that word,
    white space included.  So a quoted string with a space is one operand
    on the left, and is cut in two on the right, where the template does
    not compile. *)
Theorem comparison_is_split_at_the_last_space :
  (forall operator left' right',
      is_operator_word operator = true ->
      is_left_operand left' = true ->
      is_right_operand right' = true ->
      comparisonMatch (comparison operator left' right')
      = Some (operator, left', right'))
  /\ (forall ids,
      Jframe.compile ids "{{#if (eq 'John Smith' name)}}x{{/if}}"
      = Ok [SIf (CBin StrictEq (CText "'John Smith'") (CGet "name"))
              [SPushText "x"]])
  /\ (forall ids,
      Jframe.compile ids "{{#if (eq name 'John Smith')}}x{{/if}}"
      = Throw (Error "Invalid variable expression: name 'John")).
Proof.
  split; [exact comparisonMatch_split|].
  split; intros ids; reflexivity.
Qed.

Lemma comparison_is_split_at_the_last_space_witness :
  is_operator_word "eq" = true
  /\ is_left_operand "name 'John" = true
  /\ is_right_operand "Smith'" = true
  /\ comparisonMatch "(eq name 'John Smith')"
     = Some ("eq", "name 'John", "Smith'").
Proof.
  split; [reflexivity|]. split; [reflexivity|]. split; [reflexivity|].
  exact (proj1 comparison_is_split_at_the_last_space "eq" "name 'John"
           "Smith'" eq_refl eq_refl eq_refl).
Defined.



(** ** Rendering an if block with a text body *)

Lemma if_template_tokens (path text : string) :
  is_identifier_path path = true ->
  no_open_brace text = true ->
  tokenize ("{{#if " ++ path ++ "}}" ++ text ++ "{{/if}}")
  = Ok (IF_START path :: text_tokens text ++ [IF_END]).
Proof.
  intros Hp Ht.
  assert (Hlast : tokenize (text ++ marker false "/if" ++ "")
                  = Ok ((text_tokens text ++ [IF_END]) ++ [])).
  { apply tokenize_marker; reflexivity || assumption. }
  assert (Hinner : trim ("#if " ++ path) = ("#if " ++ path)%string).
  { pose proof (trim_of_path _ Hp) as Htrim.
    destruct (last_char path) as [d|] eqn:Hd.
    - apply (trim_between "#" _ d); [reflexivity | |].
      + change (last_char ("#if " ++ path) = Some d).
        rewrite last_char_append; [exact Hd|].
        intros ->. discriminate Hp.
      + rewrite <- Htrim in Hd. apply (trim_last _ _ Hd).
    - apply last_char_none in Hd. subst path. discriminate Hp. }
  assert (Hfirst : tokenize ("" ++ marker false ("#if " ++ path)
                             ++ text ++ marker false "/if" ++ "")
                   = Ok ([IF_START path]
                         ++ (text_tokens text ++ [IF_END]) ++ [])).
  { apply tokenize_marker; try reflexivity; try assumption.
    - unfold marker_text. cbn [append no_close_brace forallb andb negb orb].
      cbn. rewrite andb_true_r.
      apply (path_without "}" path eq_refl Hp).
    - rewrite Hinner. unfold _processExpression.
      assert (H1 : startsWith ("#if " ++ path) "#if " = true)
        by apply prefix_append.
      rewrite H1.
      change (slice 4 ("#if " ++ path)) with path.
      rewrite (trim_of_path _ Hp).
      destruct path; [discriminate Hp | reflexivity]. }
  assert (Hs : ("{{#if " ++ path ++ "}}" ++ text ++ "{{/if}}")%string
               = ("" ++ marker false ("#if " ++ path)
                  ++ text ++ marker false "/if" ++ "")%string).
  { unfold marker. cbn [append]. rewrite !append_assoc. reflexivity. }
  rewrite Hs, Hfirst. f_equal. cbn [app]. rewrite app_nil_r. reflexivity.
Qed.

Lemma run_if_template (ids : nat -> string) (fuel : nat) (path text : string)
    (ctx : value) :
  plain_path path = true ->
  no_open_brace text = true ->
  Jframe.run ids (3 + fuel) ("{{#if " ++ path ++ "}}" ++ text ++ "{{/if}}") ctx
  = (v <- deepGet ctx path ;;
     Ok (if truthy v then text else EmptyString)).
Proof.
  intros Hplain Ht.
  pose proof (plain_path_parts _ Hplain) as [Hp _].
  unfold Jframe.run.
  rewrite (compile_front ids _
             (Root [If path (if is_empty text then [] else [Text text])])).
  2:{ rewrite (if_template_tokens _ _ Hp Ht). cbn [bind].
      rewrite <- parse_tokens_of.
      - f_equal. cbn [List.flat_map tokens_of]. rewrite app_nil_r.
        destruct text; reflexivity.
      - cbn [List.forallb no_root]. destruct text; reflexivity. }
  unfold Compiler.compile, _generateJSCode.
  cbn [forEach_child _generateNodeCode]. unfold _generateIfCode.
  rewrite <- (trim_of_path _ Hp) in Hplain.
  rewrite (generateConditionCode_path _ None Hplain), (trim_of_path _ Hp).
  cbn [bind]. rewrite generate_text. cbn [bind app].
  replace (in_fragment
             [SIf (CNotNot (CGet path))
                (if is_empty text then [] else [SPushText text])])
    with true by (destruct text; reflexivity).
  cbn [bind]. unfold invoke. cbn [Nat.add].
  rewrite (exec_if_path _ _ _ _ ctx (lookup_ctx_initial _ _)).
  destruct (deepGet ctx path) as [v| | |]; cbn [bind]; try reflexivity.
  destruct (truthy v); [|reflexivity].
  destruct text; reflexivity.
Qed.

(** X25.  A template made of an if block over a plain path with a
    text body renders the text, as it is, when the value looked up in the
    context is truthy, and the empty string otherwise: for a missing value,
    false, zero, the empty string and null. *)
Theorem if_block_renders_its_text (ids : nat -> string) (fuel : nat)
    (path text : string) (ctx : value) :
  plain_path path = true ->
  no_open_brace text = true ->
  Jframe.run ids (3 + fuel) ("{{#if " ++ path ++ "}}" ++ text ++ "{{/if}}") ctx
  = (v <- deepGet ctx path ;;
     Ok (if truthy v then text else EmptyString)).
Proof. apply run_if_template. Qed.

Lemma if_block_renders_its_text_witness :
  plain_path "user.admin" = true
  /\ no_open_brace "<b>admin</b>" = true
  /\ Jframe.run draws_a (3 + 0) "{{#if user.admin}}<b>admin</b>{{/if}}"
       (VObject [("user", VObject [("admin", VNumber 0)])])
     = Ok "".
Proof.
  split; [reflexivity|]. split; [reflexivity|].
  exact (if_block_renders_its_text draws_a 0 "user.admin" "<b>admin</b>"
           (VObject [("user", VObject [("admin", VNumber 0)])])
           eq_refl eq_refl).
Defined.

(** ** Writing below a null *)

Lemma setValue_reduce_null (keys : list string) (lastKey : string)
    (x : value) :
  setValue_reduce keys lastKey VNull x = Throw TypeError.
Proof. destruct keys; reflexivity. Qed.

Lemma removelast_cons_last (key : string) (keys : list string) :
  keys <> [] ->
  List.removelast (key :: keys) = key :: List.removelast keys
  /\ List.last (key :: keys) EmptyString = List.last keys EmptyString.
Proof. destruct keys; [congruence | split; reflexivity]. Qed.

Lemma reduce_getValue_null (keys : list string) :
  keys <> [] -> reduce getValue_step keys VNull = Ok VUndefined.
Proof.
  destruct keys as [|k keys]; [congruence|]. intros _.
  cbn [reduce getValue_step truthy bind].
  induction keys as [|k' keys IH]; [reflexivity|].
  cbn [reduce getValue_step truthy bind]. exact IH.
Qed.

Lemma setValue_below_null (obj : value) (key rest : string) (x : value) :
  forallb (fun c => negb (Ascii.eqb c ".")) key = true ->
  get_prop obj key = Ok VNull ->
  _setValue obj (key ++ "." ++ rest) x = Throw TypeError
  /\ _getValue obj (key ++ "." ++ rest) = Ok VUndefined
  /\ deepGet obj (key ++ "." ++ rest) = Ok VUndefined.
Proof.
  intros Hkey Hnull.
  assert (Hsplit : split_dot (key ++ "." ++ rest) = key :: split_dot rest).
  { unfold split_dot. rewrite (split_dot_acc_prefix _ _ _ Hkey).
    cbn [append split_dot_acc]. rewrite Ascii.eqb_refl. reflexivity. }
  assert (Hobj : is_object obj = true).
  { destruct obj; try reflexivity; cbn [get_prop] in Hnull;
      try discriminate Hnull.
    destruct (String.eqb key "length"); discriminate Hnull. }
  split; [|split].
  - unfold _setValue. rewrite Hsplit.
    destruct (removelast_cons_last key (split_dot rest)
                (split_dot_acc_nonempty rest EmptyString)) as [-> ->].
    cbn [setValue_reduce]. rewrite Hnull. cbn [bind is_undefined].
    rewrite Hnull. cbn [bind]. rewrite setValue_reduce_null. reflexivity.
  - unfold _getValue. rewrite Hsplit. cbn [reduce].
    rewrite (getValue_step_defined _ _ _ Hobj Hnull). cbn [bind].
    apply reduce_getValue_null, split_dot_acc_nonempty.
  - rewrite deepGet_as_loop by (destruct key; reflexivity).
    rewrite Hsplit. cbn [deepGet_loop].
    replace (is_nullish obj || negb (String.eqb (typeof obj) "object"))
      with false by (destruct obj; try discriminate Hobj; reflexivity).
    rewrite Hnull. cbn [bind].
    apply deepGet_loop_not_object; [reflexivity|].
    apply split_dot_acc_nonempty.
Qed.

(** X26.  Writing by a path that leads through a property holding
    null raises a TypeError, whatever the rest of the path is, while
    reading by the same path, with [_getValue] or with [deepGet], gives
    undefined: only a missing property is replaced by a new object on the
    way down, a null one is not. *)
Theorem setValue_below_null_raises (obj : value) (key rest : string)
    (x : value) :
  forallb (fun c => negb (Ascii.eqb c ".")) key = true ->
  get_prop obj key = Ok VNull ->
  _setValue obj (key ++ "." ++ rest) x = Throw TypeError
  /\ _getValue obj (key ++ "." ++ rest) = Ok VUndefined
  /\ deepGet obj (key ++ "." ++ rest) = Ok VUndefined.
Proof. apply setValue_below_null. Qed.

Lemma setValue_below_null_raises_witness :
  _setValue (VObject [("user", VNull)]) "user.address.city" (VString "Kingston")
  = Throw TypeError
  /\ _getValue (VObject [("user", VNull)]) "user.address.city" = Ok VUndefined
  /\ deepGet (VObject [("user", VNull)]) "user.address.city" = Ok VUndefined.
Proof.
  exact (setValue_below_null_raises (VObject [("user", VNull)]) "user"
           "address.city" (VString "Kingston") eq_refl eq_refl).
Defined.

(** * Nested loops, comparisons and two compilations *)

Lemma run_more_fuel (ids : nat -> string) (fuel fuel' : nat)
    (template : string) (ctx : value) (s : string) :
  Jframe.run ids fuel template ctx = Ok s ->
  fuel <= fuel' ->
  Jframe.run ids fuel' template ctx = Ok s.
Proof.
  unfold Jframe.run. destruct (Jframe.compile ids template) as [body| | |];
    cbn [bind]; try discriminate.
  unfold invoke. intros H Hle.
  destruct (exec fuel body (initial body ctx)) as [st| | |] eqn:E;
    cbn [bind] in H; try discriminate.
  rewrite (exec_more_fuel _ _ _ _ _ E Hle). exact H.
Qed.

(** C2 (defect of the code).  The code generated for an each block
    evaluates the items expression once and, on an array, runs the code of
    the children once per element in element order, with [this] the item
    variable and [@index] the index variable of the loop, counted from
    zero, and [@index] the literal zero outside every loop -- as long as
    the identifiers drawn for the loops nested in it differ from its own.
    The names of the three variables of a loop are drawn at random, and
    nothing keeps the draw of a nested loop apart from the draw of the
    loop around it.  When the two draws are equal the loops share their
    variables: the inner loop overwrites the array and the index of the
    outer one, and the outer loop ends after its first element.  The
    template [{{#each items}}{{@index}}:{{this}} {{/each}}], which has one
    loop, renders the elements a, b, c as [0:a 1:b 2:c ] for every draw. *)
Theorem C2_nested_each_with_equal_identifiers :
  (loopId_ok (one_draw 0) = true
   /\ Jframe.compile one_draw nested_template
      = Ok [SEach "items_i" "index_i" "item_i" (CGet "rows")
              [SPushEscaped (CText "index_i"); SPushText ":";
               SEach "items_i" "index_i" "item_i" (CText "item_i")
                 [SPushEscaped (CText "item_i"); SPushText ","];
               SPushText ";"]]
   /\ (forall fuel,
       16 <= fuel ->
       Jframe.run one_draw fuel nested_template nested_context
       = Ok "0:1,2,;")
   /\ (forall fuel,
       16 <= fuel ->
       Jframe.run draws_a fuel nested_template nested_context
       = Ok "0:1,2,;1:3,;"))
  /\ (forall ids items children lc drawn lines drawn',
      _generateNodeCode ids (Each items children) lc drawn
      = Ok (lines, drawn') ->
      (forall k, drawn < k < drawn' -> ids k <> ids drawn) ->
      exists itemsCode body,
        _generateAccessCode items lc = Ok itemsCode
        /\ forEach_child (_generateNodeCode ids) children
             (Some (LoopContext ("item_" ++ ids drawn)
                      ("index_" ++ ids drawn) lc))
             (S drawn) = Ok (body, drawn')
        /\ lines = [SEach ("items_" ++ ids drawn) ("index_" ++ ids drawn)
                      ("item_" ++ ids drawn) itemsCode body]
        /\ forall fuel st st' elements,
            eval_code (vars st) itemsCode = Ok (VArray elements) ->
            each_elements fuel ("index_" ++ ids drawn) ("item_" ++ ids drawn)
              body 0 elements
              (assign ("index_" ++ ids drawn) (VNumber 0)
                 (assign ("items_" ++ ids drawn) (VArray elements) st))
            = Ok st' ->
            exec (fuel + List.length elements + 3) lines st = Ok st')
  /\ (forall lc, _generateAccessCode "this" (Some lc) = Ok (CText (itemName lc)))
  /\ (forall id item outer,
      forallb is_ident_part id = true ->
      _compileComplexExpression "@index"
        (Some (LoopContext item ("index_" ++ id) outer))
      = Ok ("index_" ++ id)%string)
  /\ _compileComplexExpression "@index" None = Ok "0"
  /\ (forall ids fuel ctx,
      Jframe.run ids (S (S fuel)) "{{@index}}" ctx = Ok "0")
  /\ (forall ids fuel,
      loopId_ok (ids 0) = true ->
      11 <= fuel ->
      Jframe.run ids fuel each_example
        (VObject [("items", VArray [VString "a"; VString "b"; VString "c"])])
      = Ok "0:a 1:b 2:c ").
Proof.
  split.
  { split; [reflexivity|]. split; [vm_compute; reflexivity|].
    split; intros fuel Hfuel;
      (apply (run_more_fuel _ 16); [vm_compute; reflexivity | exact Hfuel]). }
  split; [intros; eapply exec_generated_each; eassumption|].
  split; [reflexivity|].
  split; [intros; apply compile_index_in_loop; assumption|].
  split; [reflexivity|].
  split; [intros; vm_compute; reflexivity|].
  exact run_each_example.
Qed.

Lemma C2_witness :
  Jframe.run one_draw 16 nested_template nested_context = Ok "0:1,2,;"
  /\ Jframe.run draws_a 16 nested_template nested_context = Ok "0:1,2,;1:3,;"
  /\ Jframe.run one_draw 11 each_example
       (VObject [("items", VArray [VString "a"; VString "b"; VString "c"])])
     = Ok "0:a 1:b 2:c "
  /\ exists itemsCode body,
      _generateAccessCode "rows" None = Ok itemsCode
      /\ forEach_child (_generateNodeCode draws_a)
           [Each "this" [Variable' "this"]]
           (Some (LoopContext ("item_" ++ draws_a 0)
                    ("index_" ++ draws_a 0) None)) 1 = Ok (body, 2)
      /\ [SEach "items_k3f9x2a1b" "index_k3f9x2a1b" "item_k3f9x2a1b"
            (CGet "rows")
            [SEach "items_z8y7w6v5u" "index_z8y7w6v5u" "item_z8y7w6v5u"
               (CText "item_k3f9x2a1b")
               [SPushEscaped (CText "item_z8y7w6v5u")]]]
         = [SEach ("items_" ++ draws_a 0) ("index_" ++ draws_a 0)
              ("item_" ++ draws_a 0) itemsCode body]
      /\ forall fuel st st' elements,
          eval_code (vars st) itemsCode = Ok (VArray elements) ->
          each_elements fuel ("index_" ++ draws_a 0)
            ("item_" ++ draws_a 0) body 0 elements
            (assign ("index_" ++ draws_a 0) (VNumber 0)
               (assign ("items_" ++ draws_a 0) (VArray elements) st))
          = Ok st' ->
          exec (fuel + List.length elements + 3)
            [SEach "items_k3f9x2a1b" "index_k3f9x2a1b" "item_k3f9x2a1b"
               (CGet "rows")
               [SEach "items_z8y7w6v5u" "index_z8y7w6v5u"
                  "item_z8y7w6v5u" (CText "item_k3f9x2a1b")
                  [SPushEscaped (CText "item_z8y7w6v5u")]]] st = Ok st'.
Proof.
  pose proof C2_nested_each_with_equal_identifiers
    as [[_ [_ [Hone Htwo]]] [Heach [_ [_ [_ [_ Hexample]]]]]].
  split; [exact (Hone 16 (le_n 16))|].
  split; [exact (Htwo 16 (le_n 16))|].
  split; [exact (Hexample one_draw 11 eq_refl (le_n 11))|].
  refine (Heach draws_a "rows" [Each "this" [Variable' "this"]] None 0 _ 2
            eq_refl _).
  intros k [H1 H2]. assert (E : k = 1) by lia. rewrite E. discriminate.
Defined.

(** ** Conditions: comparisons of literals and paths *)

Lemma is_quote_cases (q : ascii) :
  is_quote q = true -> q = "'"%char \/ q = "034"%char.
Proof.
  unfold is_quote. intros H. apply orb_true_iff in H as [H|H];
    apply Ascii.eqb_eq in H; auto.
Qed.

Lemma literal_chars (q : ascii) (s : string) :
  forallb (literal_char q) s = true ->
  forallb (is_string_char q) s = true /\ forallb not_close_paren s = true.
Proof.
  intros H. split; revert H; apply forallb_impl; intros c Hc;
    apply andb_true_iff in Hc as [H1 H2]; assumption.
Qed.

Lemma last_char_snoc (s : string) (c : ascii) :
  last_char (s ++ String c EmptyString) = Some c.
Proof. rewrite last_char_append; [reflexivity | discriminate]. Qed.

Lemma digit_not_space (c : ascii) : is_digit c = true -> is_space c = false.
Proof.
  intros H. apply path_char_not_space. unfold path_char, is_ident_part.
  rewrite H. rewrite orb_true_r. reflexivity.
Qed.

Lemma exact_digits_parts (d : string) :
  exact_digits d = true -> forallb is_digit d = true.
Proof. unfold exact_digits. intros H. apply andb_true_iff in H as [H _]. exact H. Qed.

Lemma operand_trimmed (o : operand) :
  is_operand o = true -> trim (operand_text o) = operand_text o.
Proof.
  destruct o as [q s|d|p]; cbn [is_operand operand_text].
  - intros H. apply andb_true_iff in H as [Hq _].
    assert (Hs : is_space q = false)
      by (destruct (is_quote_cases _ Hq) as [-> | ->]; reflexivity).
    apply (trim_between q _ q Hs); [|exact Hs].
    change (last_char ((String q EmptyString) ++ s ++ String q EmptyString)
            = Some q).
    rewrite last_char_append by (destruct s; discriminate).
    apply last_char_snoc.
  - destruct d as [|c rest]; [discriminate|]. intros H.
    apply andb_true_iff in H as [H _]. apply exact_digits_parts in H.
    apply trim_without_space. revert H. apply forallb_impl.
    intros x Hx. rewrite (digit_not_space _ Hx). reflexivity.
  - intros H. apply andb_true_iff in H as [H _].
    apply trim_of_path, plain_path_parts, H.
Qed.

Lemma endsWith_snoc (s : string) (c : ascii) :
  endsWith (s ++ String c EmptyString) (String c EmptyString) = true.
Proof.
  unfold endsWith. rewrite length_append. cbn [String.length].
  replace (String.length s + 1 - 1) with (String.length s) by lia.
  rewrite slice_append, String.eqb_refl.
  replace (Nat.leb 1 (String.length s + 1)) with true
    by (symmetry; apply Nat.leb_le; lia).
  reflexivity.
Qed.

Lemma span_digits (d : string) :
  forallb is_digit d = true ->
  span_len is_digit d = String.length d /\ slice (String.length d) d = EmptyString.
Proof.
  induction d as [|c d IH]; [split; reflexivity|]. cbn [forallb]. intros H.
  apply andb_true_iff in H as [Hc Hd]. destruct (IH Hd) as [H1 H2].
  cbn [span_len String.length slice]. rewrite Hc, H1. auto.
Qed.

Lemma digits_not_NaN (c : ascii) (rest : string) :
  forallb is_digit (String c rest) = true -> isNaN (String c rest) = false.
Proof.
  intros H. unfold isNaN, is_numeric_string.
  assert (Ht : trim (String c rest) = String c rest).
  { apply trim_without_space. revert H. apply forallb_impl.
    intros x Hx. rewrite (digit_not_space _ Hx). reflexivity. }
  rewrite Ht. cbn [is_empty orb].
  pose proof H as Hall. cbn [forallb] in H. apply andb_true_iff in H as [Hc _].
  assert (Hsign : is_sign c = false).
  { unfold is_sign. destruct (Ascii.eqb c "+") eqn:E1.
    - apply Ascii.eqb_eq in E1. subst c. discriminate Hc.
    - destruct (Ascii.eqb c "-") eqn:E2; [|reflexivity].
      apply Ascii.eqb_eq in E2. subst c. discriminate Hc. }
  cbn [drop_sign]. rewrite Hsign. cbn [is_empty negb andb].
  rewrite andb_true_r.
  unfold unsigned_decimal.
  assert (Hinf : String.eqb (String c rest) "Infinity" = false).
  { cbn [String.eqb]. destruct (Ascii.eqb c "I") eqn:E; [|reflexivity].
    apply Ascii.eqb_eq in E. subst c. discriminate Hc. }
  rewrite Hinf. unfold drop_while.
  destruct (span_digits _ Hall) as [-> ->].
  cbn [String.length Nat.eqb]. reflexivity.
Qed.

Lemma path_is_NaN (p : string) :
  is_identifier_path p = true ->
  String.eqb p "Infinity" = false ->
  isNaN p = true.
Proof.
  intros Hp Hinf. unfold isNaN, is_numeric_string.
  rewrite (trim_of_path _ Hp).
  destruct p as [|c rest]; [discriminate Hp|].
  pose proof (identifier_path_start _ _ Hp) as Hc.
  destruct (ident_start_not_quote_digit _ Hc) as [_ Hd].
  assert (Hsign : is_sign c = false).
  { unfold is_sign. destruct (Ascii.eqb c "+") eqn:E1.
    - apply Ascii.eqb_eq in E1. subst c. discriminate Hc.
    - destruct (Ascii.eqb c "-") eqn:E2; [|reflexivity].
      apply Ascii.eqb_eq in E2. subst c. discriminate Hc. }
  cbn [is_empty orb drop_sign]. rewrite Hsign. cbn [is_empty negb].
  rewrite andb_true_r.
  assert (Hu : unsigned_decimal (String c rest) = false).
  { unfold unsigned_decimal. rewrite Hinf. unfold drop_while.
    cbn [span_len]. rewrite Hd. cbn [Nat.eqb slice].
    destruct (Ascii.eqb c ".") eqn:E; [|reflexivity].
    apply Ascii.eqb_eq in E. subst c. discriminate Hc. }
  assert (Hn : non_decimal (String c rest) = false).
  { unfold non_decimal. destruct rest as [|x digits]; [reflexivity|].
    destruct (Ascii.eqb c "0") eqn:E; [|reflexivity].
    apply Ascii.eqb_eq in E. subst c. discriminate Hc. }
  rewrite Hu, Hn. reflexivity.
Qed.

Lemma startsWith_same_char (c : ascii) (s : string) :
  startsWith (String c s) (String c EmptyString) = true.
Proof.
  unfold startsWith. rewrite prefix_same_char. destruct s; reflexivity.
Qed.

Lemma generateAccessCode_plain (p : string) (lc : option loopContext) :
  plain_path p = true -> _generateAccessCode p lc = Ok (CGet p).
Proof.
  intros H. destruct (plain_path_parts _ H) as [Hp [Hc [Ht Hs]]].
  unfold _generateAccessCode. rewrite Ht, Hs, Hc, Hp. reflexivity.
Qed.

(** The operand rules: each operand compiles to its code. *)
Lemma operand_compiles (o : operand) (lc : option loopContext) :
  is_operand o = true ->
  _generateComparisonOperand (operand_text o) lc = Ok (operand_code o).
Proof.
  intros Hok. unfold _generateComparisonOperand.
  rewrite (operand_trimmed _ Hok).
  destruct o as [q s|d|p]; cbn [is_operand operand_text operand_code] in *.
  - apply andb_true_iff in Hok as [Hq _].
    pose proof (endsWith_snoc (String q s) q) as Hend.
    cbn [append] in Hend.
    destruct (is_quote_cases _ Hq) as [-> | ->];
      rewrite Hend, startsWith_same_char.
    + reflexivity.
    + rewrite andb_true_r, orb_true_r. reflexivity.
  - destruct d as [|c rest]; [discriminate|].
    apply andb_true_iff in Hok as [Hd _]. apply exact_digits_parts in Hd.
    pose proof Hd as Hall. cbn [forallb] in Hd.
    apply andb_true_iff in Hd as [Hc _].
    assert (Hq1 : startsWith (String c rest) "'" = false).
    { apply prefix_other_char. destruct (Ascii.eqb c "'") eqn:E; [|reflexivity].
      apply Ascii.eqb_eq in E. subst c. discriminate Hc. }
    assert (Hq2 : startsWith (String c rest) (String "034" EmptyString) = false).
    { apply prefix_other_char. destruct (Ascii.eqb c "034") eqn:E; [|reflexivity].
      apply Ascii.eqb_eq in E. subst c. discriminate Hc. }
    rewrite Hq1, Hq2. cbn [andb orb].
    rewrite (digits_not_NaN _ _ Hall).
    assert (Ht : trim (String c rest) = String c rest).
    { apply trim_without_space. revert Hall. apply forallb_impl.
      intros x Hx. rewrite (digit_not_space _ Hx). reflexivity. }
    rewrite Ht. reflexivity.
  - apply andb_true_iff in Hok as [Hplain Hinf].
    apply negb_true_iff in Hinf.
    destruct (plain_path_parts _ Hplain) as [Hp [Hc _]].
    destruct p as [|c rest]; [discriminate Hp|].
    pose proof (identifier_path_start _ _ Hp) as Hs.
    destruct (ident_start_not_quote_digit _ Hs) as [Hq _].
    apply orb_false_iff in Hq as [Hq1 Hq2].
    assert (H1 : startsWith (String c rest) "'" = false)
      by (apply prefix_other_char; exact Hq1).
    assert (H2 : startsWith (String c rest) (String "034" EmptyString) = false)
      by (apply prefix_other_char; exact Hq2).
    rewrite H1, H2. cbn [andb orb]. rewrite (path_is_NaN _ Hp Hinf). cbn [negb andb].
    rewrite Hc. apply generateAccessCode_plain, Hplain.
Qed.

Lemma parse_atom_literal (q : ascii) (s : string) :
  is_quote q = true ->
  forallb (is_string_char q) s = true ->
  parse_atom (String q (s ++ String q EmptyString))
  = Some (Atom (BString s) []).
Proof.
  intros Hq Hs. unfold parse_atom. fold (is_quote q). rewrite Hq.
  assert (Hend : is_string_char q q = false)
    by (unfold is_string_char; rewrite Ascii.eqb_refl; reflexivity).
  rewrite (span_len_all _ _ _ EmptyString Hs Hend).
  rewrite slice_append, take_append, Ascii.eqb_refl. reflexivity.
Qed.

(** The operand rules: the code of an operand has the value the operand
    stands for. *)
Lemma operand_evaluates (o : operand) (e : env) (ctx : value) :
  is_operand o = true ->
  lookup "ctx" e = Some ctx ->
  eval_code e (operand_code o) = operand_value ctx o.
Proof.
  intros Hok Hctx.
  destruct o as [q s|d|p]; cbn [is_operand operand_text operand_code
                                  operand_value eval_code] in *.
  - apply andb_true_iff in Hok as [Hq Hs].
    rewrite (parse_atom_literal _ _ Hq (proj1 (literal_chars _ _ Hs))).
    reflexivity.
  - destruct d as [|c rest]; [discriminate|].
    pose proof Hok as Hok'. apply andb_true_iff in Hok' as [Hd Hz].
    pose proof (exact_digits_parts _ Hd) as Hall. cbn [forallb] in Hall.
    apply andb_true_iff in Hall as [Hc _].
    unfold parse_atom.
    replace (Ascii.eqb c "'" || Ascii.eqb c "034") with false.
    2:{ symmetry. apply orb_false_iff. split.
        - destruct (Ascii.eqb c "'") eqn:E; [|reflexivity].
          apply Ascii.eqb_eq in E. subst c. discriminate Hc.
        - destruct (Ascii.eqb c "034") eqn:E; [|reflexivity].
          apply Ascii.eqb_eq in E. subst c. discriminate Hc. }
    rewrite Hc, Hok. reflexivity.
  - rewrite (read_bound _ _ _ Hctx). reflexivity.
Qed.

Lemma operand_first_char (o : operand) :
  is_operand o = true ->
  exists c rest, operand_text o = String c rest /\ is_space c = false.
Proof.
  destruct o as [q s|d|p]; cbn [is_operand operand_text]; intros Hok.
  - apply andb_true_iff in Hok as [Hq _]. exists q, (s ++ String q EmptyString)%string.
    split; [reflexivity|].
    destruct (is_quote_cases _ Hq) as [-> | ->]; reflexivity.
  - destruct d as [|c rest]; [discriminate|]. exists c, rest.
    split; [reflexivity|].
    apply andb_true_iff in Hok as [Hd _]. apply exact_digits_parts in Hd.
    cbn [forallb] in Hd. apply andb_true_iff in Hd as [Hc _].
    apply digit_not_space, Hc.
  - apply andb_true_iff in Hok as [Hplain _].
    apply plain_path_parts in Hplain as [Hp _].
    destruct p as [|c rest]; [discriminate Hp|]. exists c, rest.
    split; [reflexivity|].
    apply path_char_not_space. unfold path_char, is_ident_part.
    rewrite (identifier_path_start _ _ Hp). reflexivity.
Qed.

Lemma operand_shape (o : operand) :
  is_operand o = true ->
  is_left_operand (operand_text o) = true
  /\ (no_space (operand_text o) = true ->
      is_right_operand (operand_text o) = true).
Proof.
  intros Hok.
  assert (Hparen : forallb not_close_paren (operand_text o) = true).
  { destruct o as [q s|d|p]; cbn [is_operand operand_text] in *.
    - apply andb_true_iff in Hok as [Hq Hs].
      apply literal_chars in Hs as [_ Hs].
      cbn [forallb]. rewrite forallb_append, Hs. cbn [forallb].
      destruct (is_quote_cases _ Hq) as [-> | ->]; reflexivity.
    - destruct d as [|c rest]; [discriminate|].
      apply andb_true_iff in Hok as [Hd _]. apply exact_digits_parts in Hd.
      revert Hd. apply forallb_impl. intros x Hx.
      unfold not_close_paren. destruct (Ascii.eqb x ")") eqn:E; [|reflexivity].
      apply Ascii.eqb_eq in E. subst x. discriminate Hx.
    - apply andb_true_iff in Hok as [Hplain _].
      apply (path_without ")" p eq_refl), plain_path_parts, Hplain. }
  destruct (operand_first_char _ Hok) as [c [rest [E Hc]]]. split.
  - unfold is_left_operand. rewrite E in *. rewrite Hc, Hparen. reflexivity.
  - intros Hns. unfold is_right_operand. rewrite E in *.
    cbn [is_empty negb andb].
    unfold no_space in Hns.
    clear - Hns Hparen. revert Hns Hparen.
    generalize (String c rest). intros s.
    induction s as [|x s IH]; [reflexivity|]. cbn [forallb].
    intros H1 H2. apply andb_true_iff in H1 as [-> H1].
    apply andb_true_iff in H2 as [-> H2]. cbn [andb]. apply IH; assumption.
Qed.

Lemma operand_in_fragment (o : operand) :
  is_operand o = true -> code_in_fragment (operand_code o) = true.
Proof.
  intros Hok. pose proof (operand_evaluates o [("ctx", VUndefined)] VUndefined
                            Hok eq_refl) as H.
  destruct o as [q s|d|p]; cbn [operand_code code_in_fragment]; try reflexivity;
    cbn [operand_code eval_code operand_value] in H;
    destruct (parse_atom _); [reflexivity | discriminate H | reflexivity
                             | discriminate H].
Qed.

(** The condition [(operator left right)] of the operand rules compiles to
    the host operator on the codes of the operands. *)
Lemma comparison_compiles (op : binop) (l r : operand)
    (lc : option loopContext) :
  is_operand l = true ->
  is_operand r = true ->
  no_space (operand_text r) = true ->
  _generateConditionCode
    (comparison (operator_name op) (operand_text l) (operand_text r)) lc
  = Ok (CBin op (operand_code l) (operand_code r)).
Proof.
  intros Hl Hr Hns.
  rewrite (generateConditionCode_split _ _ _ lc (operator_name_word op)
             (proj1 (operand_shape l Hl))
             (proj2 (operand_shape r Hr) Hns)).
  rewrite (operand_trimmed _ Hl), (operand_trimmed _ Hr).
  rewrite (operand_compiles _ lc Hl). cbn [bind].
  rewrite (operand_compiles _ lc Hr). cbn [bind].
  destruct op; reflexivity.
Qed.

Lemma comparison_evaluates (op : binop) (l r : operand) (e : env)
    (ctx : value) :
  is_operand l = true ->
  is_operand r = true ->
  lookup "ctx" e = Some ctx ->
  eval_code e (CBin op (operand_code l) (operand_code r))
  = host_operator op (operand_value ctx l) (operand_value ctx r).
Proof.
  intros Hl Hr Hctx.
  destruct op; cbn [eval_code host_operator];
    rewrite (operand_evaluates l e ctx Hl Hctx),
            (operand_evaluates r e ctx Hr Hctx); reflexivity.
Qed.

Lemma exec_if_alone (fuel : nat) (c : code) (body : list stmt) (st : state) :
  exec (S (S fuel)) [SIf c body] st
  = (v <- eval_code (vars st) c ;;
     if truthy v then exec (S fuel) body st else Ok st).
Proof.
  cbn [exec]. destruct (eval_code (vars st) c) as [v| | |]; cbn [bind];
    try reflexivity.
  destruct (truthy v); [|reflexivity]. apply bind_ok.
Qed.

(** The tokens of an if block whose condition is trimmed text without
    closing brace. *)
Lemma if_block_tokens (condition text : string) (c d : ascii) (rest : string) :
  condition = String c rest ->
  is_space c = false ->
  Ascii.eqb c "{" = false ->
  last_char condition = Some d ->
  is_space d = false ->
  no_close_brace condition = true ->
  no_open_brace text = true ->
  tokenize ("{{#if " ++ condition ++ "}}" ++ text ++ "{{/if}}")
  = Ok (IF_START condition :: text_tokens text ++ [IF_END]).
Proof.
  intros E Hc Hbrace Hd Hds Hclose Ht.
  assert (Hlast : tokenize (text ++ marker false "/if" ++ "")
                  = Ok ((text_tokens text ++ [IF_END]) ++ [])).
  { apply tokenize_marker; reflexivity || assumption. }
  assert (Hne : condition <> EmptyString) by (rewrite E; discriminate).
  assert (Hinner : trim ("#if " ++ condition) = ("#if " ++ condition)%string).
  { apply (trim_between "#" _ d); [reflexivity | | exact Hds].
    change (last_char ("#if " ++ condition) = Some d).
    rewrite last_char_append; assumption. }
  assert (Htrim : trim condition = condition).
  { rewrite E. apply (trim_between c rest d Hc); [|exact Hds].
    rewrite <- E. exact Hd. }
  assert (Hfirst : tokenize ("" ++ marker false ("#if " ++ condition)
                             ++ text ++ marker false "/if" ++ "")
                   = Ok ([IF_START condition]
                         ++ (text_tokens text ++ [IF_END]) ++ [])).
  { apply tokenize_marker; try reflexivity; try assumption.
    - unfold marker_text. cbn [append no_close_brace forallb andb negb orb].
      cbn. rewrite andb_true_r. exact Hclose.
    - rewrite Hinner. unfold _processExpression.
      assert (H1 : startsWith ("#if " ++ condition) "#if " = true)
        by apply prefix_append.
      rewrite H1.
      change (slice 4 ("#if " ++ condition)) with condition.
      rewrite Htrim. rewrite E. reflexivity. }
  assert (Hs : ("{{#if " ++ condition ++ "}}" ++ text ++ "{{/if}}")%string
               = ("" ++ marker false ("#if " ++ condition)
                  ++ text ++ marker false "/if" ++ "")%string).
  { unfold marker. cbn [append]. rewrite !append_assoc. reflexivity. }
  rewrite Hs, Hfirst. f_equal. cbn [app]. rewrite app_nil_r. reflexivity.
Qed.

Lemma operator_name_no_brace (op : binop) :
  no_close_brace (operator_name op) = true.
Proof. destruct op; reflexivity. Qed.

Lemma comparison_block_tokens (op : binop) (l r : operand) (text : string) :
  no_close_brace (operand_text l) = true ->
  no_close_brace (operand_text r) = true ->
  no_open_brace text = true ->
  tokenize (comparison_block op l r text)
  = Ok (IF_START (comparison (operator_name op) (operand_text l)
                    (operand_text r))
        :: text_tokens text ++ [IF_END]).
Proof.
  intros Hl Hr Ht. unfold comparison_block.
  apply (if_block_tokens _ _ "(" ")"
           (operator_name op ++ " " ++ operand_text l ++ " "
            ++ operand_text r ++ ")")); try reflexivity; try assumption.
  - unfold comparison. rewrite <- !append_assoc.
    rewrite last_char_append; [reflexivity | discriminate].
  - assert (H : forall a b,
               no_close_brace (a ++ b) = no_close_brace a && no_close_brace b)
      by (intros; apply forallb_append).
    unfold comparison. rewrite !H, Hl, Hr, operator_name_no_brace.
    reflexivity.
Qed.

(** An if block on a comparison of literals and paths, run end to end. *)
Lemma run_comparison_block (ids : nat -> string) (fuel : nat) (op : binop)
    (l r : operand) (text : string) (ctx : value) :
  is_operand l = true ->
  is_operand r = true ->
  no_space (operand_text r) = true ->
  no_close_brace (operand_text l) = true ->
  no_close_brace (operand_text r) = true ->
  no_open_brace text = true ->
  Jframe.run ids (3 + fuel) (comparison_block op l r text) ctx
  = (v <- host_operator op (operand_value ctx l) (operand_value ctx r) ;;
     Ok (if truthy v then text else EmptyString)).
Proof.
  intros Hl Hr Hns Hbl Hbr Ht. unfold Jframe.run.
  set (condition := comparison (operator_name op) (operand_text l)
                      (operand_text r)).
  rewrite (compile_front ids _
             (Root [If condition (if is_empty text then [] else [Text text])])).
  2:{ rewrite (comparison_block_tokens _ _ _ _ Hbl Hbr Ht). cbn [bind].
      rewrite <- parse_tokens_of.
      - f_equal. cbn [List.flat_map tokens_of]. rewrite app_nil_r.
        destruct text; reflexivity.
      - cbn [List.forallb no_root]. destruct text; reflexivity. }
  unfold Compiler.compile, _generateJSCode.
  cbn [forEach_child _generateNodeCode]. unfold _generateIfCode.
  unfold condition. rewrite (comparison_compiles op l r None Hl Hr Hns).
  cbn [bind]. rewrite generate_text. cbn [bind app].
  replace (in_fragment
             [SIf (CBin op (operand_code l) (operand_code r))
                (if is_empty text then [] else [SPushText text])])
    with true.
  2:{ unfold in_fragment. cbn [List.forallb stmt_in_fragment code_in_fragment].
      rewrite (operand_in_fragment _ Hl), (operand_in_fragment _ Hr).
      destruct text; reflexivity. }
  cbn [bind]. unfold invoke. cbn [Nat.add].
  rewrite exec_if_alone.
  rewrite (comparison_evaluates op l r _ ctx Hl Hr (lookup_ctx_initial _ _)).
  destruct (host_operator op _ _) as [v| | |]; cbn [bind]; try reflexivity.
  destruct (truthy v); [|reflexivity].
  destruct text; reflexivity.
Qed.

Lemma space_is_no_word (c : ascii) : is_space c = true -> is_word c = false.
Proof.
  unfold is_space, is_word, is_alpha, is_digit.
  destruct c as [[] [] [] [] [] [] [] []]; cbn; intros H;
    try reflexivity; discriminate H.
Qed.

Lemma comparisonMatch_spaced (operator ws left' : string) (s : ascii)
    (right' : string) :
  is_operator_word operator = true ->
  is_white ws = true ->
  is_left_operand left' = true ->
  is_space s = true ->
  is_right_operand right' = true ->
  comparisonMatch (spaced_comparison operator ws left' s right')
  = Some (operator, left', right').
Proof.
  unfold is_operator_word, is_white, is_left_operand, is_right_operand,
    spaced_comparison.
  intros Hop Hws Hl Hs Hr.
  apply andb_true_iff in Hop as [Hop1 Hop].
  apply andb_true_iff in Hws as [Hws1 Hws].
  destruct left' as [|l0 left1]; [discriminate Hl|].
  apply andb_true_iff in Hl as [Hl0 Hl]. apply negb_true_iff in Hl0.
  apply andb_true_iff in Hr as [Hr1 Hr].
  assert (Hrs : forallb (fun c => negb (is_space c)) right' = true).
  { revert Hr. apply forallb_impl. intros c Hc.
    apply andb_true_iff in Hc as [Hc _]. exact Hc. }
  assert (Hrp : forallb not_close_paren right' = true).
  { revert Hr. apply forallb_impl. intros c Hc.
    apply andb_true_iff in Hc as [_ Hc]. exact Hc. }
  set (left' := String l0 left1) in *.
  set (tail := (right' ++ ")")%string).
  assert (Htail : forallb (fun c => negb (is_space c)) tail = true).
  { subst tail. rewrite forallb_append, Hrs. reflexivity. }
  cbn [append comparisonMatch Ascii.eqb Bool.eqb negb].
  set (r2 := (left' ++ String s tail)%string).
  set (r1 := (ws ++ r2)%string).
  assert (Hw : span_len is_word (operator ++ r1) = String.length operator).
  { subst r1. destruct ws as [|w0 ws']; [discriminate Hws1|].
    cbn [append]. apply span_len_all; [exact Hop|].
    cbn [forallb] in Hws. apply andb_true_iff in Hws as [Hw0 _].
    apply space_is_no_word, Hw0. }
  rewrite Hw.
  destruct (Nat.eqb (String.length operator) 0) eqn:E.
  { apply Nat.eqb_eq in E. destruct operator; discriminate. }
  rewrite slice_append, take_append.
  assert (Hsp1 : span_len is_space r1 = String.length ws).
  { subst r1 r2 left'. cbn [append]. apply span_len_all; assumption. }
  rewrite Hsp1.
  assert (Hlen : 0 < String.length ws)
    by (destruct ws; [discriminate Hws1 | cbn [String.length]; lia]).
  rewrite (longest_first_found _ (String.length ws) _
             (operator, left', right') Hlen (le_n _)).
  - reflexivity.
  - subst r1. rewrite slice_append.
    assert (Hsp2 : span_len not_close_paren r2
                   = String.length left' + (1 + String.length right')).
    { subst r2 tail.
      replace (left' ++ String s (right' ++ ")"))%string
        with ((left' ++ String s right') ++ ")")%string
        by (rewrite !append_assoc; reflexivity).
      rewrite (span_len_all not_close_paren _ ")" EmptyString);
        [rewrite !length_append; reflexivity | | reflexivity].
      rewrite forallb_append, Hl. cbn [forallb]. rewrite Hrp.
      destruct (not_close_paren s) eqn:Hp; [reflexivity|].
      unfold not_close_paren in Hp. apply negb_false_iff, Ascii.eqb_eq in Hp.
      subst s. discriminate Hs. }
    rewrite Hsp2.
    rewrite (longest_first_found _ (String.length left') _
               (operator, left', right')).
    + reflexivity.
    + subst left'. cbn [String.length]. lia.
    + lia.
    + assert (Hs2 : slice (String.length left') r2 = String s tail)
        by (subst r2; apply slice_append).
      assert (Ht2 : take (String.length left') r2 = left')
        by (subst r2; apply take_append).
      rewrite Hs2, Ht2.
      assert (Hsp3 : span_len is_space (String s tail) = 1).
      { cbn [span_len]. rewrite Hs.
        rewrite (span_len_none is_space tail Htail). reflexivity. }
      rewrite Hsp3. cbn [longest_first slice]. subst tail.
      rewrite (span_len_all not_close_paren right' ")" EmptyString Hrp eq_refl).
      rewrite slice_append, take_append.
      destruct right'; [discriminate Hr1 | reflexivity].
    + intros k H1 H2.
      assert (Hs2 : slice k r2 = slice (k - String.length left' - 1) tail).
      { subst r2.
        replace k with (String.length left' + S (k - String.length left' - 1))
          at 1 by lia.
        rewrite slice_append_more. reflexivity. }
      rewrite Hs2.
      rewrite (span_len_none is_space _ (forallb_slice _ _ Htail _)).
      reflexivity.
  - intros k H1 H2. lia.
Qed.

Lemma trim_spaced_comparison (operator ws left' : string) (s : ascii)
    (right' : string) :
  trim (spaced_comparison operator ws left' s right')
  = spaced_comparison operator ws left' s right'.
Proof.
  unfold spaced_comparison. cbn [append].
  apply (trim_between "(" _ ")"); [reflexivity | | reflexivity].
  change (last_char ("(" ++ operator ++ ws ++ left' ++ String s (right' ++ ")"))
          = Some ")"%char).
  replace (String s (right' ++ ")")) with ((String s right') ++ ")")%string
    by reflexivity.
  rewrite <- !append_assoc.
  rewrite last_char_append; [reflexivity | discriminate].
Qed.

(** A comparison compiles its operands, the left one first, and gives the
    operator of the host on their code. *)
Lemma condition_of_spaced_operands (op : binop) (ws left' : string)
    (s : ascii) (right' : string) (lc : option loopContext) :
  is_white ws = true ->
  is_left_operand left' = true ->
  is_space s = true ->
  is_right_operand right' = true ->
  _generateConditionCode
    (spaced_comparison (operator_name op) ws left' s right') lc
  = (leftCode <- _generateComparisonOperand (trim left') lc ;;
     rightCode <- _generateComparisonOperand (trim right') lc ;;
     Ok (CBin op leftCode rightCode)).
Proof.
  intros Hws Hl Hs Hr. unfold _generateConditionCode.
  rewrite trim_spaced_comparison,
    (comparisonMatch_spaced _ _ _ _ _ (operator_name_word op) Hws Hl Hs Hr).
  destruct (_generateComparisonOperand (trim left') lc); cbn [bind];
    try reflexivity.
  destruct (_generateComparisonOperand (trim right') lc); cbn [bind];
    try reflexivity.
  destruct op; reflexivity.
Qed.

Lemma eval_host_operator (op : binop) (l r : code) (e : env) :
  eval_code e (CBin op l r) = host_operator op (eval_code e l) (eval_code e r).
Proof. destruct op; reflexivity. Qed.




(** ** Texts that differ in one name *)

Lemma compileComplexExpression_rewritten (e : string)
    (lc : option loopContext) :
  _compileComplexExpression e lc
  = (if includes (rewritten e lc) "=>" then Unmodelled
     else if is_atom (rewritten e lc) then Ok (rewritten e lc)
     else Unmodelled).
Proof.
  unfold _compileComplexExpression, is_atom. fold (rewritten e lc).
  destruct (includes (rewritten e lc) "=>"); [reflexivity|].
  destruct (parse_atom (rewritten e lc)); reflexivity.
Qed.

Lemma is_identifier_snoc (cur : string) (c : ascii) :
  is_identifier (cur ++ String c EmptyString)
  = match cur with
    | EmptyString => is_ident_start c
    | _ => is_identifier cur && is_ident_part c
    end.
Proof.
  destruct cur as [|d cur]; cbn [append is_identifier forallb].
  - apply andb_true_r.
  - rewrite forallb_append. cbn [forallb]. rewrite andb_true_r.
    apply andb_assoc.
Qed.

Lemma split_dot_acc_machine (s : string) :
  forall cur,
    List.forallb is_identifier (split_dot_acc cur s)
    = match cur with
      | EmptyString => path_machine true s
      | _ => is_identifier cur && path_machine false s
      end.
Proof.
  induction s as [|c s IH]; intros cur; cbn [split_dot_acc path_machine].
  - cbn [List.forallb]. destruct cur; [reflexivity|]. reflexivity.
  - destruct (Ascii.eqb c ".") eqn:E.
    + cbn [List.forallb]. rewrite (IH EmptyString).
      apply Ascii.eqb_eq in E. subst c.
      destruct cur; reflexivity.
    + rewrite IH, is_identifier_snoc.
      destruct cur as [|d cur]; cbn [append].
      * reflexivity.
      * rewrite andb_assoc. reflexivity.
Qed.

Lemma identifier_path_machine (s : string) :
  is_identifier_path s = path_machine true s.
Proof. unfold is_identifier_path, split_dot. apply split_dot_acc_machine. Qed.

Lemma path_machine_part (a s : string) :
  forallb is_ident_part a = true ->
  path_machine false (a ++ s) = path_machine false s.
Proof.
  induction a as [|c a IH]; [reflexivity|]. cbn [forallb append path_machine].
  intros H. apply andb_true_iff in H as [Hc Ha].
  destruct (Ascii.eqb c ".") eqn:E.
  - apply Ascii.eqb_eq in E. subst c. discriminate Hc.
  - rewrite Hc, (IH Ha). reflexivity.
Qed.

Lemma path_machine_name (name s : string) (start : bool) :
  is_identifier name = true ->
  path_machine start (name ++ s) = path_machine false s.
Proof.
  destruct name as [|c name]; [discriminate|]. cbn [is_identifier append].
  intros H. apply andb_true_iff in H as [Hc Hn].
  cbn [path_machine].
  assert (Hd : Ascii.eqb c "." = false).
  { destruct (Ascii.eqb c ".") eqn:E; [|reflexivity].
    apply Ascii.eqb_eq in E. subst c. discriminate Hc. }
  assert (Hp : is_ident_part c = true) by (unfold is_ident_part; rewrite Hc; reflexivity).
  destruct start; rewrite ?Hd, ?Hc, ?Hp; apply (path_machine_part _ _ Hn).
Qed.

Section Alike.

Variables id1 id2 : string.
Hypothesis valid1 : forallb is_ident_part id1 = true.
Hypothesis valid2 : forallb is_ident_part id2 = true.

#[local] Abbreviation r1 := ("index_" ++ id1)%string.
#[local] Abbreviation r2 := ("index_" ++ id2)%string.
#[local] Abbreviation alike := (alike r1 r2).

Lemma index_name_identifier (id : string) :
  forallb is_ident_part id = true -> is_identifier ("index_" ++ id) = true.
Proof. intros H. unfold is_identifier. simpl. exact H. Qed.

Lemma alike_refl (s : string) : alike s s.
Proof. induction s; constructor; assumption. Qed.

Lemma replaceAll_alike (s : string) :
  forall skip,
    alike (replaceAll_from skip "@index" r1 s)
          (replaceAll_from skip "@index" r2 s).
Proof.
  induction s as [|c s IH]; intros skip; cbn [replaceAll_from].
  - constructor.
  - destruct skip as [|k]; [|apply IH].
    destruct (startsWith (String c s) "@index").
    + apply alike_name, IH.
    + apply alike_char, IH.
Qed.

Lemma alike_machine (s1 s2 : string) :
  alike s1 s2 -> forall start, path_machine start s1 = path_machine start s2.
Proof.
  induction 1 as [|c s1 s2 _ IH|s1 s2 _ IH]; intros start.
  - reflexivity.
  - cbn [path_machine]. rewrite !IH. reflexivity.
  - rewrite !path_machine_name by (apply index_name_identifier; assumption).
    apply IH.
Qed.

Lemma alike_identifier_path (s1 s2 : string) :
  alike s1 s2 -> is_identifier_path s1 = is_identifier_path s2.
Proof. intros H. rewrite !identifier_path_machine. apply alike_machine, H. Qed.

Lemma alike_empty (s1 s2 : string) :
  alike s1 s2 -> is_empty s1 = is_empty s2.
Proof. intros []; reflexivity. Qed.

Lemma alike_short (s1 s2 : string) :
  alike s1 s2 ->
  String.length s1 < 6 \/ String.length s2 < 6 -> s1 = s2.
Proof.
  induction 1 as [|c s1 s2 _ IH|s1 s2 _ IH]; intros Hlen.
  - reflexivity.
  - f_equal. apply IH. cbn [String.length] in Hlen. lia.
  - exfalso. cbn [append String.length] in Hlen. lia.
Qed.

Lemma alike_eqb (s1 s2 w : string) :
  alike s1 s2 -> String.length w < 6 -> String.eqb s1 w = String.eqb s2 w.
Proof.
  intros H Hw.
  destruct (String.eqb s1 w) eqn:E1.
  - apply String.eqb_eq in E1. subst w.
    rewrite <- (alike_short _ _ H (or_introl Hw)). symmetry.
    apply String.eqb_refl.
  - destruct (String.eqb s2 w) eqn:E2; [|reflexivity].
    apply String.eqb_eq in E2. subst w.
    rewrite (alike_short _ _ H (or_intror Hw)), String.eqb_refl in E1.
    discriminate E1.
Qed.

Lemma prefix_empty (s : string) : String.prefix EmptyString s = true.
Proof. destruct s; reflexivity. Qed.

Lemma conflicts_prefix (w r : string) :
  conflicts w r = true -> forall t, String.prefix w (r ++ t) = false.
Proof.
  revert r. induction w as [|c w IH]; intros [|d r] H t; try discriminate H.
  cbn [conflicts] in H. cbn [append].
  destruct (Ascii.eqb c d) eqn:E.
  - apply Ascii.eqb_eq in E. subst d. rewrite prefix_same_char.
    apply IH, H.
  - apply prefix_other_char. rewrite Ascii.eqb_sym. exact E.
Qed.


Lemma alike_prefix (w : string) :
  clear_of_names w = true ->
  forall s1 s2,
    alike s1 s2 ->
    String.prefix w s1 = String.prefix w s2
    /\ (String.prefix w s1 = true ->
        alike (slice (String.length w) s1) (slice (String.length w) s2)).
Proof.
  induction w as [|c w IH]; intros Hw s1 s2 H.
  - rewrite !prefix_empty. split; [reflexivity|]. intros _. exact H.
  - cbn [clear_of_names] in Hw. apply andb_true_iff in Hw as [Hc Hw].
    destruct H as [|x s1 s2 H|s1 s2 H].
    + split; [reflexivity|]. discriminate.
    + destruct (Ascii.eqb x c) eqn:E.
      * apply Ascii.eqb_eq in E. subst x. rewrite !prefix_same_char.
        cbn [String.length slice]. apply IH; assumption.
      * rewrite !(prefix_other_char c x w _ E). split; [reflexivity|].
        discriminate.
    + rewrite !append_assoc.
      rewrite !(conflicts_prefix _ _ Hc). split; [reflexivity|]. discriminate.
Qed.

Lemma span_len_app_all (p : ascii -> bool) (a s : string) :
  forallb p a = true ->
  span_len p (a ++ s) = String.length a + span_len p s.
Proof.
  induction a as [|c a IH]; [reflexivity|]. cbn [forallb]. intros H.
  apply andb_true_iff in H as [Hc Ha].
  cbn [append span_len String.length]. rewrite Hc, (IH Ha). reflexivity.
Qed.

Lemma alike_span (p : ascii -> bool) (s1 s2 : string) :
  (forall c, is_ident_part c = true -> p c = true) ->
  alike s1 s2 ->
  alike (slice (span_len p s1) s1) (slice (span_len p s2) s2).
Proof.
  intros Hp. induction 1 as [|c s1 s2 H IH|s1 s2 H IH].
  - constructor.
  - cbn [span_len]. destruct (p c); cbn [slice]; [exact IH|].
    constructor. exact H.
  - assert (H1 : forallb p r1 = true).
    { apply (forallb_impl is_ident_part); [exact Hp|].
      apply identifier_chars, index_name_identifier, valid1. }
    assert (H2 : forallb p r2 = true).
    { apply (forallb_impl is_ident_part); [exact Hp|].
      apply identifier_chars, index_name_identifier, valid2. }
    rewrite (span_len_app_all p _ _ H1), (span_len_app_all p _ _ H2).
    rewrite !slice_append_more. exact IH.
Qed.

Lemma alike_digits (s1 s2 : string) :
  alike s1 s2 ->
  forallb is_digit s1 = forallb is_digit s2
  /\ (forallb is_digit s1 = true -> s1 = s2).
Proof.
  induction 1 as [|c s1 s2 _ [IH1 IH2]|s1 s2 _ _].
  - split; reflexivity.
  - cbn [forallb]. rewrite IH1. split; [reflexivity|].
    intros H. apply andb_true_iff in H as [_ H]. f_equal.
    apply IH2. rewrite IH1. exact H.
  - split; [reflexivity|]. discriminate.
Qed.

Lemma alike_exact_digits (s1 s2 : string) :
  alike s1 s2 -> exact_digits s1 = exact_digits s2.
Proof.
  intros H. destruct (alike_digits _ _ H) as [H1 H2]. unfold exact_digits.
  destruct (forallb is_digit s1) eqn:E.
  - rewrite <- (H2 eq_refl), E. reflexivity.
  - rewrite <- H1. reflexivity.
Qed.

Lemma alike_member_tail (s1 s2 : string) :
  alike s1 s2 -> is_member_tail s1 = is_member_tail s2.
Proof.
  intros H. unfold is_member_tail.
  destruct H as [|c s1 s2 H|s1 s2 H]; [reflexivity| |reflexivity].
  cbn [parse_members]. rewrite (alike_identifier_path _ _ H).
  destruct (Ascii.eqb c "." && is_identifier_path s2); reflexivity.
Qed.

Lemma first_part_cons (c : ascii) (s : string) :
  first_part (String c s)
  = if Ascii.eqb c "." then EmptyString else String c (first_part s).
Proof.
  unfold first_part. cbn [span_len]. destruct (Ascii.eqb c "."); reflexivity.
Qed.

Lemma first_part_app (a s : string) :
  forallb (fun c => negb (Ascii.eqb c ".")) a = true ->
  first_part (a ++ s) = (a ++ first_part s)%string.
Proof.
  induction a as [|c a IH]; [reflexivity|]. cbn [forallb]. intros H.
  apply andb_true_iff in H as [Hc Ha]. apply negb_true_iff in Hc.
  cbn [append]. rewrite first_part_cons, Hc, (IH Ha). reflexivity.
Qed.

Lemma split_dot_acc_first_part (s : string) :
  forall cur,
    exists rest, split_dot_acc cur s = (cur ++ first_part s)%string :: rest.
Proof.
  induction s as [|c s IH]; intros cur; cbn [split_dot_acc].
  - exists []. rewrite append_empty. reflexivity.
  - rewrite first_part_cons. destruct (Ascii.eqb c ".").
    + eexists. rewrite append_empty. reflexivity.
    + destruct (IH (cur ++ String c EmptyString)%string) as [rest ->].
      exists rest. rewrite append_assoc. reflexivity.
Qed.

Lemma has_underscore_app (a b : string) :
  has_underscore a = true -> has_underscore (a ++ b) = true.
Proof.
  induction a as [|c a IH]; [discriminate|]. cbn [has_underscore existsb append].
  intros H. apply orb_true_iff in H as [->|H]; [reflexivity|].
  unfold has_underscore in IH. rewrite (IH H). apply orb_true_r.
Qed.

Lemma alike_first_part (s1 s2 : string) :
  alike s1 s2 ->
  first_part s1 = first_part s2
  \/ (has_underscore (first_part s1) = true
      /\ has_underscore (first_part s2) = true).
Proof.
  induction 1 as [|c s1 s2 _ IH|s1 s2 _ _].
  - left. reflexivity.
  - rewrite !first_part_cons. destruct (Ascii.eqb c "."); [left; reflexivity|].
    destruct IH as [->|[H1 H2]]; [left; reflexivity|]. right.
    cbn [has_underscore existsb]. unfold has_underscore in H1, H2.
    rewrite H1, H2, !orb_true_r. auto.
  - right.
    rewrite !first_part_app
      by (apply identifier_no_dot, index_name_identifier; assumption).
    split; apply has_underscore_app; reflexivity.
Qed.

End Alike.

Lemma underscore_not_reserved (x : string) :
  has_underscore x = true -> mem x reserved_words = false.
Proof.
  intros H. destruct (mem x reserved_words) eqn:E; [|reflexivity].
  unfold mem in E. apply List.existsb_exists in E as [w [Hin Heq]].
  apply String.eqb_eq in Heq. subst w. exfalso.
  unfold reserved_words in Hin. cbn [In] in Hin.
  repeat (destruct Hin as [<-|Hin]; [discriminate H|]).
  exact Hin.
Qed.

Lemma ident_part_string_char (q c : ascii) :
  is_quote q = true -> is_ident_part c = true -> is_string_char q c = true.
Proof.
  intros Hq Hc. apply is_quote_cases in Hq as [-> | ->];
    destruct c as [[|] [|] [|] [|] [|] [|] [|] [|]];
    try discriminate Hc; reflexivity.
Qed.

Section AlikeAtoms.

Variables id1 id2 : string.
Hypothesis valid1 : forallb is_ident_part id1 = true.
Hypothesis valid2 : forallb is_ident_part id2 = true.

#[local] Abbreviation r1 := ("index_" ++ id1)%string.
#[local] Abbreviation r2 := ("index_" ++ id2)%string.
#[local] Abbreviation alike := (alike r1 r2).

(** The branch of [parse_atom] for dotted names. *)
Lemma alike_dotted_name (s1 s2 : string) :
  alike s1 s2 ->
  match split_dot s1 with
  | name :: _ => mem name reserved_words
  | [] => true
  end
  = match split_dot s2 with
    | name :: _ => mem name reserved_words
    | [] => true
    end.
Proof.
  intros H. unfold split_dot.
  destruct (split_dot_acc_first_part s1 EmptyString) as [rest1 ->].
  destruct (split_dot_acc_first_part s2 EmptyString) as [rest2 ->].
  cbn [append].
  destruct (alike_first_part id1 id2 valid1 valid2 _ _ H) as [->|[H1 H2]];
    [reflexivity|].
  rewrite (underscore_not_reserved _ H1), (underscore_not_reserved _ H2).
  reflexivity.
Qed.

Lemma is_atom_dotted_name (text : string) (c : ascii) (rest : string) :
  text = String c rest ->
  Ascii.eqb c "'" || Ascii.eqb c "034" = false ->
  is_digit c = false ->
  is_atom text
  = is_identifier_path text
    && negb match split_dot text with
            | name :: _ => mem name reserved_words
            | [] => true
            end.
Proof.
  intros -> Hq Hd. unfold is_atom, parse_atom. rewrite Hq, Hd.
  destruct (is_identifier_path (String c rest)); [|reflexivity].
  destruct (split_dot (String c rest)) as [|name ms]; [reflexivity|].
  destruct (mem name reserved_words); reflexivity.
Qed.

Lemma is_atom_literal (q : ascii) (rest : string) :
  is_quote q = true ->
  is_atom (String q rest)
  = match slice (span_len (is_string_char q) rest) rest with
    | String d chain => Ascii.eqb d q && is_member_tail chain
    | EmptyString => false
    end.
Proof.
  intros Hq. unfold is_atom, parse_atom. fold (is_quote q). rewrite Hq.
  destruct (slice _ rest) as [|d chain]; [reflexivity|].
  unfold is_member_tail. destruct (Ascii.eqb d q); [|reflexivity].
  destruct (parse_members chain); reflexivity.
Qed.

Lemma is_atom_digits (c : ascii) (rest : string) :
  Ascii.eqb c "'" || Ascii.eqb c "034" = false ->
  is_digit c = true ->
  is_atom (String c rest)
  = exact_digits (String c rest) && (negb (Ascii.eqb c "0") || is_empty rest).
Proof.
  intros Hq Hd. unfold is_atom, parse_atom. rewrite Hq, Hd.
  destruct (exact_digits (String c rest) && _); reflexivity.
Qed.

(** Two texts that differ in the name of an index variable only are one
    literal or one dotted name together. *)
Lemma alike_atom (s1 s2 : string) :
  alike s1 s2 -> is_atom s1 = is_atom s2.
Proof.
  intros H.
  assert (Hname : forall t1 t2 c rest1 rest2,
             alike t1 t2 ->
             t1 = String c rest1 -> t2 = String c rest2 ->
             Ascii.eqb c "'" || Ascii.eqb c "034" = false ->
             is_digit c = false ->
             is_atom t1 = is_atom t2).
  { intros t1 t2 c rest1 rest2 Ht E1 E2 Hq Hd.
    rewrite (is_atom_dotted_name t1 c rest1 E1 Hq Hd).
    rewrite (is_atom_dotted_name t2 c rest2 E2 Hq Hd).
    rewrite (alike_identifier_path id1 id2 valid1 valid2 _ _ Ht).
    rewrite (alike_dotted_name _ _ Ht). reflexivity. }
  destruct H as [|c s1 s2 H|s1 s2 H].
  - reflexivity.
  - destruct (Ascii.eqb c "'" || Ascii.eqb c "034") eqn:Hq.
    + fold (is_quote c) in Hq. rewrite !(is_atom_literal _ _ Hq).
      pose proof (alike_span id1 id2 valid1 valid2 (is_string_char c) _ _
                    (fun x => ident_part_string_char c x Hq) H) as Hs.
      destruct Hs as [|d t1 t2 Hs|t1 t2 Hs].
      * reflexivity.
      * rewrite (alike_member_tail id1 id2 valid1 valid2 _ _ Hs). reflexivity.
      * cbn [append].
        apply is_quote_cases in Hq as [-> | ->]; reflexivity.
    + destruct (is_digit c) eqn:Hd.
      * rewrite !(is_atom_digits _ _ Hq Hd).
        rewrite (alike_exact_digits id1 id2 _ _
                   (alike_char _ _ c _ _ H)).
        rewrite (alike_empty id1 id2 _ _ H). reflexivity.
      * apply (Hname _ _ c s1 s2 (alike_char _ _ c _ _ H) eq_refl eq_refl Hq Hd).
  - apply (Hname _ _ "i"%char ("ndex_" ++ id1 ++ s1)%string
             ("ndex_" ++ id2 ++ s2)%string (alike_name _ _ _ _ H)).
    + reflexivity.
    + reflexivity.
    + reflexivity.
    + reflexivity.
Qed.

End AlikeAtoms.

(** ** The rewriting of free-form text *)

Lemma prefix_slice (p s : string) :
  String.prefix p s = true -> s = (p ++ slice (String.length p) s)%string.
Proof.
  revert s. induction p as [|c p IH]; intros s H; [reflexivity|].
  destruct s as [|d s]; [discriminate H|].
  destruct (Ascii.eqb d c) eqn:E.
  - apply Ascii.eqb_eq in E. subst d. rewrite prefix_same_char in H.
    cbn [append String.length slice]. f_equal. apply IH, H.
  - rewrite (prefix_other_char c d p s E) in H. discriminate H.
Qed.

Lemma includes_prefix (c : ascii) (p s : string) :
  includes (String c p ++ s) (String c p) = true.
Proof.
  unfold includes, indexOf. cbn [append String.index].
  pose proof (prefix_append (String c p) s) as H. cbn [append] in H.
  rewrite H. reflexivity.
Qed.

Lemma replaceAll_absent (a : ascii) (p r s : string) :
  forallb (fun c => negb (Ascii.eqb c a)) s = true ->
  replaceAll_from 0 (String a p) r s = s.
Proof.
  induction s as [|c s IH]; [reflexivity|]. cbn [forallb]. intros H.
  apply andb_true_iff in H as [Hc Hs]. apply negb_true_iff in Hc.
  cbn [replaceAll_from]. unfold startsWith.
  rewrite (prefix_other_char a c p s Hc), (IH Hs). reflexivity.
Qed.

Lemma member_tail_chars (tail : string) :
  is_member_tail tail = true -> forallb path_char tail = true.
Proof.
  unfold is_member_tail. destruct tail as [|c path]; [reflexivity|].
  cbn [parse_members]. destruct (Ascii.eqb c ".") eqn:E; [|discriminate].
  destruct (is_identifier_path path) eqn:Hp; [|discriminate]. intros _.
  apply Ascii.eqb_eq in E. subst c. cbn [forallb].
  rewrite (identifier_path_chars _ Hp). reflexivity.
Qed.

Lemma path_chars_without (a : ascii) (s : string) :
  path_char a = false ->
  forallb path_char s = true ->
  forallb (fun c => negb (Ascii.eqb c a)) s = true.
Proof.
  intros Ha. apply forallb_impl. intros c Hc.
  destruct (Ascii.eqb c a) eqn:E; [|reflexivity].
  apply Ascii.eqb_eq in E. subst c. rewrite Ha in Hc. discriminate Hc.
Qed.

Lemma own_variable_cases (e : string) :
  own_variable e = true ->
  exists tail,
    is_member_tail tail = true
    /\ (e = ("@index" ++ tail)%string \/ e = ("this" ++ tail)%string).
Proof.
  unfold own_variable. intros H. apply orb_true_iff in H as [H|H];
    apply andb_true_iff in H as [Hp Ht];
    apply prefix_slice in Hp; eexists; (split; [exact Ht|]); auto.
Qed.

Section Rewriting.

Variable id : string.
Hypothesis valid : forallb is_ident_part id = true.
Variable outer : option loopContext.

#[local] Abbreviation scope :=
  (Some (LoopContext ("item_" ++ id) ("index_" ++ id) outer)).

Lemma rewritten_in_scope (e : string) :
  rewritten e scope
  = let jsExpr :=
      if includes e "@index"
      then replaceAll "@index" ("index_" ++ id) e
      else e in
    if String.eqb jsExpr "this" then ("item_" ++ id)%string
    else if startsWith jsExpr "this."
    then (("item_" ++ id) ++ "." ++ slice 5 jsExpr)%string
    else jsExpr.
Proof. reflexivity. Qed.

Lemma rewritten_index (tail : string) :
  is_member_tail tail = true ->
  rewritten ("@index" ++ tail) scope = (("index_" ++ id) ++ tail)%string.
Proof.
  intros Ht. rewrite rewritten_in_scope.
  rewrite (includes_prefix "@" "index" tail). cbv zeta.
  assert (Hr : replaceAll "@index" ("index_" ++ id) ("@index" ++ tail)
               = (("index_" ++ id) ++ tail)%string).
  { unfold replaceAll. cbn [append replaceAll_from].
    pose proof (prefix_append "@index" tail) as Hp. cbn [append] in Hp.
    unfold startsWith. rewrite Hp. cbn [String.length Nat.sub replaceAll_from].
    rewrite (replaceAll_absent "@" "index" _ tail
               (path_chars_without "@" _ eq_refl (member_tail_chars _ Ht))).
    reflexivity. }
  rewrite Hr. reflexivity.
Qed.

Lemma rewritten_this (tail : string) :
  is_member_tail tail = true ->
  rewritten ("this" ++ tail) scope = (("item_" ++ id) ++ tail)%string.
Proof.
  intros Ht. rewrite rewritten_in_scope.
  assert (Hi : includes ("this" ++ tail) "@index" = false).
  { apply includes_absent_char. cbn [append forallb negb Ascii.eqb Bool.eqb andb].
    apply (path_chars_without "@" _ eq_refl (member_tail_chars _ Ht)). }
  rewrite Hi. cbv zeta.
  destruct tail as [|c path].
  - rewrite (append_empty ("item_" ++ id)). reflexivity.
  - unfold is_member_tail in Ht. cbn [parse_members] in Ht.
    destruct (Ascii.eqb c ".") eqn:E; [|discriminate Ht].
    apply Ascii.eqb_eq in E. subst c.
    replace (String.eqb ("this" ++ String "." path) "this") with false
      by (cbn; reflexivity).
    pose proof (prefix_append "this." path) as Hp. unfold startsWith.
    cbn [append] in Hp |- *. rewrite Hp. reflexivity.
Qed.

Lemma rewritten_unchanged (e : string) (lc : option loopContext) :
  depends_on_scope e = false -> rewritten e lc = e.
Proof.
  unfold depends_on_scope, rewritten. intros H.
  apply orb_false_iff in H as [H Hs]. apply orb_false_iff in H as [Hi Ht].
  rewrite Hi, Ht, Hs. destruct lc; reflexivity.
Qed.

End Rewriting.

Lemma twin_name_identifier (prefix id : string) :
  forallb is_ident_part id = true ->
  prefix = "items_" \/ prefix = "index_" \/ prefix = "item_" ->
  is_identifier (prefix ++ id) = true
  /\ mem (prefix ++ id) reserved_words = false.
Proof.
  intros H [-> | [-> | ->]]; (split; [|reflexivity]);
    unfold is_identifier; simpl; exact H.
Qed.


(** A loop variable and a dotted tail make one dotted name. *)
Lemma parse_atom_own (x tail : string) :
  is_identifier x = true ->
  mem x reserved_words = false ->
  is_member_tail tail = true ->
  parse_atom (x ++ tail) = Some (Atom (BIdent x) (tail_members tail))
  /\ includes (x ++ tail) "=>" = false.
Proof.
  intros Hx Hr Ht.
  assert (Hchars : forallb path_char (x ++ tail) = true).
  { rewrite forallb_append, (member_tail_chars _ Ht), andb_true_r.
    apply (forallb_impl is_ident_part); [|apply identifier_chars, Hx].
    intros c Hc. unfold path_char. rewrite Hc. reflexivity. }
  pose proof (path_excludes "=" ">" _ eq_refl Hchars) as Hi.
  unfold is_member_tail in Ht. unfold tail_members.
  destruct tail as [|c path].
  - rewrite append_empty in *. split; [|exact Hi].
    apply parse_atom_identifier; assumption.
  - cbn [parse_members] in Ht |- *.
    destruct (Ascii.eqb c ".") eqn:E; [|discriminate Ht].
    destruct (is_identifier_path path) eqn:Hp; [|discriminate Ht].
    apply Ascii.eqb_eq in E. subst c. cbn [andb].
    split; [|exact Hi].
    apply (parse_atom_member_chain x path Hx Hr Hp).
Qed.

Lemma is_atom_item_path (id text : string) :
  forallb is_ident_part id = true ->
  is_atom (("item_" ++ id) ++ "." ++ text) = is_identifier_path text.
Proof.
  intros Hid.
  destruct (twin_name_identifier "item_" id Hid (or_intror (or_intror eq_refl)))
    as [Hx Hr].
  rewrite (is_atom_dotted_name _ "i" ("tem_" ++ id ++ "." ++ text))
    by reflexivity.
  rewrite !identifier_path_machine.
  rewrite (path_machine_name _ _ true Hx).
  assert (Hfirst : match split_dot (("item_" ++ id) ++ "." ++ text) with
                   | name :: _ => mem name reserved_words
                   | [] => true
                   end = false).
  { unfold split_dot.
    destruct (split_dot_acc_first_part (("item_" ++ id) ++ "." ++ text)
                EmptyString) as [rest ->].
    cbn [append]. apply underscore_not_reserved. reflexivity. }
  rewrite Hfirst. cbn [path_machine Ascii.eqb Bool.eqb negb].
  apply andb_true_r.
Qed.

(** The rewriting of one expression in two scopes gives texts that are one
    literal or one dotted name together. *)
Lemma rewritten_atom (id1 id2 : string) (outer1 outer2 : option loopContext)
    (e : string) :
  forallb is_ident_part id1 = true ->
  forallb is_ident_part id2 = true ->
  is_atom (rewritten e
             (Some (LoopContext ("item_" ++ id1) ("index_" ++ id1) outer1)))
  = is_atom (rewritten e
               (Some (LoopContext ("item_" ++ id2) ("index_" ++ id2) outer2))).
Proof.
  intros V1 V2. rewrite !rewritten_in_scope. cbv zeta.
  set (j1 := if includes e "@index"
             then replaceAll "@index" ("index_" ++ id1) e else e).
  set (j2 := if includes e "@index"
             then replaceAll "@index" ("index_" ++ id2) e else e).
  assert (Hj : alike ("index_" ++ id1) ("index_" ++ id2) j1 j2).
  { unfold j1, j2. destruct (includes e "@index").
    - apply replaceAll_alike.
    - apply alike_refl. }
  rewrite (alike_eqb id1 id2 j1 j2 "this" Hj) by (simpl; lia).
  destruct (String.eqb j2 "this").
  { destruct (twin_name_identifier "item_" id1 V1
                (or_intror (or_intror eq_refl))) as [Hx1 Hr1].
    destruct (twin_name_identifier "item_" id2 V2
                (or_intror (or_intror eq_refl))) as [Hx2 Hr2].
    unfold is_atom.
    rewrite (parse_atom_identifier _ Hx1 Hr1), (parse_atom_identifier _ Hx2 Hr2).
    reflexivity. }
  destruct (alike_prefix id1 id2 "this." eq_refl j1 j2 Hj) as [Hp Hs].
  unfold startsWith. rewrite <- Hp.
  destruct (String.prefix "this." j1) eqn:E.
  - rewrite !is_atom_item_path by assumption.
    apply (alike_identifier_path id1 id2 V1 V2), Hs. reflexivity.
  - apply (alike_atom id1 id2 V1 V2), Hj.
Qed.

Lemma includes_after (a : ascii) (p prefix s : string) :
  forallb (fun c => negb (Ascii.eqb c a)) prefix = true ->
  includes (prefix ++ s) (String a p) = includes s (String a p).
Proof.
  induction prefix as [|c prefix IH]; [reflexivity|]. cbn [forallb].
  intros H. apply andb_true_iff in H as [Hc Hp]. apply negb_true_iff in Hc.
  specialize (IH Hp). unfold includes, indexOf in *.
  cbn [append String.index].
  rewrite (prefix_other_char a c p (prefix ++ s) Hc).
  destruct (String.index 0 (String a p) (prefix ++ s)),
           (String.index 0 (String a p) s); congruence.
Qed.

Lemma replaceAll_after (a : ascii) (p r prefix s : string) :
  forallb (fun c => negb (Ascii.eqb c a)) prefix = true ->
  replaceAll (String a p) r (prefix ++ s)
  = (prefix ++ replaceAll (String a p) r s)%string.
Proof.
  induction prefix as [|c prefix IH]; [reflexivity|]. cbn [forallb].
  intros H. apply andb_true_iff in H as [Hc Hp]. apply negb_true_iff in Hc.
  unfold replaceAll in *. cbn [append replaceAll_from]. unfold startsWith.
  rewrite (prefix_other_char a c p (prefix ++ s) Hc), (IH Hp). reflexivity.
Qed.

(** ** Two compilations of one template *)

Section Renaming.

Variables ids1 ids2 : nat -> string.
Hypothesis valid1 : forall k, forallb is_ident_part (ids1 k) = true.
Hypothesis valid2 : forall k, forallb is_ident_part (ids2 k) = true.
Hypothesis collisions : same_collisions ids1 ids2.
Variable bound : nat.

#[local] Abbreviation twin := (twin ids1 ids2 bound).
#[local] Abbreviation env_rel := (env_rel ids1 ids2 bound).
#[local] Abbreviation state_rel := (state_rel ids1 ids2 bound).
#[local] Abbreviation code_sim := (code_sim ids1 ids2 bound).
#[local] Abbreviation stmt_sim := (stmt_sim ids1 ids2 bound).

Lemma twin_of_unique (k k' : nat) (x1 x2 y1 y2 : string) :
  twin_of ids1 ids2 k x1 x2 -> twin_of ids1 ids2 k' y1 y2 ->
  (x1 = y1 <-> x2 = y2).
Proof.
  intros [] []; split; intros H; try discriminate H;
    injection H as H; f_equal; apply (collisions k k'); exact H.
Qed.

Lemma twin_of_loop_like (k : nat) (x1 x2 : string) :
  twin_of ids1 ids2 k x1 x2 -> loop_like x1 = true /\ loop_like x2 = true.
Proof.
  intros []; unfold loop_like, startsWith;
    rewrite ?(prefix_append "items_"), ?(prefix_append "index_"),
            ?(prefix_append "item_"), ?orb_true_r; auto.
Qed.

Lemma twin_of_identifiers (k : nat) (x1 x2 : string) :
  twin_of ids1 ids2 k x1 x2 ->
  (is_identifier x1 = true /\ mem x1 reserved_words = false)
  /\ (is_identifier x2 = true /\ mem x2 reserved_words = false).
Proof.
  intros []; split; apply twin_name_identifier; auto.
Qed.

Lemma lookup_cons_other {A : Type} (x y : string) (a : A)
    (l : list (string * A)) :
  y <> x -> lookup x ((y, a) :: l) = lookup x l.
Proof.
  intros H. cbn [lookup]. destruct (String.eqb y x) eqn:E; [|reflexivity].
  apply String.eqb_eq in E. contradiction.
Qed.

Lemma env_rel_assign (e1 e2 : env) (x1 x2 : string) (v : value) :
  env_rel e1 e2 -> twin x1 x2 ->
  env_rel ((x1, v) :: e1) ((x2, v) :: e2).
Proof.
  intros [Hfree Hvars] [k [Hk Hx]]. split.
  - intros x Hlike. destruct (twin_of_loop_like _ _ _ Hx) as [H1 H2].
    rewrite !lookup_cons_other by (intros ->; congruence).
    apply Hfree, Hlike.
  - intros y1 y2 [k' [Hk' Hy]].
    pose proof (twin_of_unique _ _ _ _ _ _ Hx Hy) as Hiff.
    destruct (string_dec x1 y1) as [E|E].
    + pose proof (proj1 Hiff E) as E'. subst y1 y2.
      exists v. rewrite !lookup_head. auto.
    + assert (E' : x2 <> y2) by (intros F; apply E, Hiff, F).
      rewrite !lookup_cons_other by assumption.
      apply Hvars. exists k'. auto.
Qed.

Lemma state_rel_assign (st1 st2 : state) (x1 x2 : string) (v : value) :
  state_rel st1 st2 -> twin x1 x2 ->
  state_rel (assign x1 v st1) (assign x2 v st2).
Proof.
  intros [He Ho] Hx. split; [|exact Ho].
  apply env_rel_assign; assumption.
Qed.

Lemma state_rel_push (st1 st2 : state) (s : string) :
  state_rel st1 st2 -> state_rel (push s st1) (push s st2).
Proof.
  intros [He Ho]. split; [exact He|]. cbn [push output]. rewrite Ho.
  reflexivity.
Qed.

Lemma read_twin (e1 e2 : env) (x1 x2 : string) :
  env_rel e1 e2 -> twin x1 x2 ->
  exists v, read x1 e1 = Ok v /\ read x2 e2 = Ok v.
Proof.
  intros [_ Hvars] Hx. destruct (Hvars _ _ Hx) as [v [H1 H2]].
  exists v. split; apply read_bound; assumption.
Qed.

Lemma read_free (e1 e2 : env) (x : string) :
  env_rel e1 e2 -> loop_like x = false -> read x e1 = read x e2.
Proof. intros [Hfree _] Hx. unfold read. rewrite (Hfree x Hx). reflexivity. Qed.

(** Code that differs in twin names only has one value in environments
    that agree on twin names. *)
Lemma eval_sim (e1 e2 : env) (c1 c2 : code) :
  env_rel e1 e2 -> code_sim c1 c2 -> eval_code e1 c1 = eval_code e2 c2.
Proof.
  intros He Hc. induction Hc as
    [path|text Hclosed|text1 text2 H1 H2|k x1 x2 tail Hk Hx Ht|c1 c2 _ IH
    |op l1 l2 r1 r2 _ IHl _ IHr].
  - cbn [eval_code]. rewrite (read_free _ _ "ctx" He eq_refl). reflexivity.
  - cbn [eval_code]. unfold closed_text in Hclosed.
    destruct (parse_atom text) as [[[x|z|s] ms]|]; try reflexivity.
    apply negb_true_iff in Hclosed.
    unfold eval_atom. cbn [base members]. rewrite (read_free _ _ x He Hclosed).
    reflexivity.
  - cbn [eval_code]. unfold is_atom in H1, H2.
    destruct (parse_atom text1); [discriminate H1|].
    destruct (parse_atom text2); [discriminate H2|]. reflexivity.
  - destruct (twin_of_identifiers _ _ _ Hx) as [[I1 R1] [I2 R2]].
    cbn [eval_code].
    rewrite (proj1 (parse_atom_own x1 tail I1 R1 Ht)).
    rewrite (proj1 (parse_atom_own x2 tail I2 R2 Ht)).
    unfold eval_atom. cbn [base members].
    destruct (read_twin e1 e2 _ _ He (ex_intro _ k (conj Hk Hx)))
      as [v [-> ->]]. reflexivity.
  - cbn [eval_code]. rewrite IH. reflexivity.
  - destruct op; cbn [eval_code]; rewrite IHl, IHr; reflexivity.
Qed.

Lemma fragment_sim (c1 c2 : code) :
  code_sim c1 c2 -> code_in_fragment c1 = code_in_fragment c2.
Proof.
  induction 1 as
    [path|text Hclosed|text1 text2 H1 H2|k x1 x2 tail Hk Hx Ht|c1 c2 _ IH
    |op l1 l2 r1 r2 _ IHl _ IHr]; cbn [code_in_fragment]; try reflexivity.
  - unfold is_atom in H1, H2.
    destruct (parse_atom text1); [discriminate H1|].
    destruct (parse_atom text2); [discriminate H2|]. reflexivity.
  - destruct (twin_of_identifiers _ _ _ Hx) as [[I1 R1] [I2 R2]].
    rewrite (proj1 (parse_atom_own x1 tail I1 R1 Ht)).
    rewrite (proj1 (parse_atom_own x2 tail I2 R2 Ht)). reflexivity.
  - exact IH.
  - rewrite IHl, IHr. reflexivity.
Qed.

Lemma outcome_rel_bind {A B A' B' : Type} (R : A -> A' -> Prop)
    (S : B -> B' -> Prop) (m1 : outcome A) (m2 : outcome A')
    (k1 : A -> outcome B) (k2 : A' -> outcome B') :
  outcome_rel R m1 m2 ->
  (forall a a', R a a' -> outcome_rel S (k1 a) (k2 a')) ->
  outcome_rel S (bind m1 k1) (bind m2 k2).
Proof.
  intros Hm Hk. destruct m1, m2; cbn [outcome_rel bind] in *;
    try contradiction; auto.
Qed.

Lemma outcome_rel_same {A B B' : Type} (S : B -> B' -> Prop) (m : outcome A)
    (k1 : A -> outcome B) (k2 : A -> outcome B') :
  (forall a, outcome_rel S (k1 a) (k2 a)) ->
  outcome_rel S (bind m k1) (bind m k2).
Proof. intros Hk. destruct m; cbn [outcome_rel bind]; auto. Qed.

(** The two artifacts run in step. *)
Lemma exec_for_loop_sim (fuel : nat) :
  (forall body1 body2 st1 st2,
      Forall2 stmt_sim body1 body2 ->
      state_rel st1 st2 ->
      outcome_rel state_rel (exec fuel body1 st1) (exec fuel body2 st2))
  /\ (forall k inner1 inner2 st1 st2,
      k < bound ->
      Forall2 stmt_sim inner1 inner2 ->
      state_rel st1 st2 ->
      outcome_rel state_rel
        (for_loop fuel ("items_" ++ ids1 k) ("index_" ++ ids1 k)
           ("item_" ++ ids1 k) inner1 st1)
        (for_loop fuel ("items_" ++ ids2 k) ("index_" ++ ids2 k)
           ("item_" ++ ids2 k) inner2 st2)).
Proof.
  induction fuel as [|fuel [IHe IHl]]; [split; intros; exact I|].
  split.
  - intros body1 body2 st1 st2 Hbody Hst.
    destruct Hbody as [|s1 s2 rest1 rest2 Hs Hrest]; [exact Hst|].
    pose proof (proj1 Hst) as Henv.
    destruct Hs as [v|c1 c2 Hc|c1 c2 Hc|c1 c2 b1 b2 Hc Hb
                   |k c1 c2 b1 b2 Hk Hc Hb]; cbn [exec].
    + apply IHe; [exact Hrest | apply state_rel_push, Hst].
    + rewrite (eval_sim _ _ _ _ Henv Hc). apply outcome_rel_same.
      intros v. apply IHe; [exact Hrest | apply state_rel_push, Hst].
    + rewrite (eval_sim _ _ _ _ Henv Hc). apply outcome_rel_same.
      intros v. apply IHe; [exact Hrest | apply state_rel_push, Hst].
    + rewrite (eval_sim _ _ _ _ Henv Hc). apply outcome_rel_same.
      intros v. destruct (truthy v); [|apply IHe; assumption].
      apply outcome_rel_bind with (R := state_rel); [apply IHe; assumption|].
      intros st1' st2' Hst'. apply IHe; assumption.
    + rewrite (eval_sim _ _ _ _ Henv Hc). apply outcome_rel_same.
      intros v.
      rewrite !(read_bound _ _ _ (lookup_assign_same _ _ _)).
      cbn [bind].
      assert (Hst1 : state_rel (assign ("items_" ++ ids1 k) v st1)
                       (assign ("items_" ++ ids2 k) v st2)).
      { apply state_rel_assign; [exact Hst|].
        exists k. split; [exact Hk | constructor]. }
      destruct (isArray v); [|apply IHe; assumption].
      apply outcome_rel_bind with (R := state_rel).
      * apply IHl; try assumption.
        apply state_rel_assign; [exact Hst1|].
        exists k. split; [exact Hk | constructor].
      * intros st1' st2' Hst'. apply IHe; assumption.
  - intros k inner1 inner2 st1 st2 Hk Hinner Hst. cbn [for_loop].
    pose proof (proj1 Hst) as Henv.
    destruct (read_twin _ _ _ _ Henv
                (ex_intro _ k (conj Hk (twin_index ids1 ids2 k))))
      as [vi [-> ->]].
    destruct (read_twin _ _ _ _ Henv
                (ex_intro _ k (conj Hk (twin_items ids1 ids2 k))))
      as [va [-> ->]].
    cbn [bind]. apply outcome_rel_same. intros n.
    apply outcome_rel_same. intros r.
    destruct r as [[|]|]; try exact Hst.
    apply outcome_rel_same. intros item.
    apply outcome_rel_bind with (R := state_rel).
    + apply IHe; [exact Hinner|].
      apply state_rel_assign; [exact Hst|].
      exists k. split; [exact Hk | constructor].
    + intros st1' st2' Hst'.
      destruct (read_twin _ _ _ _ (proj1 Hst')
                  (ex_intro _ k (conj Hk (twin_index ids1 ids2 k))))
        as [vi' [-> ->]].
      cbn [bind]. apply outcome_rel_same. intros [z|]; [|exact I].
      apply IHl; try assumption.
      apply state_rel_assign; [exact Hst'|].
      exists k. split; [exact Hk | constructor].
Qed.

End Renaming.

(** *** The two generated programs *)

Lemma rewritten_item_path (id prop : string) (outer : option loopContext) :
  forallb is_ident_part id = true ->
  rewritten (("item_" ++ id) ++ "." ++ prop)
    (Some (LoopContext ("item_" ++ id) ("index_" ++ id) outer))
  = (("item_" ++ id) ++ "."
     ++ (if includes prop "@index"
         then replaceAll "@index" ("index_" ++ id) prop
         else prop))%string.
Proof.
  intros Hid. rewrite rewritten_in_scope.
  assert (Hfree : forallb (fun c => negb (Ascii.eqb c "@"))
                    (("item_" ++ id) ++ ".") = true).
  { apply (path_chars_without "@" _ eq_refl).
    rewrite forallb_append. cbn [forallb]. rewrite andb_true_r.
    apply (forallb_impl is_ident_part).
    - intros c Hc. unfold path_char. rewrite Hc. reflexivity.
    - apply identifier_chars, twin_name_identifier; auto. }
  assert (Hsplit : ((("item_" ++ id) ++ "." ++ prop)
                    = (("item_" ++ id) ++ ".") ++ prop)%string)
    by (symmetry; apply append_assoc).
  rewrite Hsplit, (includes_after "@" "index" _ prop Hfree).
  cbv zeta.
  assert (Hthis : forall text : string,
             (if String.eqb ((("item_" ++ id) ++ ".") ++ text) "this"
              then ("item_" ++ id)%string
              else if startsWith ((("item_" ++ id) ++ ".") ++ text) "this."
                   then (("item_" ++ id) ++ "."
                         ++ slice 5 ((("item_" ++ id) ++ ".") ++ text))%string
                   else ((("item_" ++ id) ++ ".") ++ text)%string)
             = ((("item_" ++ id) ++ ".") ++ text)%string).
  { intros text. unfold startsWith. cbn [append String.eqb Ascii.eqb Bool.eqb].
    rewrite prefix_other_char by reflexivity. reflexivity. }
  destruct (includes prop "@index").
  - rewrite (replaceAll_after "@" "index" _ _ prop Hfree), Hthis.
    apply append_assoc.
  - rewrite Hthis. apply append_assoc.
Qed.

Lemma closed_text_of_root (c : ascii) (rest : string) :
  Ascii.eqb c "'" || Ascii.eqb c "034" = false ->
  is_digit c = false ->
  loop_like (first_part (String c rest)) = false ->
  closed_text (String c rest) = true.
Proof.
  intros Hq Hd Hroot. unfold closed_text, parse_atom. rewrite Hq, Hd.
  destruct (is_identifier_path (String c rest)); [|reflexivity].
  unfold split_dot.
  destruct (split_dot_acc_first_part (String c rest) EmptyString) as [ms ->].
  cbn [append]. destruct (mem _ reserved_words); [reflexivity|].
  rewrite Hroot. reflexivity.
Qed.

Lemma ctx_text_closed (prop : string) :
  closed_text (rewritten ("ctx." ++ prop) None) = true.
Proof.
  unfold rewritten.
  assert (H : forall q, closed_text ("ctx." ++ q) = true).
  { intros q. apply closed_text_of_root; reflexivity. }
  destruct (includes ("ctx." ++ prop) "@index"); [|apply H].
  rewrite (replaceAll_after "@" "index" "0" "ctx." prop eq_refl). apply H.
Qed.

Section Generation.

Variables ids1 ids2 : nat -> string.
Hypothesis valid1 : forall k, forallb is_ident_part (ids1 k) = true.
Hypothesis valid2 : forall k, forallb is_ident_part (ids2 k) = true.

#[local] Abbreviation code_sim_in := (code_sim_in ids1 ids2).
#[local] Abbreviation lines_sim := (lines_sim ids1 ids2).
#[local] Abbreviation text_sim_in :=
  (fun draw js1 js2 => code_sim_in draw (CText js1) (CText js2)).

Lemma sim_own_bare (bound k : nat) (x1 x2 : string) :
  k < bound -> twin_of ids1 ids2 k x1 x2 ->
  code_sim ids1 ids2 bound (CText x1) (CText x2).
Proof.
  intros Hk Hx. rewrite <- (append_empty x1), <- (append_empty x2).
  apply (sim_own ids1 ids2 bound k); auto.
Qed.

(** One text in the two compilations. *)
Lemma complex_same (e : string) (lc1 lc2 : option loopContext)
    (draw : option nat) :
  rewritten e lc1 = rewritten e lc2 ->
  closed_text (rewritten e lc1) = true ->
  outcome_rel (text_sim_in draw)
    (_compileComplexExpression e lc1) (_compileComplexExpression e lc2).
Proof.
  intros Heq Hclosed. rewrite !compileComplexExpression_rewritten, <- Heq.
  destruct (includes (rewritten e lc1) "=>"); [exact I|].
  destruct (is_atom (rewritten e lc1)); [|exact I].
  cbn [outcome_rel]. intros bound _. apply sim_closed, Hclosed.
Qed.

Lemma own_text_compiles (x tail : string) :
  is_identifier x = true ->
  mem x reserved_words = false ->
  is_member_tail tail = true ->
  (if includes (x ++ tail) "=>" then Unmodelled
   else if is_atom (x ++ tail) then Ok (x ++ tail)%string else Unmodelled)
  = Ok (x ++ tail)%string.
Proof.
  intros Hx Hr Ht. destruct (parse_atom_own x tail Hx Hr Ht) as [Hp Hi].
  unfold is_atom. rewrite Hi, Hp. reflexivity.
Qed.

Lemma complex_sim (e : string) (draw : option nat)
    (outer1 outer2 : option loopContext) :
  scoped_complex (in_loop draw) e = true ->
  outcome_rel (text_sim_in draw)
    (_compileComplexExpression e (lc_of ids1 draw outer1))
    (_compileComplexExpression e (lc_of ids2 draw outer2)).
Proof.
  unfold scoped_complex. destruct draw as [k|]; cbn [in_loop lc_of andb].
  2:{ intros H. apply complex_same; [reflexivity | exact H]. }
  destruct (depends_on_scope e) eqn:D.
  - intros H. apply orb_true_iff in H as [Hown|Hopaque].
    + destruct (own_variable_cases _ Hown) as [tail [Ht [-> | ->]]];
        rewrite !compileComplexExpression_rewritten.
      * rewrite !rewritten_index by auto.
        rewrite !own_text_compiles
          by (try apply twin_name_identifier; auto).
        cbn [outcome_rel]. intros bound Hb.
        apply (sim_own ids1 ids2 bound k); [apply Hb; reflexivity| |exact Ht].
        constructor.
      * rewrite !rewritten_this by auto.
        rewrite !own_text_compiles
          by (try apply twin_name_identifier; auto).
        cbn [outcome_rel]. intros bound Hb.
        apply (sim_own ids1 ids2 bound k); [apply Hb; reflexivity| |exact Ht].
        constructor.
    + apply negb_true_iff in Hopaque.
      rewrite !compileComplexExpression_rewritten.
      rewrite (rewritten_atom (ids1 k) "" outer1 None e (valid1 k) eq_refl).
      rewrite (rewritten_atom (ids2 k) "" outer2 None e (valid2 k) eq_refl).
      change (Some (LoopContext ("item_" ++ "") ("index_" ++ "") None))
        with bare_scope.
      rewrite Hopaque.
      destruct (includes _ "=>"), (includes _ "=>"); exact I.
  - intros H. rewrite (rewritten_unchanged e None D) in H.
    apply complex_same; rewrite !(rewritten_unchanged e _ D);
      [reflexivity | exact H].
Qed.

(** A path through [this] inside a loop. *)
Lemma this_path_sim (prop : string) (k : nat)
    (outer1 outer2 : option loopContext) :
  negb (includes prop "@index")
  || negb (is_identifier_path (replaceAll "@index" "index_" prop)) = true ->
  outcome_rel (text_sim_in (Some k))
    (_compileComplexExpression (("item_" ++ ids1 k) ++ "." ++ prop)
       (lc_of ids1 (Some k) outer1))
    (_compileComplexExpression (("item_" ++ ids2 k) ++ "." ++ prop)
       (lc_of ids2 (Some k) outer2)).
Proof.
  intros H. cbn [lc_of].
  rewrite !compileComplexExpression_rewritten.
  rewrite !rewritten_item_path by auto.
  destruct (includes prop "@index") eqn:Hi.
  - cbn [negb orb] in H. apply negb_true_iff in H.
    rewrite !is_atom_item_path by auto.
    unfold replaceAll in *.
    rewrite (alike_identifier_path (ids1 k) "" (valid1 k) eq_refl
               _ _ (replaceAll_alike (ids1 k) "" prop 0)).
    rewrite (alike_identifier_path (ids2 k) "" (valid2 k) eq_refl
               _ _ (replaceAll_alike (ids2 k) "" prop 0)).
    change ("index_" ++ "")%string with "index_".
    rewrite H.
    destruct (includes _ "=>"), (includes _ "=>"); exact I.
  - destruct (is_identifier_path prop) eqn:Hp.
    + assert (Ht : is_member_tail ("." ++ prop) = true).
      { unfold is_member_tail. cbn [append parse_members Ascii.eqb Bool.eqb andb].
        rewrite Hp. reflexivity. }
      rewrite !own_text_compiles
        by (try apply twin_name_identifier; auto).
      cbn [outcome_rel]. intros bound Hb.
      apply (sim_own ids1 ids2 bound k); [apply Hb; reflexivity| |exact Ht].
      constructor.
    + rewrite !is_atom_item_path, Hp by auto.
      destruct (includes _ "=>"), (includes _ "=>"); exact I.
Qed.

Lemma access_sim (e : string) (draw : option nat)
    (outer1 outer2 : option loopContext) :
  scoped_expression (in_loop draw) e = true ->
  outcome_rel (code_sim_in draw)
    (_generateAccessCode e (lc_of ids1 draw outer1))
    (_generateAccessCode e (lc_of ids2 draw outer2)).
Proof.
  unfold scoped_expression, _generateAccessCode.
  destruct (String.eqb e "this").
  { intros _. destruct draw as [k|]; cbn [lc_of outcome_rel itemName].
    - intros bound Hb. apply (sim_own_bare bound k); [apply Hb; reflexivity|].
      constructor.
    - intros bound _. apply sim_closed. reflexivity. }
  destruct (startsWith e "this.").
  { intros H. destruct draw as [k|]; cbn [lc_of itemName in_loop negb orb] in *.
    - apply outcome_rel_bind with (R := text_sim_in (Some k));
        [apply (this_path_sim _ k outer1 outer2 H) | intros js1 js2 Hjs; exact Hjs].
    - apply outcome_rel_bind with (R := text_sim_in None);
        [|intros js1 js2 Hjs; exact Hjs].
      apply complex_same; [reflexivity | apply ctx_text_closed]. }
  destruct (_isComplexExpression e).
  { intros H. apply outcome_rel_bind with (R := text_sim_in draw);
      [apply complex_sim, H | intros js1 js2 Hjs; exact Hjs]. }
  intros _. destruct (is_identifier_path e); cbn [outcome_rel];
    [|reflexivity].
  intros bound _. apply sim_get.
Qed.

Lemma operand_sim (operand : string) (draw : option nat)
    (outer1 outer2 : option loopContext) :
  scoped_operand (in_loop draw) operand = true ->
  outcome_rel (code_sim_in draw)
    (_generateComparisonOperand operand (lc_of ids1 draw outer1))
    (_generateComparisonOperand operand (lc_of ids2 draw outer2)).
Proof.
  unfold scoped_operand, _generateComparisonOperand.
  match goal with |- (if ?b then _ else _) = true -> _ => destruct b end.
  { intros Hc. cbn [outcome_rel]. intros bound _. apply sim_closed, Hc. }
  match goal with |- (if ?b then _ else _) = true -> _ => destruct b end.
  { intros Hc. cbn [outcome_rel]. intros bound _. apply sim_closed, Hc. }
  destruct (_isComplexExpression (trim operand)).
  { intros H. apply outcome_rel_bind with (R := text_sim_in draw);
      [apply complex_sim, H | intros js1 js2 Hjs; exact Hjs]. }
  apply access_sim.
Qed.

Lemma condition_sim (condition : string) (draw : option nat)
    (outer1 outer2 : option loopContext) :
  scoped_condition (in_loop draw) condition = true ->
  outcome_rel (code_sim_in draw)
    (_generateConditionCode condition (lc_of ids1 draw outer1))
    (_generateConditionCode condition (lc_of ids2 draw outer2)).
Proof.
  unfold scoped_condition, _generateConditionCode.
  destruct (comparisonMatch (trim condition)) as [[[operator l] r]|].
  - intros H. apply andb_true_iff in H as [Hl Hr].
    apply outcome_rel_bind with (R := code_sim_in draw);
      [apply operand_sim, Hl|].
    intros l1 l2 Hl12.
    apply outcome_rel_bind with (R := code_sim_in draw);
      [apply operand_sim, Hr|].
    intros r1 r2 Hr12.
    repeat match goal with
           | |- outcome_rel _ (if ?b then _ else _) _ => destruct b
           end; cbn [outcome_rel]; try reflexivity;
      intros bound Hb; apply sim_bin; auto.
  - destruct (_isComplexExpression (trim condition)) eqn:Ec.
    { intros Hs. apply outcome_rel_bind with (R := code_sim_in draw);
        [apply access_sim, Hs|].
      intros c1 c2 Hc. cbn [outcome_rel]. intros bound Hb.
      apply sim_not. auto. }
    intros _.
    destruct (startsWith (trim condition) "this.") eqn:Et.
    { destruct draw as [k|]; cbn [lc_of itemName outcome_rel];
        intros bound Hb; apply sim_not; [|apply sim_get].
      destruct (is_identifier_path (slice 5 (trim condition))) eqn:Hp.
      - apply (sim_own ids1 ids2 bound k _ _ ("." ++ slice 5 (trim condition)));
          [apply Hb; reflexivity | constructor |].
        unfold is_member_tail.
        cbn [append parse_members Ascii.eqb Bool.eqb andb].
        rewrite Hp. reflexivity.
      - apply sim_opaque; rewrite is_atom_item_path by auto; exact Hp. }
    destruct (is_identifier_path (trim condition)); [|reflexivity].
    apply outcome_rel_bind with (R := code_sim_in draw).
    + apply access_sim. unfold scoped_expression. rewrite Et, Ec.
      destruct (String.eqb (trim condition) "this"); reflexivity.
    + intros c1 c2 Hc. cbn [outcome_rel]. intros bound Hb.
      apply sim_not. auto.
Qed.

Lemma variable_sim (e : string) (isRaw : bool) (draw : option nat)
    (outer1 outer2 : option loopContext) (drawn : nat) :
  scoped_expression (in_loop draw) e = true ->
  outcome_rel (lines_sim draw)
    (lines <- _generateVariableCode e isRaw (lc_of ids1 draw outer1) ;;
     Ok (lines, drawn))
    (lines <- _generateVariableCode e isRaw (lc_of ids2 draw outer2) ;;
     Ok (lines, drawn)).
Proof.
  intros He. unfold _generateVariableCode.
  destruct (is_empty (trim e)); [reflexivity|].
  pose proof (access_sim e draw outer1 outer2 He) as H.
  destruct (_generateAccessCode e (lc_of ids1 draw outer1)) as [c1| | |],
           (_generateAccessCode e (lc_of ids2 draw outer2)) as [c2| | |];
    cbn [outcome_rel bind] in *; try contradiction; try exact H.
  destruct isRaw; cbn [bind outcome_rel]; (split; [reflexivity|]);
    cbn [fst snd]; intros bound _ Hb; specialize (H bound Hb);
    (split; [apply Forall2_cons;
               [first [apply sim_push_raw | apply sim_push_escaped]; exact H
               |apply Forall2_nil]|]);
    unfold in_fragment; cbn [fst List.forallb stmt_in_fragment];
    rewrite (fragment_sim _ _ valid1 valid2 _ _ _ H); reflexivity.
Qed.

Lemma forEach_child_sim (children : list node) :
  Forall (fun child =>
            forall draw outer1 outer2 drawn,
              scoped_node (in_loop draw) child = true ->
              outcome_rel (lines_sim draw)
                (_generateNodeCode ids1 child (lc_of ids1 draw outer1) drawn)
                (_generateNodeCode ids2 child (lc_of ids2 draw outer2) drawn))
    children ->
  forall draw outer1 outer2 drawn,
    List.forallb (scoped_node (in_loop draw)) children = true ->
    outcome_rel (lines_sim draw)
      (forEach_child (_generateNodeCode ids1) children
         (lc_of ids1 draw outer1) drawn)
      (forEach_child (_generateNodeCode ids2) children
         (lc_of ids2 draw outer2) drawn).
Proof.
  induction 1 as [|child rest Hchild Hrest IH];
    intros draw outer1 outer2 drawn Hs.
  - cbn [forEach_child outcome_rel]. split; [reflexivity|].
    intros bound _ _. split; [constructor | reflexivity].
  - cbn [List.forallb] in Hs. apply andb_true_iff in Hs as [Hc Hr].
    cbn [forEach_child].
    specialize (Hchild draw outer1 outer2 drawn Hc).
    destruct (_generateNodeCode ids1 child (lc_of ids1 draw outer1) drawn)
      as [[l1 d1]| | |] eqn:E1,
      (_generateNodeCode ids2 child (lc_of ids2 draw outer2) drawn)
      as [[l2 d2]| | |] eqn:E2;
      cbn [outcome_rel bind] in *; try contradiction; try exact Hchild.
    destruct Hchild as [Hd Hl]. cbn [fst snd] in Hd, Hl. subst d2.
    specialize (IH draw outer1 outer2 d1 Hr).
    destruct (forEach_child (_generateNodeCode ids1) rest
                (lc_of ids1 draw outer1) d1) as [[m1 d1']| | |] eqn:F1,
      (forEach_child (_generateNodeCode ids2) rest
         (lc_of ids2 draw outer2) d1) as [[m2 d2']| | |] eqn:F2;
      cbn [outcome_rel bind] in *; try contradiction; try exact IH.
    destruct IH as [Hd' Hm]. cbn [fst snd] in Hd', Hm. subst d2'.
    split; [reflexivity|]. cbn [fst snd]. intros bound Hbound Hb.
    pose proof (forEach_child_declares ids1 rest _
                  (Forall_all _ _ (generateNodeCode_declares ids1))
                  _ _ _ F1) as [Hle _].
    destruct (Hl bound ltac:(lia) Hb) as [Hl1 Hl2].
    destruct (Hm bound Hbound Hb) as [Hm1 Hm2].
    split; [apply Forall2_app; assumption|].
    unfold in_fragment in *. rewrite !forallb_app, Hl2, Hm2. reflexivity.
Qed.

Lemma loop_names_valid (ids : nat -> string) (k : nat) :
  forallb is_ident_part (ids k) = true ->
  is_identifier ("items_" ++ ids k) = true
  /\ is_identifier ("index_" ++ ids k) = true
  /\ is_identifier ("item_" ++ ids k) = true.
Proof. intros H. unfold is_identifier. simpl. rewrite H. auto. Qed.

(** Two compilations of a scoped tree fail alike or yield programs that
    differ in twin names only. *)
Lemma node_sim (n : node) :
  forall draw outer1 outer2 drawn,
    scoped_node (in_loop draw) n = true ->
    outcome_rel (lines_sim draw)
      (_generateNodeCode ids1 n (lc_of ids1 draw outer1) drawn)
      (_generateNodeCode ids2 n (lc_of ids2 draw outer2) drawn).
Proof.
  induction n as [v|e|e|c children IH|items children IH|children IH]
    using node_induction; intros draw outer1 outer2 drawn Hs;
    cbn [scoped_node] in Hs; cbn [_generateNodeCode].
  - cbn [outcome_rel]. split; [reflexivity|]. intros bound _ _.
    split; [|reflexivity].
    apply Forall2_cons; [apply sim_push_text | apply Forall2_nil].
  - apply variable_sim, Hs.
  - apply variable_sim, Hs.
  - apply andb_true_iff in Hs as [Hc Hchildren]. unfold _generateIfCode.
    apply outcome_rel_bind with (R := code_sim_in draw);
      [apply condition_sim; assumption|].
    intros c1 c2 Hc12.
    pose proof (forEach_child_sim children IH draw outer1 outer2
                  drawn Hchildren) as H.
    destruct (forEach_child (_generateNodeCode ids1) children
                (lc_of ids1 draw outer1) drawn) as [[b1 d1]| | |],
      (forEach_child (_generateNodeCode ids2) children
         (lc_of ids2 draw outer2) drawn) as [[b2 d2]| | |];
      cbn [outcome_rel bind] in *; try contradiction; try exact H.
    destruct H as [Hd Hb]. cbn [fst snd] in *. split; [exact Hd|].
    intros bound Hbound Hdraw. destruct (Hb bound Hbound Hdraw) as [Hb1 Hb2].
    specialize (Hc12 bound Hdraw).
    split; [apply Forall2_cons;
              [apply sim_if; assumption | apply Forall2_nil]|].
    unfold in_fragment in *. cbn [fst List.forallb stmt_in_fragment].
    rewrite (fragment_sim _ _ valid1 valid2 _ _ _ Hc12), Hb2. reflexivity.
  - apply andb_true_iff in Hs as [Hitems Hchildren]. unfold _generateEachCode.
    apply outcome_rel_bind with (R := code_sim_in draw);
      [apply access_sim; assumption|].
    intros c1 c2 Hc12.
    pose proof (forEach_child_sim children IH (Some drawn)
                  (lc_of ids1 draw outer1) (lc_of ids2 draw outer2)
                  (S drawn) Hchildren) as H.
    cbn [lc_of] in H.
    destruct (forEach_child (_generateNodeCode ids1) children _ (S drawn))
      as [[b1 d1]| | |] eqn:F1,
      (forEach_child (_generateNodeCode ids2) children _ (S drawn))
      as [[b2 d2]| | |] eqn:F2;
      cbn [outcome_rel bind] in *; try contradiction; try exact H.
    destruct H as [Hd Hb]. cbn [fst snd] in *. split; [exact Hd|].
    intros bound Hbound Hdraw.
    pose proof (forEach_child_declares ids1 children _
                  (Forall_all _ _ (generateNodeCode_declares ids1))
                  _ _ _ F1) as [Hle _].
    cbn [snd] in Hbound.
    assert (Hk : drawn < bound) by lia.
    destruct (Hb bound Hbound) as [Hb1 Hb2];
      [intros k [= <-]; exact Hk|].
    specialize (Hc12 bound Hdraw).
    split; [apply Forall2_cons;
              [apply sim_each; assumption | apply Forall2_nil]|].
    unfold in_fragment in *. cbn [fst List.forallb stmt_in_fragment].
    destruct (loop_names_valid ids1 drawn (valid1 drawn)) as [-> [-> ->]].
    destruct (loop_names_valid ids2 drawn (valid2 drawn)) as [-> [-> ->]].
    rewrite (fragment_sim _ _ valid1 valid2 _ _ _ Hc12), Hb2. reflexivity.
  - reflexivity.
Qed.

End Generation.

(** *** The two artifacts *)

Lemma lookup_declared (x : string) (l : list string) :
  In x l -> lookup x (List.map (fun y => (y, VUndefined)) l) = Some VUndefined.
Proof.
  induction l as [|y l IH]; [intros []|]. intros H. cbn [List.map lookup].
  destruct (String.eqb y x) eqn:E; [reflexivity|].
  destruct H as [->|H]; [rewrite String.eqb_refl in E; discriminate E|].
  apply IH, H.
Qed.

Lemma lookup_undeclared (x : string) (l : list string) :
  ~ In x l -> lookup x (List.map (fun y => (y, VUndefined)) l) = None.
Proof.
  induction l as [|y l IH]; [reflexivity|]. intros H. cbn [List.map lookup].
  destruct (String.eqb y x) eqn:E.
  - apply String.eqb_eq in E. subst y. exfalso. apply H. left. reflexivity.
  - apply IH. intros F. apply H. right. exact F.
Qed.

Lemma loop_name_like (ids : nat -> string) (k : nat) (x : string) :
  loop_name ids k x -> loop_like x = true.
Proof.
  intros [-> | [-> | ->]]; unfold loop_like, startsWith;
    rewrite ?(prefix_append "items_"), ?(prefix_append "index_"),
            ?(prefix_append "item_"), ?orb_true_r; reflexivity.
Qed.

Lemma twin_of_loop_names (ids1 ids2 : nat -> string) (k : nat)
    (x1 x2 : string) :
  twin_of ids1 ids2 k x1 x2 -> loop_name ids1 k x1 /\ loop_name ids2 k x2.
Proof. intros []; unfold loop_name; auto. Qed.

Lemma lookup_free_initial (ids : nat -> string) (bound : nat)
    (body : list stmt) (ctx : value) (x : string) :
  declares_draws ids body 0 bound ->
  loop_like x = false ->
  lookup x (vars (initial body ctx))
  = if String.eqb "ctx" x then Some ctx else None.
Proof.
  intros [_ H] Hx. unfold initial. cbn [vars lookup].
  destruct (String.eqb "ctx" x); [reflexivity|].
  apply lookup_undeclared. intros Hin. apply H in Hin as [k [_ Hk]].
  rewrite (loop_name_like _ _ _ Hk) in Hx. discriminate Hx.
Qed.

Lemma initial_state_rel (ids1 ids2 : nat -> string) (bound : nat)
    (body1 body2 : list stmt) (ctx : value) :
  declares_draws ids1 body1 0 bound ->
  declares_draws ids2 body2 0 bound ->
  state_rel ids1 ids2 bound (initial body1 ctx) (initial body2 ctx).
Proof.
  intros D1 D2. split; [|reflexivity]. split.
  - intros x Hx.
    rewrite (lookup_free_initial ids1 bound body1 ctx x D1 Hx).
    rewrite (lookup_free_initial ids2 bound body2 ctx x D2 Hx). reflexivity.
  - destruct D1 as [_ H1], D2 as [_ H2].
    intros x1 x2 [k [Hk Hx]].
    destruct (twin_of_loop_names _ _ _ _ _ Hx) as [L1 L2].
    assert (N1 : "ctx" <> x1)
      by (intros <-; pose proof (loop_name_like _ _ _ L1); discriminate).
    assert (N2 : "ctx" <> x2)
      by (intros <-; pose proof (loop_name_like _ _ _ L2); discriminate).
    exists VUndefined. unfold initial. cbn [vars].
    rewrite !lookup_cons_other by assumption.
    split; apply lookup_declared; [apply H1 | apply H2]; exists k;
      (split; [lia | assumption]).
Qed.

(** Two compilations of a scoped template give artifacts with one
    outcome. *)
Lemma scoped_templates_render_alike (ids1 ids2 : nat -> string)
    (template : string) :
  (forall k, loopId_ok (ids1 k) = true) ->
  (forall k, loopId_ok (ids2 k) = true) ->
  same_collisions ids1 ids2 ->
  scoped_template template = true ->
  forall fuel context,
    Jframe.run ids1 fuel template context
    = Jframe.run ids2 fuel template context.
Proof.
  intros V1 V2 Hcol Hscoped fuel context.
  assert (valid1 : forall k, forallb is_ident_part (ids1 k) = true)
    by (intros k; apply loopId_ident_part, V1).
  assert (valid2 : forall k, forallb is_ident_part (ids2 k) = true)
    by (intros k; apply loopId_ident_part, V2).
  unfold scoped_template in Hscoped. unfold Jframe.run, Jframe.compile.
  destruct (tokenize template) as [tokens| | |]; cbn [bind] in *;
    try reflexivity.
  destruct (parse tokens) as [ast| | |]; cbn [bind] in *; try reflexivity.
  destruct ast as [v|e|e|c children|i children|children]; try reflexivity.
  cbn [scoped_node] in Hscoped. unfold Compiler.compile, _generateJSCode.
  pose proof (forEach_child_sim ids1 ids2 children
                (Forall_all _ _ (node_sim ids1 ids2 valid1 valid2))
                None None None 0 Hscoped) as H.
  cbn [lc_of] in H.
  destruct (forEach_child (_generateNodeCode ids1) children None 0)
    as [[l1 d1]| | |] eqn:F1,
    (forEach_child (_generateNodeCode ids2) children None 0)
    as [[l2 d2]| | |] eqn:F2;
    cbn [outcome_rel bind] in *; try contradiction; try reflexivity;
    try (rewrite H; reflexivity).
  destruct H as [Hd Hl]. cbn [fst snd] in Hd, Hl. subst d2.
  destruct (Hl d1 (le_n _)) as [Hsim Hfrag]; [intros k Hk; discriminate Hk|].
  rewrite <- Hfrag. destruct (in_fragment l1); cbn [bind]; [|reflexivity].
  unfold invoke.
  pose proof (forEach_child_declares ids1 children _
                (Forall_all _ _ (generateNodeCode_declares ids1))
                _ _ _ F1) as D1.
  pose proof (forEach_child_declares ids2 children _
                (Forall_all _ _ (generateNodeCode_declares ids2))
                _ _ _ F2) as D2.
  pose proof (proj1 (exec_for_loop_sim ids1 ids2 valid1 valid2 Hcol d1 fuel)
                l1 l2 _ _ Hsim
                (initial_state_rel ids1 ids2 d1 l1 l2 context D1 D2)) as Hrun.
  destruct (exec fuel l1 (initial l1 context)) as [st1| | |],
    (exec fuel l2 (initial l2 context)) as [st2| | |];
    cbn [outcome_rel bind] in *; try contradiction; try reflexivity.
  - destruct Hrun as [_ Ho]. rewrite Ho. reflexivity.
  - rewrite Hrun. reflexivity.
Qed.

(** *** Templates without each block *)

Lemma forEach_child_same
    (g1 g2 : node -> option loopContext -> gen (list stmt))
    (children : list node) :
  Forall (fun child => forall lc drawn, g1 child lc drawn = g2 child lc drawn)
    children ->
  forall lc drawn,
    forEach_child g1 children lc drawn = forEach_child g2 children lc drawn.
Proof.
  induction 1 as [|child rest Hchild _ IH]; intros lc drawn; [reflexivity|].
  cbn [forEach_child]. rewrite Hchild.
  destruct (g2 child lc drawn) as [[lines d]| | |]; cbn [bind];
    try reflexivity.
  rewrite IH. reflexivity.
Qed.

Lemma Forall_forallb {A : Type} (p : A -> bool) (P : A -> Prop)
    (l : list A) :
  Forall (fun a => p a = true -> P a) l ->
  List.forallb p l = true -> Forall P l.
Proof.
  induction 1 as [|a l Ha _ IH]; intros H; constructor;
    cbn [List.forallb] in H; apply andb_true_iff in H as [H1 H2]; auto.
Qed.

(** The code of a tree without each block does not depend on the draws. *)
Lemma no_each_generate (ids1 ids2 : nat -> string) (n : node) :
  no_each n = true ->
  forall lc drawn,
    _generateNodeCode ids1 n lc drawn = _generateNodeCode ids2 n lc drawn.
Proof.
  induction n as [v|e|e|c children IH|items children IH|children IH]
    using node_induction; intros Hn lc drawn; cbn [no_each] in Hn;
    cbn [_generateNodeCode]; try reflexivity; try discriminate Hn.
  unfold _generateIfCode.
  rewrite (forEach_child_same _ _ children
             (Forall_forallb _ _ _ IH Hn) lc drawn).
  reflexivity.
Qed.

Lemma each_free_compile (ids1 ids2 : nat -> string) (template : string) :
  each_free template = true ->
  Jframe.compile ids1 template = Jframe.compile ids2 template.
Proof.
  unfold each_free, Jframe.compile. intros H.
  destruct (tokenize template) as [tokens| | |]; cbn [bind] in *;
    try reflexivity.
  destruct (parse tokens) as [ast| | |]; cbn [bind] in *; try reflexivity.
  destruct ast as [v|e|e|c children|i children|children]; try reflexivity.
  cbn [no_each] in H. unfold Compiler.compile, _generateJSCode.
  rewrite (forEach_child_same (_generateNodeCode ids1) (_generateNodeCode ids2)
             children).
  - reflexivity.
  - apply (Forall_forallb no_each); [|exact H].
    apply Forall_all. intros n Hn. apply no_each_generate, Hn.
Qed.

Lemma draws_same_collisions : same_collisions draws_a draws_b.
Proof.
  intros [|[|k]] [|[|k']]; split; intros H; try reflexivity;
    discriminate H.
Qed.

Lemma draws_a_ok (k : nat) : loopId_ok (draws_a k) = true.
Proof. destruct k as [|[|k]]; reflexivity. Qed.

Lemma draws_b_ok (k : nat) : loopId_ok (draws_b k) = true.
Proof. destruct k as [|[|k]]; reflexivity. Qed.




(** ** Reading and writing objects that share parts *)

Lemma heap_write_length (a : nat) (o : Heap.object) (h : Heap.heap) :
  List.length (Heap.write a o h) = List.length h.
Proof.
  revert a. induction h as [|o' h IH]; intros [|a]; cbn [Heap.write List.length];
    try reflexivity. rewrite IH. reflexivity.
Qed.

Lemma heap_write_same (a : nat) (o : Heap.object) (h : Heap.heap) :
  a < List.length h -> nth_error (Heap.write a o h) a = Some o.
Proof.
  revert a. induction h as [|o' h IH]; intros [|a] H; cbn [List.length] in H;
    cbn [Heap.write nth_error]; try lia; [reflexivity|]. apply IH. lia.
Qed.

Lemma heap_write_other (a a' : nat) (o : Heap.object) (h : Heap.heap) :
  a <> a' -> nth_error (Heap.write a o h) a' = nth_error h a'.
Proof.
  revert a a'. induction h as [|o' h IH]; intros [|a] [|a'] H;
    cbn [Heap.write nth_error]; try reflexivity; try congruence.
  apply IH. congruence.
Qed.

Lemma heap_update_same (key : string) (x : Heap.ref)
    (fields : list (string * Heap.ref)) :
  lookup key (Heap.update key x fields) = Some x.
Proof.
  induction fields as [|[k v] fields IH]; cbn [Heap.update lookup].
  - rewrite String.eqb_refl. reflexivity.
  - destruct (String.eqb k key) eqn:E; cbn [lookup]; rewrite E;
      [reflexivity | exact IH].
Qed.

Lemma heap_update_other (key other : string) (x : Heap.ref)
    (fields : list (string * Heap.ref)) :
  String.eqb key other = false ->
  lookup other (Heap.update key x fields) = lookup other fields.
Proof.
  intros Hne. induction fields as [|[k v] fields IH]; cbn [Heap.update lookup].
  - rewrite Hne. reflexivity.
  - destruct (String.eqb k key) eqn:E; cbn [lookup].
    + apply String.eqb_eq in E. subst k. rewrite Hne. reflexivity.
    + rewrite IH. reflexivity.
Qed.

Lemma heap_put_same (i : nat) (x : Heap.ref) :
  forall items, nth i (Heap.put i x items) Heap.RUndefined = x.
Proof.
  induction i as [|i IH]; intros [|y items]; cbn [Heap.put nth];
    try reflexivity; apply IH.
Qed.

Lemma index_is_not_length (key : string) (i : nat) :
  array_index key = Some i -> String.eqb key "length" = false.
Proof.
  intros H. destruct (String.eqb key "length") eqn:E; [|reflexivity].
  apply String.eqb_eq in E. subst key. discriminate H.
Qed.

(** An assignment changes one property of one object of the heap, or one
    array. *)
Lemma heap_set_prop (h h' : Heap.heap) (v : Heap.ref) (key : string)
    (x : Heap.ref) :
  Heap.set_prop h v key x = Ok h' ->
  exists a,
    v = Heap.RObject a
    /\ a < List.length h
    /\ List.length h' = List.length h
    /\ Heap.get_prop h' v key = Ok x
    /\ (forall a', a <> a' -> nth_error h' a' = nth_error h a')
    /\ forall s,
        meets h (a, key) s = false ->
        Heap.get_prop h' (Heap.RObject (fst s)) (snd s)
        = Heap.get_prop h (Heap.RObject (fst s)) (snd s).
Proof.
  destruct v as [| | b|n|s|a]; cbn [Heap.set_prop]; try discriminate;
    try (destruct (String.eqb key "__proto__"); discriminate).
  destruct (nth_error h a) as [[fields|items]|] eqn:Ha; try discriminate.
  - assert (Hlt : a < List.length h)
      by (apply nth_error_Some; rewrite Ha; discriminate).
    intros H.
    assert (E : h' = Heap.write a (Heap.Plain (Heap.update key x fields)) h).
    { destruct (lookup key fields).
      - injection H as <-. reflexivity.
      - destruct (String.eqb key "__proto__"); [discriminate H|].
        injection H as <-. reflexivity. }
    clear H. subst h'. exists a. split; [reflexivity|]. split; [exact Hlt|].
    split; [apply heap_write_length|].
    split.
    { cbn [Heap.get_prop]. rewrite (heap_write_same _ _ _ Hlt).
      rewrite heap_update_same. reflexivity. }
    split; [intros a' Hne; apply heap_write_other, Hne|].
    intros [a' k'] Hm. unfold meets, is_elements in Hm. cbn [fst snd] in *.
    rewrite Ha, orb_false_r in Hm. cbn [Heap.get_prop].
    destruct (Nat.eqb a a') eqn:Ea.
    + apply Nat.eqb_eq in Ea. subst a'. cbn [andb] in Hm.
      rewrite (heap_write_same _ _ _ Hlt), Ha.
      rewrite (heap_update_other _ _ _ _ Hm). reflexivity.
    + apply Nat.eqb_neq in Ea. rewrite (heap_write_other _ _ _ _ Ea).
      reflexivity.
  - assert (Hlt : a < List.length h)
      by (apply nth_error_Some; rewrite Ha; discriminate).
    destruct (array_index key) as [i|] eqn:Hi; [|discriminate].
    destruct (N.ltb (N.of_nat i) 4294967295); [|discriminate].
    intros H. injection H as <-. exists a. split; [reflexivity|].
    split; [exact Hlt|]. split; [apply heap_write_length|].
    split.
    { cbn [Heap.get_prop]. rewrite (heap_write_same _ _ _ Hlt).
      rewrite (index_is_not_length _ _ Hi), Hi, heap_put_same. reflexivity. }
    split; [intros a' Hne; apply heap_write_other, Hne|].
    intros [a' k'] Hm. unfold meets, is_elements in Hm. cbn [fst snd] in *.
    rewrite Ha, orb_true_r, andb_true_r in Hm. apply Nat.eqb_neq in Hm.
    cbn [Heap.get_prop]. rewrite (heap_write_other _ _ _ _ Hm). reflexivity.
Qed.

Lemma heap_get_prop_app (h : Heap.heap) (o : Heap.object) (a : nat)
    (key : string) :
  a < List.length h ->
  Heap.get_prop (h ++ [o]) (Heap.RObject a) key
  = Heap.get_prop h (Heap.RObject a) key.
Proof.
  intros H. cbn [Heap.get_prop]. rewrite nth_error_app1 by exact H.
  reflexivity.
Qed.

Lemma heap_get_prop_allocated (h : Heap.heap) (a : nat) (key : string)
    (v : Heap.ref) :
  Heap.get_prop h (Heap.RObject a) key = Ok v -> a < List.length h.
Proof.
  cbn [Heap.get_prop]. intros H. apply nth_error_Some.
  destruct (nth_error h a); [discriminate | discriminate H].
Qed.

(** A write that starts in a new, empty object leaves the other objects as
    they are. *)
Lemma heap_setValue_fresh (keys : list string) (lastKey : string)
    (x : Heap.ref) :
  forall h f h',
    nth_error h f = Some (Heap.Plain []) ->
    (r <- Heap.setValue_reduce keys (Heap.RObject f) h ;;
     Heap.set_prop (snd r) (fst r) lastKey x) = Ok h' ->
    forall a' k',
      a' <> f -> a' < List.length h ->
      Heap.get_prop h' (Heap.RObject a') k'
      = Heap.get_prop h (Heap.RObject a') k'.
Proof.
  induction keys as [|key keys IH]; intros h f h' Hf H a' k' Hne Hlt.
  - cbn [Heap.setValue_reduce bind fst snd] in H.
    apply heap_set_prop in H as [a [Ea [_ [_ [_ [_ Hframe]]]]]].
    injection Ea as <-.
    apply (Hframe (a', k')). unfold meets. cbn [fst snd].
    apply Nat.eqb_neq in Hne. rewrite Nat.eqb_sym, Hne. reflexivity.
  - cbn [Heap.setValue_reduce] in H.
    assert (Hg : Heap.get_prop h (Heap.RObject f) key
                 = if mem key object_prototype_names then Unmodelled
                   else Ok Heap.RUndefined).
    { cbn [Heap.get_prop]. rewrite Hf. reflexivity. }
    rewrite Hg in H. destruct (mem key object_prototype_names);
      [discriminate H|]. cbn [bind Heap.is_undefined] in H.
    destruct (Heap.set_prop (h ++ [Heap.Plain []]) (Heap.RObject f) key
                (Heap.RObject (List.length h))) as [h1| | |] eqn:Hs;
      cbn [bind] in H; try discriminate H.
    apply heap_set_prop in Hs
      as [a [Ea [Hfl [Hlen [Hback [Hother Hframe]]]]]].
    injection Ea as <-.
    assert (Hf' : f < List.length h)
      by (apply nth_error_Some; rewrite Hf; discriminate).
    rewrite Hback in H. cbn [bind] in H.
    assert (Hnew : nth_error h1 (List.length h) = Some (Heap.Plain [])).
    { rewrite Hother by lia. rewrite nth_error_app2 by lia.
      rewrite Nat.sub_diag. reflexivity. }
    assert (Hlt1 : a' < List.length h1)
      by (rewrite Hlen, length_app; cbn [List.length]; lia).
    rewrite (IH h1 (List.length h) h' Hnew H a' k' ltac:(lia) Hlt1).
    etransitivity; [apply (Hframe (a', k'))|apply heap_get_prop_app, Hlt].
    unfold meets. cbn [fst snd].
    apply Nat.eqb_neq in Hne. rewrite Nat.eqb_sym, Hne. reflexivity.
Qed.

Lemma written_slot_step (h : Heap.heap) (key : string) (keys : list string)
    (lastKey : string) (a : nat) :
  written_slot h (key :: keys ++ [lastKey]) (Heap.RObject a)
  = match Heap.get_prop h (Heap.RObject a) key with
    | Ok v =>
        if Heap.is_undefined v then Some (a, key)
        else written_slot h (keys ++ [lastKey]) v
    | _ => None
    end.
Proof.
  cbn [written_slot]. destruct (keys ++ [lastKey]) eqn:E; [|reflexivity].
  destruct keys; discriminate E.
Qed.

Lemma written_slot_of_object (h : Heap.heap) (keys : list string)
    (current : Heap.ref) (w : nat * string) :
  written_slot h keys current = Some w -> exists a, current = Heap.RObject a.
Proof.
  destruct keys as [|key keys]; [discriminate|].
  destruct current; try discriminate. intros _. eexists. reflexivity.
Qed.

(** The write assigns one property of the objects that are there. *)
Lemma heap_setValue_frame (keys : list string) (lastKey : string)
    (x : Heap.ref) :
  forall current h h',
    (r <- Heap.setValue_reduce keys current h ;;
     Heap.set_prop (snd r) (fst r) lastKey x) = Ok h' ->
    exists w,
      written_slot h (keys ++ [lastKey]) current = Some w
      /\ fst w < List.length h
      /\ forall s,
          fst s < List.length h ->
          meets h w s = false ->
          Heap.get_prop h' (Heap.RObject (fst s)) (snd s)
          = Heap.get_prop h (Heap.RObject (fst s)) (snd s).
Proof.
  induction keys as [|key keys IH]; intros current h h' H.
  - cbn [Heap.setValue_reduce bind fst snd] in H.
    apply heap_set_prop in H as [a [-> [Hlt [_ [_ [_ Hframe]]]]]].
    exists (a, lastKey). split; [reflexivity|]. split; [exact Hlt|].
    intros s _ Hm. apply Hframe, Hm.
  - cbn [Heap.setValue_reduce] in H.
    destruct (Heap.get_prop h current key) as [v| | |] eqn:Hg;
      cbn [bind] in H; try discriminate H.
    destruct (Heap.is_undefined v) eqn:Hu.
    + destruct (Heap.set_prop (h ++ [Heap.Plain []]) current key
                  (Heap.RObject (List.length h))) as [h1| | |] eqn:Hs;
        cbn [bind] in H; try discriminate H.
      apply heap_set_prop in Hs
        as [a [-> [_ [Hlen [Hback [Hother Hframe]]]]]].
      pose proof (heap_get_prop_allocated _ _ _ _ Hg) as Hlt.
      rewrite Hback in H. cbn [bind] in H.
      exists (a, key). cbn [app]. rewrite written_slot_step, Hg, Hu.
      split; [reflexivity|]. split; [exact Hlt|].
      intros [a' k'] Hs Hm. cbn [fst snd] in *.
      assert (Hnew : nth_error h1 (List.length h) = Some (Heap.Plain [])).
      { rewrite Hother by lia. rewrite nth_error_app2 by lia.
        rewrite Nat.sub_diag. reflexivity. }
      assert (Hlt1 : a' < List.length h1)
        by (rewrite Hlen, length_app; cbn [List.length]; lia).
      rewrite (heap_setValue_fresh keys lastKey x h1 (List.length h) h'
                 Hnew H a' k' ltac:(lia) Hlt1).
      etransitivity; [apply (Hframe (a', k'))|apply heap_get_prop_app, Hs].
      unfold meets, is_elements in *. cbn [fst snd] in *.
      rewrite nth_error_app1 by exact Hlt. exact Hm.
    + cbn [bind] in H. rewrite Hg in H. cbn [bind] in H.
      apply IH in H as [w [Hw [Hlt Hframe]]].
      destruct (written_slot_of_object _ _ _ _ Hw) as [b ->].
      exists w. split; [|split; [exact Hlt | exact Hframe]].
      destruct current as [| | b0|n|s|a];
        try (cbn [Heap.get_prop] in Hg; discriminate Hg);
        [cbn [Heap.get_prop] in Hg; destruct (String.eqb key "length");
         discriminate Hg|].
      cbn [app]. rewrite written_slot_step, Hg, Hu. exact Hw.
Qed.

(** A read that does not meet the write goes the way it went. *)
Lemma heap_reads_frame (h h' : Heap.heap) (w : nat * string) :
  (forall s,
      fst s < List.length h ->
      meets h w s = false ->
      Heap.get_prop h' (Heap.RObject (fst s)) (snd s)
      = Heap.get_prop h (Heap.RObject (fst s)) (snd s)) ->
  forall keys o,
    apart h w (reads h keys o) = true ->
    Heap.reduce (Heap.getValue_step h') keys o
    = Heap.reduce (Heap.getValue_step h) keys o.
Proof.
  intros Hframe. induction keys as [|key keys IH]; intros o Hap;
    [reflexivity|].
  cbn [reads] in Hap. unfold apart in Hap. rewrite forallb_app in Hap.
  apply andb_true_iff in Hap as [Hhead Hrest].
  assert (Hstep : Heap.getValue_step h' o key = Heap.getValue_step h o key).
  { destruct o as [| | b|n|s|a]; try reflexivity.
    cbn [List.forallb fst snd] in Hhead. rewrite andb_true_r in Hhead.
    apply andb_true_iff in Hhead as [Hlt Hm].
    apply Nat.ltb_lt in Hlt. apply negb_true_iff in Hm.
    pose proof (Hframe (a, key) Hlt Hm) as Hsame. cbn [fst snd] in Hsame.
    unfold Heap.getValue_step. rewrite Hsame. reflexivity. }
  cbn [Heap.reduce]. rewrite Hstep.
  destruct (Heap.getValue_step h o key) as [next| | |]; cbn [bind];
    try reflexivity.
  apply IH. exact Hrest.
Qed.

(** X19.  [_setValue] writes in place.  Of the objects that are there
    before the write it assigns one property of one object: the first
    property missing on the written path, where the new objects are hung,
    or else the last key in the target.  A [_getValue] from any object
    that reads properties of existing objects only, and neither that
    property nor, when the object written is an array, a property of that
    array, returns after the write what it returned before.  Where two
    properties hold one object, the write by one path shows in the read by
    the other: with [s = {b: 1}] and [o = {a: s, c: s}], writing 5 at
    [a.b] makes [c.b] read 5. *)
Theorem setValue_assigns_one_property :
  (forall h obj path x h',
      Heap._setValue h obj path x = Ok h' ->
      exists w,
        written_slot h (split_dot path) obj = Some w
        /\ fst w < List.length h
        /\ forall o other,
            apart h w (reads h (split_dot other) o) = true ->
            Heap._getValue h' o other = Heap._getValue h o other)
  /\ (exists h',
      Heap._setValue shared_heap (Heap.RObject 0) "a.b" (Heap.RNumber 5)
      = Ok h'
      /\ Heap._getValue shared_heap (Heap.RObject 0) "c.b"
         = Ok (Heap.RNumber 1)
      /\ Heap._getValue h' (Heap.RObject 0) "c.b" = Ok (Heap.RNumber 5)).
Proof.
  split.
  - intros h obj path x h' H. unfold Heap._setValue in H.
    apply heap_setValue_frame in H as [w [Hw [Hlt Hframe]]].
    rewrite split_dot_last in Hw.
    exists w. split; [exact Hw|]. split; [exact Hlt|].
    intros o other Hap. unfold Heap._getValue.
    apply (heap_reads_frame h h' w Hframe), Hap.
  - eexists. split; [vm_compute; reflexivity|].
    split; vm_compute; reflexivity.
Qed.

Lemma setValue_assigns_one_property_witness :
  Heap._setValue unshared_heap (Heap.RObject 0) "a.b" (Heap.RNumber 5)
  = Ok [Heap.Plain [("a", Heap.RObject 1); ("c", Heap.RObject 2)];
        Heap.Plain [("b", Heap.RNumber 5)];
        Heap.Plain [("b", Heap.RNumber 1)]]
  /\ apart unshared_heap (1, "b")
       (reads unshared_heap (split_dot "c.b") (Heap.RObject 0)) = true
  /\ Heap._getValue
       [Heap.Plain [("a", Heap.RObject 1); ("c", Heap.RObject 2)];
        Heap.Plain [("b", Heap.RNumber 5)];
        Heap.Plain [("b", Heap.RNumber 1)]] (Heap.RObject 0) "c.b"
     = Heap._getValue unshared_heap (Heap.RObject 0) "c.b".
Proof.
  split; [reflexivity|]. split; [reflexivity|].
  destruct (proj1 setValue_assigns_one_property unshared_heap
              (Heap.RObject 0) "a.b" (Heap.RNumber 5) _ eq_refl)
    as [w [Hw [_ Hframe]]].
  vm_compute in Hw. injection Hw as <-.
  exact (Hframe (Heap.RObject 0) "c.b" eq_refl).
Defined.
